(** * Incremental marking (src/heap/incremental-marking.cc)

    A shallow embedding of the incremental marker's controller: the write
    barrier, the left-trimming colour transfer, the marking visitor with its
    progress bar, map retention, incremental finalization, the worklist
    rewrite after a scavenge, the step scheduler and [Stop].

    Conventions.
    - A [HeapObject*] is its address ([Address], a [Z]); an [Object*] is a
      tagged value ([Object]).
    - C++ [int], [intptr_t] and [size_t] values are [Z]; where the source
      relies on unsigned wrap-around it is written out with [wrap_size_t].
    - [DCHECK]s are release-mode no-ops in the functions; where a property
      depends on one it appears as a hypothesis of the theorem.
    - The class declaration (incremental-marking.h), the mark-bit store
      (marking.h), the worklist and the collector (mark-compact.h) and the
      generic visitor (objects-visiting-inl.h) are not part of the sources;
      their definitions below are marked [Modelled from the spec]. *)

From Stdlib Require Import ZArith List Bool Lia.
Import ListNotations.
Open Scope Z_scope.

Set Primitive Projections.

(* ------------------------------------------------------------------ *)
(** ** Values and flags *)

Definition Address := Z.

(** An [Object*]: a small integer or a pointer to a heap object. *)
Inductive Object :=
| Smi (value : Z)
| HeapPointer (address : Address).

Definition IsHeapObject (o : Object) : bool :=
  match o with HeapPointer _ => true | Smi _ => false end.

(** [HeapObject::cast]; the source only casts after [IsHeapObject]. *)
Definition HeapObject_cast (o : Object) : Address :=
  match o with HeapPointer a => a | Smi n => n end.

Definition Object_eqb (a b : Object) : bool :=
  match a, b with
  | Smi x, Smi y => x =? y
  | HeapPointer x, HeapPointer y => x =? y
  | _, _ => false
  end.

(** Build-time macros, runtime flags and constants of headers that the
    functions of this file read. *)
Record Flags := mkFlags {
  V8_CONCURRENT_MARKING : bool;
  FLAG_concurrent_marking : bool;
  FLAG_incremental_marking : bool;
  FLAG_incremental_marking_wrappers : bool;
  FLAG_black_allocation : bool;
  FLAG_never_compact : bool;
  FLAG_concurrent_sweeping : bool;
  FLAG_retain_maps_for_n_gc : Z;
  FLAG_max_incremental_marking_finalization_rounds : Z;
  FLAG_min_progress_during_incremental_marking_finalization : Z;
  kPointerSize : Z;
  kPageSize : Z;
  FixedArray_kStartOffset : Z;
  NORMALIZED_MAP_CACHE_offset : Z;
  kAllocatedThreshold : Z;
  kMaxIdleMarkingDelayCounter : Z
}.

Definition kProgressBarScanningChunk : Z := 32 * 1024.

Definition size_t_modulus : Z := 2 ^ 64.
Definition wrap_size_t (n : Z) : Z := n mod size_t_modulus.

(** A value stored in an [int] ([static_cast<int>] of a [size_t], the
    result of [int] arithmetic): two's complement on 32 bits. *)
Definition to_int (n : Z) : Z := (n + 2 ^ 31) mod 2 ^ 32 - 2 ^ 31.

(** A [size_t] passed where an [intptr_t] is expected. *)
Definition to_intptr (n : Z) : Z := (n + 2 ^ 63) mod 2 ^ 64 - 2 ^ 63.

(* ------------------------------------------------------------------ *)
(** ** The mark-bit store *)

Module Marking.

(** Modelled from the spec: the mark-bit store of marking.h (section 4.1):
    a bitmap with one bit per word, an object's colour being the bit of its
    first word and the next one: White 00, Grey 10, Black 11, and 01
    impossible. *)
Definition Bitmap := Z -> bool.
Definition MarkBit := Z.

Inductive Color := White | Grey | Black | Impossible.

Definition Get (b : Bitmap) (m : MarkBit) : bool := b m.
Definition Next (m : MarkBit) : MarkBit := m + 1.
Definition SetBit (m : MarkBit) (b : Bitmap) : Bitmap :=
  fun i => if i =? m then true else b i.
Definition ClearBit (m : MarkBit) (b : Bitmap) : Bitmap :=
  fun i => if i =? m then false else b i.

Definition color (b : Bitmap) (m : MarkBit) : Color :=
  match Get b m, Get b (Next m) with
  | false, false => White
  | true, false => Grey
  | true, true => Black
  | false, true => Impossible
  end.

Definition IsWhite (b : Bitmap) (m : MarkBit) : bool :=
  negb (Get b m) && negb (Get b (Next m)).
Definition IsGrey (b : Bitmap) (m : MarkBit) : bool :=
  Get b m && negb (Get b (Next m)).
Definition IsBlack (b : Bitmap) (m : MarkBit) : bool :=
  Get b m && Get b (Next m).
Definition IsImpossible (b : Bitmap) (m : MarkBit) : bool :=
  negb (Get b m) && Get b (Next m).

(** First bit 0 -> 1 while the second stays 0. *)
Definition WhiteToGrey (m : MarkBit) (b : Bitmap) : bool * Bitmap :=
  if IsWhite b m then (true, SetBit m b) else (false, b).

(** Second bit 0 -> 1 when the first is 1. *)
Definition GreyToBlack (m : MarkBit) (b : Bitmap) : bool * Bitmap :=
  if IsGrey b m then (true, SetBit (Next m) b) else (false, b).

(** White to Grey, then Grey to Black; true iff both succeeded. *)
Definition WhiteToBlack (m : MarkBit) (b : Bitmap) : bool * Bitmap :=
  let (ok1, b1) := WhiteToGrey m b in
  let (ok2, b2) := GreyToBlack m b1 in
  (ok1 && ok2, b2).

(** Second bit 1 -> 0. *)
Definition BlackToGrey (m : MarkBit) (b : Bitmap) : bool * Bitmap :=
  if IsBlack b m then (true, ClearBit (Next m) b) else (false, b).

End Marking.

(* ------------------------------------------------------------------ *)
(** ** The marking worklist *)

Module MarkingWorklist.

(** Modelled from the spec: the worklist of mark-compact.h (section 4.2):
    a stack of grey objects with a bailout stack that is drained first.
    [Push] may fail when the worklist is full; [capacity = None] is the
    logically unbounded queue. The head of a list is the top of the stack. *)
Record t := mk {
  shared : list Address;
  bailout : list Address;
  capacity : option nat
}.

Definition IsFull (wl : t) : bool :=
  match capacity wl with
  | Some c => (c <=? length (shared wl))%nat
  | None => false
  end.

Definition Push (o : Address) (wl : t) : bool * t :=
  if IsFull wl then (false, wl)
  else (true, mk (o :: shared wl) (bailout wl) (capacity wl)).

Definition PushBailout (o : Address) (wl : t) : t :=
  mk (shared wl) (o :: bailout wl) (capacity wl).

Definition Pop (wl : t) : option Address * t :=
  match bailout wl with
  | o :: rest => (Some o, mk (shared wl) rest (capacity wl))
  | [] =>
    match shared wl with
    | o :: rest => (Some o, mk rest [] (capacity wl))
    | [] => (None, wl)
    end
  end.

Definition entries (wl : t) : list Address := bailout wl ++ shared wl.

Definition IsEmpty (wl : t) : bool :=
  match entries wl with [] => true | _ :: _ => false end.

Definition Size (wl : t) : Z := Z.of_nat (length (entries wl)).

Fixpoint filter_map (f : Address -> option Address) (l : list Address)
  : list Address :=
  match l with
  | [] => []
  | o :: rest =>
    match f o with
    | Some o' => o' :: filter_map f rest
    | None => filter_map f rest
    end
  end.

(** [Update(callback)]: every entry is replaced by the callback's output,
    or removed when the callback returns false. *)
Definition Update (f : Address -> option Address) (wl : t) : t :=
  mk (filter_map f (shared wl)) (filter_map f (bailout wl)) (capacity wl).

Definition StartUsing (wl : t) : t := mk [] [] (capacity wl).

End MarkingWorklist.

(* ------------------------------------------------------------------ *)
(** ** Heap objects, chunks and collaborators *)

Inductive MapWord :=
| ToMap (map : Address)
| ForwardingAddress (dest : Address).

Definition IsForwardingAddress (mw : MapWord) : bool :=
  match mw with ForwardingAddress _ => true | ToMap _ => false end.
Definition ToForwardingAddress (mw : MapWord) : Address :=
  match mw with ForwardingAddress d => d | ToMap m => m end.
Definition MapWord_map (mw : MapWord) : Address :=
  match mw with ToMap m => m | ForwardingAddress d => d end.

(** What the visitor's dispatch and the type tests read from an object's
    map. *)
Inductive InstanceKind :=
| FILLER_KIND
| FIXED_ARRAY_KIND
| NATIVE_CONTEXT_KIND
| OTHER_KIND.

Definition InstanceKind_eqb (a b : InstanceKind) : bool :=
  match a, b with
  | FILLER_KIND, FILLER_KIND => true
  | FIXED_ARRAY_KIND, FIXED_ARRAY_KIND => true
  | NATIVE_CONTEXT_KIND, NATIVE_CONTEXT_KIND => true
  | OTHER_KIND, OTHER_KIND => true
  | _, _ => false
  end.

Record HeapObjectData := mkObject {
  map_word : MapWord;
  instance_kind : InstanceKind;
  SizeFromMap : Z;          (* obj->SizeFromMap(map), BodyDescriptor::SizeOf *)
  body_start : Z;           (* BodyDescriptor's first pointer offset *)
  GetConstructor : Object;  (* of a Map *)
  prototype : Object        (* of a Map *)
}.

Record MemoryChunk := mkChunk {
  HAS_PROGRESS_BAR : bool;
  SWEEP_TO_ITERATE : bool;
  IN_FROM_SPACE : bool;
  IN_TO_SPACE : bool;
  POINTERS_TO_HERE_ARE_INTERESTING : bool;
  POINTERS_FROM_HERE_ARE_INTERESTING : bool;
  progress_bar : Z;
  owner_is_LO_SPACE : bool
}.

Inductive AllocationSpace :=
| NEW_SPACE | OLD_SPACE | CODE_SPACE | MAP_SPACE | LO_SPACE.

Definition AllocationSpace_eqb (a b : AllocationSpace) : bool :=
  match a, b with
  | NEW_SPACE, NEW_SPACE | OLD_SPACE, OLD_SPACE | CODE_SPACE, CODE_SPACE
  | MAP_SPACE, MAP_SPACE | LO_SPACE, LO_SPACE => true
  | _, _ => false
  end.

(** The spaces a [SpaceIterator] yields. *)
Definition all_spaces : list AllocationSpace :=
  [NEW_SPACE; OLD_SPACE; CODE_SPACE; MAP_SPACE; LO_SPACE].

Inductive Observer := new_generation_observer_ | old_generation_observer_.

Definition Observer_eqb (a b : Observer) : bool :=
  match a, b with
  | new_generation_observer_, new_generation_observer_ => true
  | old_generation_observer_, old_generation_observer_ => true
  | _, _ => false
  end.

(** [RecordWriteStub::Mode]. *)
Inductive Mode := STORE_BUFFER_ONLY | INCREMENTAL | INCREMENTAL_COMPACTION.

(** An entry of the code-stubs dictionary: its key (if the slot holds one,
    whether its major key is [CodeStub::RecordWrite]) and its value (a
    [Code] object in some mode, or something else). *)
Inductive StubKey := NotAKey | MajorKey (is_RecordWrite : bool).
Inductive StubValue := Code (mode : Mode) | NotCode.
Definition DictionaryEntry := (StubKey * StubValue)%type.

(** A retained-maps pair: the weak cell ([None] when cleared) and the age.
    Pair number [k] occupies the array indices [2k] and [2k+1]. *)
Definition WeakCell := option Address.

(** Calls to collaborators whose state is outside this file. *)
Inductive Notification :=
| TracePrologue
| RegisterWrappersWithRemoteTracer
| NotifyV8MarkingWorklistWasEmpty
| ScheduleTasks
| RescheduleTasksIfNeeded
| MarkCompactPrologue
| NotifyIncrementalMarkingStart
| AddIncrementalMarkingStep (bytes : Z)
| MarkAllocationInfoBlack (space : AllocationSpace)
| UnmarkAllocationInfo (space : AllocationSpace)
| EnsureSweepingCompleted
| EmbedderTrace
| IncrementalMarkingJobStart.

(** What a call reads from the heap and never writes. *)
Record HeapLayout := mkLayout {
  flags : Flags;
  object_at : Address -> HeapObjectData;
  load : Address -> Object;                (* the contents of a slot *)
  external_marking : Marking.Bitmap;       (* MarkingState::External *)
  pages : AllocationSpace -> list Z;
  strong_roots : list Object;
  native_contexts_list : list Address;
  number_of_disposed_maps_ : Z;
  one_pointer_filler_map : Address;
  undefined_value : Address;
  gc_state_is_NOT_IN_GC : bool;
  always_allocate : bool;
  ShouldReduceMemory : bool;
  ShouldAbortIncrementalMarking : bool;
  serializer_enabled : bool;
  deserialization_complete : bool;
  AreSweeperTasksRunning : bool;
  StartCompaction : bool;                  (* what StartCompaction() answers *)
  NumberOfCachedWrappersToTrace : Z;
  ShouldFinalizeIncrementalMarking : bool;
  embedder_InUse : bool;
  OldGenerationAllocationCounter : Z;
  PromotedSpaceSizeOfObjects : Z;
  IsCloseToOutOfMemory : bool;
  (* static_cast<size_t>(Min(time_passed_ms / 300, 1.0) * step_size): the
     floating-point ramp-up, as a function of step_size *)
  ramp_up : Z -> Z;
  (* GCIdleTimeHandler::EstimateMarkingStepSize(kMaxStepSizeInMs, speed) *)
  max_step_size : Z;
  (* GCIdleTimeHandler::EstimateMarkingStepSize(kStepSizeInMs, speed) *)
  step_size_in_bytes : Z
}.

(** What a call may write outside the controller's own fields. *)
Record HeapState := mkHeapState {
  internal_marking : Marking.Bitmap;       (* MarkingState::Internal *)
  marking_worklist : MarkingWorklist.t;
  chunk_at : Z -> MemoryChunk;
  recorded_slots : list (Address * Address * Address);
  recorded_reloc_slots : list (Address * Address * Address);
  retained_maps : list (WeakCell * Z);
  code_stubs : list DictionaryEntry;
  allocation_observers : AllocationSpace -> list Observer;
  gc_requested : bool;                     (* the stack guard's GC request *)
  sweeping_in_progress : bool;
  notifications : list Notification
}.

Inductive State := STOPPED | SWEEPING | MARKING | COMPLETE.
Inductive RequestType := NONE | FINALIZATION | COMPLETE_MARKING.
Inductive CompletionAction := GC_VIA_STACK_GUARD | NO_GC_VIA_STACK_GUARD.
Inductive ForceCompletionAction := FORCE_COMPLETION | DO_NOT_FORCE_COMPLETION.
Inductive StepOrigin := kV8 | kTask.

Definition State_rank (s : State) : Z :=
  match s with STOPPED => 0 | SWEEPING => 1 | MARKING => 2 | COMPLETE => 3 end.

Definition State_eqb (a b : State) : bool := State_rank a =? State_rank b.

(** The fields of [class IncrementalMarking] ([start_time_ms_] is only read
    by the floating-point ramp-up, see [ramp_up]). *)
Record IncrementalMarking := mkIM {
  state_ : State;
  is_compacting_ : bool;
  should_hurry_ : bool;
  was_activated_ : bool;
  black_allocation_ : bool;
  finalize_marking_completed_ : bool;
  trace_wrappers_toggle_ : bool;
  request_type_ : RequestType;
  initial_old_generation_size_ : Z;
  old_generation_allocation_counter_ : Z;
  bytes_allocated_ : Z;
  bytes_marked_ahead_of_schedule_ : Z;
  unscanned_bytes_of_large_object_ : Z;
  idle_marking_delay_counter_ : Z;
  incremental_marking_finalization_rounds_ : Z
}.

Record World := mkWorld {
  heap_ : HeapLayout;
  gc : HeapState;
  im : IncrementalMarking
}.

(* ------------------------------------------------------------------ *)
(** ** Field updates *)

Definition with_gc (f : HeapState -> HeapState) (w : World) : World :=
  mkWorld (heap_ w) (f (gc w)) (im w).

Definition with_im (f : IncrementalMarking -> IncrementalMarking) (w : World)
  : World :=
  mkWorld (heap_ w) (gc w) (f (im w)).

Definition set_internal_marking (b : Marking.Bitmap) : World -> World :=
  with_gc (fun g => mkHeapState b (marking_worklist g) (chunk_at g)
    (recorded_slots g) (recorded_reloc_slots g) (retained_maps g)
    (code_stubs g) (allocation_observers g) (gc_requested g)
    (sweeping_in_progress g) (notifications g)).

Definition set_marking_worklist (wl : MarkingWorklist.t) : World -> World :=
  with_gc (fun g => mkHeapState (internal_marking g) wl (chunk_at g)
    (recorded_slots g) (recorded_reloc_slots g) (retained_maps g)
    (code_stubs g) (allocation_observers g) (gc_requested g)
    (sweeping_in_progress g) (notifications g)).

Definition set_chunk_at (c : Z -> MemoryChunk) : World -> World :=
  with_gc (fun g => mkHeapState (internal_marking g) (marking_worklist g) c
    (recorded_slots g) (recorded_reloc_slots g) (retained_maps g)
    (code_stubs g) (allocation_observers g) (gc_requested g)
    (sweeping_in_progress g) (notifications g)).

Definition set_recorded_slots (l : list (Address * Address * Address))
  : World -> World :=
  with_gc (fun g => mkHeapState (internal_marking g) (marking_worklist g)
    (chunk_at g) l (recorded_reloc_slots g) (retained_maps g)
    (code_stubs g) (allocation_observers g) (gc_requested g)
    (sweeping_in_progress g) (notifications g)).

Definition set_recorded_reloc_slots (l : list (Address * Address * Address))
  : World -> World :=
  with_gc (fun g => mkHeapState (internal_marking g) (marking_worklist g)
    (chunk_at g) (recorded_slots g) l (retained_maps g)
    (code_stubs g) (allocation_observers g) (gc_requested g)
    (sweeping_in_progress g) (notifications g)).

Definition set_retained_maps (l : list (WeakCell * Z)) : World -> World :=
  with_gc (fun g => mkHeapState (internal_marking g) (marking_worklist g)
    (chunk_at g) (recorded_slots g) (recorded_reloc_slots g) l
    (code_stubs g) (allocation_observers g) (gc_requested g)
    (sweeping_in_progress g) (notifications g)).

Definition set_code_stubs (l : list DictionaryEntry) : World -> World :=
  with_gc (fun g => mkHeapState (internal_marking g) (marking_worklist g)
    (chunk_at g) (recorded_slots g) (recorded_reloc_slots g)
    (retained_maps g) l (allocation_observers g) (gc_requested g)
    (sweeping_in_progress g) (notifications g)).

Definition set_allocation_observers (o : AllocationSpace -> list Observer)
  : World -> World :=
  with_gc (fun g => mkHeapState (internal_marking g) (marking_worklist g)
    (chunk_at g) (recorded_slots g) (recorded_reloc_slots g)
    (retained_maps g) (code_stubs g) o (gc_requested g)
    (sweeping_in_progress g) (notifications g)).

Definition set_gc_requested (v : bool) : World -> World :=
  with_gc (fun g => mkHeapState (internal_marking g) (marking_worklist g)
    (chunk_at g) (recorded_slots g) (recorded_reloc_slots g)
    (retained_maps g) (code_stubs g) (allocation_observers g) v
    (sweeping_in_progress g) (notifications g)).

Definition set_sweeping_in_progress (v : bool) : World -> World :=
  with_gc (fun g => mkHeapState (internal_marking g) (marking_worklist g)
    (chunk_at g) (recorded_slots g) (recorded_reloc_slots g)
    (retained_maps g) (code_stubs g) (allocation_observers g)
    (gc_requested g) v (notifications g)).

Definition notify (n : Notification) : World -> World :=
  with_gc (fun g => mkHeapState (internal_marking g) (marking_worklist g)
    (chunk_at g) (recorded_slots g) (recorded_reloc_slots g)
    (retained_maps g) (code_stubs g) (allocation_observers g)
    (gc_requested g) (sweeping_in_progress g) (n :: notifications g)).

Definition set_state_ (v : State) : World -> World :=
  with_im (fun i => mkIM v (is_compacting_ i) (should_hurry_ i)
    (was_activated_ i) (black_allocation_ i) (finalize_marking_completed_ i)
    (trace_wrappers_toggle_ i) (request_type_ i)
    (initial_old_generation_size_ i) (old_generation_allocation_counter_ i)
    (bytes_allocated_ i) (bytes_marked_ahead_of_schedule_ i)
    (unscanned_bytes_of_large_object_ i) (idle_marking_delay_counter_ i)
    (incremental_marking_finalization_rounds_ i)).

Definition set_is_compacting_ (v : bool) : World -> World :=
  with_im (fun i => mkIM (state_ i) v (should_hurry_ i)
    (was_activated_ i) (black_allocation_ i) (finalize_marking_completed_ i)
    (trace_wrappers_toggle_ i) (request_type_ i)
    (initial_old_generation_size_ i) (old_generation_allocation_counter_ i)
    (bytes_allocated_ i) (bytes_marked_ahead_of_schedule_ i)
    (unscanned_bytes_of_large_object_ i) (idle_marking_delay_counter_ i)
    (incremental_marking_finalization_rounds_ i)).

Definition set_should_hurry (v : bool) : World -> World :=
  with_im (fun i => mkIM (state_ i) (is_compacting_ i) v
    (was_activated_ i) (black_allocation_ i) (finalize_marking_completed_ i)
    (trace_wrappers_toggle_ i) (request_type_ i)
    (initial_old_generation_size_ i) (old_generation_allocation_counter_ i)
    (bytes_allocated_ i) (bytes_marked_ahead_of_schedule_ i)
    (unscanned_bytes_of_large_object_ i) (idle_marking_delay_counter_ i)
    (incremental_marking_finalization_rounds_ i)).

Definition set_was_activated_ (v : bool) : World -> World :=
  with_im (fun i => mkIM (state_ i) (is_compacting_ i) (should_hurry_ i)
    v (black_allocation_ i) (finalize_marking_completed_ i)
    (trace_wrappers_toggle_ i) (request_type_ i)
    (initial_old_generation_size_ i) (old_generation_allocation_counter_ i)
    (bytes_allocated_ i) (bytes_marked_ahead_of_schedule_ i)
    (unscanned_bytes_of_large_object_ i) (idle_marking_delay_counter_ i)
    (incremental_marking_finalization_rounds_ i)).

Definition set_black_allocation_ (v : bool) : World -> World :=
  with_im (fun i => mkIM (state_ i) (is_compacting_ i) (should_hurry_ i)
    (was_activated_ i) v (finalize_marking_completed_ i)
    (trace_wrappers_toggle_ i) (request_type_ i)
    (initial_old_generation_size_ i) (old_generation_allocation_counter_ i)
    (bytes_allocated_ i) (bytes_marked_ahead_of_schedule_ i)
    (unscanned_bytes_of_large_object_ i) (idle_marking_delay_counter_ i)
    (incremental_marking_finalization_rounds_ i)).

Definition set_finalize_marking_completed_ (v : bool) : World -> World :=
  with_im (fun i => mkIM (state_ i) (is_compacting_ i) (should_hurry_ i)
    (was_activated_ i) (black_allocation_ i) v
    (trace_wrappers_toggle_ i) (request_type_ i)
    (initial_old_generation_size_ i) (old_generation_allocation_counter_ i)
    (bytes_allocated_ i) (bytes_marked_ahead_of_schedule_ i)
    (unscanned_bytes_of_large_object_ i) (idle_marking_delay_counter_ i)
    (incremental_marking_finalization_rounds_ i)).

Definition set_trace_wrappers_toggle_ (v : bool) : World -> World :=
  with_im (fun i => mkIM (state_ i) (is_compacting_ i) (should_hurry_ i)
    (was_activated_ i) (black_allocation_ i) (finalize_marking_completed_ i)
    v (request_type_ i)
    (initial_old_generation_size_ i) (old_generation_allocation_counter_ i)
    (bytes_allocated_ i) (bytes_marked_ahead_of_schedule_ i)
    (unscanned_bytes_of_large_object_ i) (idle_marking_delay_counter_ i)
    (incremental_marking_finalization_rounds_ i)).

Definition set_request_type_ (v : RequestType) : World -> World :=
  with_im (fun i => mkIM (state_ i) (is_compacting_ i) (should_hurry_ i)
    (was_activated_ i) (black_allocation_ i) (finalize_marking_completed_ i)
    (trace_wrappers_toggle_ i) v
    (initial_old_generation_size_ i) (old_generation_allocation_counter_ i)
    (bytes_allocated_ i) (bytes_marked_ahead_of_schedule_ i)
    (unscanned_bytes_of_large_object_ i) (idle_marking_delay_counter_ i)
    (incremental_marking_finalization_rounds_ i)).

Definition set_initial_old_generation_size_ (v : Z) : World -> World :=
  with_im (fun i => mkIM (state_ i) (is_compacting_ i) (should_hurry_ i)
    (was_activated_ i) (black_allocation_ i) (finalize_marking_completed_ i)
    (trace_wrappers_toggle_ i) (request_type_ i)
    v (old_generation_allocation_counter_ i)
    (bytes_allocated_ i) (bytes_marked_ahead_of_schedule_ i)
    (unscanned_bytes_of_large_object_ i) (idle_marking_delay_counter_ i)
    (incremental_marking_finalization_rounds_ i)).

Definition set_old_generation_allocation_counter_ (v : Z) : World -> World :=
  with_im (fun i => mkIM (state_ i) (is_compacting_ i) (should_hurry_ i)
    (was_activated_ i) (black_allocation_ i) (finalize_marking_completed_ i)
    (trace_wrappers_toggle_ i) (request_type_ i)
    (initial_old_generation_size_ i) v
    (bytes_allocated_ i) (bytes_marked_ahead_of_schedule_ i)
    (unscanned_bytes_of_large_object_ i) (idle_marking_delay_counter_ i)
    (incremental_marking_finalization_rounds_ i)).

Definition set_bytes_allocated_ (v : Z) : World -> World :=
  with_im (fun i => mkIM (state_ i) (is_compacting_ i) (should_hurry_ i)
    (was_activated_ i) (black_allocation_ i) (finalize_marking_completed_ i)
    (trace_wrappers_toggle_ i) (request_type_ i)
    (initial_old_generation_size_ i) (old_generation_allocation_counter_ i)
    v (bytes_marked_ahead_of_schedule_ i)
    (unscanned_bytes_of_large_object_ i) (idle_marking_delay_counter_ i)
    (incremental_marking_finalization_rounds_ i)).

Definition set_bytes_marked_ahead_of_schedule_ (v : Z) : World -> World :=
  with_im (fun i => mkIM (state_ i) (is_compacting_ i) (should_hurry_ i)
    (was_activated_ i) (black_allocation_ i) (finalize_marking_completed_ i)
    (trace_wrappers_toggle_ i) (request_type_ i)
    (initial_old_generation_size_ i) (old_generation_allocation_counter_ i)
    (bytes_allocated_ i) v
    (unscanned_bytes_of_large_object_ i) (idle_marking_delay_counter_ i)
    (incremental_marking_finalization_rounds_ i)).

Definition set_unscanned_bytes_of_large_object_ (v : Z) : World -> World :=
  with_im (fun i => mkIM (state_ i) (is_compacting_ i) (should_hurry_ i)
    (was_activated_ i) (black_allocation_ i) (finalize_marking_completed_ i)
    (trace_wrappers_toggle_ i) (request_type_ i)
    (initial_old_generation_size_ i) (old_generation_allocation_counter_ i)
    (bytes_allocated_ i) (bytes_marked_ahead_of_schedule_ i)
    v (idle_marking_delay_counter_ i)
    (incremental_marking_finalization_rounds_ i)).

Definition set_idle_marking_delay_counter_ (v : Z) : World -> World :=
  with_im (fun i => mkIM (state_ i) (is_compacting_ i) (should_hurry_ i)
    (was_activated_ i) (black_allocation_ i) (finalize_marking_completed_ i)
    (trace_wrappers_toggle_ i) (request_type_ i)
    (initial_old_generation_size_ i) (old_generation_allocation_counter_ i)
    (bytes_allocated_ i) (bytes_marked_ahead_of_schedule_ i)
    (unscanned_bytes_of_large_object_ i) v
    (incremental_marking_finalization_rounds_ i)).

Definition set_incremental_marking_finalization_rounds_ (v : Z)
  : World -> World :=
  with_im (fun i => mkIM (state_ i) (is_compacting_ i) (should_hurry_ i)
    (was_activated_ i) (black_allocation_ i) (finalize_marking_completed_ i)
    (trace_wrappers_toggle_ i) (request_type_ i)
    (initial_old_generation_size_ i) (old_generation_allocation_counter_ i)
    (bytes_allocated_ i) (bytes_marked_ahead_of_schedule_ i)
    (unscanned_bytes_of_large_object_ i) (idle_marking_delay_counter_ i) v).

(* ------------------------------------------------------------------ *)
(** ** Accessors of the class declaration and of collaborators *)

(** The flags a world runs under. *)
Abbreviation fl w := (flags (heap_ w)) (only parsing).

(** Modelled from the spec: the inline state tests of incremental-marking.h.
    The states are ordered STOPPED < SWEEPING < MARKING < COMPLETE and
    marking is active from MARKING on. *)
Definition IsStopped (w : World) : bool := State_eqb (state_ (im w)) STOPPED.
Definition IsMarking (w : World) : bool :=
  State_rank MARKING <=? State_rank (state_ (im w)).
Definition IsComplete (w : World) : bool := State_eqb (state_ (im w)) COMPLETE.

Definition SetState (s : State) (w : World) : World := set_state_ s w.

(** Modelled from the spec: [RestartIfNotMarking] of incremental-marking.h:
    marking that is paused mid-cycle (COMPLETE) resumes stepping. *)
Definition RestartIfNotMarking (w : World) : World :=
  if State_eqb (state_ (im w)) COMPLETE then set_state_ MARKING w else w.

(** Modelled from the spec: [NotifyIncompleteScanOfObject] of
    incremental-marking.h reports the unscanned bytes to the controller. *)
Definition NotifyIncompleteScanOfObject (unscanned_bytes : Z) (w : World)
  : World :=
  set_unscanned_bytes_of_large_object_ unscanned_bytes w.

(** [MemoryChunk::FromAddress]: the chunk an address lies on. *)
Definition FromAddress (w : World) (a : Address) : Z := a / kPageSize (fl w).

Definition chunk_of (w : World) (a : Address) : MemoryChunk :=
  chunk_at (gc w) (FromAddress w a).

Definition InFromSpace (w : World) (obj : Address) : bool :=
  IN_FROM_SPACE (chunk_of w obj).
Definition InToSpace (w : World) (obj : Address) : bool :=
  IN_TO_SPACE (chunk_of w obj).

Definition set_progress_bar (chunk : Z) (v : Z) (w : World) : World :=
  set_chunk_at
    (fun c =>
       if c =? chunk then
         let k := chunk_at (gc w) c in
         mkChunk (HAS_PROGRESS_BAR k) (SWEEP_TO_ITERATE k) (IN_FROM_SPACE k)
           (IN_TO_SPACE k) (POINTERS_TO_HERE_ARE_INTERESTING k)
           (POINTERS_FROM_HERE_ARE_INTERESTING k) v (owner_is_LO_SPACE k)
       else chunk_at (gc w) c) w.

(** [SetFlag]/[ClearFlag] of the two write-barrier flags of one chunk. *)
Definition set_interesting (chunk : Z) (to_here from_here : bool) (w : World)
  : World :=
  set_chunk_at
    (fun c =>
       if c =? chunk then
         let k := chunk_at (gc w) c in
         mkChunk (HAS_PROGRESS_BAR k) (SWEEP_TO_ITERATE k) (IN_FROM_SPACE k)
           (IN_TO_SPACE k) to_here from_here (progress_bar k)
           (owner_is_LO_SPACE k)
       else chunk_at (gc w) c) w.

(** [ObjectMarking::MarkBitFrom]: the mark bit of an object's first word. *)
Definition MarkBitFrom (w : World) (obj : Address) : Marking.MarkBit :=
  obj / kPointerSize (fl w).

Module ObjectMarking.

(** The object-level operations are the mark-bit operations at the object's
    mark bit, on the internal marking state ([marking_state(obj)]). *)
Definition IsWhite (obj : Address) (w : World) : bool :=
  Marking.IsWhite (internal_marking (gc w)) (MarkBitFrom w obj).
Definition IsGrey (obj : Address) (w : World) : bool :=
  Marking.IsGrey (internal_marking (gc w)) (MarkBitFrom w obj).
Definition IsBlack (obj : Address) (w : World) : bool :=
  Marking.IsBlack (internal_marking (gc w)) (MarkBitFrom w obj).
Definition IsImpossible (obj : Address) (w : World) : bool :=
  Marking.IsImpossible (internal_marking (gc w)) (MarkBitFrom w obj).

(** On [MarkingState::External(obj)]. *)
Definition IsGreyExternal (obj : Address) (w : World) : bool :=
  Marking.IsGrey (external_marking (heap_ w)) (MarkBitFrom w obj).

Definition lift (op : Marking.MarkBit -> Marking.Bitmap -> bool * Marking.Bitmap)
  (obj : Address) (w : World) : bool * World :=
  let r := op (MarkBitFrom w obj) (internal_marking (gc w)) in
  (fst r, set_internal_marking (snd r) w).

Definition WhiteToGrey := lift Marking.WhiteToGrey.
Definition GreyToBlack := lift Marking.GreyToBlack.
Definition WhiteToBlack := lift Marking.WhiteToBlack.
Definition BlackToGrey := lift Marking.BlackToGrey.

End ObjectMarking.

(** [marking_worklist()->Push(obj)] with its result. *)
Definition Push (obj : Address) (w : World) : bool * World :=
  let r := MarkingWorklist.Push obj (marking_worklist (gc w)) in
  (fst r, set_marking_worklist (snd r) w).

Definition PushBailout (obj : Address) (w : World) : World :=
  set_marking_worklist
    (MarkingWorklist.PushBailout obj (marking_worklist (gc w))) w.

(** Modelled from the spec: [MarkCompactCollector::RecordSlot] registers
    the slot with the compacting collector (most recent first). *)
Definition RecordSlot (host slot : Address) (value : Object) (w : World)
  : World :=
  set_recorded_slots
    ((host, slot, HeapObject_cast value) :: recorded_slots (gc w)) w.

Definition RecordRelocSlot (host rinfo : Address) (value : Object) (w : World)
  : World :=
  set_recorded_reloc_slots
    ((host, rinfo, HeapObject_cast value) :: recorded_reloc_slots (gc w)) w.

(** Modelled from the spec: [MarkCompactCollector::PushBlack]: a push that
    fails on a full worklist falls back to [BlackToGrey] (section 4.2). *)
Definition PushBlack (obj : Address) (w : World) : World :=
  let (ok, w1) := Push obj w in
  if ok then w1 else snd (ObjectMarking.BlackToGrey obj w1).

(* ------------------------------------------------------------------ *)
(** ** The write barrier *)

Definition WhiteToGreyAndPush (obj : Address) (w : World) : bool * World :=
  let (ok, w1) := ObjectMarking.WhiteToGrey obj w in
  if ok then (true, snd (Push obj w1)) else (false, w1).

Definition BaseRecordWrite (obj : Address) (value : Object) (w : World)
  : bool * World :=
  let value_heap_obj := HeapObject_cast value in
  let need_recording :=
    FLAG_concurrent_marking (fl w) || ObjectMarking.IsBlack obj w in
  let w2 :=
    if need_recording then
      let (pushed, w1) := WhiteToGreyAndPush value_heap_obj w in
      if pushed then RestartIfNotMarking w1 else w1
    else w in
  (is_compacting_ (im w2) && need_recording, w2).

(** [slot] is the slot's address, [0] for [NULL]. *)
Definition RecordWriteSlow (obj : Address) (slot : Address) (value : Object)
  (w : World) : World :=
  let (record, w1) := BaseRecordWrite obj value w in
  if record && negb (slot =? 0) then RecordSlot obj slot value w1 else w1.

Definition RecordWriteIntoCodeSlow (host : Address) (rinfo : Address)
  (value : Object) (w : World) : World :=
  let (record, w1) := BaseRecordWrite host value w in
  if record then RecordRelocSlot host rinfo value w1 else w1.

Definition MarkBlackAndPush (obj : Address) (w : World) : World :=
  let w1 := snd (ObjectMarking.WhiteToGrey obj w) in
  let (ok, w2) := ObjectMarking.GreyToBlack obj w1 in
  if ok then
    if V8_CONCURRENT_MARKING (fl w) then PushBailout obj w2
    else
      let (pushed, w3) := Push obj w2 in
      if pushed then w3 else snd (ObjectMarking.BlackToGrey obj w3)
  else w2.

(* ------------------------------------------------------------------ *)
(** ** Left trimming *)

Definition NotifyLeftTrimming (from to : Address) (w : World) : World :=
  let old_mark_bit := MarkBitFrom w from in
  let new_mark_bit := MarkBitFrom w to in
  let bits := internal_marking (gc w) in
  if black_allocation_ (im w) && Marking.IsBlack bits new_mark_bit then w
  else
    let '(marked_black_due_to_left_trimming, bits1) :=
      if FLAG_concurrent_marking (fl w) then
        Marking.GreyToBlack old_mark_bit
          (snd (Marking.WhiteToGrey old_mark_bit bits))
      else (false, bits) in
    if Marking.IsBlack bits1 old_mark_bit
       && negb marked_black_due_to_left_trimming then
      if from + kPointerSize (fl w) =? to then
        set_internal_marking
          (Marking.SetBit (Marking.Next new_mark_bit) bits1) w
      else
        set_internal_marking
          (snd (Marking.WhiteToBlack new_mark_bit bits1)) w
    else if Marking.IsGrey bits1 old_mark_bit
            || marked_black_due_to_left_trimming then
      let bits2 :=
        if from + kPointerSize (fl w) =? to then
          Marking.SetBit new_mark_bit bits1
        else snd (Marking.WhiteToGrey new_mark_bit bits1) in
      RestartIfNotMarking (snd (Push to (set_internal_marking bits2 w)))
    else set_internal_marking bits1 w.

(* ------------------------------------------------------------------ *)
(** ** The worklist after a scavenge *)

(** The callback given to [Update]: [Some out] for [true] with [*out], and
    [None] for [false]. *)
Definition scavenge_callback (w : World) (obj : Address) : option Address :=
  let filler_map := one_pointer_filler_map (heap_ w) in
  if InFromSpace w obj then
    let map_word := map_word (object_at (heap_ w) obj) in
    if negb (IsForwardingAddress map_word) then None
    else Some (ToForwardingAddress map_word)
  else if InToSpace w obj then
    if ObjectMarking.IsGreyExternal obj w then Some obj else None
  else
    if SWEEP_TO_ITERATE (chunk_of w obj) then
      if ObjectMarking.IsGreyExternal obj w then Some obj else None
    else if negb (MapWord_map (map_word (object_at (heap_ w) obj)) =? filler_map)
    then Some obj
    else None.

Definition UpdateMarkingWorklistAfterScavenge (w : World) : World :=
  if negb (IsMarking w) then w
  else
    set_marking_worklist
      (MarkingWorklist.Update (scavenge_callback w) (marking_worklist (gc w)))
      w.

(* ------------------------------------------------------------------ *)
(** ** The marking visitor *)

(** [MarkObject]: marks the object grey and pushes it. *)
Definition MarkObject (host : Address) (obj : Object) (w : World) : World :=
  snd (WhiteToGreyAndPush (HeapObject_cast obj) w).

Definition MarkObjectWithoutPush (host : Address) (obj : Object) (w : World)
  : bool * World :=
  ObjectMarking.WhiteToBlack (HeapObject_cast obj) w.

(** [p] is the address of the slot. *)
Definition VisitPointer (host : Address) (p : Address) (w : World) : World :=
  let target := load (heap_ w) p in
  if IsHeapObject target then
    MarkObject host target (RecordSlot host p target w)
  else w.

(** The slots [p], [p + kPointerSize], ... of a [for] loop with [n]
    iterations. *)
Fixpoint VisitPointers_loop (n : nat) (host : Address) (p : Address)
  (w : World) : World :=
  match n with
  | O => w
  | S n' =>
    VisitPointers_loop n' host (p + kPointerSize (fl w)) (VisitPointer host p w)
  end.

(** How many [p] with [start <= p < end_] the loop [p++] visits. *)
Definition slot_count (w : World) (start end_ : Address) : nat :=
  Z.to_nat ((end_ - start + kPointerSize (fl w) - 1) / kPointerSize (fl w)).

Definition VisitPointers (host : Address) (start end_ : Address) (w : World)
  : World :=
  VisitPointers_loop (slot_count w start end_) host start w.

(** [HeapObject::RawField(object, offset)]. *)
Definition RawField (object : Address) (offset : Z) : Address :=
  object + offset.

(** The [do ... while] of [VisitFixedArray]; [n] bounds the iterations that
    follow the first one. Returns the final [start_offset]. The offsets are
    [int]s: [end_offset + kProgressBarScanningChunk] wraps around on 32
    bits. The worklist stays full once it is, so the loop ends after the
    first chunk or runs on until [start_offset] reaches [object_size];
    [chunks_left] iterations are enough for that unless [end_offset] wraps
    around, in which case the loop of the source does not end. *)
Fixpoint scan_chunks (n : nat) (object : Address) (object_size : Z)
  (start_offset end_offset : Z) (w : World) : Z * World :=
  let w1 :=
    VisitPointers object (RawField object start_offset)
      (RawField object end_offset) w in
  let start_offset' := end_offset in
  let end_offset' :=
    Z.min object_size (to_int (end_offset + kProgressBarScanningChunk)) in
  let scan_until_end := MarkingWorklist.IsFull (marking_worklist (gc w1)) in
  if scan_until_end && (start_offset' <? object_size) then
    match n with
    | O => (start_offset', w1)
    | S n' => scan_chunks n' object object_size start_offset' end_offset' w1
    end
  else (start_offset', w1).

(** Enough iterations to reach [object_size] from [start_offset]. *)
Definition chunks_left (object_size start_offset : Z) : nat :=
  Z.to_nat ((object_size - start_offset) / kProgressBarScanningChunk).

Definition VisitFixedArray (object : Address) (w : World) : Z * World :=
  let chunk := FromAddress w object in
  let object_size := SizeFromMap (object_at (heap_ w) object) in
  if HAS_PROGRESS_BAR (chunk_at (gc w) chunk) then
    let start_offset :=
      Z.max (FixedArray_kStartOffset (fl w))
            (progress_bar (chunk_at (gc w) chunk)) in
    if start_offset <? object_size then
      let w1 :=
        if V8_CONCURRENT_MARKING (fl w) then PushBailout object w
        else if ObjectMarking.IsGrey object w then snd (Push object w)
        else PushBlack object w in
      let end_offset :=
        Z.min object_size (to_int (start_offset + kProgressBarScanningChunk)) in
      let already_scanned_offset := start_offset in
      let (start_offset', w2) :=
        scan_chunks (chunks_left object_size start_offset) object object_size
          start_offset end_offset w1 in
      let w3 := set_progress_bar chunk start_offset' w2 in
      if start_offset' <? object_size then
        (object_size,
         NotifyIncompleteScanOfObject
           (to_int
              (object_size - to_int (start_offset' - already_scanned_offset)))
           w3)
      else (object_size, w3)
    else (object_size, w)
  else
    (object_size,
     VisitPointers object (RawField object (FixedArray_kStartOffset (fl w)))
       (RawField object object_size) w).

(** Modelled from the spec: the generic body scan of
    objects-visiting-inl.h: the size comes from the map and every pointer
    field of the body is visited. *)
Definition VisitBody (object : Address) (w : World) : Z * World :=
  let d := object_at (heap_ w) object in
  (SizeFromMap d,
   VisitPointers object (RawField object (body_start d))
     (RawField object (SizeFromMap d)) w).

Definition IsUndefined (o : Object) (w : World) : bool :=
  Object_eqb o (HeapPointer (undefined_value (heap_ w))).

Definition VisitNativeContext (context : Address) (w : World) : Z * World :=
  let cache :=
    load (heap_ w) (RawField context (NORMALIZED_MAP_CACHE_offset (fl w))) in
  let w1 :=
    if negb (IsUndefined cache w) then
      if IsHeapObject cache then
        snd (ObjectMarking.WhiteToGrey (HeapObject_cast cache) w)
      else w
    else w in
  VisitBody context w1.

(** Modelled from the spec: the visitor's dispatch on the object's type
    descriptor (section 9); fixed arrays and native contexts have the
    overrides above. *)
Definition Visit (map : Address) (obj : Address) (w : World) : Z * World :=
  match instance_kind (object_at (heap_ w) obj) with
  | FIXED_ARRAY_KIND => VisitFixedArray obj w
  | NATIVE_CONTEXT_KIND => VisitNativeContext obj w
  | _ => VisitBody obj w
  end.

Definition obj_map (w : World) (obj : Address) : Address :=
  MapWord_map (map_word (object_at (heap_ w) obj)).

Definition IsFiller (w : World) (obj : Address) : bool :=
  InstanceKind_eqb (instance_kind (object_at (heap_ w) obj)) FILLER_KIND.

Definition IsFixedArray (w : World) (obj : Address) : bool :=
  InstanceKind_eqb (instance_kind (object_at (heap_ w) obj)) FIXED_ARRAY_KIND.

Definition IsFixedArrayWithProgressBar (w : World) (obj : Address) : bool :=
  if negb (IsFixedArray w obj) then false
  else HAS_PROGRESS_BAR (chunk_of w obj).

(* ------------------------------------------------------------------ *)
(** ** Roots, map retention and incremental finalization *)

Definition MarkObjectByPointer (p : Object) (w : World) : World :=
  if negb (IsHeapObject p) then w
  else snd (WhiteToGreyAndPush (HeapObject_cast p) w).

(** [IterateStrongRoots(&visitor, VISIT_ONLY_STRONG)] with the root
    marking visitor: every strong root slot is visited in turn. *)
Definition MarkRoots (w : World) : World :=
  fold_left (fun w' p => MarkObjectByPointer p w') (strong_roots (heap_ w)) w.

Definition ShouldRetainMap (map : Address) (age : Z) (w : World) : bool :=
  if age =? 0 then false
  else
    let constructor := GetConstructor (object_at (heap_ w) map) in
    if negb (IsHeapObject constructor)
       || ObjectMarking.IsWhite (HeapObject_cast constructor) w
    then false
    else true.

Definition map_retaining_is_disabled (w : World) : bool :=
  ShouldReduceMemory (heap_ w) || ShouldAbortIncrementalMarking (heap_ w)
  || (FLAG_retain_maps_for_n_gc (fl w) =? 0).

(** One iteration of the loop of [RetainMaps], for a cell that is not
    cleared, at array index [i]: the new age and the world. *)
Definition retain_entry (i : Z) (map : Address) (age : Z) (w : World)
  : Z * World :=
  if (number_of_disposed_maps_ (heap_ w) <=? i)
     && negb (map_retaining_is_disabled w)
     && ObjectMarking.IsWhite map w then
    let w1 :=
      if ShouldRetainMap map age w then snd (WhiteToGreyAndPush map w)
      else w in
    let prototype := prototype (object_at (heap_ w) map) in
    if (0 <? age) && IsHeapObject prototype
       && ObjectMarking.IsWhite (HeapObject_cast prototype) w1
    then (age - 1, w1)
    else (age, w1)
  else (FLAG_retain_maps_for_n_gc (fl w), w).

(** The loop [for (i = 0; i < length; i += 2)] over the pairs from array
    index [i] on; the ages are written back in place. *)
Fixpoint RetainMaps_loop (i : Z) (pairs : list (WeakCell * Z)) (w : World)
  : list (WeakCell * Z) * World :=
  match pairs with
  | [] => ([], w)
  | (None, age) :: rest =>
    let (rest', w') := RetainMaps_loop (i + 2) rest w in
    ((None, age) :: rest', w')
  | (Some map, age) :: rest =>
    let (new_age, w1) := retain_entry i map age w in
    let (rest', w') := RetainMaps_loop (i + 2) rest w1 in
    ((Some map, new_age) :: rest', w')
  end.

Definition RetainMaps (w : World) : World :=
  let (pairs, w') := RetainMaps_loop 0 (retained_maps (gc w)) w in
  set_retained_maps pairs w'.

Definition StartBlackAllocation (w : World) : World :=
  notify (MarkAllocationInfoBlack CODE_SPACE)
    (notify (MarkAllocationInfoBlack MAP_SPACE)
       (notify (MarkAllocationInfoBlack OLD_SPACE)
          (set_black_allocation_ true w))).

Definition PauseBlackAllocation (w : World) : World :=
  set_black_allocation_ false
    (notify (UnmarkAllocationInfo CODE_SPACE)
       (notify (UnmarkAllocationInfo MAP_SPACE)
          (notify (UnmarkAllocationInfo OLD_SPACE) w))).

Definition FinishBlackAllocation (w : World) : World :=
  if black_allocation_ (im w) then set_black_allocation_ false w else w.

Definition AbortBlackAllocation (w : World) : World := w.

(** The progress measured by [FinalizeIncrementally]: the worklist's size
    plus the cached wrappers, the latter cast to [int], the sum stored in
    an [int]. *)
Definition marking_progress (w : World) : Z :=
  to_int
    (MarkingWorklist.Size (marking_worklist (gc w))
     + to_int (NumberOfCachedWrappersToTrace (heap_ w))).

Definition FinalizeIncrementally (w : World) : World :=
  let w1 := MarkRoots w in
  let w2 :=
    if incremental_marking_finalization_rounds_ (im w1) =? 0
    then RetainMaps w1 else w1 in
  let progress := marking_progress w2 in
  let w3 :=
    set_incremental_marking_finalization_rounds_
      (incremental_marking_finalization_rounds_ (im w2) + 1) w2 in
  let w4 :=
    if (FLAG_max_incremental_marking_finalization_rounds (fl w3)
        <=? incremental_marking_finalization_rounds_ (im w3))
       || (progress
           <? FLAG_min_progress_during_incremental_marking_finalization (fl w3))
    then set_finalize_marking_completed_ true w3
    else w3 in
  if FLAG_black_allocation (fl w4) && negb (ShouldReduceMemory (heap_ w4))
     && negb (black_allocation_ (im w4))
  then StartBlackAllocation w4
  else w4.

(* ------------------------------------------------------------------ *)
(** ** Draining the worklist *)

Definition VisitObject (map : Address) (obj : Address) (size : Z) (w : World)
  : World :=
  let w1 := snd (ObjectMarking.GreyToBlack obj w) in
  let w2 := snd (WhiteToGreyAndPush map w1) in
  snd (Visit map obj w2).

Definition is_FORCE_COMPLETION (c : ForceCompletionAction) : bool :=
  match c with FORCE_COMPLETION => true | DO_NOT_FORCE_COMPLETION => false end.

Definition Pop (w : World) : option Address * World :=
  let r := MarkingWorklist.Pop (marking_worklist (gc w)) in
  (fst r, set_marking_worklist (snd r) w).

(** The [while] loop of [ProcessMarkingWorklist]; [None] when [fuel]
    iterations did not reach its end. *)
Fixpoint ProcessMarkingWorklist_loop (fuel : nat) (bytes_to_process : Z)
  (completion : ForceCompletionAction) (bytes_processed : Z) (w : World)
  : option (Z * World) :=
  if (bytes_processed <? bytes_to_process) || is_FORCE_COMPLETION completion
  then
    match Pop w with
    | (None, _) => Some (bytes_processed, w)
    | (Some obj, w1) =>
      match fuel with
      | O => None
      | S fuel' =>
        if IsFiller w1 obj then
          ProcessMarkingWorklist_loop fuel' bytes_to_process completion
            bytes_processed w1
        else
          let map := obj_map w1 obj in
          let size := SizeFromMap (object_at (heap_ w1) obj) in
          let w2 := set_unscanned_bytes_of_large_object_ 0 w1 in
          let w3 := VisitObject map obj size w2 in
          ProcessMarkingWorklist_loop fuel' bytes_to_process completion
            (bytes_processed
             + (size - unscanned_bytes_of_large_object_ (im w3))) w3
      end
    end
  else Some (bytes_processed, w).

Definition ProcessMarkingWorklist (fuel : nat) (bytes_to_process : Z)
  (completion : ForceCompletionAction) (w : World) : option (Z * World) :=
  match ProcessMarkingWorklist_loop fuel bytes_to_process completion 0 w with
  | None => None
  | Some (bytes_processed, w1) =>
    Some (bytes_processed, notify RegisterWrappersWithRemoteTracer w1)
  end.

Definition RevisitObject (obj : Address) (w : World) : World :=
  let page := FromAddress w obj in
  let w1 :=
    if owner_is_LO_SPACE (chunk_at (gc w) page) then set_progress_bar page 0 w
    else w in
  let map := obj_map w1 obj in
  let w2 := snd (WhiteToGreyAndPush map w1) in
  snd (Visit map obj w2).

Definition ProcessBlackAllocatedObject (obj : Address) (w : World) : World :=
  if IsMarking w && ObjectMarking.IsBlack obj w then RevisitObject obj w
  else w.

(** The walk over the native contexts at the end of [Hurry]. *)
Definition blacken_caches (w : World) : World :=
  fold_left
    (fun w' context =>
       let cache :=
         load (heap_ w')
           (RawField context (NORMALIZED_MAP_CACHE_offset (fl w'))) in
       if negb (IsUndefined cache w') then
         snd (ObjectMarking.GreyToBlack (HeapObject_cast cache) w')
       else w')
    (native_contexts_list (heap_ w)) w.

Definition Hurry (fuel : nat) (w : World) : option World :=
  let r :=
    if negb (MarkingWorklist.IsEmpty (marking_worklist (gc w))) then
      match ProcessMarkingWorklist fuel 0 FORCE_COMPLETION w with
      | None => None
      | Some (_, w1) => Some (SetState COMPLETE w1)
      end
    else Some w in
  match r with
  | None => None
  | Some w2 => Some (blacken_caches w2)
  end.

(* ------------------------------------------------------------------ *)
(** ** Starting and stopping *)

Definition SetOldSpacePageFlags (chunk : Z) (is_marking is_compacting : bool)
  (w : World) : World :=
  if is_marking then set_interesting chunk true true w
  else set_interesting chunk false true w.

Definition SetNewSpacePageFlags (chunk : Z) (is_marking : bool) (w : World)
  : World :=
  if is_marking then set_interesting chunk true true w
  else set_interesting chunk true false w.

Definition for_pages (space : AllocationSpace) (f : Z -> World -> World)
  (w : World) : World :=
  fold_left (fun w' p => f p w') (pages (heap_ w) space) w.

Definition DeactivateIncrementalWriteBarrier (w : World) : World :=
  let w1 := for_pages OLD_SPACE (fun p => SetOldSpacePageFlags p false false) w in
  let w2 := for_pages MAP_SPACE (fun p => SetOldSpacePageFlags p false false) w1 in
  let w3 := for_pages CODE_SPACE (fun p => SetOldSpacePageFlags p false false) w2 in
  let w4 := for_pages NEW_SPACE (fun p => SetNewSpacePageFlags p false) w3 in
  for_pages LO_SPACE (fun p => SetOldSpacePageFlags p false false) w4.

Definition ActivateIncrementalWriteBarrier (w : World) : World :=
  let c := is_compacting_ (im w) in
  let w1 := for_pages OLD_SPACE (fun p => SetOldSpacePageFlags p true c) w in
  let w2 := for_pages MAP_SPACE (fun p => SetOldSpacePageFlags p true c) w1 in
  let w3 := for_pages CODE_SPACE (fun p => SetOldSpacePageFlags p true c) w2 in
  let w4 := for_pages NEW_SPACE (fun p => SetNewSpacePageFlags p true) w3 in
  for_pages LO_SPACE (fun p => SetOldSpacePageFlags p true c) w4.

Definition CanBeActivated (w : World) : bool :=
  FLAG_incremental_marking (fl w) && gc_state_is_NOT_IN_GC (heap_ w)
  && deserialization_complete (heap_ w)
  && negb (serializer_enabled (heap_ w)).

(** [RecordWriteStub::Patch] on one dictionary entry, when it is a
    RecordWrite stub holding code. *)
Definition patch_entry (mode : Mode) (e : DictionaryEntry) : DictionaryEntry :=
  match e with
  | (MajorKey true, Code _) => (MajorKey true, Code mode)
  | _ => e
  end.

Definition PatchIncrementalMarkingRecordWriteStubs (mode : Mode) (w : World)
  : World :=
  set_code_stubs (map (patch_entry mode) (code_stubs (gc w))) w.

Definition observer_of (space : AllocationSpace) : Observer :=
  if AllocationSpace_eqb space NEW_SPACE then new_generation_observer_
  else old_generation_observer_.

(** Modelled from the spec: [Space::AddAllocationObserver] and
    [Space::RemoveAllocationObserver] register and detach an observer. *)
Definition AddAllocationObserver (space : AllocationSpace) (o : Observer)
  (w : World) : World :=
  set_allocation_observers
    (fun s =>
       if AllocationSpace_eqb s space then o :: allocation_observers (gc w) s
       else allocation_observers (gc w) s) w.

Definition RemoveAllocationObserver (space : AllocationSpace) (o : Observer)
  (w : World) : World :=
  set_allocation_observers
    (fun s =>
       if AllocationSpace_eqb s space then
         filter (fun o' => negb (Observer_eqb o' o))
           (allocation_observers (gc w) s)
       else allocation_observers (gc w) s) w.

Definition StartMarking (w : World) : World :=
  if serializer_enabled (heap_ w) then w
  else
    let w1 :=
      set_is_compacting_
        (negb (FLAG_never_compact (fl w)) && StartCompaction (heap_ w)) w in
    let w2 := SetState MARKING w1 in
    let w3 := notify TracePrologue w2 in
    let mode :=
      if is_compacting_ (im w3) then INCREMENTAL_COMPACTION else INCREMENTAL in
    let w4 := PatchIncrementalMarkingRecordWriteStubs mode w3 in
    let w5 :=
      set_marking_worklist
        (MarkingWorklist.StartUsing (marking_worklist (gc w4))) w4 in
    let w6 := ActivateIncrementalWriteBarrier w5 in
    let w7 := notify MarkCompactPrologue w6 in
    let w8 :=
      if FLAG_concurrent_marking (fl w7) && negb (black_allocation_ (im w7))
      then StartBlackAllocation w7 else w7 in
    let w9 := MarkRoots w8 in
    if FLAG_concurrent_marking (fl w9) then notify ScheduleTasks w9 else w9.

Definition Start (w : World) : World :=
  let w1 := notify NotifyIncrementalMarkingStart w in
  let w2 :=
    set_initial_old_generation_size_ (PromotedSpaceSizeOfObjects (heap_ w1))
      w1 in
  let w3 :=
    set_old_generation_allocation_counter_
      (OldGenerationAllocationCounter (heap_ w2)) w2 in
  let w4 := set_bytes_allocated_ 0 w3 in
  let w5 := set_bytes_marked_ahead_of_schedule_ 0 w4 in
  let w6 := set_should_hurry false w5 in
  let w7 := set_was_activated_ true w6 in
  let w8 :=
    if negb (sweeping_in_progress (gc w7)) then StartMarking w7
    else SetState SWEEPING w7 in
  let w9 :=
    fold_left (fun w' space => AddAllocationObserver space (observer_of space) w')
      all_spaces w8 in
  notify IncrementalMarkingJobStart w9.

Definition Stop (w : World) : World :=
  if IsStopped w then w
  else
    let w1 :=
      fold_left
        (fun w' space => RemoveAllocationObserver space (observer_of space) w')
        all_spaces w in
    let w2 := set_should_hurry false w1 in
    let w3 :=
      if IsMarking w2 then
        DeactivateIncrementalWriteBarrier
          (PatchIncrementalMarkingRecordWriteStubs STORE_BUFFER_ONLY w2)
      else w2 in
    let w4 := set_gc_requested false w3 in
    let w5 := SetState STOPPED w4 in
    let w6 := set_is_compacting_ false w5 in
    FinishBlackAllocation w6.

Definition Finalize (fuel : nat) (w : World) : option World :=
  match Hurry fuel w with
  | None => None
  | Some w1 => Some (Stop w1)
  end.

Definition is_GC_VIA_STACK_GUARD (a : CompletionAction) : bool :=
  match a with GC_VIA_STACK_GUARD => true | NO_GC_VIA_STACK_GUARD => false end.

Definition FinalizeMarking (action : CompletionAction) (w : World) : World :=
  let w1 := set_request_type_ FINALIZATION w in
  if is_GC_VIA_STACK_GUARD action then set_gc_requested true w1 else w1.

Definition MarkingComplete (action : CompletionAction) (w : World) : World :=
  let w1 := SetState COMPLETE w in
  let w2 := set_should_hurry true w1 in
  let w3 := set_request_type_ COMPLETE_MARKING w2 in
  if is_GC_VIA_STACK_GUARD action then set_gc_requested true w3 else w3.

Definition Epilogue (w : World) : World :=
  set_incremental_marking_finalization_rounds_ 0
    (set_finalize_marking_completed_ false (set_was_activated_ false w)).

(* ------------------------------------------------------------------ *)
(** ** The step scheduler *)

Definition FinalizeSweeping (w : World) : World :=
  let w1 :=
    if sweeping_in_progress (gc w)
       && (negb (FLAG_concurrent_sweeping (fl w))
           || negb (AreSweeperTasksRunning (heap_ w)))
    then set_sweeping_in_progress false (notify EnsureSweepingCompleted w)
    else w in
  if negb (sweeping_in_progress (gc w1)) then StartMarking w1 else w1.

Definition StepSizeToKeepUpWithAllocations (w : World) : Z * World :=
  let current_counter := OldGenerationAllocationCounter (heap_ w) in
  let w1 :=
    set_bytes_allocated_
      (wrap_size_t
         (bytes_allocated_ (im w)
          + (current_counter - old_generation_allocation_counter_ (im w)))) w in
  let w2 := set_old_generation_allocation_counter_ current_counter w1 in
  (bytes_allocated_ (im w2), w2).

Definition StepSizeToMakeProgress (w : World) : Z :=
  let kTargetStepCount := 128 in
  let kTargetStepCountAtOOM := 16 in
  if IsCloseToOutOfMemory (heap_ w) then
    PromotedSpaceSizeOfObjects (heap_ w) / kTargetStepCountAtOOM
  else
    let step_size :=
      Z.max (initial_old_generation_size_ (im w) / kTargetStepCount)
            (kAllocatedThreshold (fl w)) in
    ramp_up (heap_ w) step_size.

Definition IsIdleMarkingDelayCounterLimitReached (w : World) : bool :=
  kMaxIdleMarkingDelayCounter (fl w) <? idle_marking_delay_counter_ (im w).

Definition IncrementIdleMarkingDelayCounter (w : World) : World :=
  set_idle_marking_delay_counter_ (idle_marking_delay_counter_ (im w) + 1) w.

Definition ClearIdleMarkingDelayCounter (w : World) : World :=
  set_idle_marking_delay_counter_ 0 w.

Definition is_kTask (o : StepOrigin) : bool :=
  match o with kTask => true | kV8 => false end.

(** What [Step] does once the worklist has been processed. *)
Definition after_processing (action : CompletionAction)
  (completion : ForceCompletionAction) (w : World) : World :=
  if MarkingWorklist.IsEmpty (marking_worklist (gc w)) then
    if ShouldFinalizeIncrementalMarking (heap_ w) then
      if is_FORCE_COMPLETION completion
         || IsIdleMarkingDelayCounterLimitReached w then
        if negb (finalize_marking_completed_ (im w)) then
          FinalizeMarking action w
        else MarkingComplete action w
      else IncrementIdleMarkingDelayCounter w
    else notify NotifyV8MarkingWorklistWasEmpty w
  else w.

Definition Step (fuel : nat) (bytes_to_process : Z) (action : CompletionAction)
  (completion : ForceCompletionAction) (step_origin : StepOrigin) (w : World)
  : option (Z * World) :=
  let w1 :=
    if State_eqb (state_ (im w)) SWEEPING then FinalizeSweeping w else w in
  let r :=
    if State_eqb (state_ (im w1)) MARKING then
      match
        ProcessMarkingWorklist fuel (to_intptr bytes_to_process)
          DO_NOT_FORCE_COMPLETION w1
      with
      | None => None
      | Some (n, w2) =>
        let bytes_processed := wrap_size_t n in
        let w3 :=
          if is_kTask step_origin then
            set_bytes_marked_ahead_of_schedule_
              (wrap_size_t
                 (bytes_marked_ahead_of_schedule_ (im w2) + bytes_processed))
              w2
          else w2 in
        Some (bytes_processed, after_processing action completion w3)
      end
    else Some (0, w1) in
  match r with
  | None => None
  | Some (bytes_processed, w4) =>
    let w5 :=
      if FLAG_concurrent_marking (fl w4) then notify RescheduleTasksIfNeeded w4
      else w4 in
    Some (bytes_processed, notify (AddIncrementalMarkingStep bytes_processed) w5)
  end.

Definition AdvanceIncrementalMarkingOnAllocation (fuel : nat) (w : World)
  : option World :=
  if negb (gc_state_is_NOT_IN_GC (heap_ w))
     || negb (FLAG_incremental_marking (fl w))
     || (negb (State_eqb (state_ (im w)) SWEEPING)
         && negb (State_eqb (state_ (im w)) MARKING))
     || always_allocate (heap_ w)
  then Some w
  else
    let (keep_up, w1) := StepSizeToKeepUpWithAllocations w in
    let bytes_to_process := wrap_size_t (keep_up + StepSizeToMakeProgress w1) in
    if kAllocatedThreshold (fl w1) <=? bytes_to_process then
      let bytes_to_process := Z.min bytes_to_process (max_step_size (heap_ w1)) in
      let r :=
        if bytes_to_process <=? bytes_marked_ahead_of_schedule_ (im w1) then
          Some (bytes_to_process,
                set_bytes_marked_ahead_of_schedule_
                  (bytes_marked_ahead_of_schedule_ (im w1) - bytes_to_process)
                  w1)
        else
          Step fuel bytes_to_process GC_VIA_STACK_GUARD FORCE_COMPLETION kV8 w1
      in
      match r with
      | None => None
      | Some (bytes_processed, w2) =>
        Some (set_bytes_allocated_
                (bytes_allocated_ (im w2)
                 - Z.min (bytes_allocated_ (im w2)) bytes_processed) w2)
      end
    else Some w1.

(** One iteration of the [do ... while] of [AdvanceIncrementalMarking]. *)
Definition advance_once (fuel : nat) (incremental_wrapper_tracing : bool)
  (completion_action : CompletionAction)
  (force_completion : ForceCompletionAction) (step_origin : StepOrigin)
  (w : World) : option World :=
  let r :=
    if incremental_wrapper_tracing && trace_wrappers_toggle_ (im w) then
      if negb (ShouldFinalizeIncrementalMarking (heap_ w))
      then Some (notify EmbedderTrace w) else Some w
    else
      match
        Step fuel (step_size_in_bytes (heap_ w)) completion_action
          force_completion step_origin w
      with
      | None => None
      | Some (_, w1) => Some w1
      end in
  match r with
  | None => None
  | Some w2 =>
    Some (set_trace_wrappers_toggle_ (negb (trace_wrappers_toggle_ (im w2))) w2)
  end.

(** [clock] lists, for the successive evaluations of the loop condition,
    whether [remaining_time_in_ms >= kStepSizeInMs]; the time is over when
    the list is. *)
Fixpoint advance_loop (fuel : nat) (clock : list bool)
  (incremental_wrapper_tracing : bool) (completion_action : CompletionAction)
  (force_completion : ForceCompletionAction) (step_origin : StepOrigin)
  (w : World) : option World :=
  match
    advance_once fuel incremental_wrapper_tracing completion_action
      force_completion step_origin w
  with
  | None => None
  | Some w1 =>
    match clock with
    | [] => Some w1
    | time_left :: clock' =>
      if time_left && negb (IsComplete w1)
         && negb (MarkingWorklist.IsEmpty (marking_worklist (gc w1)))
      then
        advance_loop fuel clock' incremental_wrapper_tracing completion_action
          force_completion step_origin w1
      else Some w1
    end
  end.

Definition AdvanceIncrementalMarking (fuel : nat) (clock : list bool)
  (completion_action : CompletionAction)
  (force_completion : ForceCompletionAction) (step_origin : StepOrigin)
  (w : World) : option World :=
  let incremental_wrapper_tracing :=
    State_eqb (state_ (im w)) MARKING
    && FLAG_incremental_marking_wrappers (fl w) && embedder_InUse (heap_ w) in
  advance_loop fuel clock incremental_wrapper_tracing completion_action
    force_completion step_origin w.

(* ------------------------------------------------------------------ *)
(** ** Concrete heaps, for evaluating the functions *)

Definition ex_flags : Flags := {|
  V8_CONCURRENT_MARKING := false;
  FLAG_concurrent_marking := false;
  FLAG_incremental_marking := true;
  FLAG_incremental_marking_wrappers := true;
  FLAG_black_allocation := true;
  FLAG_never_compact := false;
  FLAG_concurrent_sweeping := true;
  FLAG_retain_maps_for_n_gc := 2;
  FLAG_max_incremental_marking_finalization_rounds := 3;
  FLAG_min_progress_during_incremental_marking_finalization := 32;
  kPointerSize := 8;
  kPageSize := 524288;
  FixedArray_kStartOffset := 16;
  NORMALIZED_MAP_CACHE_offset := 64;
  kAllocatedThreshold := 65536;
  kMaxIdleMarkingDelayCounter := 3
|}.

Definition ex_object (map : Address) (kind : InstanceKind) (size : Z)
  : HeapObjectData := {|
  map_word := ToMap map;
  instance_kind := kind;
  SizeFromMap := size;
  body_start := 8;
  GetConstructor := Smi 0;
  prototype := Smi 0
|}.

Definition ex_chunk : MemoryChunk := {|
  HAS_PROGRESS_BAR := false;
  SWEEP_TO_ITERATE := false;
  IN_FROM_SPACE := false;
  IN_TO_SPACE := false;
  POINTERS_TO_HERE_ARE_INTERESTING := false;
  POINTERS_FROM_HERE_ARE_INTERESTING := true;
  progress_bar := 0;
  owner_is_LO_SPACE := false
|}.

(** A heap whose objects all have the map at address 8, no pointer
    fields, no roots and no pages. *)
Definition ex_layout : HeapLayout := {|
  flags := ex_flags;
  object_at := fun _ => ex_object 8 OTHER_KIND 16;
  load := fun _ => Smi 0;
  external_marking := fun _ => false;
  pages := fun _ => [];
  strong_roots := [];
  native_contexts_list := [];
  number_of_disposed_maps_ := 0;
  one_pointer_filler_map := 24;
  undefined_value := 40;
  gc_state_is_NOT_IN_GC := true;
  always_allocate := false;
  ShouldReduceMemory := false;
  ShouldAbortIncrementalMarking := false;
  serializer_enabled := false;
  deserialization_complete := true;
  AreSweeperTasksRunning := false;
  StartCompaction := true;
  NumberOfCachedWrappersToTrace := 0;
  ShouldFinalizeIncrementalMarking := true;
  embedder_InUse := false;
  OldGenerationAllocationCounter := 0;
  PromotedSpaceSizeOfObjects := 0;
  IsCloseToOutOfMemory := false;
  ramp_up := fun step_size => step_size;
  max_step_size := 1048576;
  step_size_in_bytes := 65536
|}.

Definition ex_heap_state : HeapState := {|
  internal_marking := fun _ => false;
  marking_worklist := MarkingWorklist.mk [] [] None;
  chunk_at := fun _ => ex_chunk;
  recorded_slots := [];
  recorded_reloc_slots := [];
  retained_maps := [];
  code_stubs := [];
  allocation_observers := fun _ => [];
  gc_requested := false;
  sweeping_in_progress := false;
  notifications := []
|}.

Definition ex_im : IncrementalMarking := {|
  state_ := MARKING;
  is_compacting_ := false;
  should_hurry_ := false;
  was_activated_ := true;
  black_allocation_ := false;
  finalize_marking_completed_ := false;
  trace_wrappers_toggle_ := false;
  request_type_ := NONE;
  initial_old_generation_size_ := 0;
  old_generation_allocation_counter_ := 0;
  bytes_allocated_ := 0;
  bytes_marked_ahead_of_schedule_ := 0;
  unscanned_bytes_of_large_object_ := 0;
  idle_marking_delay_counter_ := 0;
  incremental_marking_finalization_rounds_ := 0
|}.

(** Marking is active, every object is White and the worklist is empty. *)
Definition ex_world : World := mkWorld ex_layout ex_heap_state ex_im.

(** The mark bits of the listed bit indices are set. *)
Definition bits_of (l : list Z) : Marking.Bitmap :=
  fun i => existsb (Z.eqb i) l.

(** Black allocation is on; the object at 1024 (mark bit 128) is Grey and
    the one at 1056 (mark bits 132 and 133) is Black. *)
Definition trim_world : World :=
  set_black_allocation_ true (set_internal_marking (bits_of [128; 132; 133]) ex_world).

(** The object at 1024 is Grey (respectively Black), everything else
    White. *)
Definition grey_1024_world : World :=
  set_internal_marking (bits_of [128]) ex_world.
Definition black_1024_world : World :=
  set_internal_marking (bits_of [128; 129]) ex_world.

(** After a scavenge: chunk 1 is from-space and chunk 2 to-space. The
    object at 524352 (mark bit 65544), Grey, was evacuated to 1048640; the
    object at 2048, in old space, is a one-pointer filler. Both are on the
    worklist. *)
Definition scavenged_layout : HeapLayout := {|
  flags := ex_flags;
  object_at := fun a =>
    if a =? 524352 then
      mkObject (ForwardingAddress 1048640) OTHER_KIND 16 8 (Smi 0) (Smi 0)
    else if a =? 2048 then ex_object 24 FILLER_KIND 8
    else ex_object 8 OTHER_KIND 16;
  load := fun _ => Smi 0;
  external_marking := fun _ => false;
  pages := fun _ => [];
  strong_roots := [];
  native_contexts_list := [];
  number_of_disposed_maps_ := 0;
  one_pointer_filler_map := 24;
  undefined_value := 40;
  gc_state_is_NOT_IN_GC := true;
  always_allocate := false;
  ShouldReduceMemory := false;
  ShouldAbortIncrementalMarking := false;
  serializer_enabled := false;
  deserialization_complete := true;
  AreSweeperTasksRunning := false;
  StartCompaction := true;
  NumberOfCachedWrappersToTrace := 0;
  ShouldFinalizeIncrementalMarking := true;
  embedder_InUse := false;
  OldGenerationAllocationCounter := 0;
  PromotedSpaceSizeOfObjects := 0;
  IsCloseToOutOfMemory := false;
  ramp_up := fun step_size => step_size;
  max_step_size := 1048576;
  step_size_in_bytes := 65536
|}.

Definition scavenged_world : World :=
  set_internal_marking (bits_of [65544])
  (set_marking_worklist (MarkingWorklist.mk [524352; 2048] [] None)
    (set_chunk_at
       (fun c =>
          if c =? 1 then mkChunk false false true false false true 0 false
          else if c =? 2 then mkChunk false false false true false true 0 false
          else ex_chunk)
       (mkWorld scavenged_layout ex_heap_state ex_im))).

(** The same heap when the filler's page, in old space, is flagged
    SWEEP_TO_ITERATE and the filler is Grey in the external marking state;
    only the filler is on the worklist. *)
Definition swept_filler_world : World :=
  set_marking_worklist (MarkingWorklist.mk [2048] [] None)
    (set_chunk_at
       (fun _ => mkChunk false true false false false true 0 false)
       (mkWorld
          (mkLayout ex_flags (object_at scavenged_layout) (load scavenged_layout)
             (bits_of [256]) (pages scavenged_layout) [] [] 0 24 40
             true false false false false true false true 0 true false 0 0
             false (fun s => s) 1048576 65536)
          ex_heap_state ex_im)).

(** A fixed array of 100000 bytes at 2097152 (chunk 4, mark bits 262144
    and 262145), Black, on a page with a progress bar that stands at 0; the
    array holds no heap pointers. *)
Definition large_array : Address := 2097152.

Definition large_array_world : World :=
  set_internal_marking (bits_of [262144; 262145])
    (set_chunk_at
       (fun c =>
          if c =? 4 then mkChunk true false false false true true 0 true
          else ex_chunk)
       (mkWorld
          (mkLayout ex_flags
             (fun a =>
                if a =? large_array then ex_object 8 FIXED_ARRAY_KIND 100000
                else ex_object 8 OTHER_KIND 16)
             (load ex_layout) (external_marking ex_layout) (pages ex_layout)
             [] [] 0 24 40 true false false false false true false true 0
             true false 0 0 false (fun s => s) 1048576 65536)
          ex_heap_state ex_im)).

(** Three retained maps with ages 2, 1 and 2: the first is before the
    disposed-maps prefix ([number_of_disposed_maps_ = 2]); the second, the
    map at 4096, is White with a White prototype at 8192; the third cell is
    cleared. *)
Definition retained_world : World :=
  set_retained_maps [(Some 2048, 2); (Some 4096, 1); (None, 2)]
    (mkWorld
       (mkLayout ex_flags
          (fun a =>
             if a =? 4096 then
               mkObject (ToMap 8) OTHER_KIND 16 8 (Smi 0) (HeapPointer 8192)
             else ex_object 8 OTHER_KIND 16)
          (load ex_layout) (external_marking ex_layout) (pages ex_layout)
          [] [] 2 24 40 true false false false false true false true 0
          true false 0 0 false (fun s => s) 1048576 65536)
       ex_heap_state ex_im).

(** A heap with one old page (chunk 0), one new page (chunk 1) and one
    large page (chunk 4), every page with both write-barrier flags set; a
    RecordWrite stub in INCREMENTAL mode among the code stubs; the
    marker's observers on every space; a pending GC request; compaction and
    black allocation on; one object on the worklist. *)
Definition active_layout : HeapLayout :=
  mkLayout ex_flags (object_at ex_layout) (load ex_layout)
    (external_marking ex_layout)
    (fun s =>
       match s with
       | OLD_SPACE => [0] | NEW_SPACE => [1] | LO_SPACE => [4] | _ => []
       end)
    [] [] 0 24 40 true false false false false true false true 0
    true false 0 0 false (fun s => s) 1048576 65536.

Definition active_heap_state : HeapState := {|
  internal_marking := bits_of [128];
  marking_worklist := MarkingWorklist.mk [1024] [] None;
  chunk_at := fun _ => mkChunk false false false false true true 0 false;
  recorded_slots := [];
  recorded_reloc_slots := [];
  retained_maps := [];
  code_stubs :=
    [(MajorKey true, Code INCREMENTAL); (MajorKey false, Code INCREMENTAL);
     (NotAKey, NotCode)];
  allocation_observers := fun s => [observer_of s];
  gc_requested := true;
  sweeping_in_progress := false;
  notifications := []
|}.

Definition marking_stop_world : World :=
  set_black_allocation_ true
    (set_is_compacting_ true (mkWorld active_layout active_heap_state ex_im)).

(** The same heap with the controller in the SWEEPING state. *)
Definition sweeping_stop_world : World := set_state_ SWEEPING marking_stop_world.

(** A stopped marker on the same pages with the write barrier inactive
    and the sweeper of the previous collection still at work; [Start] puts
    it in the SWEEPING state. *)
Definition idle_world : World :=
  mkWorld active_layout
    {| internal_marking := bits_of [128];
       marking_worklist := MarkingWorklist.mk [1024] [] None;
       chunk_at :=
         fun c =>
           if c =? 1 then mkChunk false false false true true false 0 false
           else ex_chunk;
       recorded_slots := [];
       recorded_reloc_slots := [];
       retained_maps := [];
       code_stubs :=
         [(MajorKey true, Code STORE_BUFFER_ONLY);
          (MajorKey false, Code INCREMENTAL); (NotAKey, NotCode)];
       allocation_observers := fun _ => [];
       gc_requested := false;
       sweeping_in_progress := true;
       notifications := [] |}
    (mkIM STOPPED false false false false false false NONE 0 0 0 0 0 0 0).


(** The cycle A -> B -> A: A at 1024 and B at 2048 each hold one pointer
    field (at offset 8) to the other; both have the map at 8, which is its
    own map. A is Grey and on the worklist, B and the map are White. *)
Definition cycle_dom : list Address := [8; 1024; 2048].

Definition cycle_world : World :=
  set_marking_worklist (MarkingWorklist.mk [1024] [] None)
    (set_internal_marking (bits_of [128])
       (mkWorld
          (mkLayout ex_flags (object_at ex_layout)
             (fun p =>
                if p =? 1032 then HeapPointer 2048
                else if p =? 2056 then HeapPointer 1024
                else Smi 0)
             (external_marking ex_layout) (pages ex_layout)
             [HeapPointer 1024] [] 0 24 40 true false false false false true
             false true 0 true false 0 0 false (fun s => s) 1048576 65536)
          ex_heap_state ex_im)).

(** The large array of [large_array_world] on the worklist. *)
Definition large_array_on_worklist : World :=
  set_marking_worklist (MarkingWorklist.mk [large_array] [] None)
    large_array_world.

(** A marker in the MARKING state with 200000 bytes of credit and 70000
    bytes allocated since the last step; the cycle's objects are on the
    heap. *)
Definition ahead_world : World :=
  set_bytes_marked_ahead_of_schedule_ 200000
    (set_bytes_allocated_ 70000 cycle_world).

(** Marking with an empty worklist whose finalization rounds are over. *)
Definition finalizing_world : World :=
  set_finalize_marking_completed_ true ex_world.

(** The same layout under memory pressure. *)
Definition under_pressure (l : HeapLayout) : HeapLayout :=
  {| flags := flags l;
   object_at := object_at l;
   load := load l;
   external_marking := external_marking l;
   pages := pages l;
   strong_roots := strong_roots l;
   native_contexts_list := native_contexts_list l;
   number_of_disposed_maps_ := number_of_disposed_maps_ l;
   one_pointer_filler_map := one_pointer_filler_map l;
   undefined_value := undefined_value l;
   gc_state_is_NOT_IN_GC := gc_state_is_NOT_IN_GC l;
   always_allocate := always_allocate l;
   ShouldReduceMemory := true;
   ShouldAbortIncrementalMarking := ShouldAbortIncrementalMarking l;
   serializer_enabled := serializer_enabled l;
   deserialization_complete := deserialization_complete l;
   AreSweeperTasksRunning := AreSweeperTasksRunning l;
   StartCompaction := StartCompaction l;
   NumberOfCachedWrappersToTrace := NumberOfCachedWrappersToTrace l;
   ShouldFinalizeIncrementalMarking := ShouldFinalizeIncrementalMarking l;
   embedder_InUse := embedder_InUse l;
   OldGenerationAllocationCounter := OldGenerationAllocationCounter l;
   PromotedSpaceSizeOfObjects := PromotedSpaceSizeOfObjects l;
   IsCloseToOutOfMemory := IsCloseToOutOfMemory l;
   ramp_up := ramp_up l;
   max_step_size := max_step_size l;
   step_size_in_bytes := step_size_in_bytes l |}.

(** The heap of [retained_world] under memory pressure. *)
Definition pressure_world : World :=
  mkWorld (under_pressure (heap_ retained_world)) (gc retained_world)
    (im retained_world).

(** A native context at 4096 whose normalized map cache (the field at
    offset 64) is the object at 2048, Grey: the visitor marks caches
    without pushing them. The worklist is empty. *)
Definition context_world : World :=
  set_internal_marking (bits_of [256])
    (mkWorld
       (mkLayout ex_flags (object_at ex_layout)
          (fun p => if p =? 4160 then HeapPointer 2048 else Smi 0)
          (external_marking ex_layout) (pages ex_layout)
          [] [4096] 0 24 40 true false false false false true
          false true 0 true false 0 0 false (fun s => s) 1048576 65536)
       ex_heap_state ex_im).

(** Marking with one Grey object on the worklist and 2^31 - 1 wrappers
    cached by the embedder's tracer. *)
Definition wrappers_world : World :=
  set_marking_worklist (MarkingWorklist.mk [1024] [] None)
    (set_internal_marking (bits_of [128])
       (mkWorld
          (mkLayout ex_flags (object_at ex_layout) (load ex_layout)
             (external_marking ex_layout) (pages ex_layout)
             [] [] 0 24 40 true false false false false true
             false true 2147483647 true false 0 0 false (fun s => s)
             1048576 65536)
          ex_heap_state ex_im)).

(** The large array of [large_array_world] on a worklist that holds one
    entry at most. *)
Definition full_array_world : World :=
  set_marking_worklist (MarkingWorklist.mk [large_array] [] (Some 1%nat))
    large_array_world.

(** A fixed array of 2^31 - 1 bytes at [large_array], Black, whose
    progress bar stands at 2147483000: the end of the next chunk is past the
    largest [int]. *)
Definition huge_array_world : World :=
  set_internal_marking (bits_of [262144; 262145])
    (set_chunk_at
       (fun c =>
          if c =? 4
          then mkChunk true false false false true true 2147483000 true
          else ex_chunk)
       (mkWorld
          (mkLayout ex_flags
             (fun a =>
                if a =? large_array
                then ex_object 8 FIXED_ARRAY_KIND 2147483647
                else ex_object 8 OTHER_KIND 16)
             (load ex_layout) (external_marking ex_layout) (pages ex_layout)
             [] [] 0 24 40 true false false false false true false true 0
             true false 0 0 false (fun s => s) 1048576 65536)
          ex_heap_state ex_im)).

(** A fixed array trimmed by one word on the left: the array now starts at
    4104 (mark bit 513) and its old first word, at 4096 (mark bit 512), is
    a one-word filler with the filler map at 24. The array was Grey and on
    the worklist before; [NotifyLeftTrimming] transfers the colour, and the
    mark bits of the filler and of the array overlap. *)
Definition left_trimmed_dom : list Address := [8; 24; 4096; 4104].

Definition left_trimmed_world : World :=
  NotifyLeftTrimming 4096 4104
    (set_marking_worklist (MarkingWorklist.mk [4096] [] None)
       (set_internal_marking (bits_of [512])
          (mkWorld
             (mkLayout ex_flags
                (fun a =>
                   if a =? 4096 then ex_object 24 FILLER_KIND 8
                   else if a =? 4104 then ex_object 8 FIXED_ARRAY_KIND 24
                   else ex_object 8 OTHER_KIND 16)
                (load ex_layout) (external_marking ex_layout)
                (pages ex_layout)
                [] [] 0 24 40 true false false false false true false true 0
                true false 0 0 false (fun s => s) 1048576 65536)
             ex_heap_state ex_im))).

(* ------------------------------------------------------------------ *)
(** ** Notions used to state the properties *)

(** The barrier written out: the world after the marking part, then the
    slot registration. *)
Definition barrier_marked (obj v : Address) (w : World) : World :=
  if FLAG_concurrent_marking (fl w) || ObjectMarking.IsBlack obj w then
    if ObjectMarking.IsWhite v w then
      RestartIfNotMarking
        (snd (Push v
                (set_internal_marking
                   (Marking.SetBit (MarkBitFrom w v) (internal_marking (gc w)))
                   w)))
    else w
  else w.

(** Where [VisitFixedArray] starts scanning, where the first chunk ends,
    and the world in which the scan starts (after the array was pushed
    again). *)
Definition scan_start (object : Address) (w : World) : Z :=
  Z.max (FixedArray_kStartOffset (fl w))
        (progress_bar (chunk_at (gc w) (FromAddress w object))).

Definition first_chunk_end (object : Address) (w : World) : Z :=
  Z.min (SizeFromMap (object_at (heap_ w) object))
        (to_int (scan_start object w + kProgressBarScanningChunk)).

Definition repushed (object : Address) (w : World) : World :=
  if V8_CONCURRENT_MARKING (fl w) then PushBailout object w
  else if ObjectMarking.IsGrey object w then snd (Push object w)
  else PushBlack object w.

(** Marking only ever sets bits: an object that is White afterwards was
    White before. *)
Definition only_marks (w w' : World) : Prop :=
  heap_ w' = heap_ w /\ im w' = im w
  /\ retained_maps (gc w') = retained_maps (gc w)
  /\ forall a, ObjectMarking.IsWhite a w' = true ->
               ObjectMarking.IsWhite a w = true.

(** A chunk with the two write-barrier flags as
    [SetOldSpacePageFlags(chunk, false, false)] and
    [SetNewSpacePageFlags(chunk, false)] leave them. *)
Definition barrier_flags (k : MemoryChunk) : bool * bool :=
  (POINTERS_TO_HERE_ARE_INTERESTING k, POINTERS_FROM_HERE_ARE_INTERESTING k).

Definition old_space_flags_off : bool * bool := (false, true).
Definition new_space_flags_off : bool * bool := (true, false).

(** A RecordWrite stub that holds code is in the given mode. *)
Definition stub_in_mode (mode : Mode) (e : DictionaryEntry) : Prop :=
  forall m, e = (MajorKey true, Code m) -> m = mode.

(** The write barrier is inactive: every RecordWrite stub is in
    store-buffer-only mode and the pages of all spaces carry the flags that
    [DeactivateIncrementalWriteBarrier] leaves. *)
Definition barrier_inactive (w : World) : Prop :=
  (forall e, In e (code_stubs (gc w)) -> stub_in_mode STORE_BUFFER_ONLY e)
  /\ (forall c,
        In c (pages (heap_ w) LO_SPACE)
        \/ ((In c (pages (heap_ w) OLD_SPACE)
             \/ In c (pages (heap_ w) MAP_SPACE)
             \/ In c (pages (heap_ w) CODE_SPACE))
            /\ ~ In c (pages (heap_ w) NEW_SPACE)) ->
        barrier_flags (chunk_at (gc w) c) = old_space_flags_off)
  /\ (forall c,
        In c (pages (heap_ w) NEW_SPACE) ->
        ~ In c (pages (heap_ w) LO_SPACE) ->
        barrier_flags (chunk_at (gc w) c) = new_space_flags_off).

(** The barrier is active only while marking is: [StartMarking] is the one
    place that activates it, and it enters MARKING as it does. *)
Definition barrier_consistent (w : World) : Prop :=
  IsMarking w = false -> barrier_inactive w.

(** An operation that leaves the stubs and the page flags alone and does
    not leave the marking states. *)
Definition barrier_kept (w w' : World) : Prop :=
  heap_ w' = heap_ w
  /\ code_stubs (gc w') = code_stubs (gc w)
  /\ (forall c, barrier_flags (chunk_at (gc w') c)
                = barrier_flags (chunk_at (gc w) c))
  /\ (IsMarking w = true -> IsMarking w' = true).

(** *** The measure that bounds the marking work

    [dom] lists the addresses of the heap's objects. *)

Definition white_count (dom : list Address) (w : World) : nat :=
  length (filter (fun a => ObjectMarking.IsWhite a w) dom).

(** The bytes of a fixed array with a progress bar that are still to be
    scanned. *)
Definition bar_left (w : World) (o : Address) : nat :=
  if IsFixedArray w o && HAS_PROGRESS_BAR (chunk_of w o)
  then Z.to_nat (SizeFromMap (object_at (heap_ w) o) - scan_start o w)
  else O.

Definition bars_left (dom : list Address) (w : World) : nat :=
  fold_right (fun o n => (bar_left w o + n)%nat) O dom.

Definition worklist_length (w : World) : nat :=
  length (MarkingWorklist.entries (marking_worklist (gc w))).

Definition potential (dom : list Address) (w : World) : nat :=
  (worklist_length w + 2 * white_count dom w + bars_left dom w)%nat.

(** The largest size of a fixed array for which the [int] offsets of its
    scan do not wrap around. *)
Definition kMaxScannedSize : Z := 2 ^ 31 - 1 - kProgressBarScanningChunk.

(** The heap's pointers stay within [dom]: the contents of every slot, the
    map of every object and every strong root. No object of [dom] starts
    one word after a fixed array of [dom] (the second word of a fixed array
    is its length), and the offsets of a fixed array's scan are [int]s that
    do not wrap around: the first offset is not negative and a fixed array
    is at most [kMaxScannedSize] bytes long. *)
Definition heap_closed (dom : list Address) (w : World) : Prop :=
  (forall p a, load (heap_ w) p = HeapPointer a -> In a dom)
  /\ (forall o, In o dom -> In (obj_map w o) dom)
  /\ (forall a, In (HeapPointer a) (strong_roots (heap_ w)) -> In a dom)
  /\ (forall a b, In a dom -> In b dom -> IsFixedArray w a = true ->
                  MarkBitFrom w b <> MarkBitFrom w a + 1)
  /\ 0 <= FixedArray_kStartOffset (fl w)
  /\ (forall a, In a dom -> IsFixedArray w a = true ->
                SizeFromMap (object_at (heap_ w) a) <= kMaxScannedSize).

Definition worklist_in (dom : list Address) (w : World) : Prop :=
  forall o, In o (MarkingWorklist.entries (marking_worklist (gc w))) ->
            In o dom.

(** A marking operation that pushes at most [extra] entries that are not
    paid for by a White object turning Grey. *)
Definition advances (dom : list Address) (extra : nat) (w w' : World)
  : Prop :=
  heap_ w' = heap_ w
  /\ state_ (im w') = state_ (im w)
  /\ bytes_marked_ahead_of_schedule_ (im w')
     = bytes_marked_ahead_of_schedule_ (im w)
  /\ (forall c, HAS_PROGRESS_BAR (chunk_at (gc w') c)
                = HAS_PROGRESS_BAR (chunk_at (gc w) c))
  /\ (forall c, progress_bar (chunk_at (gc w) c)
                <= progress_bar (chunk_at (gc w') c))
  /\ (forall a, In a dom -> ObjectMarking.IsWhite a w' = true ->
                ObjectMarking.IsWhite a w = true)
  /\ (worklist_in dom w -> worklist_in dom w')
  /\ (worklist_length w' + 2 * white_count dom w'
      <= worklist_length w + 2 * white_count dom w + extra)%nat.

(** [Step] called once per budget of the list. *)
Fixpoint Steps (fuel : nat) (budgets : list Z) (action : CompletionAction)
  (completion : ForceCompletionAction) (step_origin : StepOrigin) (w : World)
  : option World :=
  match budgets with
  | [] => Some w
  | bytes_to_process :: rest =>
    match Step fuel bytes_to_process action completion step_origin w with
    | None => None
    | Some (_, w1) => Steps fuel rest action completion step_origin w1
    end
  end.

(** Two worlds with the same layout, mark bits, worklist and chunks. *)
Definition same_marking (w w' : World) : Prop :=
  heap_ w' = heap_ w
  /\ internal_marking (gc w') = internal_marking (gc w)
  /\ marking_worklist (gc w') = marking_worklist (gc w)
  /\ chunk_at (gc w') = chunk_at (gc w).

(** What the drain theorem maintains from one [Step] to the next. *)
Definition draining (dom : list Address) (w : World) : Prop :=
  heap_closed dom w /\ worklist_in dom w
  /\ (state_ (im w) = MARKING
      \/ (state_ (im w) = COMPLETE /\ worklist_length w = O)).

(** *** The operations of the controller *)

Inductive Operation :=
| OpStart
| OpStop
| OpStep (bytes_to_process : Z) (action : CompletionAction)
    (completion : ForceCompletionAction) (step_origin : StepOrigin)
| OpAdvanceIncrementalMarkingOnAllocation
| OpAdvanceIncrementalMarking (clock : list bool)
    (action : CompletionAction) (completion : ForceCompletionAction)
    (step_origin : StepOrigin)
| OpFinalizeIncrementally
| OpHurry
| OpFinalize
| OpEpilogue
| OpFinalizeMarking (action : CompletionAction)
| OpMarkingComplete (action : CompletionAction)
| OpRecordWriteSlow (obj slot value : Address)
| OpRecordWriteIntoCodeSlow (host rinfo value : Address)
| OpMarkBlackAndPush (obj : Address)
| OpNotifyLeftTrimming (from to : Address)
| OpUpdateMarkingWorklistAfterScavenge
| OpProcessBlackAllocatedObject (obj : Address)
| OpStartBlackAllocation
| OpPauseBlackAllocation
| OpFinishBlackAllocation
| OpAbortBlackAllocation
| OpIncrementIdleMarkingDelayCounter
| OpClearIdleMarkingDelayCounter.

Definition run (fuel : nat) (op : Operation) (w : World) : option World :=
  match op with
  | OpStart => Some (Start w)
  | OpStop => Some (Stop w)
  | OpStep b action completion step_origin =>
    match Step fuel b action completion step_origin w with
    | Some (_, w') => Some w'
    | None => None
    end
  | OpAdvanceIncrementalMarkingOnAllocation =>
    AdvanceIncrementalMarkingOnAllocation fuel w
  | OpAdvanceIncrementalMarking clock action completion step_origin =>
    AdvanceIncrementalMarking fuel clock action completion step_origin w
  | OpFinalizeIncrementally => Some (FinalizeIncrementally w)
  | OpHurry => Hurry fuel w
  | OpFinalize => Finalize fuel w
  | OpEpilogue => Some (Epilogue w)
  | OpFinalizeMarking action => Some (FinalizeMarking action w)
  | OpMarkingComplete action => Some (MarkingComplete action w)
  | OpRecordWriteSlow obj slot value =>
    Some (RecordWriteSlow obj slot (HeapPointer value) w)
  | OpRecordWriteIntoCodeSlow host rinfo value =>
    Some (RecordWriteIntoCodeSlow host rinfo (HeapPointer value) w)
  | OpMarkBlackAndPush obj => Some (MarkBlackAndPush obj w)
  | OpNotifyLeftTrimming from to => Some (NotifyLeftTrimming from to w)
  | OpUpdateMarkingWorklistAfterScavenge =>
    Some (UpdateMarkingWorklistAfterScavenge w)
  | OpProcessBlackAllocatedObject obj =>
    Some (ProcessBlackAllocatedObject obj w)
  | OpStartBlackAllocation => Some (StartBlackAllocation w)
  | OpPauseBlackAllocation => Some (PauseBlackAllocation w)
  | OpFinishBlackAllocation => Some (FinishBlackAllocation w)
  | OpAbortBlackAllocation => Some (AbortBlackAllocation w)
  | OpIncrementIdleMarkingDelayCounter =>
    Some (IncrementIdleMarkingDelayCounter w)
  | OpClearIdleMarkingDelayCounter => Some (ClearIdleMarkingDelayCounter w)
  end.

(** The credit of marking done ahead of schedule. *)
Definition credit (w : World) : Z := bytes_marked_ahead_of_schedule_ (im w).

(** The controller's fields, the unscanned-bytes report apart. *)
Definition controller (w : World) : IncrementalMarking :=
  im (set_unscanned_bytes_of_large_object_ 0 w).

(** The budget [AdvanceIncrementalMarkingOnAllocation] computes, after the
    allocation counters were brought up to date. *)
Definition allocation_budget (w : World) : Z :=
  Z.min
    (wrap_size_t
       (fst (StepSizeToKeepUpWithAllocations w)
        + StepSizeToMakeProgress (snd (StepSizeToKeepUpWithAllocations w))))
    (max_step_size (heap_ w)).

(** Whether [AdvanceIncrementalMarkingOnAllocation] gets past its guard
    and its threshold test. *)
Definition allocation_step_due (w : World) : bool :=
  negb (negb (gc_state_is_NOT_IN_GC (heap_ w))
        || negb (FLAG_incremental_marking (fl w))
        || (negb (State_eqb (state_ (im w)) SWEEPING)
            && negb (State_eqb (state_ (im w)) MARKING))
        || always_allocate (heap_ w))
  && (kAllocatedThreshold (fl w)
      <=? wrap_size_t
            (fst (StepSizeToKeepUpWithAllocations w)
             + StepSizeToMakeProgress
                 (snd (StepSizeToKeepUpWithAllocations w)))).

(** *** The chunks of a large fixed array's scan

    The [k]-th chunk of a scan that starts at offset [s]. *)
Definition chunk_start (s : Z) (k : nat) : Z :=
  s + Z.of_nat k * kProgressBarScanningChunk.

Definition chunk_end (object_size s : Z) (k : nat) : Z :=
  Z.min object_size (chunk_start s (S k)).

(** Every entry of the worklist of [w'] was on the worklist of [w] or was
    White in [w]. *)
Definition pushes_only_white (w w' : World) : Prop :=
  forall x,
    In x (MarkingWorklist.entries (marking_worklist (gc w'))) ->
    In x (MarkingWorklist.entries (marking_worklist (gc w)))
    \/ ObjectMarking.IsWhite x w = true.

(** *** The worklist after a scavenge, entry by entry

    What becomes of each entry, in the words of the amended claim: a
    from-space entry is rewritten to its forwarding address or dropped when
    it has none; an entry in to-space or on a SWEEP_TO_ITERATE page is kept
    exactly when it is externally Grey; any other entry is kept unless its
    map is the one-pointer filler map. *)
Inductive scavenged (w : World) : list Address -> list Address -> Prop :=
| scavenged_nil : scavenged w [] []
| scavenged_forwarded (obj dest : Address) (l l' : list Address) :
    InFromSpace w obj = true ->
    map_word (object_at (heap_ w) obj) = ForwardingAddress dest ->
    scavenged w l l' -> scavenged w (obj :: l) (dest :: l')
| scavenged_dead (obj : Address) (l l' : list Address) :
    InFromSpace w obj = true ->
    IsForwardingAddress (map_word (object_at (heap_ w) obj)) = false ->
    scavenged w l l' -> scavenged w (obj :: l) l'
| scavenged_grey (obj : Address) (l l' : list Address) :
    InFromSpace w obj = false ->
    InToSpace w obj = true \/ SWEEP_TO_ITERATE (chunk_of w obj) = true ->
    ObjectMarking.IsGreyExternal obj w = true ->
    scavenged w l l' -> scavenged w (obj :: l) (obj :: l')
| scavenged_not_grey (obj : Address) (l l' : list Address) :
    InFromSpace w obj = false ->
    InToSpace w obj = true \/ SWEEP_TO_ITERATE (chunk_of w obj) = true ->
    ObjectMarking.IsGreyExternal obj w = false ->
    scavenged w l l' -> scavenged w (obj :: l) l'
| scavenged_filler (obj : Address) (l l' : list Address) :
    InFromSpace w obj = false -> InToSpace w obj = false ->
    SWEEP_TO_ITERATE (chunk_of w obj) = false ->
    obj_map w obj = one_pointer_filler_map (heap_ w) ->
    scavenged w l l' -> scavenged w (obj :: l) l'
| scavenged_live (obj : Address) (l l' : list Address) :
    InFromSpace w obj = false -> InToSpace w obj = false ->
    SWEEP_TO_ITERATE (chunk_of w obj) = false ->
    obj_map w obj <> one_pointer_filler_map (heap_ w) ->
    scavenged w l l' -> scavenged w (obj :: l) (obj :: l').

(* ------------------------------------------------------------------ *)
(** ** Notions for the properties of the marking steps *)

(** Marking that keeps the layout and clears no mark bit. *)
Definition bits_grow (w w' : World) : Prop :=
  heap_ w' = heap_ w
  /\ forall i, internal_marking (gc w) i = true ->
               internal_marking (gc w') i = true.

(** The address of slot number [i] counted from [start]. *)
Definition slot_at (w : World) (start : Address) (i : nat) : Address :=
  start + Z.of_nat i * kPointerSize (fl w).

(** The offset of an object's first pointer field, as the visitor of its
    kind scans it. *)
Definition first_field (w : World) (obj : Address) : Z :=
  match instance_kind (object_at (heap_ w) obj) with
  | FIXED_ARRAY_KIND => FixedArray_kStartOffset (fl w)
  | _ => body_start (object_at (heap_ w) obj)
  end.

(** The worlds the controller's operations lead to from [w]; [Start] is
    called on a stopped marker only, as its assertion asks. *)
Inductive reaches (fuel : nat) (w : World) : World -> Prop :=
| reaches_here : reaches fuel w w
| reaches_run (op : Operation) (w1 w2 : World) :
    reaches fuel w w1 ->
    (op = OpStart -> IsStopped w1 = true) ->
    run fuel op w1 = Some w2 ->
    reaches fuel w w2.

(** The normalized map cache of a native context, as [Hurry] reads it. *)
Definition normalized_map_cache (w : World) (context : Address) : Object :=
  load (heap_ w) (RawField context (NORMALIZED_MAP_CACHE_offset (fl w))).

(** The guard of [AdvanceIncrementalMarkingOnAllocation]. *)
Definition no_step_on_allocation (w : World) : bool :=
  negb (gc_state_is_NOT_IN_GC (heap_ w))
  || negb (FLAG_incremental_marking (fl w))
  || (negb (State_eqb (state_ (im w)) SWEEPING)
      && negb (State_eqb (state_ (im w)) MARKING))
  || always_allocate (heap_ w).

(** [bytes_allocated_] once [StepSizeToKeepUpWithAllocations] has added
    what the heap's counter advanced by. *)
Definition allocated_since_last_step (w : World) : Z :=
  wrap_size_t
    (bytes_allocated_ (im w)
     + (OldGenerationAllocationCounter (heap_ w)
        - old_generation_allocation_counter_ (im w))).

(** The forward moves of the marker within one cycle. *)
Definition moves_forward (s s' : State) : Prop :=
  (s = SWEEPING /\ (s' = MARKING \/ s' = COMPLETE))
  \/ (s = MARKING /\ s' = COMPLETE).

(* ================================================================== *)
(** * Properties *)

(** ** Arithmetic on [int]s *)

Lemma to_int_fits (n : Z) : - 2 ^ 31 <= n < 2 ^ 31 -> to_int n = n.
Proof. intros H. unfold to_int. rewrite Z.mod_small by lia. lia. Qed.

(** ** The mark-bit store and the worklist *)

Lemma SetBit_same (m : Marking.MarkBit) (b : Marking.Bitmap) :
  Marking.SetBit m b m = true.
Proof. unfold Marking.SetBit. now rewrite Z.eqb_refl. Qed.

Lemma SetBit_other (m i : Marking.MarkBit) (b : Marking.Bitmap) :
  i <> m -> Marking.SetBit m b i = b i.
Proof.
  intros H. unfold Marking.SetBit.
  destruct (Z.eqb_spec i m); [contradiction | reflexivity].
Qed.

Lemma SetBit_true (m i : Marking.MarkBit) (b : Marking.Bitmap) :
  b i = true -> Marking.SetBit m b i = true.
Proof. intros H. unfold Marking.SetBit. destruct (i =? m); auto. Qed.

Lemma Next_neq (m : Marking.MarkBit) : Marking.Next m <> m.
Proof. unfold Marking.Next. lia. Qed.

Lemma IsWhite_bits (b : Marking.Bitmap) (m : Marking.MarkBit) :
  Marking.IsWhite b m = true <->
  b m = false /\ b (Marking.Next m) = false.
Proof.
  unfold Marking.IsWhite, Marking.Get.
  destruct (b m), (b (Marking.Next m)); simpl; intuition congruence.
Qed.

Lemma IsGrey_bits (b : Marking.Bitmap) (m : Marking.MarkBit) :
  Marking.IsGrey b m = true <->
  b m = true /\ b (Marking.Next m) = false.
Proof.
  unfold Marking.IsGrey, Marking.Get.
  destruct (b m), (b (Marking.Next m)); simpl; intuition congruence.
Qed.

Lemma IsBlack_bits (b : Marking.Bitmap) (m : Marking.MarkBit) :
  Marking.IsBlack b m = true <->
  b m = true /\ b (Marking.Next m) = true.
Proof.
  unfold Marking.IsBlack, Marking.Get.
  destruct (b m), (b (Marking.Next m)); simpl; intuition congruence.
Qed.

(** A successful White-to-Grey transition leaves the object Grey. *)
Lemma WhiteToGrey_grey (b : Marking.Bitmap) (m : Marking.MarkBit) :
  Marking.IsWhite b m = true ->
  Marking.WhiteToGrey m b = (true, Marking.SetBit m b)
  /\ Marking.IsGrey (Marking.SetBit m b) m = true.
Proof.
  intros H. unfold Marking.WhiteToGrey. rewrite H. split; [reflexivity|].
  apply IsWhite_bits in H. destruct H as [_ H2].
  apply IsGrey_bits. split.
  - apply SetBit_same.
  - rewrite SetBit_other; [exact H2 | apply Next_neq].
Qed.

Lemma WhiteToGrey_fails (b : Marking.Bitmap) (m : Marking.MarkBit) :
  Marking.IsWhite b m = false -> Marking.WhiteToGrey m b = (false, b).
Proof. intros H. unfold Marking.WhiteToGrey. now rewrite H. Qed.

Lemma Push_not_full (o : Address) (wl : MarkingWorklist.t) :
  MarkingWorklist.IsFull wl = false ->
  MarkingWorklist.Push o wl
  = (true, MarkingWorklist.mk (o :: MarkingWorklist.shared wl)
             (MarkingWorklist.bailout wl) (MarkingWorklist.capacity wl)).
Proof. intros H. unfold MarkingWorklist.Push. now rewrite H. Qed.

Lemma Push_full (o : Address) (wl : MarkingWorklist.t) :
  MarkingWorklist.IsFull wl = true -> MarkingWorklist.Push o wl = (false, wl).
Proof. intros H. unfold MarkingWorklist.Push. now rewrite H. Qed.

(** ** WhiteToGreyAndPush *)

Lemma WhiteToGreyAndPush_white (obj : Address) (w : World) :
  ObjectMarking.IsWhite obj w = true ->
  WhiteToGreyAndPush obj w
  = (true,
     snd (Push obj
            (set_internal_marking
               (Marking.SetBit (MarkBitFrom w obj) (internal_marking (gc w)))
               w))).
Proof.
  intros H. unfold WhiteToGreyAndPush, ObjectMarking.WhiteToGrey,
    ObjectMarking.lift.
  unfold ObjectMarking.IsWhite in H.
  destruct (WhiteToGrey_grey _ _ H) as [E _]. rewrite E. reflexivity.
Qed.

Lemma WhiteToGreyAndPush_not_white (obj : Address) (w : World) :
  ObjectMarking.IsWhite obj w = false ->
  WhiteToGreyAndPush obj w = (false, w).
Proof.
  intros H. unfold WhiteToGreyAndPush, ObjectMarking.WhiteToGrey,
    ObjectMarking.lift.
  unfold ObjectMarking.IsWhite in H.
  rewrite (WhiteToGrey_fails _ _ H). reflexivity.
Qed.

(** C9. [WhiteToGreyAndPush(o)] returns true exactly when [o] was White;
    it then leaves [o] Grey and has called [Push(o)] on the worklist (so
    [o] is on top of the shared stack unless the worklist was full), and a
    second call returns false and changes nothing; when [o] was Grey or
    Black it returns false and the world, the worklist included, is
    unchanged. *)
Theorem WhiteToGreyAndPush_pushes_exactly_white (obj : Address) (w : World) :
  let r := WhiteToGreyAndPush obj w in
  fst r = ObjectMarking.IsWhite obj w
  /\ (ObjectMarking.IsWhite obj w = true ->
      ObjectMarking.IsGrey obj (snd r) = true
      /\ marking_worklist (gc (snd r))
         = snd (MarkingWorklist.Push obj (marking_worklist (gc w)))
      /\ (MarkingWorklist.IsFull (marking_worklist (gc w)) = false ->
          MarkingWorklist.shared (marking_worklist (gc (snd r)))
          = obj :: MarkingWorklist.shared (marking_worklist (gc w)))
      /\ WhiteToGreyAndPush obj (snd r) = (false, snd r))
  /\ (ObjectMarking.IsWhite obj w = false -> r = (false, w)).
Proof.
  cbv zeta. destruct (ObjectMarking.IsWhite obj w) eqn:HW.
  - rewrite (WhiteToGreyAndPush_white _ _ HW). cbn [fst snd].
    split; [reflexivity|]. split; [|discriminate].
    intros _.
    assert (G : ObjectMarking.IsGrey obj
                  (snd (Push obj
                     (set_internal_marking
                        (Marking.SetBit (MarkBitFrom w obj)
                           (internal_marking (gc w))) w))) = true).
    { unfold ObjectMarking.IsWhite in HW.
      destruct (WhiteToGrey_grey _ _ HW) as [_ G]. exact G. }
    split; [exact G|]. split; [reflexivity|]. split.
    + intros NF. unfold Push. cbn.
      rewrite (Push_not_full _ _ NF). reflexivity.
    + apply WhiteToGreyAndPush_not_white.
      unfold ObjectMarking.IsGrey in G. unfold ObjectMarking.IsWhite.
      apply IsGrey_bits in G. destruct G as [G1 _].
      unfold Marking.IsWhite, Marking.Get. rewrite G1. reflexivity.
  - rewrite (WhiteToGreyAndPush_not_white _ _ HW). cbn [fst snd].
    split; [reflexivity|]. split; [discriminate|]. reflexivity.
Qed.

(** ** The write barrier *)

Lemma RestartIfNotMarking_gc (w : World) : gc (RestartIfNotMarking w) = gc w.
Proof. unfold RestartIfNotMarking. destruct (State_eqb _ _); reflexivity. Qed.

Lemma RestartIfNotMarking_heap (w : World) :
  heap_ (RestartIfNotMarking w) = heap_ w.
Proof. unfold RestartIfNotMarking. destruct (State_eqb _ _); reflexivity. Qed.

Lemma RestartIfNotMarking_is_compacting (w : World) :
  is_compacting_ (im (RestartIfNotMarking w)) = is_compacting_ (im w).
Proof. unfold RestartIfNotMarking. destruct (State_eqb _ _); reflexivity. Qed.

Lemma barrier_marked_is_compacting (obj v : Address) (w : World) :
  is_compacting_ (im (barrier_marked obj v w)) = is_compacting_ (im w).
Proof.
  unfold barrier_marked.
  destruct (_ || _); [|reflexivity].
  destruct (ObjectMarking.IsWhite v w); [|reflexivity].
  rewrite RestartIfNotMarking_is_compacting. reflexivity.
Qed.

Lemma BaseRecordWrite_eq (obj v : Address) (w : World) :
  BaseRecordWrite obj (HeapPointer v) w
  = (is_compacting_ (im w)
     && (FLAG_concurrent_marking (fl w) || ObjectMarking.IsBlack obj w),
     barrier_marked obj v w).
Proof.
  pose proof (barrier_marked_is_compacting obj v w) as HC.
  unfold BaseRecordWrite, barrier_marked in *. cbn [HeapObject_cast].
  destruct (FLAG_concurrent_marking (fl w) || ObjectMarking.IsBlack obj w).
  - destruct (ObjectMarking.IsWhite v w) eqn:HW.
    + rewrite (WhiteToGreyAndPush_white _ _ HW). rewrite HC. reflexivity.
    + rewrite (WhiteToGreyAndPush_not_white _ _ HW). reflexivity.
  - reflexivity.
Qed.

Lemma RecordWriteSlow_eq (obj slot v : Address) (w : World) :
  RecordWriteSlow obj slot (HeapPointer v) w
  = (if is_compacting_ (im w)
        && (FLAG_concurrent_marking (fl w) || ObjectMarking.IsBlack obj w)
        && negb (slot =? 0)
     then RecordSlot obj slot (HeapPointer v) (barrier_marked obj v w)
     else barrier_marked obj v w).
Proof. unfold RecordWriteSlow. rewrite BaseRecordWrite_eq. reflexivity. Qed.

Lemma barrier_marked_white (obj v : Address) (w : World) :
  (FLAG_concurrent_marking (fl w) || ObjectMarking.IsBlack obj w)
  && ObjectMarking.IsWhite v w = true ->
  ObjectMarking.IsGrey v (barrier_marked obj v w) = true
  /\ marking_worklist (gc (barrier_marked obj v w))
     = snd (MarkingWorklist.Push v (marking_worklist (gc w))).
Proof.
  intros H. apply andb_prop in H. destruct H as [HN HW].
  unfold barrier_marked. rewrite HN, HW.
  unfold ObjectMarking.IsGrey, MarkBitFrom.
  rewrite RestartIfNotMarking_gc, RestartIfNotMarking_heap. cbn.
  split; [|reflexivity].
  unfold ObjectMarking.IsWhite in HW.
  apply (WhiteToGrey_grey _ _ HW).
Qed.

Lemma barrier_marked_other (obj v : Address) (w : World) :
  (FLAG_concurrent_marking (fl w) || ObjectMarking.IsBlack obj w)
  && ObjectMarking.IsWhite v w = false ->
  barrier_marked obj v w = w.
Proof.
  intros H. unfold barrier_marked.
  destruct (_ || _); [|reflexivity].
  cbn in H. rewrite H. reflexivity.
Qed.

(** C1. For [RecordWriteSlow(obj, slot, value)] with [value] a heap
    object, and [need_recording] standing for "concurrent marking is enabled
    or [obj] is Black": if [need_recording] and [value] was White, [value]
    is Grey afterwards and [Push(value)] was called on the worklist (so
    [value] is on top of the shared stack unless the worklist was full);
    otherwise the mark bits and the worklist are unchanged. The slot is
    registered with the compacting collector if and only if
    [need_recording], the collector is compacting and [slot] is not null. *)
Theorem RecordWriteSlow_marks_and_records (obj slot v : Address) (w : World) :
  let value := HeapPointer v in
  let need_recording :=
    FLAG_concurrent_marking (fl w) || ObjectMarking.IsBlack obj w in
  let w' := RecordWriteSlow obj slot value w in
  (need_recording && ObjectMarking.IsWhite v w = true ->
   ObjectMarking.IsGrey v w' = true
   /\ marking_worklist (gc w')
      = snd (MarkingWorklist.Push v (marking_worklist (gc w)))
   /\ (MarkingWorklist.IsFull (marking_worklist (gc w)) = false ->
       MarkingWorklist.shared (marking_worklist (gc w'))
       = v :: MarkingWorklist.shared (marking_worklist (gc w))))
  /\ (need_recording && ObjectMarking.IsWhite v w = false ->
      internal_marking (gc w') = internal_marking (gc w)
      /\ marking_worklist (gc w') = marking_worklist (gc w))
  /\ (is_compacting_ (im w) && need_recording && negb (slot =? 0) = true ->
      recorded_slots (gc w') = (obj, slot, v) :: recorded_slots (gc w))
  /\ (is_compacting_ (im w) && need_recording && negb (slot =? 0) = false ->
      recorded_slots (gc w') = recorded_slots (gc w)).
Proof.
  cbv zeta. rewrite RecordWriteSlow_eq.
  assert (HS : recorded_slots (gc (barrier_marked obj v w))
               = recorded_slots (gc w)).
  { unfold barrier_marked. destruct (_ || _); [|reflexivity].
    destruct (ObjectMarking.IsWhite v w); [|reflexivity].
    rewrite RestartIfNotMarking_gc. reflexivity. }
  split; [|split; [|split]].
  - intros H. destruct (barrier_marked_white _ _ _ H) as [G WL].
    assert (E : ObjectMarking.IsGrey v
                  (if is_compacting_ (im w)
                      && (FLAG_concurrent_marking (fl w)
                          || ObjectMarking.IsBlack obj w)
                      && negb (slot =? 0)
                   then RecordSlot obj slot (HeapPointer v)
                          (barrier_marked obj v w)
                   else barrier_marked obj v w) = true
                /\ marking_worklist
                     (gc (if is_compacting_ (im w)
                             && (FLAG_concurrent_marking (fl w)
                                 || ObjectMarking.IsBlack obj w)
                             && negb (slot =? 0)
                          then RecordSlot obj slot (HeapPointer v)
                                 (barrier_marked obj v w)
                          else barrier_marked obj v w))
                   = snd (MarkingWorklist.Push v (marking_worklist (gc w)))).
    { destruct (_ && negb (slot =? 0)); split; assumption. }
    destruct E as [E1 E2]. split; [exact E1|]. split; [exact E2|].
    intros NF. rewrite E2, (Push_not_full _ _ NF). reflexivity.
  - intros H. rewrite (barrier_marked_other _ _ _ H).
    destruct (_ && negb (slot =? 0)); split; reflexivity.
  - intros H. rewrite H. cbn. rewrite HS. reflexivity.
  - intros H. rewrite H. exact HS.
Qed.

(** ** Left trimming *)

(** Word-aligned [from < to]: the mark bits overlap exactly when [to] is
    one word after [from], and are two bits apart otherwise. *)
Lemma trimmed_mark_bits (k from to : Z) :
  0 < k -> from mod k = 0 -> to mod k = 0 -> from < to ->
  (from + k = to -> to / k = from / k + 1)
  /\ (from + k <> to -> from / k + 2 <= to / k).
Proof.
  intros Hk Hf Ht Hlt.
  pose proof (Z.div_mod from k ltac:(lia)) as E1.
  pose proof (Z.div_mod to k ltac:(lia)) as E2.
  rewrite Hf in E1. rewrite Ht in E2.
  set (a := from / k) in *. set (c := to / k) in *.
  assert (Hac : a < c) by nia.
  split; intros H.
  - assert (k * (c - a - 1) = 0) by lia.
    assert (c - a - 1 = 0) by nia. lia.
  - destruct (Z.eq_dec c (a + 1)) as [E|E]; [|lia].
    exfalso. apply H. subst c. lia.
Qed.

(** The concurrent-marking prelude of [NotifyLeftTrimming], when [from]
    was Black and when it was Grey. *)
Lemma trim_prelude_black (b : Marking.Bitmap) (o : Marking.MarkBit)
  (concurrent : bool) :
  b o = true -> b (Marking.Next o) = true ->
  (if concurrent
   then Marking.GreyToBlack o (snd (Marking.WhiteToGrey o b))
   else (false, b)) = (false, b).
Proof.
  intros B1 B2. destruct concurrent; [|reflexivity].
  unfold Marking.WhiteToGrey, Marking.GreyToBlack, Marking.IsWhite,
    Marking.IsGrey, Marking.Get.
  rewrite B1. cbn [negb andb snd]. rewrite B1, B2. reflexivity.
Qed.

Lemma trim_prelude_grey (b : Marking.Bitmap) (o : Marking.MarkBit)
  (concurrent : bool) :
  b o = true -> b (Marking.Next o) = false ->
  (if concurrent
   then Marking.GreyToBlack o (snd (Marking.WhiteToGrey o b))
   else (false, b))
  = (concurrent, if concurrent then Marking.SetBit (Marking.Next o) b else b).
Proof.
  intros B1 B2. destruct concurrent; [|reflexivity].
  unfold Marking.WhiteToGrey, Marking.GreyToBlack, Marking.IsWhite,
    Marking.IsGrey, Marking.Get.
  rewrite B1. cbn [negb andb snd]. rewrite B1, B2. reflexivity.
Qed.

(** The world [NotifyLeftTrimming] leaves on its grey path. *)
Lemma trim_pushed (to : Address) (B : Marking.Bitmap) (w : World) :
  let X := RestartIfNotMarking (snd (Push to (set_internal_marking B w))) in
  internal_marking (gc X) = B
  /\ heap_ X = heap_ w
  /\ marking_worklist (gc X)
     = snd (MarkingWorklist.Push to (marking_worklist (gc w))).
Proof.
  cbv zeta. rewrite RestartIfNotMarking_gc, RestartIfNotMarking_heap.
  repeat split.
Qed.

(** C2, as amended. For [NotifyLeftTrimming(from, to)] with word-aligned
    [from < to] on the same chunk, in a call that meets the function's
    assertions: if black allocation is on and [to] is already Black the call
    changes nothing; if [from] was Black then [to] is Black afterwards; and
    if [from] was Grey and the call is not of the first kind, [to] is Grey
    afterwards and [Push(to)] was called on the worklist. All of it holds
    whether or not the mark bits overlap. *)
Theorem NotifyLeftTrimming_transfers_color (from to : Address) (w : World) :
  0 < kPointerSize (fl w) ->
  from mod kPointerSize (fl w) = 0 ->
  to mod kPointerSize (fl w) = 0 ->
  from < to ->
  FromAddress w from = FromAddress w to ->
  let in_black_area :=
    black_allocation_ (im w) && ObjectMarking.IsBlack to w in
  let overlap := from + kPointerSize (fl w) =? to in
  (* DCHECK(success), in both branches *)
  (overlap = false -> in_black_area = false ->
   ObjectMarking.IsWhite to w = true) ->
  (* DCHECK(!new_mark_bit.Next().Get()) *)
  (overlap = true -> ObjectMarking.IsGrey from w = true ->
   Marking.Get (internal_marking (gc w))
     (Marking.Next (MarkBitFrom w to)) = false) ->
  let w' := NotifyLeftTrimming from to w in
  (in_black_area = true -> w' = w)
  /\ (ObjectMarking.IsBlack from w = true ->
      ObjectMarking.IsBlack to w' = true)
  /\ (ObjectMarking.IsGrey from w = true -> in_black_area = false ->
      ObjectMarking.IsGrey to w' = true
      /\ marking_worklist (gc w')
         = snd (MarkingWorklist.Push to (marking_worklist (gc w)))
      /\ (MarkingWorklist.IsFull (marking_worklist (gc w)) = false ->
          MarkingWorklist.shared (marking_worklist (gc w'))
          = to :: MarkingWorklist.shared (marking_worklist (gc w)))).
Proof.
  intros Hk Hf Ht Hlt _. cbv zeta. intros D1 D2.
  destruct (trimmed_mark_bits _ _ _ Hk Hf Ht Hlt) as [Hov Hno].
  unfold ObjectMarking.IsBlack, ObjectMarking.IsGrey, ObjectMarking.IsWhite,
    MarkBitFrom in *.
  unfold NotifyLeftTrimming, MarkBitFrom.
  set (b := internal_marking (gc w)) in *.
  set (o := from / kPointerSize (fl w)) in *.
  set (n := to / kPointerSize (fl w)) in *.
  destruct (black_allocation_ (im w) && Marking.IsBlack b n) eqn:HBA.
  { split; [reflexivity|]. split.
    - intros _. apply andb_prop in HBA. apply HBA.
    - intros _ HX. discriminate. }
  split; [discriminate|].
  split.
  - (* from was Black *)
    intros HB. apply IsBlack_bits in HB. destruct HB as [B1 B2].
    rewrite (trim_prelude_black _ _ _ B1 B2).
    assert (IB : Marking.IsBlack b o = true)
      by (apply IsBlack_bits; split; assumption).
    rewrite IB. cbn [andb negb].
    destruct (from + kPointerSize (fl w) =? to) eqn:OV.
    + apply Z.eqb_eq in OV. specialize (Hov OV).
      change (Marking.IsBlack (Marking.SetBit (Marking.Next n) b) n = true).
      apply IsBlack_bits. split; [|apply SetBit_same].
      apply SetBit_true. rewrite Hov. exact B2.
    + apply Z.eqb_neq in OV. specialize (Hno OV).
      specialize (D1 eq_refl eq_refl).
      change (Marking.IsBlack (snd (Marking.WhiteToBlack n b)) n = true).
      unfold Marking.WhiteToBlack.
      destruct (WhiteToGrey_grey _ _ D1) as [E G]. rewrite E.
      unfold Marking.GreyToBlack. rewrite G. cbn [snd].
      apply IsGrey_bits in G. destruct G as [G1 _].
      apply IsBlack_bits. split; [|apply SetBit_same].
      apply SetBit_true. exact G1.
  - (* from was Grey *)
    intros HG _. pose proof HG as HG'.
    apply IsGrey_bits in HG. destruct HG as [G1 G2].
    rewrite (trim_prelude_grey _ _ _ G1 G2).
    set (bits1 := if FLAG_concurrent_marking (fl w)
                  then Marking.SetBit (Marking.Next o) b else b).
    assert (K1 : Marking.IsBlack bits1 o
                 && negb (FLAG_concurrent_marking (fl w)) = false).
    { subst bits1. destruct (FLAG_concurrent_marking (fl w)).
      - apply andb_false_r.
      - unfold Marking.IsBlack, Marking.Get. rewrite G1, G2. reflexivity. }
    assert (K2 : Marking.IsGrey bits1 o
                 || FLAG_concurrent_marking (fl w) = true).
    { subst bits1. destruct (FLAG_concurrent_marking (fl w)).
      - apply orb_true_r.
      - rewrite HG'. reflexivity. }
    rewrite K1, K2.
    match goal with
    | |- context [RestartIfNotMarking
                    (snd (Push to (set_internal_marking ?B w)))] =>
      destruct (trim_pushed to B w) as (EB & EH & EW); set (bits2 := B) in *
    end.
    cbv zeta in EB, EH, EW.
    rewrite EB, EH, EW.
    assert (G : Marking.IsGrey bits2 n = true).
    { subst bits2. destruct (from + kPointerSize (fl w) =? to) eqn:OV.
      - apply Z.eqb_eq in OV. specialize (Hov OV).
        specialize (D2 eq_refl HG'). unfold Marking.Get in D2.
        apply IsGrey_bits. split; [apply SetBit_same|].
        rewrite SetBit_other by apply Next_neq.
        subst bits1. destruct (FLAG_concurrent_marking (fl w)); [|exact D2].
        rewrite SetBit_other by (unfold Marking.Next; lia). exact D2.
      - apply Z.eqb_neq in OV. specialize (Hno OV).
        specialize (D1 eq_refl eq_refl).
        apply IsWhite_bits in D1. destruct D1 as [W1 W2].
        assert (WN : Marking.IsWhite bits1 n = true).
        { apply IsWhite_bits. subst bits1.
          destruct (FLAG_concurrent_marking (fl w)); [|split; assumption].
          rewrite !SetBit_other by (unfold Marking.Next; lia).
          split; assumption. }
        destruct (WhiteToGrey_grey _ _ WN) as [E G]. rewrite E. exact G. }
    split; [exact G|]. split; [reflexivity|].
    intros NF. rewrite (Push_not_full _ _ NF). reflexivity.
Qed.

Lemma NotifyLeftTrimming_transfers_color_witness :
  ObjectMarking.IsGrey 1032 (NotifyLeftTrimming 1024 1032 grey_1024_world)
  = true
  /\ ObjectMarking.IsBlack 1056
       (NotifyLeftTrimming 1024 1056 black_1024_world) = true.
Proof.
  split.
  - refine (proj1 (proj2 (proj2
      (NotifyLeftTrimming_transfers_color 1024 1032 grey_1024_world
         _ _ _ _ _ _ _)) _ _)).
    + reflexivity.
    + reflexivity.
    + reflexivity.
    + reflexivity.
    + reflexivity.
    + discriminate.
    + reflexivity.
    + reflexivity.
    + reflexivity.
  - refine (proj1 (proj2
      (NotifyLeftTrimming_transfers_color 1024 1056 black_1024_world
         _ _ _ _ _ _ _)) _).
    + reflexivity.
    + reflexivity.
    + reflexivity.
    + reflexivity.
    + reflexivity.
    + reflexivity.
    + discriminate.
    + reflexivity.
Defined.

(** With black allocation on and [to] in a black area, a Grey [from]
    leaves [to] Black, not Grey, and nothing is pushed. *)
Lemma NotifyLeftTrimming_grey_into_black_area :
  ObjectMarking.IsGrey 1024 trim_world = true
  /\ FromAddress trim_world 1024 = FromAddress trim_world 1056
  /\ ObjectMarking.IsGrey 1056 (NotifyLeftTrimming 1024 1056 trim_world)
     = false
  /\ ObjectMarking.IsBlack 1056 (NotifyLeftTrimming 1024 1056 trim_world)
     = true
  /\ marking_worklist (gc (NotifyLeftTrimming 1024 1056 trim_world))
     = marking_worklist (gc trim_world).
Proof. repeat split. Qed.

(** ** The worklist after a scavenge *)

Lemma filter_map_app (f : Address -> option Address) (l1 l2 : list Address) :
  MarkingWorklist.filter_map f (l1 ++ l2)
  = MarkingWorklist.filter_map f l1 ++ MarkingWorklist.filter_map f l2.
Proof.
  induction l1 as [|o l1 IH]; [reflexivity|].
  cbn. rewrite IH. destruct (f o); reflexivity.
Qed.

Lemma filter_map_In (f : Address -> option Address) (l : list Address)
  (o' : Address) :
  In o' (MarkingWorklist.filter_map f l) <->
  exists o, In o l /\ f o = Some o'.
Proof.
  induction l as [|a l IH]; cbn.
  - split; [contradiction | intros (o & [] & _)].
  - destruct (f a) eqn:E; cbn; rewrite IH; split.
    + intros [<- | (o & Ho & Hf)]; [exists a | exists o]; auto.
    + intros (o & [<- | Ho] & Hf).
      * left. congruence.
      * right. exists o. auto.
    + intros (o & Ho & Hf). exists o. auto.
    + intros (o & [<- | Ho] & Hf); [congruence|]. exists o. auto.
Qed.

Lemma Update_entries (f : Address -> option Address) (wl : MarkingWorklist.t) :
  MarkingWorklist.entries (MarkingWorklist.Update f wl)
  = MarkingWorklist.filter_map f (MarkingWorklist.entries wl).
Proof. unfold MarkingWorklist.entries. rewrite filter_map_app. reflexivity. Qed.

(** The callback's result, entry by entry, is the one described by
    [scavenged]. *)
Lemma scavenge_callback_scavenged (w : World) (l : list Address) :
  scavenged w l (MarkingWorklist.filter_map (scavenge_callback w) l).
Proof.
  induction l as [|obj l IH]; cbn [MarkingWorklist.filter_map];
    [apply scavenged_nil|].
  unfold scavenge_callback at 1. cbv zeta.
  destruct (InFromSpace w obj) eqn:F.
  - destruct (map_word (object_at (heap_ w) obj)) as [m | dest] eqn:M;
      cbn [IsForwardingAddress negb ToForwardingAddress].
    + apply scavenged_dead; [exact F | rewrite M; reflexivity | exact IH].
    + apply (scavenged_forwarded w obj dest); assumption.
  - destruct (InToSpace w obj) eqn:T.
    + destruct (ObjectMarking.IsGreyExternal obj w) eqn:G.
      * apply scavenged_grey; auto.
      * apply scavenged_not_grey; auto.
    + destruct (SWEEP_TO_ITERATE (chunk_of w obj)) eqn:S.
      * destruct (ObjectMarking.IsGreyExternal obj w) eqn:G.
        -- apply scavenged_grey; auto.
        -- apply scavenged_not_grey; auto.
      * destruct (Z.eqb_spec
                    (MapWord_map (map_word (object_at (heap_ w) obj)))
                    (one_pointer_filler_map (heap_ w))) as [E | E];
          cbn [negb].
        -- apply scavenged_filler; auto.
        -- apply scavenged_live; auto.
Qed.

(** C3, as amended. While marking is active, and provided the scavenger
    left every forwarding address of a worklist entry pointing outside
    from-space: [UpdateMarkingWorklistAfterScavenge] rewrites the worklist
    entry by entry, in order. A from-space entry becomes its forwarding
    address if it has one and is dropped otherwise; an entry in to-space or
    on a page flagged SWEEP_TO_ITERATE is kept if it is externally Grey and
    dropped if it is not, filler or not; any other old-space entry is
    dropped if its map is the one-pointer filler map and kept if it is not.
    So every forwarded entry's destination is on the new worklist, and no
    entry of the new worklist is in from-space. *)
Theorem UpdateMarkingWorklistAfterScavenge_rewrites (w : World) :
  IsMarking w = true ->
  (forall obj,
     In obj (MarkingWorklist.entries (marking_worklist (gc w))) ->
     InFromSpace w obj = true ->
     IsForwardingAddress (map_word (object_at (heap_ w) obj)) = true ->
     InFromSpace w
       (ToForwardingAddress (map_word (object_at (heap_ w) obj))) = false) ->
  let w' := UpdateMarkingWorklistAfterScavenge w in
  let f := scavenge_callback w in
  let before := MarkingWorklist.entries (marking_worklist (gc w)) in
  let after := MarkingWorklist.entries (marking_worklist (gc w')) in
  after = MarkingWorklist.filter_map f before
  /\ scavenged w before after
  /\ (forall obj dest,
        InFromSpace w obj = true ->
        map_word (object_at (heap_ w) obj) = ForwardingAddress dest ->
        f obj = Some dest /\ (In obj before -> In dest after))
  /\ (forall obj,
        InFromSpace w obj = true ->
        IsForwardingAddress (map_word (object_at (heap_ w) obj)) = false ->
        f obj = None)
  /\ (forall obj,
        InFromSpace w obj = false ->
        InToSpace w obj = true \/ SWEEP_TO_ITERATE (chunk_of w obj) = true ->
        (ObjectMarking.IsGreyExternal obj w = true ->
         f obj = Some obj /\ (In obj before -> In obj after))
        /\ (ObjectMarking.IsGreyExternal obj w = false -> f obj = None))
  /\ (forall obj,
        InFromSpace w obj = false -> InToSpace w obj = false ->
        SWEEP_TO_ITERATE (chunk_of w obj) = false ->
        (obj_map w obj = one_pointer_filler_map (heap_ w) -> f obj = None)
        /\ (obj_map w obj <> one_pointer_filler_map (heap_ w) ->
            f obj = Some obj /\ (In obj before -> In obj after)))
  /\ (forall obj', In obj' after -> InFromSpace w' obj' = false).
Proof.
  intros HM HF. cbv zeta.
  assert (E : MarkingWorklist.entries
                (marking_worklist (gc (UpdateMarkingWorklistAfterScavenge w)))
              = MarkingWorklist.filter_map (scavenge_callback w)
                  (MarkingWorklist.entries (marking_worklist (gc w)))).
  { unfold UpdateMarkingWorklistAfterScavenge. rewrite HM. cbn [negb].
    apply Update_entries. }
  assert (KEEP : forall obj out,
             scavenge_callback w obj = Some out ->
             In obj (MarkingWorklist.entries (marking_worklist (gc w))) ->
             In out
               (MarkingWorklist.entries
                  (marking_worklist
                     (gc (UpdateMarkingWorklistAfterScavenge w))))).
  { intros obj out Hf HI. rewrite E. apply filter_map_In. exists obj. auto. }
  assert (C1 : forall obj dest,
             InFromSpace w obj = true ->
             map_word (object_at (heap_ w) obj) = ForwardingAddress dest ->
             scavenge_callback w obj = Some dest).
  { intros obj dest H1 H2. unfold scavenge_callback. rewrite H1, H2.
    reflexivity. }
  assert (C2 : forall obj,
             InFromSpace w obj = false ->
             InToSpace w obj = true
             \/ SWEEP_TO_ITERATE (chunk_of w obj) = true ->
             scavenge_callback w obj
             = if ObjectMarking.IsGreyExternal obj w then Some obj else None).
  { intros obj H1 H2. unfold scavenge_callback. rewrite H1.
    destruct (InToSpace w obj); [reflexivity|].
    destruct H2 as [H2 | H2]; [discriminate | rewrite H2; reflexivity]. }
  assert (C3 : forall obj,
             InFromSpace w obj = false -> InToSpace w obj = false ->
             SWEEP_TO_ITERATE (chunk_of w obj) = false ->
             scavenge_callback w obj
             = if obj_map w obj =? one_pointer_filler_map (heap_ w)
               then None else Some obj).
  { intros obj H1 H2 H3. unfold scavenge_callback, obj_map.
    rewrite H1, H2, H3. destruct (_ =? _); reflexivity. }
  split; [exact E|]. split; [rewrite E; apply scavenge_callback_scavenged|].
  split; [|split; [|split; [|split]]].
  - intros obj dest H1 H2. split; [exact (C1 _ _ H1 H2)|].
    apply KEEP. exact (C1 _ _ H1 H2).
  - intros obj H1 H2. unfold scavenge_callback. rewrite H1, H2. reflexivity.
  - intros obj H1 H2. rewrite (C2 obj H1 H2). split; intros G; rewrite G.
    + split; [reflexivity|]. apply KEEP. rewrite (C2 obj H1 H2), G.
      reflexivity.
    + reflexivity.
  - intros obj H1 H2 H3. rewrite (C3 obj H1 H2 H3). split; intros G.
    + rewrite G, Z.eqb_refl. reflexivity.
    + apply Z.eqb_neq in G. rewrite G. split; [reflexivity|].
      apply KEEP. rewrite (C3 obj H1 H2 H3), G. reflexivity.
  - intros obj' HI. rewrite E in HI. apply filter_map_In in HI.
    destruct HI as (obj & HI & Hf).
    assert (EQ : InFromSpace (UpdateMarkingWorklistAfterScavenge w) obj'
                 = InFromSpace w obj').
    { unfold UpdateMarkingWorklistAfterScavenge. rewrite HM. reflexivity. }
    rewrite EQ. unfold scavenge_callback in Hf.
    destruct (InFromSpace w obj) eqn:HFS.
    + destruct (IsForwardingAddress (map_word (object_at (heap_ w) obj)))
        eqn:HFW; cbn [negb] in Hf; [|discriminate].
      injection Hf as <-. apply HF; assumption.
    + destruct (InToSpace w obj).
      * destruct (ObjectMarking.IsGreyExternal obj w); [|discriminate].
        injection Hf as <-. exact HFS.
      * destruct (SWEEP_TO_ITERATE (chunk_of w obj)).
        -- destruct (ObjectMarking.IsGreyExternal obj w); [|discriminate].
           injection Hf as <-. exact HFS.
        -- destruct (negb _); [|discriminate].
           injection Hf as <-. exact HFS.
Qed.

(** On [scavenged_world], whose from-space entry is Grey as the
    callback's assertion asks: the evacuated object is rewritten to its
    copy and the one-pointer filler is dropped. *)
Lemma UpdateMarkingWorklistAfterScavenge_rewrites_witness :
  ObjectMarking.IsWhite 524352 scavenged_world = false
  /\ scavenged scavenged_world [524352; 2048]
       (MarkingWorklist.entries
          (marking_worklist
             (gc (UpdateMarkingWorklistAfterScavenge scavenged_world))))
  /\ MarkingWorklist.entries
       (marking_worklist
          (gc (UpdateMarkingWorklistAfterScavenge scavenged_world)))
     = [1048640].
Proof.
  split; [reflexivity|]. split; [|reflexivity].
  refine (proj1 (proj2 (UpdateMarkingWorklistAfterScavenge_rewrites
                          scavenged_world _ _))).
  - reflexivity.
  - intros obj [<- | [<- | []]].
    + reflexivity.
    + discriminate.
Defined.

(** An old-space entry whose map is the one-pointer filler map is kept
    when its page is flagged SWEEP_TO_ITERATE and it is externally Grey. *)
Lemma scavenge_keeps_grey_filler_on_swept_page :
  IsMarking swept_filler_world = true
  /\ InFromSpace swept_filler_world 2048 = false
  /\ InToSpace swept_filler_world 2048 = false
  /\ obj_map swept_filler_world 2048
     = one_pointer_filler_map (heap_ swept_filler_world)
  /\ MarkingWorklist.entries (marking_worklist (gc swept_filler_world))
     = [2048]
  /\ MarkingWorklist.entries
       (marking_worklist
          (gc (UpdateMarkingWorklistAfterScavenge swept_filler_world)))
     = [2048].
Proof. repeat split. Qed.
(* ------------------------------------------------------------------ *)
(** ** Marking never clears a bit *)

Lemma bits_grow_refl (w : World) : bits_grow w w.
Proof. split; auto. Qed.

Lemma bits_grow_trans (w1 w2 w3 : World) :
  bits_grow w1 w2 -> bits_grow w2 w3 -> bits_grow w1 w3.
Proof. intros [A1 A2] [B1 B2]. split; [congruence | auto]. Qed.

Lemma bits_grow_not_white (w w' : World) (a : Address) :
  bits_grow w w' ->
  ObjectMarking.IsWhite a w = false -> ObjectMarking.IsWhite a w' = false.
Proof.
  intros [H1 H2] HW. unfold ObjectMarking.IsWhite, MarkBitFrom in *.
  rewrite H1. set (m := a / kPointerSize (fl w)) in *.
  destruct (Marking.IsWhite (internal_marking (gc w')) m) eqn:E; [|reflexivity].
  apply IsWhite_bits in E. destruct E as [E1 E2].
  assert (K : Marking.IsWhite (internal_marking (gc w)) m = true).
  { apply IsWhite_bits. split.
    - destruct (internal_marking (gc w) m) eqn:B; [|reflexivity].
      rewrite (H2 _ B) in E1. discriminate.
    - destruct (internal_marking (gc w) (Marking.Next m)) eqn:B; [|reflexivity].
      rewrite (H2 _ B) in E2. discriminate. }
  congruence.
Qed.

Lemma bits_grow_black (w w' : World) (a : Address) :
  bits_grow w w' ->
  ObjectMarking.IsBlack a w = true -> ObjectMarking.IsBlack a w' = true.
Proof.
  intros [H1 H2] HB. unfold ObjectMarking.IsBlack, MarkBitFrom in *.
  rewrite H1. apply IsBlack_bits in HB. destruct HB as [B1 B2].
  apply IsBlack_bits. split; apply H2; assumption.
Qed.

Lemma bits_grow_set (m : Marking.MarkBit) (w : World) :
  bits_grow w
    (set_internal_marking (Marking.SetBit m (internal_marking (gc w))) w).
Proof. split; [reflexivity|]. intros i H. cbn. apply SetBit_true. exact H. Qed.

Lemma bits_grow_frame (w w' : World) :
  heap_ w' = heap_ w -> internal_marking (gc w') = internal_marking (gc w) ->
  bits_grow w w'.
Proof. intros H1 H2. split; [exact H1|]. rewrite H2. auto. Qed.

Lemma WhiteToGreyAndPush_bits_grow (obj : Address) (w : World) :
  bits_grow w (snd (WhiteToGreyAndPush obj w))
  /\ ObjectMarking.IsWhite obj (snd (WhiteToGreyAndPush obj w)) = false
  /\ recorded_slots (gc (snd (WhiteToGreyAndPush obj w)))
     = recorded_slots (gc w)
  /\ (forall a, ObjectMarking.IsWhite a w = true ->
                ObjectMarking.IsWhite a (snd (WhiteToGreyAndPush obj w)) = false ->
                MarkBitFrom w a = MarkBitFrom w obj
                \/ Marking.Next (MarkBitFrom w a) = MarkBitFrom w obj).
Proof.
  destruct (ObjectMarking.IsWhite obj w) eqn:HW.
  - rewrite (WhiteToGreyAndPush_white _ _ HW). cbn [snd].
    split; [|split; [|split]].
    + eapply bits_grow_trans; [apply bits_grow_set|].
      apply bits_grow_frame; reflexivity.
    + unfold ObjectMarking.IsWhite, MarkBitFrom. cbn.
      unfold Marking.IsWhite, Marking.Get. rewrite SetBit_same. reflexivity.
    + reflexivity.
    + intros a A1 A2. unfold ObjectMarking.IsWhite, MarkBitFrom in *.
      cbn in A2. apply IsWhite_bits in A1. destruct A1 as [A11 A12].
      set (ma := a / kPointerSize (fl w)) in *.
      set (mo := obj / kPointerSize (fl w)) in *.
      destruct (Z.eq_dec ma mo) as [E | NE]; [left; exact E|].
      destruct (Z.eq_dec (Marking.Next ma) mo) as [E | NE2]; [right; exact E|].
      exfalso.
      assert (K : Marking.IsWhite
                    (Marking.SetBit mo (internal_marking (gc w))) ma = true).
      { apply IsWhite_bits. rewrite !SetBit_other by assumption. auto. }
      congruence.
  - rewrite (WhiteToGreyAndPush_not_white _ _ HW). cbn [snd].
    split; [apply bits_grow_refl|]. split; [exact HW|].
    split; [reflexivity|]. intros a A1 A2. congruence.
Qed.

(** The one bit [WhiteToGreyAndPush] may set is the object's first. *)
Lemma WhiteToGreyAndPush_bit (obj : Address) (w : World) (i : Z) :
  internal_marking (gc (snd (WhiteToGreyAndPush obj w))) i = true ->
  internal_marking (gc w) i = true \/ i = MarkBitFrom w obj.
Proof.
  destruct (ObjectMarking.IsWhite obj w) eqn:HW.
  - rewrite (WhiteToGreyAndPush_white _ _ HW). cbn.
    unfold Marking.SetBit. destruct (Z.eqb_spec i (MarkBitFrom w obj)); auto.
  - rewrite (WhiteToGreyAndPush_not_white _ _ HW). auto.
Qed.

(** ** The visitor's pointer loop *)

Lemma VisitPointer_target (host p : Address) (w : World) :
  let w' := VisitPointer host p w in
  bits_grow w w'
  /\ (forall a, load (heap_ w) p = HeapPointer a ->
        ObjectMarking.IsWhite a w' = false
        /\ recorded_slots (gc w') = (host, p, a) :: recorded_slots (gc w))
  /\ (forall n, load (heap_ w) p = Smi n -> w' = w)
  /\ (forall i, internal_marking (gc w') i = true ->
        internal_marking (gc w) i = true
        \/ exists a, load (heap_ w) p = HeapPointer a /\ i = MarkBitFrom w a).
Proof.
  cbv zeta. unfold VisitPointer, MarkObject.
  destruct (load (heap_ w) p) as [n | a] eqn:E; cbn [IsHeapObject].
  - split; [apply bits_grow_refl|]. split; [discriminate|].
    split; [reflexivity | auto].
  - cbn [HeapObject_cast].
    set (w1 := RecordSlot host p (HeapPointer a) w).
    destruct (WhiteToGreyAndPush_bits_grow a w1) as (G1 & G2 & G3 & _).
    split; [|split; [|split; [discriminate|]]].
    + eapply bits_grow_trans; [|exact G1].
      apply bits_grow_frame; reflexivity.
    + intros a' [= <-]. split; [exact G2|]. rewrite G3. reflexivity.
    + intros i HI. destruct (WhiteToGreyAndPush_bit a w1 i HI) as [K | K];
        [left; exact K | right; exists a; split; [reflexivity | exact K]].
Qed.

Lemma VisitPointers_loop_targets (n : nat) (host : Address) :
  forall (p : Address) (w : World),
  let w' := VisitPointers_loop n host p w in
  bits_grow w w'
  /\ (exists l, recorded_slots (gc w') = l ++ recorded_slots (gc w))
  /\ (forall (i : nat) (a : Address),
        (i < n)%nat ->
        load (heap_ w) (slot_at w p i) = HeapPointer a ->
        ObjectMarking.IsWhite a w' = false
        /\ In (host, slot_at w p i, a) (recorded_slots (gc w')))
  /\ (forall m, internal_marking (gc w') m = true ->
        internal_marking (gc w) m = true
        \/ exists (i : nat) (a : Address),
             (i < n)%nat
             /\ load (heap_ w) (slot_at w p i) = HeapPointer a
             /\ m = MarkBitFrom w a).
Proof.
  induction n as [|n IH]; intros p w; cbv zeta; cbn [VisitPointers_loop].
  - split; [apply bits_grow_refl|]. split; [exists []; reflexivity|].
    split; [|auto]. intros i a Hi. inversion Hi.
  - destruct (VisitPointer_target host p w) as (V1 & V2 & V3 & V4).
    cbv zeta in V1, V2, V3, V4.
    set (w1 := VisitPointer host p w) in *.
    assert (HH : heap_ w1 = heap_ w) by apply V1.
    destruct (IH (p + kPointerSize (fl w)) w1) as (I1 & (l & I2) & I3 & I4).
    cbv zeta in I1, I2, I3, I4.
    set (w' := VisitPointers_loop n host (p + kPointerSize (fl w)) w1) in *.
    assert (R1 : exists l1, recorded_slots (gc w1) = l1 ++ recorded_slots (gc w)).
    { destruct (load (heap_ w) p) as [m | a] eqn:E.
      - rewrite (V3 m eq_refl). exists []. reflexivity.
      - destruct (V2 a eq_refl) as [_ R]. rewrite R.
        exists [(host, p, a)]. reflexivity. }
    destruct R1 as (l1 & R1).
    assert (SL : forall j, slot_at w p (S j)
                           = slot_at w1 (p + kPointerSize (fl w)) j).
    { intros j. unfold slot_at. rewrite HH. lia. }
    split; [exact (bits_grow_trans _ _ _ V1 I1)|]. split; [|split].
    + exists (l ++ l1). rewrite I2, R1, app_assoc. reflexivity.
    + intros i a Hi HL. destruct i as [|j].
      * unfold slot_at in HL |- *. cbn [Z.of_nat] in *.
        rewrite Z.mul_0_l, Z.add_0_r in *.
        destruct (V2 a HL) as [W R]. split.
        -- exact (bits_grow_not_white _ _ _ I1 W).
        -- rewrite I2. apply in_or_app. right. rewrite R. left. reflexivity.
      * assert (E : slot_at w p (S j)
                    = slot_at w1 (p + kPointerSize (fl w)) j).
        { unfold slot_at. rewrite HH. lia. }
        rewrite E. apply I3; [lia|]. rewrite <- E, HH. exact HL.
    + intros m HM. destruct (I4 m HM) as [K | (j & a & J1 & J2 & J3)].
      * destruct (V4 m K) as [K0 | (a & A1 & A2)]; [left; exact K0|].
        right. exists O, a. split; [lia|]. split; [|exact A2].
        unfold slot_at. cbn [Z.of_nat]. rewrite Z.mul_0_l, Z.add_0_r.
        exact A1.
      * right. exists (S j), a. split; [lia|]. split.
        -- rewrite SL. rewrite HH in J2. exact J2.
        -- unfold MarkBitFrom in *. rewrite HH in J3. exact J3.
Qed.

(** The pointer loop run in a world [w] that has the layout of [w0]. *)
Lemma VisitPointers_visits (host s e : Address) (w0 w : World) :
  heap_ w = heap_ w0 ->
  let w' := VisitPointers host s e w in
  bits_grow w w'
  /\ (exists l, recorded_slots (gc w') = l ++ recorded_slots (gc w))
  /\ (forall (i : nat) (a : Address),
        (i < slot_count w0 s e)%nat ->
        load (heap_ w0) (slot_at w0 s i) = HeapPointer a ->
        ObjectMarking.IsWhite a w' = false
        /\ In (host, slot_at w0 s i, a) (recorded_slots (gc w'))).
Proof.
  intros HH. cbv zeta. unfold VisitPointers.
  destruct (VisitPointers_loop_targets (slot_count w s e) host s w)
    as (H1 & H2 & H3 & _).
  cbv zeta in H1, H2, H3. split; [exact H1|]. split; [exact H2|].
  intros i a Hi HL.
  assert (ES : slot_at w0 s i = slot_at w s i)
    by (unfold slot_at; rewrite HH; reflexivity).
  rewrite ES. apply H3.
  - unfold slot_count in *. rewrite HH. exact Hi.
  - rewrite <- ES, HH. exact HL.
Qed.

(** ** Only White objects are pushed by colour *)

Lemma bits_grow_white (w w' : World) (a : Address) :
  bits_grow w w' ->
  ObjectMarking.IsWhite a w' = true -> ObjectMarking.IsWhite a w = true.
Proof.
  intros G H. destruct (ObjectMarking.IsWhite a w) eqn:E; [reflexivity|].
  rewrite (bits_grow_not_white _ _ _ G E) in H. discriminate.
Qed.

Lemma Push_entries (o x : Address) (wl : MarkingWorklist.t) :
  In x (MarkingWorklist.entries (snd (MarkingWorklist.Push o wl))) ->
  x = o \/ In x (MarkingWorklist.entries wl).
Proof.
  unfold MarkingWorklist.Push. destruct (MarkingWorklist.IsFull wl);
    cbn [snd]; [auto|].
  unfold MarkingWorklist.entries. cbn. intros H.
  apply in_app_or in H. destruct H as [H | [<- | H]]; auto.
  - right. apply in_or_app. auto.
  - right. apply in_or_app. auto.
Qed.

Lemma pushes_only_white_refl (w : World) : pushes_only_white w w.
Proof. intros x H. auto. Qed.

Lemma pushes_only_white_frame (w w' : World) :
  marking_worklist (gc w') = marking_worklist (gc w) ->
  pushes_only_white w w'.
Proof. intros E x H. rewrite E in H. auto. Qed.

Lemma pushes_only_white_trans (w1 w2 w3 : World) :
  bits_grow w1 w2 ->
  pushes_only_white w1 w2 -> pushes_only_white w2 w3 ->
  pushes_only_white w1 w3.
Proof.
  intros G P1 P2 x H. destruct (P2 x H) as [K | K].
  - exact (P1 x K).
  - right. exact (bits_grow_white _ _ _ G K).
Qed.

Lemma WhiteToGreyAndPush_pushes_only_white (obj : Address) (w : World) :
  pushes_only_white w (snd (WhiteToGreyAndPush obj w)).
Proof.
  destruct (ObjectMarking.IsWhite obj w) eqn:HW.
  - rewrite (WhiteToGreyAndPush_white _ _ HW). cbn [snd].
    intros x H. unfold Push in H. cbn in H.
    apply Push_entries in H. destruct H as [-> | H]; auto.
  - rewrite (WhiteToGreyAndPush_not_white _ _ HW). apply pushes_only_white_refl.
Qed.

Lemma VisitPointer_pushes_only_white (host p : Address) (w : World) :
  pushes_only_white w (VisitPointer host p w).
Proof.
  unfold VisitPointer, MarkObject.
  destruct (IsHeapObject _); [|apply pushes_only_white_refl].
  intros x H.
  destruct (WhiteToGreyAndPush_pushes_only_white _ _ x H) as [K | K];
    [left; exact K | right; exact K].
Qed.

Lemma VisitPointers_loop_pushes_only_white (n : nat) (host : Address) :
  forall (p : Address) (w : World),
  pushes_only_white w (VisitPointers_loop n host p w).
Proof.
  induction n as [|n IH]; intros p w; cbn [VisitPointers_loop].
  - apply pushes_only_white_refl.
  - apply (pushes_only_white_trans w (VisitPointer host p w)).
    + apply (VisitPointer_target host p w).
    + apply VisitPointer_pushes_only_white.
    + apply IH.
Qed.

Lemma VisitPointers_pushes_only_white (host s e : Address) (w : World) :
  pushes_only_white w (VisitPointers host s e w).
Proof. apply VisitPointers_loop_pushes_only_white. Qed.

Lemma VisitPointers_bits_grow (host s e : Address) (w : World) :
  bits_grow w (VisitPointers host s e w).
Proof.
  unfold VisitPointers.
  apply (VisitPointers_loop_targets (slot_count w s e) host s w).
Qed.

(** ** Grey to Black *)

Lemma GreyToBlack_bits_grow (obj : Address) (w : World) :
  bits_grow w (snd (ObjectMarking.GreyToBlack obj w)).
Proof.
  unfold ObjectMarking.GreyToBlack, ObjectMarking.lift. cbn [snd].
  unfold Marking.GreyToBlack. destruct (Marking.IsGrey _ _); cbn [snd].
  - apply bits_grow_set.
  - apply bits_grow_frame; reflexivity.
Qed.

Lemma GreyToBlack_black (obj : Address) (w : World) :
  ObjectMarking.IsGrey obj w = true \/ ObjectMarking.IsBlack obj w = true ->
  ObjectMarking.IsBlack obj (snd (ObjectMarking.GreyToBlack obj w)) = true.
Proof.
  unfold ObjectMarking.GreyToBlack, ObjectMarking.lift, ObjectMarking.IsGrey,
    ObjectMarking.IsBlack, MarkBitFrom. cbn [snd gc heap_ set_internal_marking
    with_gc internal_marking]. unfold Marking.GreyToBlack.
  set (b := internal_marking (gc w)). set (m := obj / kPointerSize (fl w)).
  intros [HG | HB].
  - rewrite HG. cbn. apply IsGrey_bits in HG. destruct HG as [G1 _].
    apply IsBlack_bits. split; [apply SetBit_true; exact G1 | apply SetBit_same].
  - destruct (Marking.IsGrey b m); cbn.
    + apply IsBlack_bits in HB. destruct HB as [B1 B2].
      apply IsBlack_bits. split; apply SetBit_true; assumption.
    + exact HB.
Qed.

(** ** The progress bar of [VisitFixedArray] *)

Lemma WhiteToGreyAndPush_heap (obj : Address) (w : World) :
  heap_ (snd (WhiteToGreyAndPush obj w)) = heap_ w.
Proof.
  unfold WhiteToGreyAndPush, ObjectMarking.WhiteToGrey, ObjectMarking.lift.
  destruct (fst _); reflexivity.
Qed.

Lemma WhiteToGreyAndPush_im (obj : Address) (w : World) :
  im (snd (WhiteToGreyAndPush obj w)) = im w.
Proof.
  unfold WhiteToGreyAndPush, ObjectMarking.WhiteToGrey, ObjectMarking.lift.
  destruct (fst _); reflexivity.
Qed.

Lemma WhiteToGreyAndPush_chunk_at (obj : Address) (w : World) :
  chunk_at (gc (snd (WhiteToGreyAndPush obj w))) = chunk_at (gc w).
Proof.
  unfold WhiteToGreyAndPush, ObjectMarking.WhiteToGrey, ObjectMarking.lift.
  destruct (fst _); reflexivity.
Qed.

(** On a full worklist the push fails and the worklist stays as it is. *)
Lemma WhiteToGreyAndPush_full (obj : Address) (w : World) :
  MarkingWorklist.IsFull (marking_worklist (gc w)) = true ->
  marking_worklist (gc (snd (WhiteToGreyAndPush obj w)))
  = marking_worklist (gc w).
Proof.
  intros HF.
  unfold WhiteToGreyAndPush, ObjectMarking.WhiteToGrey, ObjectMarking.lift.
  destruct (fst _); [|reflexivity].
  unfold Push. cbn. rewrite (Push_full _ _ HF). reflexivity.
Qed.

Lemma VisitPointer_heap (host p : Address) (w : World) :
  heap_ (VisitPointer host p w) = heap_ w.
Proof.
  unfold VisitPointer, MarkObject. destruct (IsHeapObject _); [|reflexivity].
  rewrite WhiteToGreyAndPush_heap. reflexivity.
Qed.

Lemma VisitPointer_im (host p : Address) (w : World) :
  im (VisitPointer host p w) = im w.
Proof.
  unfold VisitPointer, MarkObject. destruct (IsHeapObject _); [|reflexivity].
  rewrite WhiteToGreyAndPush_im. reflexivity.
Qed.

Lemma VisitPointer_chunk_at (host p : Address) (w : World) :
  chunk_at (gc (VisitPointer host p w)) = chunk_at (gc w).
Proof.
  unfold VisitPointer, MarkObject. destruct (IsHeapObject _); [|reflexivity].
  rewrite WhiteToGreyAndPush_chunk_at. reflexivity.
Qed.

Lemma VisitPointer_full (host p : Address) (w : World) :
  MarkingWorklist.IsFull (marking_worklist (gc w)) = true ->
  marking_worklist (gc (VisitPointer host p w)) = marking_worklist (gc w).
Proof.
  intros HF. unfold VisitPointer, MarkObject.
  destruct (IsHeapObject _); [|reflexivity].
  rewrite WhiteToGreyAndPush_full; [reflexivity | exact HF].
Qed.

Lemma VisitPointers_loop_frame (n : nat) (host p : Address) (w : World) :
  heap_ (VisitPointers_loop n host p w) = heap_ w
  /\ im (VisitPointers_loop n host p w) = im w
  /\ chunk_at (gc (VisitPointers_loop n host p w)) = chunk_at (gc w)
  /\ (MarkingWorklist.IsFull (marking_worklist (gc w)) = true ->
      marking_worklist (gc (VisitPointers_loop n host p w))
      = marking_worklist (gc w)).
Proof.
  revert p w. induction n as [|n IH]; intros p w; cbn [VisitPointers_loop].
  - repeat split.
  - destruct (IH (p + kPointerSize (fl w)) (VisitPointer host p w))
      as (H1 & H2 & H3 & H4).
    rewrite H1, H2, H3, VisitPointer_heap, VisitPointer_im,
      VisitPointer_chunk_at.
    repeat split. intros HF.
    rewrite H4; rewrite (VisitPointer_full _ _ _ HF); [reflexivity | exact HF].
Qed.

Lemma VisitPointers_frame (host s e : Address) (w : World) :
  heap_ (VisitPointers host s e w) = heap_ w
  /\ im (VisitPointers host s e w) = im w
  /\ chunk_at (gc (VisitPointers host s e w)) = chunk_at (gc w)
  /\ (MarkingWorklist.IsFull (marking_worklist (gc w)) = true ->
      marking_worklist (gc (VisitPointers host s e w))
      = marking_worklist (gc w)).
Proof. apply VisitPointers_loop_frame. Qed.

(** The chunk loop leaves the controller's fields, the layout and the
    chunks alone, and never stops past the end of the object. *)
Lemma scan_chunks_frame (n : nat) (object : Address) (size s e : Z)
  (w : World) :
  e <= size ->
  let r := scan_chunks n object size s e w in
  heap_ (snd r) = heap_ w /\ im (snd r) = im w
  /\ chunk_at (gc (snd r)) = chunk_at (gc w)
  /\ fst r <= size.
Proof.
  revert s e w. induction n as [|n IH]; intros s e w He; cbv zeta;
    cbn [scan_chunks];
    destruct (VisitPointers_frame object (RawField object s)
                (RawField object e) w) as (H1 & H2 & H3 & _).
  - destruct (_ && _); cbn [fst snd]; repeat split; auto; lia.
  - destruct (_ && _); cbn [fst snd]; [|repeat split; auto; lia].
    specialize (IH e
                  (Z.min size (to_int (e + kProgressBarScanningChunk)))
                  (VisitPointers object (RawField object s)
                     (RawField object e) w)
                  ltac:(lia)).
    cbv zeta in IH. destruct IH as (I1 & I2 & I3 & I4).
    rewrite I1, I2, I3. repeat split; auto.
Qed.

(** The next [end_offset] when the offsets do not wrap around. *)
Lemma next_end_fits (size e : Z) :
  0 <= e <= size -> size <= kMaxScannedSize ->
  Z.min size (to_int (e + kProgressBarScanningChunk))
  = Z.min size (e + kProgressBarScanningChunk).
Proof.
  intros H1 H2. rewrite to_int_fits; [reflexivity|].
  unfold kMaxScannedSize, kProgressBarScanningChunk in *. lia.
Qed.

(** Without wrap-around the loop stops between the end of the first chunk
    and the end of the object. *)
Lemma scan_chunks_bounds (n : nat) (object : Address) (size s e : Z)
  (w : World) :
  0 <= e <= size -> size <= kMaxScannedSize ->
  e <= fst (scan_chunks n object size s e w) <= size.
Proof.
  revert s e w. induction n as [|n IH]; intros s e w He Hs;
    cbn [scan_chunks].
  - destruct (_ && _); cbn [fst]; lia.
  - destruct (_ && _); cbn [fst]; [|lia].
    rewrite (next_end_fits size e He Hs).
    specialize (IH e (Z.min size (e + kProgressBarScanningChunk))
                  (VisitPointers object (RawField object s)
                     (RawField object e) w)).
    unfold kProgressBarScanningChunk in *. lia.
Qed.

(** A worklist that is not full after the first chunk ends the loop. *)
Lemma scan_chunks_not_full (n : nat) (object : Address) (size s e : Z)
  (w : World) :
  MarkingWorklist.IsFull
    (marking_worklist
       (gc (VisitPointers object (RawField object s) (RawField object e) w)))
  = false ->
  scan_chunks n object size s e w
  = (e, VisitPointers object (RawField object s) (RawField object e) w).
Proof. intros H. destruct n; cbn [scan_chunks]; rewrite H; reflexivity. Qed.

(** A worklist that is full after the first chunk stays full, and without
    wrap-around the loop runs to the end of the object. *)
Lemma scan_chunks_full (n : nat) (object : Address) (size s e : Z)
  (w : World) :
  0 <= e <= size -> size <= kMaxScannedSize ->
  size - e <= Z.of_nat n * kProgressBarScanningChunk ->
  MarkingWorklist.IsFull
    (marking_worklist
       (gc (VisitPointers object (RawField object s) (RawField object e) w)))
  = true ->
  fst (scan_chunks n object size s e w) = size.
Proof.
  revert s e w. induction n as [|n IH]; intros s e w He Hs Hn HF;
    cbn [scan_chunks]; rewrite HF; cbn [andb].
  - destruct (Z.ltb_spec e size); cbn [fst]; lia.
  - destruct (Z.ltb_spec e size); cbn [fst]; [|lia].
    rewrite (next_end_fits size e He Hs).
    apply IH.
    + unfold kProgressBarScanningChunk. lia.
    + exact Hs.
    + unfold kProgressBarScanningChunk in *. lia.
    + destruct (VisitPointers_frame object (RawField object e)
                  (RawField object
                     (Z.min size (e + kProgressBarScanningChunk)))
                  (VisitPointers object (RawField object s)
                     (RawField object e) w)) as (_ & _ & _ & H4).
      rewrite (H4 HF). exact HF.
Qed.

(** On a full worklist the loop pushes nothing. *)
Lemma scan_chunks_full_worklist (n : nat) (object : Address) (size s e : Z)
  (w : World) :
  MarkingWorklist.IsFull (marking_worklist (gc w)) = true ->
  marking_worklist (gc (snd (scan_chunks n object size s e w)))
  = marking_worklist (gc w).
Proof.
  revert s e w. induction n as [|n IH]; intros s e w HF; cbn [scan_chunks];
    destruct (VisitPointers_frame object (RawField object s)
                (RawField object e) w) as (_ & _ & _ & H4);
    specialize (H4 HF).
  - destruct (_ && _); cbn [snd]; exact H4.
  - destruct (_ && _); cbn [snd]; [|exact H4].
    rewrite IH; [exact H4 | rewrite H4; exact HF].
Qed.

Lemma chunks_left_enough (size s : Z) :
  s < size ->
  size - Z.min size (s + kProgressBarScanningChunk)
  <= Z.of_nat (chunks_left size s) * kProgressBarScanningChunk.
Proof.
  intros H. unfold chunks_left.
  rewrite Z2Nat.id
    by (apply Z.div_pos; unfold kProgressBarScanningChunk; lia).
  pose proof (Z.div_mod (size - s) kProgressBarScanningChunk
                ltac:(unfold kProgressBarScanningChunk; lia)) as E.
  pose proof (Z.mod_pos_bound (size - s) kProgressBarScanningChunk
                ltac:(unfold kProgressBarScanningChunk; lia)) as B.
  unfold kProgressBarScanningChunk in *. lia.
Qed.

Lemma progress_bar_set (chunk v : Z) (w : World) :
  progress_bar (chunk_at (gc (set_progress_bar chunk v w)) chunk) = v.
Proof. cbn. rewrite Z.eqb_refl. reflexivity. Qed.

Lemma PushBlack_frame (obj : Address) (w : World) :
  heap_ (PushBlack obj w) = heap_ w /\ im (PushBlack obj w) = im w
  /\ chunk_at (gc (PushBlack obj w)) = chunk_at (gc w).
Proof.
  unfold PushBlack, Push.
  destruct (MarkingWorklist.Push obj (marking_worklist (gc w))) as [ok wl].
  cbn [fst snd]. destruct ok; repeat split.
Qed.

Lemma repushed_frame (object : Address) (w : World) :
  heap_ (repushed object w) = heap_ w /\ im (repushed object w) = im w
  /\ chunk_at (gc (repushed object w)) = chunk_at (gc w).
Proof.
  unfold repushed.
  destruct (V8_CONCURRENT_MARKING _); [repeat split|].
  destruct (ObjectMarking.IsGrey object w); [repeat split|].
  apply PushBlack_frame.
Qed.

(** The re-push records no slot. *)
Lemma repushed_recorded_slots (object : Address) (w : World) :
  recorded_slots (gc (repushed object w)) = recorded_slots (gc w).
Proof.
  unfold repushed, PushBailout, PushBlack, Push.
  destruct (V8_CONCURRENT_MARKING _); [reflexivity|].
  destruct (ObjectMarking.IsGrey object w); [reflexivity|].
  destruct (MarkingWorklist.Push object (marking_worklist (gc w)))
    as [ok wl].
  cbn [fst snd]. destruct ok; reflexivity.
Qed.

(** The end of the first chunk when the offsets do not wrap around. *)
Lemma first_chunk_end_fits (object : Address) (w : World) :
  0 <= scan_start object w ->
  scan_start object w < SizeFromMap (object_at (heap_ w) object) ->
  SizeFromMap (object_at (heap_ w) object) <= kMaxScannedSize ->
  first_chunk_end object w
  = Z.min (SizeFromMap (object_at (heap_ w) object))
          (scan_start object w + kProgressBarScanningChunk).
Proof.
  intros H0 H1 H2. unfold first_chunk_end. apply next_end_fits; lia.
Qed.

(** [VisitFixedArray] on a page with a progress bar, written out. *)
Lemma VisitFixedArray_eq (object : Address) (w : World) :
  HAS_PROGRESS_BAR (chunk_at (gc w) (FromAddress w object)) = true ->
  scan_start object w < SizeFromMap (object_at (heap_ w) object) ->
  let size := SizeFromMap (object_at (heap_ w) object) in
  let r :=
    scan_chunks (chunks_left size (scan_start object w)) object size
      (scan_start object w) (first_chunk_end object w) (repushed object w) in
  let w3 := set_progress_bar (FromAddress w object) (fst r) (snd r) in
  VisitFixedArray object w
  = (size,
     if fst r <? size
     then NotifyIncompleteScanOfObject
            (to_int (size - to_int (fst r - scan_start object w))) w3
     else w3).
Proof.
  intros HP HS. cbv zeta. unfold VisitFixedArray.
  fold (scan_start object w). fold (repushed object w).
  fold (first_chunk_end object w).
  rewrite HP. apply Z.ltb_lt in HS. rewrite HS.
  destruct (scan_chunks _ _ _ _ _ _) as [done w2]. cbn [fst snd].
  destruct (done <? _); reflexivity.
Qed.

Lemma chunk_start_O (s : Z) : chunk_start s O = s.
Proof. unfold chunk_start. cbn [Z.of_nat]. lia. Qed.

Lemma chunk_start_S (s : Z) (k : nat) :
  chunk_start s (S k) = chunk_start (s + kProgressBarScanningChunk) k.
Proof. unfold chunk_start. rewrite Nat2Z.inj_succ. lia. Qed.

Lemma chunk_end_S (size s : Z) (k : nat) :
  chunk_end size s (S k) = chunk_end size (s + kProgressBarScanningChunk) k.
Proof. unfold chunk_end. rewrite (chunk_start_S s (S k)). reflexivity. Qed.

Lemma chunk_start_ge (s : Z) (k : nat) :
  chunk_start s (S k) >= s + kProgressBarScanningChunk.
Proof.
  unfold chunk_start, kProgressBarScanningChunk.
  rewrite Nat2Z.inj_succ. lia.
Qed.

(** What the chunk loop visits, in a world [w] that has the layout of
    [w0]: it clears no mark bit, keeps the recorded slots, pushes only
    objects that were White, and every chunk that starts below the offset
    the loop stops at has been scanned: no slot of it holds a White object,
    and each of its slots that holds a heap object is recorded. *)
Lemma scan_chunks_visits (object : Address) (size : Z) (w0 : World)
  (n : nat) :
  forall (s : Z) (w : World),
  heap_ w = heap_ w0 ->
  0 <= s < size -> size <= kMaxScannedSize ->
  let r :=
    scan_chunks n object size s
      (Z.min size (s + kProgressBarScanningChunk)) w in
  bits_grow w (snd r)
  /\ (exists l, recorded_slots (gc (snd r)) = l ++ recorded_slots (gc w))
  /\ pushes_only_white w (snd r)
  /\ (forall (k i : nat) (a : Address),
        chunk_start s k < fst r ->
        (i < slot_count w0 (RawField object (chunk_start s k))
               (RawField object (chunk_end size s k)))%nat ->
        load (heap_ w0) (slot_at w0 (RawField object (chunk_start s k)) i)
        = HeapPointer a ->
        ObjectMarking.IsWhite a (snd r) = false
        /\ In (object, slot_at w0 (RawField object (chunk_start s k)) i, a)
              (recorded_slots (gc (snd r)))).
Proof.
  induction n as [|n IH]; intros s w HH Hs Hm; cbv zeta; cbn [scan_chunks];
    set (e := Z.min size (s + kProgressBarScanningChunk));
    destruct (VisitPointers_visits object (RawField object s)
                (RawField object e) w0 w HH) as (V1 & V2 & V3);
    cbv zeta in V1, V2, V3;
    pose proof (VisitPointers_pushes_only_white object (RawField object s)
                  (RawField object e) w) as V4;
    set (w1 := VisitPointers object (RawField object s) (RawField object e) w)
      in *;
    assert (FIRST : forall (k i : nat) (a : Address),
               chunk_start s k < e ->
               (i < slot_count w0 (RawField object (chunk_start s k))
                      (RawField object (chunk_end size s k)))%nat ->
               load (heap_ w0)
                 (slot_at w0 (RawField object (chunk_start s k)) i)
               = HeapPointer a ->
               ObjectMarking.IsWhite a w1 = false
               /\ In (object,
                      slot_at w0 (RawField object (chunk_start s k)) i, a)
                     (recorded_slots (gc w1)))
      by (intros k i a Hk Hi HL; destruct k as [|k];
          [ unfold chunk_end in Hi; rewrite chunk_start_S in Hi;
            rewrite !chunk_start_O in *; apply V3; assumption
          | pose proof (chunk_start_ge s k); subst e; lia ]).
  - destruct (_ && _); cbn [fst snd];
      (split; [exact V1|]; split; [exact V2|]; split; [exact V4|];
       exact FIRST).
  - destruct (MarkingWorklist.IsFull (marking_worklist (gc w1)) && (e <? size))
      eqn:C; cbn [fst snd];
      [|split; [exact V1|]; split; [exact V2|]; split; [exact V4|];
        exact FIRST].
    apply andb_true_iff in C. destruct C as [_ C]. apply Z.ltb_lt in C.
    assert (Ee : e = s + kProgressBarScanningChunk) by (subst e; lia).
    assert (He : 0 <= e <= size)
      by (unfold kProgressBarScanningChunk in *; lia).
    rewrite (next_end_fits size e He Hm).
    assert (H1 : heap_ w1 = heap_ w0) by (destruct V1 as [A _]; congruence).
    destruct (IH e w1 H1 ltac:(lia) Hm) as (I1 & (l2 & I2) & I3 & I4).
    cbv zeta in I1, I2, I3, I4.
    set (r := scan_chunks n object size e
                (Z.min size (e + kProgressBarScanningChunk)) w1) in *.
    destruct V2 as (l1 & V2).
    split; [exact (bits_grow_trans _ _ _ V1 I1)|].
    split; [exists (l2 ++ l1); rewrite I2, V2, app_assoc; reflexivity|].
    split; [exact (pushes_only_white_trans _ _ _ V1 V4 I3)|].
    intros k i a Hk Hi HL. destruct k as [|k].
    + destruct (FIRST O i a) as [W R];
        [rewrite chunk_start_O, Ee; unfold kProgressBarScanningChunk; lia
        | exact Hi | exact HL |].
      split; [exact (bits_grow_not_white _ _ _ I1 W)|].
      rewrite I2. apply in_or_app. right. exact R.
    + rewrite chunk_end_S in Hi. rewrite chunk_start_S in Hk, Hi, HL |- *.
      rewrite <- Ee in *.
      apply I4; [exact Hk | exact Hi | exact HL].
Qed.

(** C4, as amended. A visit of a fixed array on a page with the
    HAS_PROGRESS_BAR flag, starting at [max(body_start, progress_bar)]
    below the object size, with offsets that do not wrap around (the start
    is not negative and the object is at most 2^31 - 1 - 32 KiB long),
    returns the object size and pushes the array again before it scans. If
    the worklist is not full after the first 32 KiB chunk, exactly that
    chunk is scanned; if it is full, every chunk to the end of the object is
    scanned: none of its slots holds a White object afterwards and each of
    its slots that holds a heap object is recorded. The progress bar ends at
    the end of the scanned region, and when that is below the object size
    the visitor reports
    [object_size - (end_of_scanned_region - already_scanned_offset)], that
    is the object size less the bytes this visit scanned, where
    [already_scanned_offset] is the offset the scan started from. *)
Theorem VisitFixedArray_scans_chunk (object : Address) (w : World) :
  HAS_PROGRESS_BAR (chunk_at (gc w) (FromAddress w object)) = true ->
  scan_start object w < SizeFromMap (object_at (heap_ w) object) ->
  0 <= scan_start object w ->
  SizeFromMap (object_at (heap_ w) object) <= kMaxScannedSize ->
  let chunk := FromAddress w object in
  let object_size := SizeFromMap (object_at (heap_ w) object) in
  let already_scanned_offset := scan_start object w in
  let first_end :=
    Z.min object_size (already_scanned_offset + kProgressBarScanningChunk) in
  let first_scanned :=
    VisitPointers object (RawField object already_scanned_offset)
      (RawField object first_end) (repushed object w) in
  let full := MarkingWorklist.IsFull (marking_worklist (gc first_scanned)) in
  let scanned_until := if full then object_size else first_end in
  let w' := snd (VisitFixedArray object w) in
  fst (VisitFixedArray object w) = object_size
  /\ (full = false ->
      gc w' = gc (set_progress_bar chunk first_end first_scanned))
  /\ (forall (k i : nat) (a : Address),
        chunk_start already_scanned_offset k < scanned_until ->
        (i < slot_count w
               (RawField object (chunk_start already_scanned_offset k))
               (RawField object
                  (chunk_end object_size already_scanned_offset k)))%nat ->
        load (heap_ w)
          (slot_at w (RawField object (chunk_start already_scanned_offset k))
             i)
        = HeapPointer a ->
        ObjectMarking.IsWhite a w' = false
        /\ In (object,
               slot_at w
                 (RawField object (chunk_start already_scanned_offset k)) i,
               a)
              (recorded_slots (gc w')))
  /\ progress_bar (chunk_at (gc w') chunk) = scanned_until
  /\ first_end <= scanned_until <= object_size
  /\ (scanned_until < object_size ->
      unscanned_bytes_of_large_object_ (im w')
      = object_size - (scanned_until - already_scanned_offset))
  /\ (scanned_until = object_size ->
      unscanned_bytes_of_large_object_ (im w')
      = unscanned_bytes_of_large_object_ (im w)).
Proof.
  intros HP HS H0 HM. cbv zeta.
  rewrite (VisitFixedArray_eq object w HP HS). cbv zeta. cbn [fst snd].
  rewrite (first_chunk_end_fits object w H0 HS HM).
  set (size := SizeFromMap (object_at (heap_ w) object)) in *.
  set (start := scan_start object w) in *.
  set (e := Z.min size (start + kProgressBarScanningChunk)).
  assert (HE : 0 <= e <= size)
    by (subst e; unfold kProgressBarScanningChunk; lia).
  destruct (repushed_frame object w) as (HR & IMr & _).
  destruct (scan_chunks_frame (chunks_left size start) object size start e
              (repushed object w) (proj2 HE)) as (F1 & F2 & F3 & _).
  destruct (scan_chunks_visits object size w (chunks_left size start) start
              (repushed object w) HR ltac:(lia) HM) as (_ & _ & _ & VS).
  cbv zeta in VS. fold e in VS.
  set (first := VisitPointers object (RawField object start)
                  (RawField object e) (repushed object w)).
  assert (END : fst (scan_chunks (chunks_left size start) object size start e
                       (repushed object w))
                = if MarkingWorklist.IsFull (marking_worklist (gc first))
                  then size else e).
  { destruct (MarkingWorklist.IsFull (marking_worklist (gc first))) eqn:HF.
    - apply scan_chunks_full; [exact HE | exact HM | | exact HF].
      subst e. apply chunks_left_enough. exact HS.
    - subst first. rewrite (scan_chunks_not_full _ _ _ _ _ _ HF).
      reflexivity. }
  set (r := scan_chunks (chunks_left size start) object size start e
              (repushed object w)) in *.
  set (until := if MarkingWorklist.IsFull (marking_worklist (gc first))
                then size else e) in *.
  assert (UB : e <= until <= size).
  { subst until. destruct (MarkingWorklist.IsFull _); lia. }
  set (w3 := set_progress_bar (FromAddress w object) (fst r) (snd r)).
  set (w4 := if fst r <? size
             then NotifyIncompleteScanOfObject
                    (to_int (size - to_int (fst r - start))) w3
             else w3).
  assert (G4 : gc w4 = gc w3) by (subst w4; destruct (_ <? _); reflexivity).
  split; [reflexivity|]. split; [|split; [|split; [|split; [|split]]]].
  - intros NF. rewrite G4. subst w3 r until.
    fold first in NF. rewrite NF in *.
    unfold first in NF. rewrite (scan_chunks_not_full _ _ _ _ _ _ NF).
    reflexivity.
  - intros k i a Hk Hi HL. rewrite <- END in Hk.
    destruct (VS k i a Hk Hi HL) as [W R]. split.
    + unfold ObjectMarking.IsWhite, MarkBitFrom in *.
      rewrite G4. subst w4.
      destruct (fst r <? size); exact W.
    + rewrite G4. exact R.
  - rewrite G4. subst w3. rewrite progress_bar_set. exact END.
  - exact UB.
  - intros HL. subst w4. rewrite END.
    assert (C : (until <? size) = true) by (apply Z.ltb_lt; exact HL).
    rewrite C. cbn.
    rewrite (to_int_fits (until - start))
      by (unfold kMaxScannedSize, kProgressBarScanningChunk in *; lia).
    apply to_int_fits.
    unfold kMaxScannedSize, kProgressBarScanningChunk in *. lia.
  - intros HL. subst w4. rewrite END, HL, Z.ltb_irrefl. cbn.
    rewrite F2, IMr. reflexivity.
Qed.

Lemma VisitFixedArray_scans_chunk_witness :
  fst (VisitFixedArray large_array large_array_world) = 100000
  /\ progress_bar
       (chunk_at (gc (snd (VisitFixedArray large_array large_array_world))) 4)
     = 32784
  /\ unscanned_bytes_of_large_object_
       (im (snd (VisitFixedArray large_array large_array_world)))
     = 100000 - (32784 - 16).
Proof.
  assert (L : 0 <= scan_start large_array large_array_world)
    by (vm_compute; discriminate).
  assert (M : SizeFromMap (object_at (heap_ large_array_world) large_array)
              <= kMaxScannedSize) by (vm_compute; discriminate).
  pose proof (VisitFixedArray_scans_chunk large_array large_array_world
                eq_refl eq_refl L M) as H.
  cbv zeta in H. destruct H as (H1 & _ & _ & H4 & _ & H6 & _).
  split; [exact H1|]. split; [exact H4|].
  apply H6. vm_compute. reflexivity.
Defined.

(** On the first visit of the 100000-byte array the visitor scans the
    bytes from 16 to 32784 and reports 100000 - 32768 = 67232 unscanned
    bytes, not 100000 - 16. *)
Lemma VisitFixedArray_reports_size_less_scanned :
  scan_start large_array large_array_world = 16
  /\ progress_bar
       (chunk_at (gc (snd (VisitFixedArray large_array large_array_world))) 4)
     = 32784
  /\ unscanned_bytes_of_large_object_
       (im (snd (VisitFixedArray large_array large_array_world))) = 67232
  /\ 67232 <> 100000 - 16.
Proof. vm_compute. repeat split; discriminate. Qed.

(** Past the bound on the object size the offsets wrap around: on an
    array of 2^31 - 1 bytes whose progress bar stands at 2147483000 the end
    of the chunk, 2147483000 + 32768, is the [int] -2147451528, no slot is
    scanned and the progress bar moves back to that offset. *)
Example VisitFixedArray_offsets_wrap_around :
  SizeFromMap (object_at (heap_ huge_array_world) large_array) = 2 ^ 31 - 1
  /\ scan_start large_array huge_array_world = 2147483000
  /\ first_chunk_end large_array huge_array_world = -2147451528
  /\ progress_bar
       (chunk_at (gc (snd (VisitFixedArray large_array huge_array_world))) 4)
     = -2147451528.
Proof. vm_compute. repeat split. Qed.

(** ** Map retention *)

Lemma only_marks_refl (w : World) : only_marks w w.
Proof. repeat split; auto. Qed.

Lemma only_marks_trans (w1 w2 w3 : World) :
  only_marks w1 w2 -> only_marks w2 w3 -> only_marks w1 w3.
Proof.
  intros (A1 & A2 & A3 & A4) (B1 & B2 & B3 & B4).
  repeat split; try congruence. auto.
Qed.

Lemma WhiteToGreyAndPush_only_marks (obj : Address) (w : World) :
  only_marks w (snd (WhiteToGreyAndPush obj w)).
Proof.
  destruct (ObjectMarking.IsWhite obj w) eqn:HW.
  - rewrite (WhiteToGreyAndPush_white _ _ HW). cbn [snd].
    repeat split. intros a HA.
    unfold ObjectMarking.IsWhite in *. cbn in HA.
    apply IsWhite_bits in HA. destruct HA as [A1 A2].
    apply IsWhite_bits. unfold Marking.SetBit in A1, A2.
    split.
    + destruct (_ =? _) in A1; [discriminate | exact A1].
    + destruct (_ =? _) in A2; [discriminate | exact A2].
  - rewrite (WhiteToGreyAndPush_not_white _ _ HW). apply only_marks_refl.
Qed.

Lemma retain_entry_only_marks (i : Z) (map : Address) (age : Z) (w : World) :
  only_marks w (snd (retain_entry i map age w)).
Proof.
  unfold retain_entry.
  destruct (_ && ObjectMarking.IsWhite map w); [|apply only_marks_refl].
  assert (H : only_marks w
                (if ShouldRetainMap map age w
                 then snd (WhiteToGreyAndPush map w) else w)).
  { destruct (ShouldRetainMap map age w);
      [apply WhiteToGreyAndPush_only_marks | apply only_marks_refl]. }
  destruct (_ && ObjectMarking.IsWhite _ _); exact H.
Qed.

(** What one iteration decides, in terms of the world it starts from. *)
Lemma retain_entry_age (i : Z) (map : Address) (age : Z) (w : World) :
  let new_age := fst (retain_entry i map age w) in
  (i < number_of_disposed_maps_ (heap_ w) ->
   new_age = FLAG_retain_maps_for_n_gc (fl w))
  /\ (new_age = age \/ new_age = FLAG_retain_maps_for_n_gc (fl w)
      \/ (new_age = age - 1
          /\ number_of_disposed_maps_ (heap_ w) <= i
          /\ map_retaining_is_disabled w = false
          /\ ObjectMarking.IsWhite map w = true
          /\ 0 < age
          /\ exists p, prototype (object_at (heap_ w) map) = HeapPointer p
                       /\ ObjectMarking.IsWhite p w = true)).
Proof.
  cbv zeta. unfold retain_entry.
  destruct (number_of_disposed_maps_ (heap_ w) <=? i) eqn:HI; cbn [andb].
  2: { cbn [fst]. split; auto. }
  apply Z.leb_le in HI.
  destruct (map_retaining_is_disabled w) eqn:HD; cbn [negb andb].
  { cbn [fst]. split; [lia | auto]. }
  destruct (ObjectMarking.IsWhite map w) eqn:HW.
  2: { cbn [fst]. split; [lia | auto]. }
  set (w1 := if ShouldRetainMap map age w
             then snd (WhiteToGreyAndPush map w) else w).
  assert (HM : only_marks w w1).
  { subst w1. destruct (ShouldRetainMap map age w);
      [apply WhiteToGreyAndPush_only_marks | apply only_marks_refl]. }
  destruct (0 <? age) eqn:HA; cbn [andb].
  2: { cbn [fst]. split; [lia | auto]. }
  apply Z.ltb_lt in HA.
  destruct (prototype (object_at (heap_ w) map)) as [n | p] eqn:HP;
    cbn [IsHeapObject andb HeapObject_cast].
  { cbn [fst]. split; [lia | auto]. }
  destruct (ObjectMarking.IsWhite p w1) eqn:HPW; cbn [fst].
  2: { split; [lia | auto]. }
  split; [lia|]. right. right.
  destruct HM as (_ & _ & _ & HM).
  repeat split; auto. exists p. split; [reflexivity | auto].
Qed.

Lemma map_retaining_is_disabled_heap (w w' : World) :
  heap_ w' = heap_ w ->
  map_retaining_is_disabled w' = map_retaining_is_disabled w.
Proof. intros H. unfold map_retaining_is_disabled. rewrite H. reflexivity. Qed.

Lemma RetainMaps_loop_only_marks (pairs : list (WeakCell * Z)) (i : Z)
  (w : World) :
  only_marks w (snd (RetainMaps_loop i pairs w)).
Proof.
  revert i w. induction pairs as [|[cell age] rest IH]; intros i w;
    cbn [RetainMaps_loop].
  - apply only_marks_refl.
  - destruct cell as [map|].
    + pose proof (retain_entry_only_marks i map age w) as H1.
      destruct (retain_entry i map age w) as [new_age w1]. cbn [snd] in H1.
      specialize (IH (i + 2) w1).
      destruct (RetainMaps_loop (i + 2) rest w1) as [rest' w']. cbn [snd] in *.
      eapply only_marks_trans; eassumption.
    + specialize (IH (i + 2) w).
      destruct (RetainMaps_loop (i + 2) rest w) as [rest' w']. exact IH.
Qed.

(** The loop, entry by entry: the facts about colours are about the world
    [w0] the loop was entered in. *)
Lemma RetainMaps_loop_entry (pairs : list (WeakCell * Z)) (i : Z)
  (w0 w : World) (k : nat) (cell : WeakCell) (age : Z) :
  only_marks w0 w ->
  nth_error pairs k = Some (cell, age) ->
  exists new_age,
    nth_error (fst (RetainMaps_loop i pairs w)) k = Some (cell, new_age)
    /\ (cell = None -> new_age = age)
    /\ (cell <> None ->
        i + 2 * Z.of_nat k < number_of_disposed_maps_ (heap_ w0) ->
        new_age = FLAG_retain_maps_for_n_gc (fl w0))
    /\ (new_age = age \/ new_age = FLAG_retain_maps_for_n_gc (fl w0)
        \/ (new_age = age - 1
            /\ number_of_disposed_maps_ (heap_ w0) <= i + 2 * Z.of_nat k
            /\ map_retaining_is_disabled w0 = false
            /\ 0 < age
            /\ exists map p,
                 cell = Some map
                 /\ ObjectMarking.IsWhite map w0 = true
                 /\ prototype (object_at (heap_ w0) map) = HeapPointer p
                 /\ ObjectMarking.IsWhite p w0 = true)).
Proof.
  revert i w k. induction pairs as [|[c a] rest IH]; intros i w k HM HN.
  - destruct k; discriminate.
  - destruct k as [|k].
    + cbn in HN. injection HN as -> ->.
      cbn [RetainMaps_loop]. destruct cell as [map|].
      * pose proof (retain_entry_age i map age w) as HA. cbv zeta in HA.
        destruct (retain_entry i map age w) as [new_age w1]. cbn [fst] in HA.
        destruct (RetainMaps_loop (i + 2) rest w1) as [rest' w'].
        cbn [fst nth_error]. exists new_age.
        destruct HM as (M1 & M2 & M3 & M4).
        rewrite (map_retaining_is_disabled_heap _ _ M1), M1 in HA.
        destruct HA as [A1 A2].
        replace (i + 2 * Z.of_nat 0) with i by lia.
        split; [reflexivity|]. split; [discriminate|]. split.
        -- intros _ HI. apply A1. exact HI.
        -- destruct A2 as [A2 | [A2 | (A2 & A3 & A4 & A5 & A6 & p & A7 & A8)]];
             auto.
           right. right. repeat split; auto.
           exists map, p. repeat split; auto.
      * destruct (RetainMaps_loop (i + 2) rest w) as [rest' w'].
        cbn [fst nth_error]. exists age.
        split; [reflexivity|]. split; [reflexivity|].
        split; [intros H; contradiction | auto].
    + cbn in HN. cbn [RetainMaps_loop]. destruct c as [map|].
      * pose proof (retain_entry_only_marks i map a w) as H1.
        destruct (retain_entry i map a w) as [na w1]. cbn [snd] in H1.
        destruct (IH (i + 2) w1 k (only_marks_trans _ _ _ HM H1) HN)
          as (new_age & E & R).
        destruct (RetainMaps_loop (i + 2) rest w1) as [rest' w'].
        cbn [fst nth_error] in *. exists new_age. split; [exact E|].
        replace (i + 2 * Z.of_nat (S k)) with (i + 2 + 2 * Z.of_nat k) by lia.
        exact R.
      * destruct (IH (i + 2) w k HM HN) as (new_age & E & R).
        destruct (RetainMaps_loop (i + 2) rest w) as [rest' w'].
        cbn [fst nth_error] in *. exists new_age. split; [exact E|].
        replace (i + 2 * Z.of_nat (S k)) with (i + 2 + 2 * Z.of_nat k) by lia.
        exact R.
Qed.

Lemma RetainMaps_retained_maps (w : World) :
  retained_maps (gc (RetainMaps w))
  = fst (RetainMaps_loop 0 (retained_maps (gc w)) w).
Proof.
  unfold RetainMaps.
  destruct (RetainMaps_loop 0 (retained_maps (gc w)) w) as [pairs w'].
  reflexivity.
Qed.

(** C6. Let pair [k] of the retained maps (array index [2k]) hold an age
    within the data model's range, at most MAX_AGE
    ([FLAG_retain_maps_for_n_gc]). [RetainMaps] keeps the pair's cell and
    gives it an age such that: a cleared cell keeps its age; a cell that is
    not cleared and whose index is before [number_of_disposed_maps] gets
    MAX_AGE, so its age does not decrease; and the age decreases only by
    one, for an entry at or past that prefix, with map retaining enabled, a
    map that was White, an age greater than zero and a prototype that is a
    heap object and was White. *)
Theorem RetainMaps_never_ages_disposed_prefix (w : World) (k : nat)
  (cell : WeakCell) (age : Z) :
  nth_error (retained_maps (gc w)) k = Some (cell, age) ->
  age <= FLAG_retain_maps_for_n_gc (fl w) ->
  exists new_age,
    nth_error (retained_maps (gc (RetainMaps w))) k = Some (cell, new_age)
    /\ (cell = None -> new_age = age)
    /\ (cell <> None ->
        2 * Z.of_nat k < number_of_disposed_maps_ (heap_ w) ->
        new_age = FLAG_retain_maps_for_n_gc (fl w) /\ age <= new_age)
    /\ (new_age < age ->
        new_age = age - 1
        /\ number_of_disposed_maps_ (heap_ w) <= 2 * Z.of_nat k
        /\ map_retaining_is_disabled w = false
        /\ 0 < age
        /\ exists map p,
             cell = Some map
             /\ ObjectMarking.IsWhite map w = true
             /\ prototype (object_at (heap_ w) map) = HeapPointer p
             /\ ObjectMarking.IsWhite p w = true).
Proof.
  intros HN HA.
  destruct (RetainMaps_loop_entry _ 0 w w k cell age (only_marks_refl w) HN)
    as (new_age & E & R1 & R2 & R3).
  exists new_age. rewrite RetainMaps_retained_maps.
  split; [exact E|]. split; [exact R1|]. split.
  - intros HC HI. cbn in R2. specialize (R2 HC HI). split; [exact R2 | lia].
  - intros HL. cbn in R3.
    destruct R3 as [R3 | [R3 | R3]]; [lia | lia | tauto].
Qed.

Lemma RetainMaps_never_ages_disposed_prefix_witness :
  exists new_age,
    nth_error (retained_maps (gc (RetainMaps retained_world))) 0
    = Some (Some 2048, new_age).
Proof.
  destruct (RetainMaps_never_ages_disposed_prefix retained_world 0
              (Some 2048) 2 eq_refl ltac:(cbn; lia))
    as (new_age & E & _).
  exists new_age. exact E.
Defined.

(** The three kinds of entry on a concrete list: the age before the
    prefix is reset to MAX_AGE, the White map with a White prototype ages
    from 1 to 0, and the cleared cell keeps its age. *)
Example RetainMaps_on_retained_world :
  retained_maps (gc (RetainMaps retained_world))
  = [(Some 2048, 2); (Some 4096, 0); (None, 2)].
Proof. reflexivity. Qed.

(** ** Incremental finalization *)

Lemma MarkObjectByPointer_only_marks (p : Object) (w : World) :
  only_marks w (MarkObjectByPointer p w).
Proof.
  unfold MarkObjectByPointer. destruct (negb _);
    [apply only_marks_refl | apply WhiteToGreyAndPush_only_marks].
Qed.

Lemma mark_roots_only_marks (roots : list Object) (w : World) :
  only_marks w (fold_left (fun w' p => MarkObjectByPointer p w') roots w).
Proof.
  revert w. induction roots as [|p roots IH]; intros w; cbn [fold_left].
  - apply only_marks_refl.
  - eapply only_marks_trans; [apply MarkObjectByPointer_only_marks | apply IH].
Qed.

Lemma MarkRoots_only_marks (w : World) : only_marks w (MarkRoots w).
Proof. apply mark_roots_only_marks. Qed.

Lemma RetainMaps_frame (w : World) :
  heap_ (RetainMaps w) = heap_ w /\ im (RetainMaps w) = im w.
Proof.
  unfold RetainMaps.
  pose proof (RetainMaps_loop_only_marks (retained_maps (gc w)) 0 w) as H.
  destruct (RetainMaps_loop 0 (retained_maps (gc w)) w) as [pairs w'].
  destruct H as (H1 & H2 & _). split; assumption.
Qed.

Lemma StartBlackAllocation_frame (w : World) :
  heap_ (StartBlackAllocation w) = heap_ w
  /\ internal_marking (gc (StartBlackAllocation w)) = internal_marking (gc w)
  /\ marking_worklist (gc (StartBlackAllocation w)) = marking_worklist (gc w)
  /\ retained_maps (gc (StartBlackAllocation w)) = retained_maps (gc w)
  /\ finalize_marking_completed_ (im (StartBlackAllocation w))
     = finalize_marking_completed_ (im w)
  /\ incremental_marking_finalization_rounds_ (im (StartBlackAllocation w))
     = incremental_marking_finalization_rounds_ (im w).
Proof. repeat split. Qed.

(** C5, as amended. For a call of [FinalizeIncrementally] that meets its
    assertion ([finalize_marking_completed_] is false at entry): the round
    counter is incremented; the mark bits, the worklist and the retained
    maps are those [RetainMaps] leaves after the roots were marked if the
    counter was zero at entry, and those the root marking alone leaves
    otherwise (so the retained maps are untouched then); and
    [finalize_marking_completed_] is true afterwards if and only if the
    incremented counter is at least the maximum number of rounds or the
    progress measured at that point is below the minimum. The progress is
    the worklist's size plus the cached wrapper count as 32-bit [int]s: the
    count wraps around when it is cast and the sum when it is stored; it is
    the plain sum whenever that is below 2^31. *)
Theorem FinalizeIncrementally_rounds_and_completion (w : World) :
  finalize_marking_completed_ (im w) = false ->
  let rounds := incremental_marking_finalization_rounds_ (im w) in
  let measured :=
    if rounds =? 0 then RetainMaps (MarkRoots w) else MarkRoots w in
  let wrappers := NumberOfCachedWrappersToTrace (heap_ w) in
  let progress :=
    to_int
      (MarkingWorklist.Size (marking_worklist (gc measured))
       + to_int wrappers) in
  let w' := FinalizeIncrementally w in
  incremental_marking_finalization_rounds_ (im w') = rounds + 1
  /\ internal_marking (gc w') = internal_marking (gc measured)
  /\ marking_worklist (gc w') = marking_worklist (gc measured)
  /\ retained_maps (gc w') = retained_maps (gc measured)
  /\ (rounds <> 0 -> retained_maps (gc w') = retained_maps (gc w))
  /\ (finalize_marking_completed_ (im w') = true <->
      FLAG_max_incremental_marking_finalization_rounds (fl w) <= rounds + 1
      \/ progress
         < FLAG_min_progress_during_incremental_marking_finalization (fl w))
  /\ (0 <= wrappers ->
      MarkingWorklist.Size (marking_worklist (gc measured)) + wrappers
      < 2 ^ 31 ->
      progress
      = MarkingWorklist.Size (marking_worklist (gc measured)) + wrappers).
Proof.
  intros HD. cbv zeta.
  destruct (MarkRoots_only_marks w) as (R1 & R2 & R3 & _).
  unfold FinalizeIncrementally. rewrite R2.
  set (rounds := incremental_marking_finalization_rounds_ (im w)).
  set (measured := if rounds =? 0 then RetainMaps (MarkRoots w)
                   else MarkRoots w).
  assert (HH : heap_ measured = heap_ w).
  { subst measured. destruct (rounds =? 0); [|exact R1].
    rewrite (proj1 (RetainMaps_frame _)). exact R1. }
  assert (HI : im measured = im w).
  { subst measured. destruct (rounds =? 0); [|exact R2].
    rewrite (proj2 (RetainMaps_frame _)). exact R2. }
  assert (HP : marking_progress measured
               = to_int
                   (MarkingWorklist.Size (marking_worklist (gc measured))
                    + to_int (NumberOfCachedWrappersToTrace (heap_ w)))).
  { unfold marking_progress. rewrite HH. reflexivity. }
  rewrite HP.
  set (progress :=
         to_int
           (MarkingWorklist.Size (marking_worklist (gc measured))
            + to_int (NumberOfCachedWrappersToTrace (heap_ w)))).
  cbn [heap_ im gc set_incremental_marking_finalization_rounds_
       with_im incremental_marking_finalization_rounds_].
  rewrite HH, HI. fold rounds.
  set (complete :=
         (FLAG_max_incremental_marking_finalization_rounds (fl w)
          <=? rounds + 1)
         || (progress
             <? FLAG_min_progress_during_incremental_marking_finalization
                  (fl w))).
  set (w3 := set_incremental_marking_finalization_rounds_ (rounds + 1)
               measured).
  set (w4 := if complete then set_finalize_marking_completed_ true w3 else w3).
  assert (F4 : heap_ w4 = heap_ w
               /\ gc w4 = gc measured
               /\ incremental_marking_finalization_rounds_ (im w4)
                  = rounds + 1
               /\ finalize_marking_completed_ (im w4) = complete
               /\ black_allocation_ (im w4) = black_allocation_ (im w)).
  { subst w4 w3. destruct complete; cbn; rewrite ?HH, ?HI, ?HD;
      repeat split. }
  destruct F4 as (G1 & G2 & G3 & G4 & G5).
  set (w5 := if FLAG_black_allocation (fl w4)
                && negb (ShouldReduceMemory (heap_ w4))
                && negb (black_allocation_ (im w4))
             then StartBlackAllocation w4 else w4).
  assert (F5 : internal_marking (gc w5) = internal_marking (gc measured)
               /\ marking_worklist (gc w5) = marking_worklist (gc measured)
               /\ retained_maps (gc w5) = retained_maps (gc measured)
               /\ incremental_marking_finalization_rounds_ (im w5)
                  = rounds + 1
               /\ finalize_marking_completed_ (im w5) = complete).
  { subst w5. destruct (_ && negb (black_allocation_ (im w4))).
    - destruct (StartBlackAllocation_frame w4) as (_ & S2 & S3 & S4 & S5 & S6).
      rewrite S2, S3, S4, S5, S6, G2, G3, G4. repeat split.
    - rewrite G2, G3, G4. repeat split. }
  destruct F5 as (K1 & K2 & K3 & K4 & K5).
  split; [exact K4|]. split; [exact K1|]. split; [exact K2|].
  split; [exact K3|]. split; [|split].
  - intros HR. rewrite K3. subst measured.
    destruct (Z.eqb_spec rounds 0); [contradiction | exact R3].
  - rewrite K5. subst complete. rewrite orb_true_iff, Z.leb_le, Z.ltb_lt.
    reflexivity.
  - intros W0 WS. subst progress.
    assert (S0 : 0 <= MarkingWorklist.Size (marking_worklist (gc measured)))
      by (unfold MarkingWorklist.Size; lia).
    rewrite (to_int_fits (NumberOfCachedWrappersToTrace (heap_ w))) by lia.
    apply to_int_fits. lia.
Qed.

Lemma FinalizeIncrementally_rounds_and_completion_witness :
  incremental_marking_finalization_rounds_
    (im (FinalizeIncrementally ex_world)) = 1
  /\ finalize_marking_completed_ (im (FinalizeIncrementally ex_world)) = true.
Proof.
  pose proof (FinalizeIncrementally_rounds_and_completion ex_world eq_refl)
    as H.
  cbv zeta in H. destruct H as (H1 & _ & _ & _ & _ & H6 & _).
  split; [exact H1|].
  apply H6. right. vm_compute. reflexivity.
Defined.

(** The progress wraps around: with one entry on the worklist and
    2^31 - 1 cached wrappers the sum is 2^31, far above the minimum of 32,
    and the round is the first of three; the [int] that holds the sum is
    negative, and [finalize_marking_completed_] is set. *)
Lemma FinalizeIncrementally_progress_wraps_around :
  IsMarking wrappers_world = true
  /\ finalize_marking_completed_ (im wrappers_world) = false
  /\ incremental_marking_finalization_rounds_ (im wrappers_world) + 1
     < FLAG_max_incremental_marking_finalization_rounds (fl wrappers_world)
  /\ MarkingWorklist.Size
       (marking_worklist (gc (RetainMaps (MarkRoots wrappers_world))))
     + NumberOfCachedWrappersToTrace (heap_ wrappers_world)
     = 2 ^ 31
  /\ FLAG_min_progress_during_incremental_marking_finalization
       (fl wrappers_world) <= 2 ^ 31
  /\ marking_progress (RetainMaps (MarkRoots wrappers_world)) = - 2 ^ 31
  /\ finalize_marking_completed_ (im (FinalizeIncrementally wrappers_world))
     = true.
Proof. vm_compute. repeat split; discriminate. Qed.

(** ** Stop *)

(** Setting the two flags on a list of pages. *)
Lemma set_interesting_pages (a b : bool) (l : list Z) (w : World) :
  let w' := fold_left (fun w' p => set_interesting p a b w') l w in
  heap_ w' = heap_ w /\ im w' = im w
  /\ internal_marking (gc w') = internal_marking (gc w)
  /\ marking_worklist (gc w') = marking_worklist (gc w)
  /\ code_stubs (gc w') = code_stubs (gc w)
  /\ allocation_observers (gc w') = allocation_observers (gc w)
  /\ gc_requested (gc w') = gc_requested (gc w)
  /\ (forall c, In c l -> barrier_flags (chunk_at (gc w') c) = (a, b))
  /\ (forall c, ~ In c l -> chunk_at (gc w') c = chunk_at (gc w) c).
Proof.
  revert w. induction l as [|p l IH]; intros w; cbv zeta; cbn [fold_left].
  - repeat split; auto. intros c [].
  - specialize (IH (set_interesting p a b w)). cbv zeta in IH.
    destruct IH as (H1 & H2 & H3 & H4 & H5 & H6 & H7 & H8 & H9).
    rewrite H1, H2, H3, H4, H5, H6, H7.
    split; [reflexivity|]. split; [reflexivity|]. split; [reflexivity|].
    split; [reflexivity|]. split; [reflexivity|]. split; [reflexivity|].
    split; [reflexivity|]. split.
    + intros c [<- | HC].
      * destruct (in_dec Z.eq_dec p l) as [HI | HI]; [apply H8; exact HI|].
        rewrite (H9 _ HI). cbn. rewrite Z.eqb_refl. reflexivity.
      * apply H8. exact HC.
    + intros c HC. rewrite H9 by (intros HI; apply HC; right; exact HI).
      cbn. destruct (Z.eqb_spec c p); [|reflexivity].
      exfalso. apply HC. left. congruence.
Qed.

Lemma for_pages_old_off (space : AllocationSpace) (w : World) :
  for_pages space (fun p => SetOldSpacePageFlags p false false) w
  = fold_left (fun w' p => set_interesting p false true w')
      (pages (heap_ w) space) w.
Proof. reflexivity. Qed.

Lemma for_pages_new_off (w : World) :
  for_pages NEW_SPACE (fun p => SetNewSpacePageFlags p false) w
  = fold_left (fun w' p => set_interesting p true false w')
      (pages (heap_ w) NEW_SPACE) w.
Proof. reflexivity. Qed.

(** What [DeactivateIncrementalWriteBarrier] leaves. *)
Lemma DeactivateIncrementalWriteBarrier_flags (w : World) :
  let w' := DeactivateIncrementalWriteBarrier w in
  heap_ w' = heap_ w /\ im w' = im w
  /\ internal_marking (gc w') = internal_marking (gc w)
  /\ marking_worklist (gc w') = marking_worklist (gc w)
  /\ code_stubs (gc w') = code_stubs (gc w)
  /\ allocation_observers (gc w') = allocation_observers (gc w)
  /\ gc_requested (gc w') = gc_requested (gc w)
  /\ (forall c,
        In c (pages (heap_ w) LO_SPACE)
        \/ ((In c (pages (heap_ w) OLD_SPACE)
             \/ In c (pages (heap_ w) MAP_SPACE)
             \/ In c (pages (heap_ w) CODE_SPACE))
            /\ ~ In c (pages (heap_ w) NEW_SPACE)) ->
        barrier_flags (chunk_at (gc w') c) = old_space_flags_off)
  /\ (forall c,
        In c (pages (heap_ w) NEW_SPACE) ->
        ~ In c (pages (heap_ w) LO_SPACE) ->
        barrier_flags (chunk_at (gc w') c) = new_space_flags_off).
Proof.
  cbv zeta. unfold DeactivateIncrementalWriteBarrier.
  rewrite !for_pages_old_off, for_pages_new_off.
  set (w1 := fold_left (fun w' p => set_interesting p false true w')
               (pages (heap_ w) OLD_SPACE) w).
  destruct (set_interesting_pages false true (pages (heap_ w) OLD_SPACE) w)
    as (A1 & A2 & A3 & A4 & A5 & A6 & A7 & A8 & A9). fold w1 in A1, A2, A3, A4,
    A5, A6, A7, A8, A9.
  set (w2 := fold_left (fun w' p => set_interesting p false true w')
               (pages (heap_ w1) MAP_SPACE) w1).
  destruct (set_interesting_pages false true (pages (heap_ w1) MAP_SPACE) w1)
    as (B1 & B2 & B3 & B4 & B5 & B6 & B7 & B8 & B9). fold w2 in B1, B2, B3, B4,
    B5, B6, B7, B8, B9.
  set (w3 := fold_left (fun w' p => set_interesting p false true w')
               (pages (heap_ w2) CODE_SPACE) w2).
  destruct (set_interesting_pages false true (pages (heap_ w2) CODE_SPACE) w2)
    as (C1 & C2 & C3 & C4 & C5 & C6 & C7 & C8 & C9). fold w3 in C1, C2, C3, C4,
    C5, C6, C7, C8, C9.
  set (w4 := fold_left (fun w' p => set_interesting p true false w')
               (pages (heap_ w3) NEW_SPACE) w3).
  destruct (set_interesting_pages true false (pages (heap_ w3) NEW_SPACE) w3)
    as (D1 & D2 & D3 & D4 & D5 & D6 & D7 & D8 & D9). fold w4 in D1, D2, D3, D4,
    D5, D6, D7, D8, D9.
  set (w5 := fold_left (fun w' p => set_interesting p false true w')
               (pages (heap_ w4) LO_SPACE) w4).
  destruct (set_interesting_pages false true (pages (heap_ w4) LO_SPACE) w4)
    as (E1 & E2 & E3 & E4 & E5 & E6 & E7 & E8 & E9). fold w5 in E1, E2, E3, E4,
    E5, E6, E7, E8, E9.
  assert (H1 : heap_ w1 = heap_ w) by exact A1.
  assert (H2 : heap_ w2 = heap_ w) by congruence.
  assert (H3 : heap_ w3 = heap_ w) by congruence.
  assert (H4 : heap_ w4 = heap_ w) by congruence.
  rewrite H1 in *. rewrite H2 in *. rewrite H3 in *. rewrite H4 in *.
  split; [congruence|]. split; [congruence|]. split; [congruence|].
  split; [congruence|]. split; [congruence|]. split; [congruence|].
  split; [congruence|]. split.
  - intros c HC.
    destruct (in_dec Z.eq_dec c (pages (heap_ w) LO_SPACE)) as [HL | HL];
      [apply E8; exact HL|].
    destruct HC as [HC | [HC HN]]; [contradiction|].
    rewrite (E9 _ HL), (D9 _ HN).
    destruct (in_dec Z.eq_dec c (pages (heap_ w) CODE_SPACE)) as [HCo | HCo];
      [apply C8; exact HCo|].
    rewrite (C9 _ HCo).
    destruct (in_dec Z.eq_dec c (pages (heap_ w) MAP_SPACE)) as [HMa | HMa];
      [apply B8; exact HMa|].
    rewrite (B9 _ HMa).
    destruct HC as [HC | [HC | HC]]; [|contradiction|contradiction].
    apply A8. exact HC.
  - intros c HN HL. rewrite (E9 _ HL). apply D8. exact HN.
Qed.

Lemma patch_entry_in_mode (mode : Mode) (e : DictionaryEntry) :
  stub_in_mode mode (patch_entry mode e).
Proof.
  intros m H. destruct e as [[|[|]] [m'|]]; cbn in H; congruence.
Qed.

(** Removing the observers from all spaces. *)
Lemma remove_observers (spaces : list AllocationSpace) (w : World) :
  let w' :=
    fold_left
      (fun w' space => RemoveAllocationObserver space (observer_of space) w')
      spaces w in
  heap_ w' = heap_ w /\ im w' = im w
  /\ internal_marking (gc w') = internal_marking (gc w)
  /\ marking_worklist (gc w') = marking_worklist (gc w)
  /\ code_stubs (gc w') = code_stubs (gc w)
  /\ chunk_at (gc w') = chunk_at (gc w)
  /\ (forall s, In s spaces \/ ~ In (observer_of s) (allocation_observers (gc w) s) ->
        ~ In (observer_of s) (allocation_observers (gc w') s)).
Proof.
  revert w. induction spaces as [|sp spaces IH]; intros w; cbv zeta;
    cbn [fold_left].
  - repeat split; auto. intros s [[] | H]. exact H.
  - specialize (IH (RemoveAllocationObserver sp (observer_of sp) w)).
    cbv zeta in IH. destruct IH as (H1 & H2 & H3 & H4 & H5 & H6 & H7).
    rewrite H1, H2, H3, H4, H5, H6.
    split; [reflexivity|]. split; [reflexivity|]. split; [reflexivity|].
    split; [reflexivity|]. split; [reflexivity|]. split; [reflexivity|].
    intros s HS. apply H7.
    assert (K : s = sp \/ ~ In (observer_of s) (allocation_observers (gc w) s)
                \/ In s spaces).
    { destruct HS as [[<- | HS] | HS]; auto. }
    destruct K as [-> | [K | K]]; [right | right | left; exact K].
    + cbn. destruct sp; cbn; intros HI; apply filter_In in HI;
        destruct HI as [_ HI]; discriminate.
    + cbn. destruct (AllocationSpace_eqb s sp); [|exact K].
      intros HI. apply filter_In in HI. apply K. apply HI.
Qed.

(** What [Stop] does from an active state. If the state was MARKING or
    COMPLETE the stubs are patched and the page flags deactivated; from
    SWEEPING, where [StartMarking] has not run yet, [Stop] has nothing to
    undo and leaves the stubs and the chunks as they are. *)
Lemma Stop_effect (w : World) :
  IsStopped w = false ->
  let w' := Stop w in
  (forall space,
     ~ In (observer_of space) (allocation_observers (gc w') space))
  /\ gc_requested (gc w') = false
  /\ state_ (im w') = STOPPED
  /\ is_compacting_ (im w') = false
  /\ black_allocation_ (im w') = false
  /\ should_hurry_ (im w') = false
  /\ marking_worklist (gc w') = marking_worklist (gc w)
  /\ internal_marking (gc w') = internal_marking (gc w)
  /\ (IsMarking w = true ->
      code_stubs (gc w')
      = map (patch_entry STORE_BUFFER_ONLY) (code_stubs (gc w))
      /\ (forall e, In e (code_stubs (gc w')) ->
                    stub_in_mode STORE_BUFFER_ONLY e)
      /\ (forall c,
            In c (pages (heap_ w) LO_SPACE)
            \/ ((In c (pages (heap_ w) OLD_SPACE)
                 \/ In c (pages (heap_ w) MAP_SPACE)
                 \/ In c (pages (heap_ w) CODE_SPACE))
                /\ ~ In c (pages (heap_ w) NEW_SPACE)) ->
            barrier_flags (chunk_at (gc w') c) = old_space_flags_off)
      /\ (forall c,
            In c (pages (heap_ w) NEW_SPACE) ->
            ~ In c (pages (heap_ w) LO_SPACE) ->
            barrier_flags (chunk_at (gc w') c) = new_space_flags_off))
  /\ (IsMarking w = false ->
      code_stubs (gc w') = code_stubs (gc w)
      /\ chunk_at (gc w') = chunk_at (gc w)).
Proof.
  intros HS. cbv zeta. unfold Stop. rewrite HS.
  set (w1 := fold_left
               (fun w' space =>
                  RemoveAllocationObserver space (observer_of space) w')
               all_spaces w).
  destruct (remove_observers all_spaces w)
    as (A1 & A2 & A3 & A4 & A5 & A6 & A7). fold w1 in A1, A2, A3, A4, A5, A6, A7.
  assert (OBS : forall space,
             ~ In (observer_of space) (allocation_observers (gc w1) space)).
  { intros space. apply A7. left. destruct space; cbn; auto 6. }
  clearbody w1. clear A7.
  set (w2 := set_should_hurry false w1).
  assert (F2 : heap_ w2 = heap_ w /\ gc w2 = gc w1
               /\ state_ (im w2) = state_ (im w)
               /\ should_hurry_ (im w2) = false).
  { subst w2. cbn. rewrite A1, A2. repeat split. }
  destruct F2 as (B1 & B2 & B3 & B4). clearbody w2.
  assert (HM : IsMarking w2 = IsMarking w).
  { unfold IsMarking. rewrite B3. reflexivity. }
  rewrite HM.
  set (p := PatchIncrementalMarkingRecordWriteStubs STORE_BUFFER_ONLY w2).
  assert (FP : heap_ p = heap_ w /\ im p = im w2
               /\ internal_marking (gc p) = internal_marking (gc w)
               /\ marking_worklist (gc p) = marking_worklist (gc w)
               /\ allocation_observers (gc p) = allocation_observers (gc w1)
               /\ code_stubs (gc p)
                  = map (patch_entry STORE_BUFFER_ONLY) (code_stubs (gc w))).
  { subst p. cbn. rewrite B1, B2, A3, A4, A5. repeat split. }
  destruct FP as (P1 & P2 & P3 & P4 & P5 & P6). clearbody p.
  destruct (DeactivateIncrementalWriteBarrier_flags p)
    as (D1 & D2 & D3 & D4 & D5 & D6 & _ & D8 & D9).
  rewrite P1 in D8, D9.
  set (w3 := if IsMarking w then DeactivateIncrementalWriteBarrier p else w2).
  assert (F3 : im w3 = im w2
               /\ internal_marking (gc w3) = internal_marking (gc w)
               /\ marking_worklist (gc w3) = marking_worklist (gc w)
               /\ allocation_observers (gc w3) = allocation_observers (gc w1)
               /\ (IsMarking w = true ->
                   w3 = DeactivateIncrementalWriteBarrier p)
               /\ (IsMarking w = false ->
                   code_stubs (gc w3) = code_stubs (gc w)
                   /\ chunk_at (gc w3) = chunk_at (gc w))).
  { subst w3. destruct (IsMarking w).
    - rewrite D2, D3, D4, D6, P2, P3, P4, P5.
      repeat split; discriminate.
    - rewrite B2, A3, A4, A5, A6. repeat split; discriminate. }
  destruct F3 as (G1 & G2 & G3 & G4 & G5 & G6). clearbody w3.
  set (w6 := set_is_compacting_ false
               (SetState STOPPED (set_gc_requested false w3))).
  assert (F6 : gc w6 = gc (set_gc_requested false w3)
               /\ state_ (im w6) = STOPPED
               /\ is_compacting_ (im w6) = false
               /\ should_hurry_ (im w6) = false).
  { subst w6. cbn. rewrite G1, B4. repeat split. }
  destruct F6 as (K1 & K2 & K3 & K4). clearbody w6.
  assert (F7 : gc (FinishBlackAllocation w6) = gc w6
               /\ state_ (im (FinishBlackAllocation w6)) = STOPPED
               /\ is_compacting_ (im (FinishBlackAllocation w6)) = false
               /\ should_hurry_ (im (FinishBlackAllocation w6)) = false
               /\ black_allocation_ (im (FinishBlackAllocation w6)) = false).
  { unfold FinishBlackAllocation.
    destruct (black_allocation_ (im w6)) eqn:HB; cbn; repeat split; auto. }
  destruct F7 as (L1 & L2 & L3 & L4 & L5).
  rewrite L1, K1. cbn [gc set_gc_requested with_gc allocation_observers
    gc_requested marking_worklist internal_marking code_stubs chunk_at].
  rewrite G2, G3, G4.
  split; [exact OBS|]. split; [reflexivity|]. split; [exact L2|].
  split; [exact L3|]. split; [exact L5|]. split; [exact L4|].
  split; [reflexivity|]. split; [reflexivity|]. split.
  - intros HI. rewrite (G5 HI).
    assert (ES : code_stubs (gc (DeactivateIncrementalWriteBarrier p))
                 = map (patch_entry STORE_BUFFER_ONLY) (code_stubs (gc w))).
    { rewrite D5. exact P6. }
    split; [exact ES|]. split; [|split; [exact D8 | exact D9]].
    intros e HE. rewrite ES in HE. apply in_map_iff in HE.
    destruct HE as (e0 & <- & _). apply patch_entry_in_mode.
  - exact G6.
Qed.

Lemma Stop_heap (w : World) : heap_ (Stop w) = heap_ w.
Proof.
  unfold Stop. destruct (IsStopped w); [reflexivity|]. cbv zeta.
  set (w1 := fold_left
               (fun w' space =>
                  RemoveAllocationObserver space (observer_of space) w')
               all_spaces w).
  assert (H1 : heap_ w1 = heap_ w) by apply (remove_observers all_spaces w).
  clearbody w1.
  assert (H3 : heap_ (if IsMarking (set_should_hurry false w1)
                      then DeactivateIncrementalWriteBarrier
                             (PatchIncrementalMarkingRecordWriteStubs
                                STORE_BUFFER_ONLY (set_should_hurry false w1))
                      else set_should_hurry false w1) = heap_ w).
  { destruct (IsMarking _); [|exact H1].
    rewrite (proj1 (DeactivateIncrementalWriteBarrier_flags _)). exact H1. }
  unfold FinishBlackAllocation. destruct (black_allocation_ _); exact H3.
Qed.

(** Patching stubs that are in the mode already changes nothing. *)
Lemma patch_entry_same (mode : Mode) (l : list DictionaryEntry) :
  (forall e, In e l -> stub_in_mode mode e) ->
  map (patch_entry mode) l = l.
Proof.
  induction l as [|e l IH]; intros H; cbn [map]; [reflexivity|].
  rewrite IH by (intros e' HE; apply H; right; exact HE).
  f_equal. specialize (H e (or_introl eq_refl)).
  destruct e as [[|[|]] [m|]]; cbn; try reflexivity.
  rewrite (H m eq_refl). reflexivity.
Qed.

(** After [Stop] the barrier is inactive, provided it was already so
    in the SWEEPING state. *)
Lemma Stop_barrier_inactive (w : World) :
  IsStopped w = false ->
  barrier_consistent w ->
  code_stubs (gc (Stop w))
  = map (patch_entry STORE_BUFFER_ONLY) (code_stubs (gc w))
  /\ barrier_inactive (Stop w).
Proof.
  intros HS HB.
  destruct (Stop_effect w HS) as (_ & _ & _ & _ & _ & _ & _ & _ & H9 & H10).
  pose proof (Stop_heap w) as HH.
  destruct (IsMarking w) eqn:HM.
  - destruct (H9 eq_refl) as (A1 & A2 & A3 & A4).
    split; [exact A1|]. unfold barrier_inactive. rewrite HH.
    split; [exact A2|]. split; [exact A3 | exact A4].
  - destruct (H10 eq_refl) as (B1 & B2).
    destruct (HB HM) as (C1 & C2 & C3).
    split; [rewrite B1, patch_entry_same; [reflexivity | exact C1]|].
    unfold barrier_inactive. rewrite HH, B1, B2.
    split; [exact C1|]. split; [exact C2 | exact C3].
Qed.



(** The stop of a marker in the MARKING state: the RecordWrite stub is
    patched and one object stays on the worklist. *)
Example Stop_on_marking_stop_world :
  state_ (im (Stop marking_stop_world)) = STOPPED
  /\ code_stubs (gc (Stop marking_stop_world))
     = [(MajorKey true, Code STORE_BUFFER_ONLY);
        (MajorKey false, Code INCREMENTAL); (NotAKey, NotCode)]
  /\ marking_worklist (gc (Stop marking_stop_world))
     = MarkingWorklist.mk [1024] [] None.
Proof. repeat split. Qed.

(** [Stop] itself relies on the barrier being inactive in the SWEEPING
    state: on a heap put together with the barrier active in that state it
    neither patches the stub nor touches the page flags. *)
Example Stop_relies_on_consistent_barrier :
  state_ (im sweeping_stop_world) = SWEEPING
  /\ state_ (im (Stop sweeping_stop_world)) = STOPPED
  /\ In (MajorKey true, Code INCREMENTAL)
        (code_stubs (gc (Stop sweeping_stop_world)))
  /\ barrier_flags (chunk_at (gc (Stop sweeping_stop_world)) 0)
     = (true, true).
Proof. repeat split. left. reflexivity. Qed.

(** ** Draining the worklist *)

Lemma advances_refl (dom : list Address) (w : World) : advances dom 0 w w.
Proof. unfold advances. repeat split; auto; lia. Qed.

Lemma advances_trans (dom : list Address) (e1 e2 : nat) (w1 w2 w3 : World) :
  advances dom e1 w1 w2 -> advances dom e2 w2 w3 ->
  advances dom (e1 + e2) w1 w3.
Proof.
  intros (A1 & A2 & A3 & A4 & A5 & A6 & A7 & A8)
         (B1 & B2 & B3 & B4 & B5 & B6 & B7 & B8).
  unfold advances. repeat split; try congruence.
  - intros c. rewrite B4. apply A4.
  - intros c. specialize (A5 c). specialize (B5 c). lia.
  - auto.
  - auto.
  - lia.
Qed.

Lemma advances_weaken (dom : list Address) (e1 e2 : nat) (w w' : World) :
  (e1 <= e2)%nat -> advances dom e1 w w' -> advances dom e2 w w'.
Proof.
  intros H (A1 & A2 & A3 & A4 & A5 & A6 & A7 & A8).
  unfold advances. repeat split; auto. lia.
Qed.

(** Fewer White objects when one of [dom] stops being White and none
    becomes White. *)
Lemma white_count_le (dom : list Address) (w w' : World) :
  (forall a, In a dom -> ObjectMarking.IsWhite a w' = true ->
             ObjectMarking.IsWhite a w = true) ->
  (white_count dom w' <= white_count dom w)%nat.
Proof.
  unfold white_count. induction dom as [|a dom IH]; intros H; cbn [filter].
  - lia.
  - assert (IH' : (length (filter (fun a => ObjectMarking.IsWhite a w') dom)
                   <= length (filter (fun a => ObjectMarking.IsWhite a w) dom))%nat).
    { apply IH. intros b Hb. apply H. right. exact Hb. }
    destruct (ObjectMarking.IsWhite a w') eqn:E.
    + rewrite (H a (or_introl eq_refl) E). cbn [length]. lia.
    + destruct (ObjectMarking.IsWhite a w); cbn [length]; lia.
Qed.

Lemma white_count_lt (dom : list Address) (x : Address) (w w' : World) :
  (forall a, In a dom -> ObjectMarking.IsWhite a w' = true ->
             ObjectMarking.IsWhite a w = true) ->
  In x dom ->
  ObjectMarking.IsWhite x w = true -> ObjectMarking.IsWhite x w' = false ->
  (white_count dom w' + 1 <= white_count dom w)%nat.
Proof.
  unfold white_count. induction dom as [|a dom IH]; intros H HI HW HW';
    [contradiction|].
  cbn [filter].
  assert (LE : (length (filter (fun a => ObjectMarking.IsWhite a w') dom)
                <= length (filter (fun a => ObjectMarking.IsWhite a w) dom))%nat).
  { apply (white_count_le dom w w'). intros b Hb. apply H. right. exact Hb. }
  destruct HI as [-> | HI].
  - rewrite HW, HW'. cbn [length]. lia.
  - assert (IH' : (length (filter (fun a => ObjectMarking.IsWhite a w') dom) + 1
                   <= length (filter (fun a => ObjectMarking.IsWhite a w) dom))%nat).
    { apply IH; auto. intros b Hb. apply H. right. exact Hb. }
    destruct (ObjectMarking.IsWhite a w') eqn:E.
    + rewrite (H a (or_introl eq_refl) E). cbn [length]. lia.
    + destruct (ObjectMarking.IsWhite a w); cbn [length]; lia.
Qed.

(** Setting a mark bit makes no object White. *)
Lemma SetBit_white (m : Marking.MarkBit) (b : Marking.Bitmap)
  (i : Marking.MarkBit) :
  Marking.IsWhite (Marking.SetBit m b) i = true -> Marking.IsWhite b i = true.
Proof.
  intros H. apply IsWhite_bits in H. destruct H as [H1 H2].
  apply IsWhite_bits. unfold Marking.SetBit in H1, H2. split.
  - destruct (_ =? _) in H1; [discriminate | exact H1].
  - destruct (_ =? _) in H2; [discriminate | exact H2].
Qed.

Lemma worklist_length_push (o : Address) (wl : MarkingWorklist.t) :
  (length (MarkingWorklist.entries (snd (MarkingWorklist.Push o wl)))
   <= length (MarkingWorklist.entries wl) + 1)%nat.
Proof.
  unfold MarkingWorklist.Push. destruct (MarkingWorklist.IsFull wl);
    cbn [snd]; [lia|].
  unfold MarkingWorklist.entries. cbn. rewrite !length_app. cbn. lia.
Qed.

Lemma worklist_in_push (dom : list Address) (o : Address)
  (wl : MarkingWorklist.t) :
  In o dom ->
  (forall x, In x (MarkingWorklist.entries wl) -> In x dom) ->
  forall x, In x (MarkingWorklist.entries (snd (MarkingWorklist.Push o wl))) ->
            In x dom.
Proof.
  intros HO HW x. unfold MarkingWorklist.Push.
  destruct (MarkingWorklist.IsFull wl); cbn [snd]; [apply HW|].
  unfold MarkingWorklist.entries in *. cbn. intros HI.
  apply in_app_or in HI. destruct HI as [HI | [<- | HI]]; auto.
  - apply HW. apply in_or_app. left. exact HI.
  - apply HW. apply in_or_app. right. exact HI.
Qed.

Lemma white_count_same (dom : list Address) (w w' : World) :
  heap_ w' = heap_ w ->
  internal_marking (gc w') = internal_marking (gc w) ->
  white_count dom w' = white_count dom w.
Proof.
  intros H1 H2. unfold white_count, ObjectMarking.IsWhite, MarkBitFrom.
  rewrite H1, H2. reflexivity.
Qed.

(** A world that differs in its worklist only. *)
Lemma advances_push (dom : list Address) (o : Address) (w : World) :
  In o dom -> advances dom 1 w (snd (Push o w)).
Proof.
  intros HO. unfold advances, Push. cbn [snd].
  split; [reflexivity|]. split; [reflexivity|]. split; [reflexivity|].
  split; [reflexivity|]. split; [intros c; cbn; lia|].
  split; [auto|]. split.
  - intros HW. unfold worklist_in. cbn.
    apply worklist_in_push; assumption.
  - pose proof (worklist_length_push o (marking_worklist (gc w))) as HL.
    rewrite (white_count_same dom w
               (set_marking_worklist
                  (snd (MarkingWorklist.Push o (marking_worklist (gc w)))) w)
               eq_refl eq_refl).
    unfold worklist_length.
    cbn [gc set_marking_worklist with_gc marking_worklist]. lia.
Qed.

Lemma advances_PushBailout (dom : list Address) (o : Address) (w : World) :
  In o dom -> advances dom 1 w (PushBailout o w).
Proof.
  intros HO. unfold advances, PushBailout.
  split; [reflexivity|]. split; [reflexivity|]. split; [reflexivity|].
  split; [reflexivity|]. split; [intros c; cbn; lia|].
  split; [auto|]. split.
  - intros HW x. cbn. unfold MarkingWorklist.entries. cbn.
    intros [<- | HI]; [exact HO | apply HW; exact HI].
  - rewrite (white_count_same dom w
               (set_marking_worklist
                  (MarkingWorklist.PushBailout o (marking_worklist (gc w))) w)
               eq_refl eq_refl).
    unfold worklist_length, MarkingWorklist.entries.
    cbn [gc set_marking_worklist with_gc marking_worklist
         MarkingWorklist.PushBailout MarkingWorklist.bailout
         MarkingWorklist.shared]. cbn [length app]. lia.
Qed.

(** An operation on the mark bits that makes no object of [dom] White. *)
Lemma advances_marking (dom : list Address) (b' : Marking.Bitmap) (w : World) :
  (forall a, In a dom ->
             Marking.IsWhite b' (MarkBitFrom w a) = true ->
             Marking.IsWhite (internal_marking (gc w)) (MarkBitFrom w a) = true) ->
  advances dom 0 w (set_internal_marking b' w).
Proof.
  intros H. unfold advances.
  split; [reflexivity|]. split; [reflexivity|]. split; [reflexivity|].
  split; [reflexivity|]. split; [intros c; cbn; lia|].
  split; [exact H|]. split; [auto|].
  pose proof (white_count_le dom w (set_internal_marking b' w) H).
  unfold worklist_length.
  cbn [gc set_internal_marking with_gc marking_worklist]. lia.
Qed.

Lemma advances_WhiteToGrey (dom : list Address) (obj : Address) (w : World) :
  advances dom 0 w (snd (ObjectMarking.WhiteToGrey obj w)).
Proof.
  unfold ObjectMarking.WhiteToGrey, ObjectMarking.lift. cbn [snd].
  apply advances_marking. intros a _.
  unfold Marking.WhiteToGrey.
  destruct (Marking.IsWhite (internal_marking (gc w)) (MarkBitFrom w obj));
    cbn [snd]; [apply SetBit_white | auto].
Qed.

Lemma advances_GreyToBlack (dom : list Address) (obj : Address) (w : World) :
  advances dom 0 w (snd (ObjectMarking.GreyToBlack obj w)).
Proof.
  unfold ObjectMarking.GreyToBlack, ObjectMarking.lift. cbn [snd].
  apply advances_marking. intros a _.
  unfold Marking.GreyToBlack.
  destruct (Marking.IsGrey (internal_marking (gc w)) (MarkBitFrom w obj));
    cbn [snd]; [apply SetBit_white | auto].
Qed.

(** Black to Grey clears the object's second bit; for a fixed array, in
    whose second word no object starts, this makes no other object White. *)
Lemma advances_BlackToGrey (dom : list Address) (obj : Address) (w : World) :
  heap_closed dom w -> In obj dom -> IsFixedArray w obj = true ->
  advances dom 0 w (snd (ObjectMarking.BlackToGrey obj w)).
Proof.
  intros (_ & _ & _ & HSp & _) HO HA.
  unfold ObjectMarking.BlackToGrey, ObjectMarking.lift. cbn [snd].
  apply advances_marking. intros a HI.
  unfold Marking.BlackToGrey.
  destruct (Marking.IsBlack (internal_marking (gc w)) (MarkBitFrom w obj))
    eqn:HB; cbn [snd]; [|auto].
  intros HW. apply IsBlack_bits in HB. destruct HB as [B1 B2].
  apply IsWhite_bits in HW. destruct HW as [W1 W2].
  unfold Marking.ClearBit, Marking.Next in *.
  specialize (HSp obj a HO HI HA).
  destruct (Z.eqb_spec (MarkBitFrom w a) (MarkBitFrom w obj + 1));
    [contradiction|].
  destruct (Z.eqb_spec (MarkBitFrom w a + 1) (MarkBitFrom w obj + 1)).
  - assert (E : MarkBitFrom w a = MarkBitFrom w obj) by lia.
    rewrite E in W1. congruence.
  - apply IsWhite_bits. split; assumption.
Qed.

Lemma advances_WhiteToGreyAndPush (dom : list Address) (obj : Address)
  (w : World) :
  In obj dom -> advances dom 0 w (snd (WhiteToGreyAndPush obj w)).
Proof.
  intros HO. destruct (ObjectMarking.IsWhite obj w) eqn:HW.
  2: { rewrite (WhiteToGreyAndPush_not_white _ _ HW). apply advances_refl. }
  rewrite (WhiteToGreyAndPush_white _ _ HW). cbn [snd].
  set (w1 := set_internal_marking
               (Marking.SetBit (MarkBitFrom w obj) (internal_marking (gc w)))
               w).
  assert (M : forall a, ObjectMarking.IsWhite a w1 = true ->
                        ObjectMarking.IsWhite a w = true).
  { intros a. apply SetBit_white. }
  assert (NW : ObjectMarking.IsWhite obj w1 = false).
  { unfold ObjectMarking.IsWhite, Marking.IsWhite, Marking.Get. subst w1. cbn.
    unfold MarkBitFrom. cbn. rewrite SetBit_same. reflexivity. }
  pose proof (white_count_lt dom obj w w1 (fun a _ => M a) HO HW NW) as HC.
  unfold advances, Push. cbn [snd].
  split; [reflexivity|]. split; [reflexivity|]. split; [reflexivity|].
  split; [reflexivity|]. split; [intros c; cbn; lia|].
  split; [intros a _; apply M|]. split.
  - intros HWl. unfold worklist_in. cbn.
    apply worklist_in_push; assumption.
  - pose proof (worklist_length_push obj (marking_worklist (gc w))) as HL.
    rewrite (white_count_same dom w1
               (set_marking_worklist
                  (snd (MarkingWorklist.Push obj (marking_worklist (gc w1))))
                  w1) eq_refl eq_refl).
    unfold worklist_length.
    cbn [gc set_marking_worklist with_gc marking_worklist].
    change (marking_worklist (gc w1)) with (marking_worklist (gc w)).
    lia.
Qed.

(** A world with the same mark bits and worklist, and progress bars that
    did not go back. *)
Lemma advances_frame (dom : list Address) (w w' : World) :
  heap_ w' = heap_ w ->
  state_ (im w') = state_ (im w) ->
  bytes_marked_ahead_of_schedule_ (im w')
  = bytes_marked_ahead_of_schedule_ (im w) ->
  internal_marking (gc w') = internal_marking (gc w) ->
  marking_worklist (gc w') = marking_worklist (gc w) ->
  (forall c, HAS_PROGRESS_BAR (chunk_at (gc w') c)
             = HAS_PROGRESS_BAR (chunk_at (gc w) c)) ->
  (forall c, progress_bar (chunk_at (gc w) c)
             <= progress_bar (chunk_at (gc w') c)) ->
  advances dom 0 w w'.
Proof.
  intros H1 H2 H3 H4 H5 H6 H7. unfold advances.
  split; [exact H1|]. split; [exact H2|]. split; [exact H3|].
  split; [exact H6|]. split; [exact H7|]. split; [|split].
  - intros a _. unfold ObjectMarking.IsWhite, MarkBitFrom.
    rewrite H1, H4. auto.
  - unfold worklist_in. rewrite H5. auto.
  - rewrite (white_count_same dom w w' H1 H4).
    unfold worklist_length. rewrite H5. lia.
Qed.

Lemma heap_closed_same (dom : list Address) (w w' : World) :
  heap_ w' = heap_ w -> heap_closed dom w -> heap_closed dom w'.
Proof.
  intros H. unfold heap_closed, obj_map, MarkBitFrom, IsFixedArray.
  rewrite H. auto.
Qed.

Lemma advances_closed (dom : list Address) (e : nat) (w w' : World) :
  advances dom e w w' -> heap_closed dom w -> heap_closed dom w'.
Proof. intros (H & _). apply heap_closed_same. exact H. Qed.

Lemma advances_RecordSlot (dom : list Address) (host slot : Address)
  (value : Object) (w : World) :
  advances dom 0 w (RecordSlot host slot value w).
Proof. apply advances_frame; try reflexivity; intros c; cbn; lia. Qed.

Lemma advances_unscanned (dom : list Address) (v : Z) (w : World) :
  advances dom 0 w (set_unscanned_bytes_of_large_object_ v w).
Proof. apply advances_frame; try reflexivity; intros c; cbn; lia. Qed.

Lemma advances_progress_bar (dom : list Address) (chunk v : Z) (w : World) :
  progress_bar (chunk_at (gc w) chunk) <= v ->
  advances dom 0 w (set_progress_bar chunk v w).
Proof.
  intros H. apply advances_frame; try reflexivity; intros c; cbn;
    destruct (Z.eqb_spec c chunk); subst; cbn; try reflexivity; lia.
Qed.

Lemma advances_VisitPointer (dom : list Address) (host p : Address)
  (w : World) :
  heap_closed dom w -> advances dom 0 w (VisitPointer host p w).
Proof.
  intros (HL & _). unfold VisitPointer, MarkObject.
  destruct (load (heap_ w) p) as [n | a] eqn:E; cbn [IsHeapObject];
    [apply advances_refl|].
  cbn [HeapObject_cast].
  apply (advances_trans dom 0 0 w (RecordSlot host p (HeapPointer a) w)).
  - apply advances_RecordSlot.
  - apply advances_WhiteToGreyAndPush. exact (HL _ _ E).
Qed.

Lemma advances_VisitPointers_loop (dom : list Address) (n : nat)
  (host p : Address) (w : World) :
  heap_closed dom w -> advances dom 0 w (VisitPointers_loop n host p w).
Proof.
  revert p w. induction n as [|n IH]; intros p w HC; cbn [VisitPointers_loop].
  - apply advances_refl.
  - pose proof (advances_VisitPointer dom host p w HC) as H1.
    apply (advances_trans dom 0 0 w (VisitPointer host p w)); [exact H1|].
    apply IH. exact (advances_closed _ _ _ _ H1 HC).
Qed.

Lemma advances_VisitPointers (dom : list Address) (host s e : Address)
  (w : World) :
  heap_closed dom w -> advances dom 0 w (VisitPointers host s e w).
Proof. apply advances_VisitPointers_loop. Qed.

Lemma advances_scan_chunks (dom : list Address) (n : nat) (object : Address)
  (size s e : Z) (w : World) :
  heap_closed dom w ->
  advances dom 0 w (snd (scan_chunks n object size s e w)).
Proof.
  revert s e w. induction n as [|n IH]; intros s e w HC; cbn [scan_chunks];
    pose proof (advances_VisitPointers dom object (RawField object s)
                  (RawField object e) w HC) as H1.
  - destruct (_ && _); exact H1.
  - destruct (_ && _); [|exact H1].
    apply (advances_trans dom 0 0 w _ _ H1).
    apply IH. exact (advances_closed _ _ _ _ H1 HC).
Qed.

Lemma advances_PushBlack (dom : list Address) (obj : Address) (w : World) :
  heap_closed dom w -> In obj dom -> IsFixedArray w obj = true ->
  advances dom 1 w (PushBlack obj w).
Proof.
  intros HC HO HA. unfold PushBlack.
  pose proof (advances_push dom obj w HO) as H1.
  destruct (Push obj w) as [ok w1]. cbn [snd] in H1.
  destruct ok; [exact H1|].
  apply (advances_trans dom 1 0 w w1 _ H1).
  apply advances_BlackToGrey; [|exact HO|].
  - exact (advances_closed _ _ _ _ H1 HC).
  - destruct H1 as (E1 & _). unfold IsFixedArray in *. rewrite E1. exact HA.
Qed.

Lemma advances_repushed (dom : list Address) (obj : Address) (w : World) :
  heap_closed dom w -> In obj dom -> IsFixedArray w obj = true ->
  advances dom 1 w (repushed obj w).
Proof.
  intros HC HO HA. unfold repushed.
  destruct (V8_CONCURRENT_MARKING _); [apply advances_PushBailout; exact HO|].
  destruct (ObjectMarking.IsGrey obj w);
    [apply advances_push; exact HO | apply advances_PushBlack; assumption].
Qed.

(** The bytes left on the progress bars do not grow. *)
Lemma bar_left_le (dom : list Address) (e : nat) (w w' : World) (o : Address) :
  advances dom e w w' -> (bar_left w' o <= bar_left w o)%nat.
Proof.
  intros (H1 & _ & _ & H4 & H5 & _).
  unfold bar_left, IsFixedArray, chunk_of, scan_start, FromAddress.
  rewrite H1, H4.
  destruct (_ && _); [|lia].
  specialize (H5 (o / kPageSize (flags (heap_ w)))). lia.
Qed.

Lemma bars_left_le (dom : list Address) (e : nat) (w w' : World) :
  advances dom e w w' -> (bars_left dom w' <= bars_left dom w)%nat.
Proof.
  intros H. unfold bars_left.
  assert (G : forall l,
            (fold_right (fun o n => (bar_left w' o + n)%nat) O l
             <= fold_right (fun o n => (bar_left w o + n)%nat) O l)%nat).
  { induction l as [|o l IH]; cbn [fold_right]; [lia|].
    pose proof (bar_left_le dom e w w' o H). lia. }
  apply G.
Qed.

Lemma bars_left_lt (dom : list Address) (e : nat) (w w' : World)
  (x : Address) :
  advances dom e w w' -> In x dom ->
  (bar_left w' x < bar_left w x)%nat ->
  (bars_left dom w' + 1 <= bars_left dom w)%nat.
Proof.
  intros H HI HX. unfold bars_left.
  assert (G : forall l, In x l ->
            (fold_right (fun o n => (bar_left w' o + n)%nat) O l + 1
             <= fold_right (fun o n => (bar_left w o + n)%nat) O l)%nat).
  { induction l as [|o l IH]; intros HL; [contradiction|].
    cbn [fold_right].
    assert (LE : (fold_right (fun o n => (bar_left w' o + n)%nat) O l
                  <= fold_right (fun o n => (bar_left w o + n)%nat) O l)%nat).
    { clear IH HL. induction l as [|o' l IH]; cbn [fold_right]; [lia|].
      pose proof (bar_left_le dom e w w' o' H). lia. }
    pose proof (bar_left_le dom e w w' o H) as HO.
    destruct HL as [-> | HL]; [lia|].
    specialize (IH HL). lia. }
  apply G. exact HI.
Qed.

Lemma potential_le (dom : list Address) (w w' : World) :
  advances dom 0 w w' -> (potential dom w' <= potential dom w)%nat.
Proof.
  intros H. pose proof (bars_left_le dom 0 w w' H) as HB.
  destruct H as (_ & _ & _ & _ & _ & _ & _ & H8).
  unfold potential. lia.
Qed.

(** A visit may push the visited array again, but then its progress bar
    has advanced: the measure does not grow. *)
Lemma VisitFixedArray_potential (dom : list Address) (obj : Address)
  (w : World) :
  heap_closed dom w -> In obj dom -> IsFixedArray w obj = true ->
  advances dom 1 w (snd (VisitFixedArray obj w))
  /\ (potential dom (snd (VisitFixedArray obj w)) <= potential dom w)%nat.
Proof.
  intros HC HO HA.
  assert (Z0 : forall w', advances dom 0 w w' ->
               advances dom 1 w w' /\ (potential dom w' <= potential dom w)%nat).
  { intros w' H. split; [|apply potential_le; exact H].
    apply (advances_weaken dom 0 1); [lia | exact H]. }
  destruct (HAS_PROGRESS_BAR (chunk_at (gc w) (FromAddress w obj))) eqn:HP.
  2: { unfold VisitFixedArray. rewrite HP. cbn [snd].
       apply Z0. apply advances_VisitPointers. exact HC. }
  destruct (Z.ltb_spec (scan_start obj w)
              (SizeFromMap (object_at (heap_ w) obj))) as [HS | HS].
  2: { unfold VisitFixedArray. rewrite HP. fold (scan_start obj w).
       destruct (Z.ltb_spec (scan_start obj w)
                   (SizeFromMap (object_at (heap_ w) obj))); [lia|].
       cbn [snd]. apply Z0. apply advances_refl. }
  rewrite (VisitFixedArray_eq obj w HP HS). cbv zeta. cbn [snd].
  assert (H0 : 0 <= scan_start obj w).
  { destruct HC as (_ & _ & _ & _ & K & _). unfold scan_start. lia. }
  assert (HM : SizeFromMap (object_at (heap_ w) obj) <= kMaxScannedSize).
  { destruct HC as (_ & _ & _ & _ & _ & K). apply K; assumption. }
  pose proof (first_chunk_end_fits obj w H0 HS HM) as EF.
  set (size := SizeFromMap (object_at (heap_ w) obj)) in *.
  assert (HE : 0 <= first_chunk_end obj w <= size).
  { rewrite EF. unfold kProgressBarScanningChunk. lia. }
  assert (HGT : scan_start obj w < first_chunk_end obj w).
  { rewrite EF. unfold kProgressBarScanningChunk. lia. }
  pose proof (advances_repushed dom obj w HC HO HA) as R1.
  pose proof (advances_closed _ _ _ _ R1 HC) as HC1.
  set (r := scan_chunks (chunks_left size (scan_start obj w)) obj size
              (scan_start obj w) (first_chunk_end obj w) (repushed obj w)).
  pose proof (advances_scan_chunks dom (chunks_left size (scan_start obj w))
                obj size (scan_start obj w) (first_chunk_end obj w)
                (repushed obj w) HC1) as R2. fold r in R2.
  pose proof (scan_chunks_frame (chunks_left size (scan_start obj w)) obj size
                (scan_start obj w) (first_chunk_end obj w) (repushed obj w)
                (proj2 HE))
    as HFr.
  cbv zeta in HFr. fold r in HFr. destruct HFr as (F1 & F2 & F3 & _).
  pose proof (scan_chunks_bounds (chunks_left size (scan_start obj w)) obj
                size (scan_start obj w) (first_chunk_end obj w)
                (repushed obj w) HE HM) as F4.
  fold r in F4.
  destruct (repushed_frame obj w) as (P1 & P2 & P3).
  assert (BAR : progress_bar (chunk_at (gc (snd r)) (FromAddress w obj))
                <= fst r).
  { rewrite F3, P3. unfold scan_start in HGT. lia. }
  pose proof (advances_progress_bar dom (FromAddress w obj) (fst r) (snd r) BAR)
    as R3.
  set (w3 := set_progress_bar (FromAddress w obj) (fst r) (snd r)) in *.
  set (w4 := if fst r <? size
             then NotifyIncompleteScanOfObject
                    (to_int (size - to_int (fst r - scan_start obj w))) w3
             else w3).
  assert (R4 : advances dom 0 w3 w4).
  { subst w4. destruct (fst r <? size);
      [apply advances_unscanned | apply advances_refl]. }
  assert (R : advances dom 1 w w4).
  { apply (advances_trans dom 1 0 w (repushed obj w) w4 R1).
    apply (advances_trans dom 0 0 _ (snd r) w4 R2).
    apply (advances_trans dom 0 0 _ w3 w4 R3 R4). }
  split; [exact R|].
  assert (LT : (bar_left w4 obj < bar_left w obj)%nat).
  { assert (E4 : chunk_at (gc w4) = chunk_at (gc w3)
                 /\ heap_ w4 = heap_ w).
    { subst w4. destruct (fst r <? size); split; try reflexivity;
        subst w3; cbn; rewrite F1, P1; reflexivity. }
    destruct E4 as [E4 E5].
    unfold bar_left, IsFixedArray, chunk_of, scan_start, FromAddress.
    rewrite E4, E5.
    unfold IsFixedArray in HA. rewrite HA.
    assert (EB : chunk_at (gc w3) (obj / kPageSize (flags (heap_ w)))
                 = mkChunk
                     (HAS_PROGRESS_BAR (chunk_at (gc w) (FromAddress w obj)))
                     (SWEEP_TO_ITERATE (chunk_at (gc w) (FromAddress w obj)))
                     (IN_FROM_SPACE (chunk_at (gc w) (FromAddress w obj)))
                     (IN_TO_SPACE (chunk_at (gc w) (FromAddress w obj)))
                     (POINTERS_TO_HERE_ARE_INTERESTING
                        (chunk_at (gc w) (FromAddress w obj)))
                     (POINTERS_FROM_HERE_ARE_INTERESTING
                        (chunk_at (gc w) (FromAddress w obj)))
                     (fst r)
                     (owner_is_LO_SPACE (chunk_at (gc w) (FromAddress w obj)))).
    { subst w3. unfold set_progress_bar, FromAddress.
      cbn [gc set_chunk_at with_gc chunk_at]. rewrite Z.eqb_refl.
      rewrite F3, P3. reflexivity. }
    rewrite EB. cbn [HAS_PROGRESS_BAR progress_bar].
    unfold scan_start, FromAddress in *. rewrite HP. cbn [andb].
    fold size. lia. }
  pose proof (bars_left_lt dom 1 w w4 obj R HO LT) as HB.
  destruct R as (_ & _ & _ & _ & _ & _ & _ & R8).
  unfold potential. lia.
Qed.

Lemma advances_VisitBody (dom : list Address) (obj : Address) (w : World) :
  heap_closed dom w -> advances dom 0 w (snd (VisitBody obj w)).
Proof. intros HC. unfold VisitBody. cbn [snd]. apply advances_VisitPointers. exact HC. Qed.

Lemma advances_VisitNativeContext (dom : list Address) (obj : Address)
  (w : World) :
  heap_closed dom w -> advances dom 0 w (snd (VisitNativeContext obj w)).
Proof.
  intros HC. unfold VisitNativeContext.
  set (cache := load (heap_ w)
                  (RawField obj (NORMALIZED_MAP_CACHE_offset (fl w)))).
  set (w1 := if negb (IsUndefined cache w)
             then if IsHeapObject cache
                  then snd (ObjectMarking.WhiteToGrey (HeapObject_cast cache) w)
                  else w
             else w).
  assert (H1 : advances dom 0 w w1).
  { subst w1. destruct (negb _); [|apply advances_refl].
    destruct (IsHeapObject cache);
      [apply advances_WhiteToGrey | apply advances_refl]. }
  apply (advances_trans dom 0 0 w w1 _ H1).
  apply advances_VisitBody. exact (advances_closed _ _ _ _ H1 HC).
Qed.

Lemma Visit_potential (dom : list Address) (map obj : Address) (w : World) :
  heap_closed dom w -> In obj dom ->
  advances dom 1 w (snd (Visit map obj w))
  /\ (potential dom (snd (Visit map obj w)) <= potential dom w)%nat.
Proof.
  intros HC HO.
  assert (Z0 : forall w', advances dom 0 w w' ->
               advances dom 1 w w' /\ (potential dom w' <= potential dom w)%nat).
  { intros w' H. split; [|apply potential_le; exact H].
    apply (advances_weaken dom 0 1); [lia | exact H]. }
  unfold Visit.
  destruct (instance_kind (object_at (heap_ w) obj)) eqn:K.
  - apply Z0, advances_VisitBody, HC.
  - apply VisitFixedArray_potential; auto.
    unfold IsFixedArray. rewrite K. reflexivity.
  - apply Z0, advances_VisitNativeContext, HC.
  - apply Z0, advances_VisitBody, HC.
Qed.

Lemma VisitObject_potential (dom : list Address) (obj : Address) (size : Z)
  (w : World) :
  heap_closed dom w -> In obj dom ->
  advances dom 1 w (VisitObject (obj_map w obj) obj size w)
  /\ (potential dom (VisitObject (obj_map w obj) obj size w)
      <= potential dom w)%nat.
Proof.
  intros HC HO. unfold VisitObject.
  pose proof (advances_GreyToBlack dom obj w) as H1.
  set (w1 := snd (ObjectMarking.GreyToBlack obj w)) in *.
  pose proof (advances_closed _ _ _ _ H1 HC) as HC1.
  assert (HM : In (obj_map w obj) dom).
  { destruct HC as (_ & HMp & _). apply HMp. exact HO. }
  pose proof (advances_WhiteToGreyAndPush dom (obj_map w obj) w1 HM) as H2.
  set (w2 := snd (WhiteToGreyAndPush (obj_map w obj) w1)) in *.
  pose proof (advances_closed _ _ _ _ H2 HC1) as HC2.
  destruct (Visit_potential dom (obj_map w obj) obj w2 HC2 HO) as [H3 P3].
  pose proof (advances_trans dom 0 0 w w1 w2 H1 H2) as H12.
  split.
  - exact (advances_trans dom 0 1 w w2 _ H12 H3).
  - pose proof (potential_le dom w w2 H12). lia.
Qed.

(** Popping removes one entry. *)
Lemma Pop_some (dom : list Address) (w w1 : World) (obj : Address) :
  Pop w = (Some obj, w1) ->
  In obj (MarkingWorklist.entries (marking_worklist (gc w)))
  /\ advances dom 0 w w1
  /\ (worklist_length w1 + 1 = worklist_length w)%nat
  /\ im w1 = im w.
Proof.
  unfold Pop, MarkingWorklist.Pop. intros H.
  assert (G : forall wl',
             (forall x, In x (MarkingWorklist.entries wl') ->
                        In x (MarkingWorklist.entries (marking_worklist (gc w)))) ->
             (length (MarkingWorklist.entries wl') + 1
              = length (MarkingWorklist.entries (marking_worklist (gc w))))%nat ->
             advances dom 0 w (set_marking_worklist wl' w)
             /\ (worklist_length (set_marking_worklist wl' w) + 1
                 = worklist_length w)%nat
             /\ im (set_marking_worklist wl' w) = im w).
  { intros wl' HI HL. split; [|split; [exact HL | reflexivity]].
    unfold advances.
    split; [reflexivity|]. split; [reflexivity|]. split; [reflexivity|].
    split; [reflexivity|]. split; [intros c; cbn; lia|].
    split; [auto|]. split.
    - intros HW x HX. apply HW. apply HI. exact HX.
    - rewrite (white_count_same dom w (set_marking_worklist wl' w)
                 eq_refl eq_refl).
      unfold worklist_length.
      cbn [gc set_marking_worklist with_gc marking_worklist]. lia. }
  unfold MarkingWorklist.entries in *.
  destruct (MarkingWorklist.bailout (marking_worklist (gc w)))
    as [|o rest] eqn:EB.
  - destruct (MarkingWorklist.shared (marking_worklist (gc w)))
      as [|o rest] eqn:ES; cbn [fst snd] in H; [discriminate|].
    injection H as <- <-. split; [left; reflexivity|].
    apply G; cbn; [auto | lia].
  - cbn [fst snd] in H. injection H as <- <-. split; [left; reflexivity|].
    apply G; cbn; [auto | lia].
Qed.

Lemma Pop_none (w w1 : World) :
  Pop w = (None, w1) ->
  MarkingWorklist.entries (marking_worklist (gc w)) = [].
Proof.
  unfold Pop, MarkingWorklist.Pop, MarkingWorklist.entries.
  destruct (MarkingWorklist.bailout (marking_worklist (gc w)));
    [|discriminate].
  destruct (MarkingWorklist.shared (marking_worklist (gc w)));
    [reflexivity | discriminate].
Qed.

Lemma Pop_empty (w : World) :
  MarkingWorklist.entries (marking_worklist (gc w)) = [] ->
  Pop w = (None, w).
Proof.
  unfold Pop, MarkingWorklist.Pop, MarkingWorklist.entries. intros H.
  apply app_eq_nil in H. destruct H as [H1 H2]. rewrite H1, H2. reflexivity.
Qed.

Lemma advances_white_count (dom : list Address) (e : nat) (w w' : World) :
  advances dom e w w' -> (white_count dom w' <= white_count dom w)%nat.
Proof.
  intros (_ & _ & _ & _ & _ & H6 & _). apply white_count_le. exact H6.
Qed.

Lemma Pop_potential (dom : list Address) (w w1 : World) (obj : Address) :
  Pop w = (Some obj, w1) ->
  (potential dom w1 + 1 <= potential dom w)%nat.
Proof.
  intros H. destruct (Pop_some dom w w1 obj H) as (_ & A & L & _).
  pose proof (advances_white_count _ _ _ _ A).
  pose proof (bars_left_le _ _ _ _ A).
  unfold potential. lia.
Qed.

(** With fuel for every entry the measure allows, the loop of
    [ProcessMarkingWorklist] reaches its end; it pops at least one entry
    when it is entered with budget left and a worklist that is not empty,
    and under FORCE_COMPLETION it leaves the worklist empty. *)
Lemma ProcessMarkingWorklist_loop_total (dom : list Address) (fuel : nat) :
  forall (bytes_to_process : Z) (completion : ForceCompletionAction)
         (bytes_processed : Z) (w : World),
  heap_closed dom w -> worklist_in dom w -> (potential dom w <= fuel)%nat ->
  exists n w',
    ProcessMarkingWorklist_loop fuel bytes_to_process completion
      bytes_processed w = Some (n, w')
    /\ heap_ w' = heap_ w
    /\ state_ (im w') = state_ (im w)
    /\ worklist_in dom w'
    /\ (potential dom w' <= potential dom w)%nat
    /\ ((bytes_processed <? bytes_to_process)
        || is_FORCE_COMPLETION completion = true ->
        (0 < worklist_length w)%nat ->
        (potential dom w' < potential dom w)%nat)
    /\ (is_FORCE_COMPLETION completion = true -> worklist_length w' = O).
Proof.
  induction fuel as [|fuel IH]; intros btp completion bp w HC HW HP.
  - (* no fuel: the worklist is empty *)
    assert (HE : MarkingWorklist.entries (marking_worklist (gc w)) = []).
    { unfold potential, worklist_length in HP.
      destruct (MarkingWorklist.entries (marking_worklist (gc w)));
        [reflexivity | cbn in HP; lia]. }
    exists bp, w. cbn [ProcessMarkingWorklist_loop].
    rewrite (Pop_empty w HE).
    assert (L0 : worklist_length w = O).
    { unfold worklist_length. rewrite HE. reflexivity. }
    destruct (_ || _); repeat split; auto; lia.
  - cbn [ProcessMarkingWorklist_loop].
    destruct ((bp <? btp) || is_FORCE_COMPLETION completion) eqn:HCnd.
    2: { exists bp, w. repeat split; auto; try discriminate.
         intros HF. rewrite HF, orb_true_r in HCnd. discriminate. }
    destruct (Pop w) as [[obj|] w1] eqn:EP.
    2: { exists bp, w. pose proof (Pop_none _ _ EP) as HE.
         assert (L0 : worklist_length w = O).
         { unfold worklist_length. rewrite HE. reflexivity. }
         repeat split; auto; lia. }
    destruct (Pop_some dom w w1 obj EP) as (HI & A1 & L1 & I1).
    pose proof (Pop_potential dom w w1 obj EP) as P1.
    pose proof (advances_closed _ _ _ _ A1 HC) as HC1.
    assert (HW1 : worklist_in dom w1).
    { destruct A1 as (_ & _ & _ & _ & _ & _ & A7 & _). auto. }
    assert (HO : In obj dom) by (apply HW; exact HI).
    destruct (IsFiller w1 obj).
    + destruct (IH btp completion bp w1 HC1 HW1 ltac:(lia))
        as (n & w' & E & R1 & R2 & R3 & R4 & _ & R6).
      exists n, w'. split; [exact E|].
      destruct A1 as (B1 & B2 & _).
      split; [congruence|]. split; [congruence|]. split; [exact R3|].
      split; [lia|]. split; [intros _ _; lia | exact R6].
    + set (w2 := set_unscanned_bytes_of_large_object_ 0 w1).
      pose proof (advances_unscanned dom 0 w1) as A2. fold w2 in A2.
      pose proof (advances_closed _ _ _ _ A2 HC1) as HC2.
      pose proof (potential_le _ _ _ A2) as P2.
      change (obj_map w1 obj) with (obj_map w2 obj).
      change (object_at (heap_ w1) obj) with (object_at (heap_ w2) obj).
      set (size := SizeFromMap (object_at (heap_ w2) obj)).
      destruct (VisitObject_potential dom obj size w2 HC2 HO) as [A3 P3].
      set (w3 := VisitObject (obj_map w2 obj) obj size w2) in *.
      pose proof (advances_closed _ _ _ _ A3 HC2) as HC3.
      assert (HW3 : worklist_in dom w3).
      { destruct A2 as (_ & _ & _ & _ & _ & _ & A7 & _).
        destruct A3 as (_ & _ & _ & _ & _ & _ & A7' & _). auto. }
      destruct (IH btp completion
                  (bp + (size - unscanned_bytes_of_large_object_ (im w3)))
                  w3 HC3 HW3 ltac:(lia))
        as (n & w' & E & R1 & R2 & R3 & R4 & _ & R6).
      exists n, w'. split; [exact E|].
      destruct A1 as (B1 & B2 & _). destruct A2 as (C1 & C2 & _).
      destruct A3 as (D1 & D2 & _).
      split; [congruence|]. split; [congruence|]. split; [exact R3|].
      split; [lia|]. split; [intros _ _; lia | exact R6].
Qed.

Lemma same_marking_refl (w : World) : same_marking w w.
Proof. repeat split. Qed.

Lemma same_marking_trans (w1 w2 w3 : World) :
  same_marking w1 w2 -> same_marking w2 w3 -> same_marking w1 w3.
Proof.
  intros (A1 & A2 & A3 & A4) (B1 & B2 & B3 & B4).
  repeat split; congruence.
Qed.

Lemma same_marking_potential (dom : list Address) (w w' : World) :
  same_marking w w' ->
  potential dom w' = potential dom w
  /\ worklist_length w' = worklist_length w
  /\ (worklist_in dom w -> worklist_in dom w')
  /\ (heap_closed dom w -> heap_closed dom w').
Proof.
  intros (H1 & H2 & H3 & H4).
  assert (EW : white_count dom w' = white_count dom w)
    by (apply white_count_same; assumption).
  assert (EL : worklist_length w' = worklist_length w)
    by (unfold worklist_length; rewrite H3; reflexivity).
  assert (EB : bars_left dom w' = bars_left dom w).
  { unfold bars_left.
    assert (G : forall o, bar_left w' o = bar_left w o).
    { intros o. unfold bar_left, IsFixedArray, chunk_of, scan_start,
        FromAddress. rewrite H1, H4. reflexivity. }
    clear - G. induction dom as [|o l IH]; cbn [fold_right]; [reflexivity|].
    rewrite G, IH. reflexivity. }
  split; [unfold potential; lia|]. split; [exact EL|]. split.
  - unfold worklist_in. rewrite H3. auto.
  - apply heap_closed_same. exact H1.
Qed.

Lemma IsEmpty_length (w : World) :
  MarkingWorklist.IsEmpty (marking_worklist (gc w)) = true <->
  worklist_length w = O.
Proof.
  unfold MarkingWorklist.IsEmpty, worklist_length.
  destruct (MarkingWorklist.entries (marking_worklist (gc w))); cbn;
    split; intros H; congruence.
Qed.

Lemma to_intptr_small (n : Z) : 0 <= n < 2 ^ 63 -> to_intptr n = n.
Proof. intros H. unfold to_intptr. rewrite Z.mod_small by lia. lia. Qed.

(** After the worklist was processed: the marking state is kept, and the
    state changes only when the worklist is empty, then to COMPLETE. *)
Lemma after_processing_frame (action : CompletionAction)
  (completion : ForceCompletionAction) (w : World) :
  same_marking w (after_processing action completion w)
  /\ bytes_marked_ahead_of_schedule_
       (im (after_processing action completion w))
     = bytes_marked_ahead_of_schedule_ (im w)
  /\ (state_ (im (after_processing action completion w)) = state_ (im w)
      \/ (state_ (im (after_processing action completion w)) = COMPLETE
          /\ worklist_length w = O)).
Proof.
  unfold after_processing.
  destruct (MarkingWorklist.IsEmpty (marking_worklist (gc w))) eqn:HE.
  2: { split; [apply same_marking_refl|]. auto. }
  apply IsEmpty_length in HE.
  destruct (ShouldFinalizeIncrementalMarking (heap_ w)).
  2: { split; [repeat split|]. auto. }
  destruct (_ || _).
  2: { split; [repeat split|]. auto. }
  destruct (negb _).
  - unfold FinalizeMarking. destruct (is_GC_VIA_STACK_GUARD action);
      (split; [repeat split|]); auto.
  - unfold MarkingComplete. destruct (is_GC_VIA_STACK_GUARD action);
      (split; [repeat split|]); auto.
Qed.

(** One [Step] of a marker that is draining. *)
Lemma Step_draining (dom : list Address) (fuel : nat) (b : Z)
  (action : CompletionAction) (completion : ForceCompletionAction)
  (origin : StepOrigin) (w : World) :
  draining dom w -> (potential dom w <= fuel)%nat -> 0 < b < 2 ^ 63 ->
  exists n w',
    Step fuel b action completion origin w = Some (n, w')
    /\ draining dom w'
    /\ (potential dom w' <= potential dom w)%nat
    /\ ((0 < worklist_length w)%nat ->
        (potential dom w' < potential dom w)%nat)
    /\ (worklist_length w = O -> worklist_length w' = O).
Proof.
  intros (HC & HW & HS) HP HB. unfold Step.
  assert (NS : State_eqb (state_ (im w)) SWEEPING = false).
  { destruct HS as [-> | [-> _]]; reflexivity. }
  rewrite NS.
  assert (TAIL : forall (n : Z) (w4 : World),
             same_marking w4
               (notify (AddIncrementalMarkingStep n)
                  (if FLAG_concurrent_marking (fl w4)
                   then notify RescheduleTasksIfNeeded w4 else w4))
             /\ state_ (im (notify (AddIncrementalMarkingStep n)
                              (if FLAG_concurrent_marking (fl w4)
                               then notify RescheduleTasksIfNeeded w4
                               else w4)))
                = state_ (im w4)).
  { intros n w4. destruct (FLAG_concurrent_marking _); repeat split. }
  destruct HS as [HS | [HS HL]].
  - (* MARKING *)
    rewrite HS. cbn [State_eqb State_rank Z.eqb Pos.eqb].
    rewrite (to_intptr_small b) by lia.
    unfold ProcessMarkingWorklist.
    destruct (ProcessMarkingWorklist_loop_total dom fuel b
                DO_NOT_FORCE_COMPLETION 0 w HC HW HP)
      as (n & w2 & E & R1 & R2 & R3 & R4 & R5 & _).
    rewrite E.
    set (w2' := notify RegisterWrappersWithRemoteTracer w2).
    set (w3 := if is_kTask origin
               then set_bytes_marked_ahead_of_schedule_
                      (wrap_size_t
                         (bytes_marked_ahead_of_schedule_ (im w2')
                          + wrap_size_t n)) w2'
               else w2').
    assert (S3 : same_marking w2 w3 /\ state_ (im w3) = state_ (im w2)).
    { subst w3 w2'. destruct (is_kTask origin); repeat split. }
    destruct S3 as [S3 T3].
    destruct (after_processing_frame action completion w3) as (S4 & _ & T4).
    set (w4 := after_processing action completion w3) in *.
    destruct (TAIL (wrap_size_t n) w4) as [S5 T5].
    set (w5 := notify (AddIncrementalMarkingStep (wrap_size_t n))
                 (if FLAG_concurrent_marking (fl w4)
                  then notify RescheduleTasksIfNeeded w4 else w4)) in *.
    exists (wrap_size_t n), w5. split; [reflexivity|].
    pose proof (same_marking_trans _ _ _ S3 (same_marking_trans _ _ _ S4 S5))
      as S25.
    destruct (same_marking_potential dom w2 w5 S25) as (Q1 & Q2 & Q3 & Q4).
    destruct (same_marking_potential dom w2 w3 S3) as (_ & Q5 & _).
    assert (HC2 : heap_closed dom w2) by (apply (heap_closed_same dom w); auto).
    split; [|split; [lia|split]].
    + split; [auto|]. split; [auto|].
      rewrite T5. destruct T4 as [T4 | [T4 T4']].
      * left. congruence.
      * right. split; [exact T4 | lia].
    + intros HL. rewrite Q1. apply R5; [|exact HL].
      apply orb_true_iff. left. apply Z.ltb_lt. lia.
    + intros HL. rewrite Q2.
      assert (P0 : (potential dom w2 <= potential dom w)%nat) by exact R4.
      (* an empty worklist is left as it is *)
      assert (HE : MarkingWorklist.entries (marking_worklist (gc w)) = []).
      { unfold worklist_length in HL.
        destruct (MarkingWorklist.entries (marking_worklist (gc w)));
          [reflexivity | discriminate]. }
      assert (E2 : ProcessMarkingWorklist_loop fuel b DO_NOT_FORCE_COMPLETION
                     0 w = Some (0, w)).
      { destruct fuel; cbn [ProcessMarkingWorklist_loop];
          rewrite (Pop_empty w HE); destruct (_ || _); reflexivity. }
      rewrite E2 in E. injection E as <- <-. exact HL.
  - (* COMPLETE, the worklist is empty *)
    rewrite HS. cbn [State_eqb State_rank Z.eqb Pos.eqb].
    destruct (TAIL 0 w) as [S5 T5].
    set (w5 := notify (AddIncrementalMarkingStep 0)
                 (if FLAG_concurrent_marking (fl w)
                  then notify RescheduleTasksIfNeeded w else w)) in *.
    exists 0, w5. split; [reflexivity|].
    destruct (same_marking_potential dom w w5 S5) as (Q1 & Q2 & Q3 & Q4).
    split; [|split; [lia|split; lia]].
    split; [auto|]. split; [auto|].
    right. split; [congruence | lia].
Qed.

Lemma draining_empty_stays (dom : list Address) (fuel : nat)
  (budgets : list Z) (action : CompletionAction)
  (completion : ForceCompletionAction) (origin : StepOrigin) :
  forall w,
  draining dom w -> (potential dom w <= fuel)%nat ->
  (forall b, In b budgets -> 0 < b < 2 ^ 63) ->
  worklist_length w = O ->
  exists w', Steps fuel budgets action completion origin w = Some w'
             /\ worklist_length w' = O.
Proof.
  induction budgets as [|b rest IH]; intros w HD HP HB HL; cbn [Steps].
  - exists w. auto.
  - destruct (Step_draining dom fuel b action completion origin w HD HP
                (HB b (or_introl eq_refl)))
      as (n & w1 & E & D1 & P1 & _ & L1).
    rewrite E. apply IH; auto.
    + lia.
    + intros b' Hb'. apply HB. right. exact Hb'.
Qed.

(** Draining: one call of [Step] for each budget of a list that is at
    least as long as the measure empties the worklist. *)
Lemma Steps_drain (dom : list Address)
  (fuel : nat) (budgets : list Z) (action : CompletionAction)
  (completion : ForceCompletionAction) (origin : StepOrigin) (w : World) :
  heap_closed dom w ->
  worklist_in dom w ->
  state_ (im w) = MARKING ->
  (forall b, In b budgets -> 0 < b < 2 ^ 63) ->
  (potential dom w <= fuel)%nat ->
  (potential dom w <= length budgets)%nat ->
  exists w',
    Steps fuel budgets action completion origin w = Some w'
    /\ MarkingWorklist.IsEmpty (marking_worklist (gc w')) = true.
Proof.
  intros HC HW HS HB HF HN.
  assert (HD : draining dom w)
    by (split; [exact HC | split; [exact HW | left; exact HS]]).
  clear HC HW HS.
  assert (G : exists w',
             Steps fuel budgets action completion origin w = Some w'
             /\ worklist_length w' = O).
  { revert w HD HF HN. induction budgets as [|b rest IH]; intros w HD HF HN.
    - cbn [Steps]. exists w. split; [reflexivity|].
      cbn [length] in HN. unfold potential in HN. lia.
    - destruct (Nat.eq_dec (worklist_length w) 0) as [HL | HL].
      { apply (draining_empty_stays dom); auto. }
      cbn [Steps].
      destruct (Step_draining dom fuel b action completion origin w HD HF
                  (HB b (or_introl eq_refl)))
        as (n & w1 & E & D1 & P1 & P2 & _).
      rewrite E. specialize (P2 ltac:(lia)).
      apply IH.
      + intros b' Hb'. apply HB. right. exact Hb'.
      + exact D1.
      + lia.
      + cbn [length] in HN. lia. }
  destruct G as (w' & E & L). exists w'. split; [exact E|].
  apply IsEmpty_length. exact L.
Qed.

(** *** What a visit does to the colour of the object and to the worklist *)

Lemma scan_chunks_bits_grow (n : nat) (object : Address) (size : Z) :
  forall (s e : Z) (w : World),
  bits_grow w (snd (scan_chunks n object size s e w))
  /\ pushes_only_white w (snd (scan_chunks n object size s e w)).
Proof.
  induction n as [|n IH]; intros s e w; cbn [scan_chunks];
    pose proof (VisitPointers_bits_grow object (RawField object s)
                  (RawField object e) w) as V1;
    pose proof (VisitPointers_pushes_only_white object (RawField object s)
                  (RawField object e) w) as V2.
  - destruct (_ && _); cbn [snd]; auto.
  - destruct (_ && _); cbn [snd]; [|auto].
    destruct (IH e (Z.min size (to_int (e + kProgressBarScanningChunk)))
                (VisitPointers object (RawField object s)
                   (RawField object e) w)) as [I1 I2].
    split; [exact (bits_grow_trans _ _ _ V1 I1)|].
    exact (pushes_only_white_trans _ _ _ V1 V2 I2).
Qed.

(** A visit that is not the chunked scan of a large array clears no mark
    bit and pushes only objects that were White. *)
Lemma Visit_without_progress_bar (map obj : Address) (w : World) :
  IsFixedArrayWithProgressBar w obj = false ->
  bits_grow w (snd (Visit map obj w))
  /\ pushes_only_white w (snd (Visit map obj w)).
Proof.
  intros HP.
  assert (P : forall s e,
            bits_grow w (VisitPointers obj s e w)
            /\ pushes_only_white w (VisitPointers obj s e w)).
  { intros s e. split;
      [apply VisitPointers_bits_grow | apply VisitPointers_pushes_only_white]. }
  unfold Visit.
  unfold IsFixedArrayWithProgressBar, IsFixedArray, chunk_of in HP.
  destruct (instance_kind (object_at (heap_ w) obj)) eqn:K;
    cbn [InstanceKind_eqb negb] in HP.
  all: try (unfold VisitBody; cbn [snd]; apply P).
  - unfold VisitFixedArray.
    change (InstanceKind_eqb FIXED_ARRAY_KIND FIXED_ARRAY_KIND) with true
      in HP.
    cbn [negb] in HP. rewrite HP. cbn [snd]. apply P.
  - unfold VisitNativeContext. cbv zeta.
    set (w3 := if negb _ then _ else w).
    assert (G3 : bits_grow w w3
                 /\ marking_worklist (gc w3) = marking_worklist (gc w)).
    { subst w3. destruct (negb _); [|split; [apply bits_grow_refl | auto]].
      destruct (IsHeapObject _); [|split; [apply bits_grow_refl | auto]].
      unfold ObjectMarking.WhiteToGrey, ObjectMarking.lift. cbn [snd].
      unfold Marking.WhiteToGrey. destruct (Marking.IsWhite _ _); cbn [snd].
      - split; [apply bits_grow_set | reflexivity].
      - split; [apply bits_grow_frame|]; reflexivity. }
    destruct G3 as [G3 W3]. clearbody w3.
    unfold VisitBody. cbn [snd].
    split.
    + eapply bits_grow_trans; [exact G3|]. apply VisitPointers_bits_grow.
    + apply (pushes_only_white_trans w w3); [exact G3 | |].
      * apply pushes_only_white_frame. exact W3.
      * apply VisitPointers_pushes_only_white.
Qed.

(** The re-push of a large array: the array is the one new entry, and its
    colour is kept unless the push fails on a full worklist in a build
    without V8_CONCURRENT_MARKING, where the array's second mark bit is
    cleared and the worklist is left as it was. *)
Lemma repushed_effect (obj : Address) (w : World) :
  ObjectMarking.IsBlack obj w = true ->
  (forall x,
     In x (MarkingWorklist.entries (marking_worklist (gc (repushed obj w)))) ->
     x = obj \/ In x (MarkingWorklist.entries (marking_worklist (gc w))))
  /\ internal_marking (gc (repushed obj w)) (MarkBitFrom w obj) = true
  /\ (ObjectMarking.IsBlack obj (repushed obj w) = true
      \/ (V8_CONCURRENT_MARKING (fl w) = false
          /\ MarkingWorklist.IsFull (marking_worklist (gc (repushed obj w)))
             = true)).
Proof.
  intros HB. pose proof HB as HB'.
  unfold ObjectMarking.IsBlack in HB'. apply IsBlack_bits in HB'.
  destruct HB' as [B1 B2].
  unfold repushed.
  destruct (V8_CONCURRENT_MARKING (fl w)) eqn:HV.
  { split; [|split; [exact B1 | left; exact HB]].
    intros x. unfold PushBailout, MarkingWorklist.entries. cbn.
    intros [<- | H]; auto. }
  assert (NG : ObjectMarking.IsGrey obj w = false).
  { unfold ObjectMarking.IsGrey, Marking.IsGrey, Marking.Get.
    rewrite B1, B2. reflexivity. }
  rewrite NG. unfold PushBlack, Push.
  destruct (MarkingWorklist.IsFull (marking_worklist (gc w))) eqn:HF.
  - rewrite (Push_full _ _ HF). cbn [fst snd].
    split; [|split].
    + intros x H. right. exact H.
    + unfold ObjectMarking.BlackToGrey, ObjectMarking.lift. cbn.
      unfold Marking.BlackToGrey.
      destruct (Marking.IsBlack _ _); cbn [snd]; [|exact B1].
      unfold Marking.ClearBit, Marking.Next.
      change (MarkBitFrom (set_marking_worklist (marking_worklist (gc w)) w)
                obj) with (MarkBitFrom w obj).
      destruct (Z.eqb_spec (MarkBitFrom w obj) (MarkBitFrom w obj + 1));
        [lia | exact B1].
    + right. split; [reflexivity|]. cbn. exact HF.
  - pose proof (Push_entries obj) as PE.
    unfold MarkingWorklist.Push in *. rewrite HF in *. cbn [fst snd].
    split; [|split; [exact B1 | left; exact HB]].
    intros x H. apply (PE x (marking_worklist (gc w))). rewrite HF. exact H.
Qed.

(** Visiting an object that is Grey or Black, on a heap closed in [dom]:
    the object is Black afterwards, or it is a large array with a progress
    bar whose re-push failed on a full worklist, and it is Grey; and every
    entry on the worklist afterwards was on it before, was White before, or
    is the large array, pushed again. *)
Lemma VisitObject_colour_and_pushes (dom : list Address) (obj : Address)
  (size : Z) (w0 : World) :
  heap_closed dom w0 -> worklist_in dom w0 -> In obj dom ->
  ObjectMarking.IsGrey obj w0 = true \/ ObjectMarking.IsBlack obj w0 = true ->
  let w3 := VisitObject (obj_map w0 obj) obj size w0 in
  (ObjectMarking.IsBlack obj w3 = true
   \/ (ObjectMarking.IsGrey obj w3 = true
       /\ IsFixedArrayWithProgressBar w0 obj = true
       /\ V8_CONCURRENT_MARKING (fl w0) = false
       /\ MarkingWorklist.IsFull (marking_worklist (gc w3)) = true))
  /\ (forall x,
        In x (MarkingWorklist.entries (marking_worklist (gc w3))) ->
        In x (MarkingWorklist.entries (marking_worklist (gc w0)))
        \/ ObjectMarking.IsWhite x w0 = true
        \/ (x = obj /\ IsFixedArrayWithProgressBar w0 obj = true)).
Proof.
  intros HC HW HO HCol. cbv zeta. unfold VisitObject.
  pose proof (GreyToBlack_bits_grow obj w0) as G1.
  pose proof (GreyToBlack_black obj w0 HCol) as B1.
  pose proof (advances_GreyToBlack dom obj w0) as A1.
  set (w1 := snd (ObjectMarking.GreyToBlack obj w0)) in *.
  assert (W1 : marking_worklist (gc w1) = marking_worklist (gc w0)).
  { subst w1. unfold ObjectMarking.GreyToBlack, ObjectMarking.lift.
    reflexivity. }
  assert (C1 : chunk_at (gc w1) = chunk_at (gc w0)).
  { subst w1. unfold ObjectMarking.GreyToBlack, ObjectMarking.lift.
    reflexivity. }
  pose proof (advances_closed _ _ _ _ A1 HC) as HC1.
  assert (HM : In (obj_map w0 obj) dom).
  { destruct HC as (_ & HMp & _). apply HMp. exact HO. }
  destruct (WhiteToGreyAndPush_bits_grow (obj_map w0 obj) w1)
    as (G2 & _ & _ & _).
  pose proof (WhiteToGreyAndPush_pushes_only_white (obj_map w0 obj) w1) as P2.
  pose proof (advances_WhiteToGreyAndPush dom (obj_map w0 obj) w1 HM) as A2.
  pose proof (WhiteToGreyAndPush_chunk_at (obj_map w0 obj) w1) as C2.
  set (w2 := snd (WhiteToGreyAndPush (obj_map w0 obj) w1)) in *.
  pose proof (advances_closed _ _ _ _ A2 HC1) as HC2.
  pose proof (advances_trans dom 0 0 w0 w1 w2 A1 A2) as A12.
  assert (G02 : bits_grow w0 w2) by exact (bits_grow_trans _ _ _ G1 G2).
  assert (P02 : pushes_only_white w0 w2).
  { apply (pushes_only_white_trans w0 w1 w2 G1);
      [apply pushes_only_white_frame; exact W1 | exact P2]. }
  assert (B2 : ObjectMarking.IsBlack obj w2 = true)
    by exact (bits_grow_black _ _ _ G2 B1).
  assert (H2 : heap_ w2 = heap_ w0) by (destruct G02 as [A _]; exact A).
  assert (EP : IsFixedArrayWithProgressBar w2 obj
               = IsFixedArrayWithProgressBar w0 obj).
  { unfold IsFixedArrayWithProgressBar, IsFixedArray, chunk_of, FromAddress.
    rewrite H2, C2, C1. reflexivity. }
  assert (FROM2 : forall w3,
             pushes_only_white w2 w3 ->
             forall x,
               In x (MarkingWorklist.entries (marking_worklist (gc w3))) ->
               In x (MarkingWorklist.entries (marking_worklist (gc w0)))
               \/ ObjectMarking.IsWhite x w0 = true).
  { intros w3 P3. exact (pushes_only_white_trans w0 w2 w3 G02 P02 P3). }
  destruct (IsFixedArrayWithProgressBar w0 obj) eqn:HP.
  2: { (* no chunked scan *)
       destruct (Visit_without_progress_bar (obj_map w0 obj) obj w2 EP)
         as [G3 P3].
       split; [left; exact (bits_grow_black _ _ _ G3 B2)|].
       intros x H. destruct (FROM2 _ P3 x H); auto. }
  (* a large array with a progress bar *)
  assert (HA : IsFixedArray w2 obj = true
               /\ HAS_PROGRESS_BAR (chunk_at (gc w2) (FromAddress w2 obj))
                  = true).
  { unfold IsFixedArrayWithProgressBar, chunk_of in EP.
    destruct (IsFixedArray w2 obj); cbn [negb] in EP;
      [auto | discriminate]. }
  destruct HA as [HA HB].
  assert (EV : Visit (obj_map w0 obj) obj w2 = VisitFixedArray obj w2).
  { unfold Visit. unfold IsFixedArray in HA.
    destruct (instance_kind (object_at (heap_ w2) obj)); try discriminate HA.
    reflexivity. }
  rewrite EV.
  destruct (Z.ltb_spec (scan_start obj w2)
              (SizeFromMap (object_at (heap_ w2) obj))) as [HS | HS].
  2: { unfold VisitFixedArray. rewrite HB. fold (scan_start obj w2).
       destruct (Z.ltb_spec (scan_start obj w2)
                   (SizeFromMap (object_at (heap_ w2) obj))); [lia|].
       cbn [snd]. split; [left; exact B2|].
       intros x Hx.
       destruct (FROM2 _ (pushes_only_white_refl w2) x Hx); auto. }
  rewrite (VisitFixedArray_eq obj w2 HB HS). cbv zeta. cbn [snd].
  set (sz := SizeFromMap (object_at (heap_ w2) obj)).
  destruct (repushed_effect obj w2 B2) as (E1 & E2 & E3).
  pose proof (advances_repushed dom obj w2 HC2 HO HA) as AR.
  destruct (repushed_frame obj w2) as (HR & _ & _).
  set (wr := repushed obj w2) in *.
  destruct (scan_chunks_bits_grow (chunks_left sz (scan_start obj w2)) obj sz
              (scan_start obj w2) (first_chunk_end obj w2) wr) as [GS PS].
  pose proof (advances_closed _ _ _ _ AR HC2) as HCr.
  pose proof (advances_scan_chunks dom (chunks_left sz (scan_start obj w2))
                obj sz (scan_start obj w2) (first_chunk_end obj w2) wr HCr)
    as AS.
  set (r := scan_chunks (chunks_left sz (scan_start obj w2)) obj sz
              (scan_start obj w2) (first_chunk_end obj w2) wr) in *.
  set (w4 := if fst r <? sz
             then NotifyIncompleteScanOfObject
                    (to_int (sz - to_int (fst r - scan_start obj w2)))
                    (set_progress_bar (FromAddress w2 obj) (fst r) (snd r))
             else set_progress_bar (FromAddress w2 obj) (fst r) (snd r)).
  assert (S4 : heap_ w4 = heap_ (snd r)
               /\ internal_marking (gc w4) = internal_marking (gc (snd r))
               /\ marking_worklist (gc w4) = marking_worklist (gc (snd r))).
  { subst w4. destruct (fst r <? sz); repeat split. }
  destruct S4 as (S41 & S42 & S43).
  assert (HS4 : heap_ w4 = heap_ w2).
  { destruct GS as [A _]. congruence. }
  split.
  - (* the colour of the array *)
    assert (FB : internal_marking (gc w4) (MarkBitFrom w2 obj) = true).
    { rewrite S42. apply GS. exact E2. }
    destruct (ObjectMarking.IsBlack obj w4) eqn:B4; [left; reflexivity|].
    right.
    assert (G4 : ObjectMarking.IsGrey obj w4 = true).
    { unfold ObjectMarking.IsGrey, ObjectMarking.IsBlack, MarkBitFrom in *.
      rewrite HS4 in *.
      unfold Marking.IsGrey, Marking.IsBlack, Marking.Get in *.
      rewrite FB in *. cbn [andb] in *. rewrite B4. reflexivity. }
    split; [exact G4|]. split; [reflexivity|].
    destruct E3 as [E3 | [E3 E4]].
    + (* the colour was kept: the array is still Black *)
      assert (K : ObjectMarking.IsBlack obj w4 = true).
      { unfold ObjectMarking.IsBlack, MarkBitFrom in *.
        rewrite HS4, S42. rewrite <- HR.
        apply IsBlack_bits in E3. destruct E3 as [K1 K2].
        apply IsBlack_bits. split; apply GS; assumption. }
      congruence.
    + split; [rewrite <- H2; exact E3|].
      rewrite S43. subst r.
      rewrite (scan_chunks_full_worklist _ _ _ _ _ _ E4). exact E4.
  - (* the entries of the worklist *)
    intros x H. rewrite S43 in H.
    destruct (PS x H) as [K | K].
    + destruct (E1 x K) as [-> | K2]; [right; right; auto|].
      destruct (FROM2 _ (pushes_only_white_refl w2) x K2); auto.
    + (* White when the scan began: White before the re-push as well *)
      assert (XD : In x dom).
      { assert (HWs : worklist_in dom (snd r)).
        { destruct A12 as (_ & _ & _ & _ & _ & _ & Q1 & _).
          destruct AR as (_ & _ & _ & _ & _ & _ & Q2 & _).
          destruct AS as (_ & _ & _ & _ & _ & _ & Q3 & _). auto. }
        apply HWs. exact H. }
      assert (K2 : ObjectMarking.IsWhite x w2 = true).
      { destruct AR as (_ & _ & _ & _ & _ & Q & _). apply Q; assumption. }
      right. left. exact (bits_grow_white _ _ _ G02 K2).
Qed.

(** C7, as amended. On a heap whose pointers stay within a finite list
    [dom] of objects, none of which starts one word after a fixed array,
    with fixed arrays of at most 2^31 - 1 - 32 KiB bytes, in the MARKING
    state and with the worklist's entries in [dom]: calling [Step] once for
    each budget of a list of budgets between 1 and 2^63 - 1, with nothing
    else happening in between, returns every time (given fuel for the
    measure) and leaves the marking worklist empty, provided the list is at
    least as long as the measure [potential dom w], the number of worklist
    entries plus twice the number of White objects plus the bytes left on
    the progress bars. Each pop lowers the measure and is followed by the
    skip of a filler or by the visit of the object, which does not raise
    it. A visited object that was Grey or Black is Black afterwards, unless
    it is a large array with a progress bar whose re-push failed on a full
    worklist, which is Grey; and every entry on the worklist after a visit
    was on it before, was White before, or is the large array with a
    progress bar that was visited, pushed again. *)
Theorem worklist_drains_in_finitely_many_steps (dom : list Address)
  (fuel : nat) (budgets : list Z) (action : CompletionAction)
  (completion : ForceCompletionAction) (origin : StepOrigin) (w : World) :
  heap_closed dom w ->
  worklist_in dom w ->
  state_ (im w) = MARKING ->
  (forall b, In b budgets -> 0 < b < 2 ^ 63) ->
  (potential dom w <= fuel)%nat ->
  (potential dom w <= length budgets)%nat ->
  (exists w',
     Steps fuel budgets action completion origin w = Some w'
     /\ MarkingWorklist.IsEmpty (marking_worklist (gc w')) = true)
  /\ (forall (w0 w1 : World) (obj : Address),
        Pop w0 = (Some obj, w1) ->
        In obj (MarkingWorklist.entries (marking_worklist (gc w0)))
        /\ (potential dom w1 < potential dom w0)%nat
        /\ forall (fuel' : nat) (bytes_to_process : Z)
                  (force : ForceCompletionAction) (bytes_processed : Z),
             (bytes_processed <? bytes_to_process)
             || is_FORCE_COMPLETION force = true ->
             ProcessMarkingWorklist_loop (S fuel') bytes_to_process force
               bytes_processed w0
             = if IsFiller w1 obj then
                 ProcessMarkingWorklist_loop fuel' bytes_to_process force
                   bytes_processed w1
               else
                 let size := SizeFromMap (object_at (heap_ w1) obj) in
                 let w3 :=
                   VisitObject (obj_map w1 obj) obj size
                     (set_unscanned_bytes_of_large_object_ 0 w1) in
                 ProcessMarkingWorklist_loop fuel' bytes_to_process force
                   (bytes_processed
                    + (size - unscanned_bytes_of_large_object_ (im w3))) w3)
  /\ (forall (w0 : World) (obj : Address) (size : Z),
        heap_closed dom w0 -> worklist_in dom w0 -> In obj dom ->
        ObjectMarking.IsGrey obj w0 = true
        \/ ObjectMarking.IsBlack obj w0 = true ->
        let w3 := VisitObject (obj_map w0 obj) obj size w0 in
        (potential dom w3 <= potential dom w0)%nat
        /\ (ObjectMarking.IsBlack obj w3 = true
            \/ (ObjectMarking.IsGrey obj w3 = true
                /\ IsFixedArrayWithProgressBar w0 obj = true
                /\ V8_CONCURRENT_MARKING (fl w0) = false
                /\ MarkingWorklist.IsFull (marking_worklist (gc w3)) = true))
        /\ (forall x,
              In x (MarkingWorklist.entries (marking_worklist (gc w3))) ->
              In x (MarkingWorklist.entries (marking_worklist (gc w0)))
              \/ ObjectMarking.IsWhite x w0 = true
              \/ (x = obj /\ IsFixedArrayWithProgressBar w0 obj = true))).
Proof.
  intros HC HW HS HB HF HN.
  split; [exact (Steps_drain dom fuel budgets action completion origin w
                   HC HW HS HB HF HN)|].
  split.
  - intros w0 w1 obj EP.
    destruct (Pop_some dom w0 w1 obj EP) as (HI & _).
    pose proof (Pop_potential dom w0 w1 obj EP) as P1.
    split; [exact HI|]. split; [lia|].
    intros fuel' btp force bp HCnd.
    cbn [ProcessMarkingWorklist_loop]. rewrite HCnd, EP. reflexivity.
  - intros w0 obj size HC0 HW0 HO HCol. cbv zeta.
    destruct (VisitObject_potential dom obj size w0 HC0 HO) as [_ P3].
    destruct (VisitObject_colour_and_pushes dom obj size w0 HC0 HW0 HO HCol)
      as [K1 K2].
    cbv zeta in K1, K2.
    split; [exact P3|]. split; [exact K1 | exact K2].
Qed.

Lemma cycle_world_closed : heap_closed cycle_dom cycle_world.
Proof.
  split; [|split; [|split; [|split; [|split]]]].
  - intros p a. cbn.
    destruct (Z.eqb_spec p 1032); [intros [= <-]; cbn; auto|].
    destruct (Z.eqb_spec p 2056); [intros [= <-]; cbn; auto|].
    discriminate.
  - intros o _. cbn. auto.
  - intros a [[= <-] | []]. cbn. auto.
  - intros a b [<- | [<- | [<- | []]]] [<- | [<- | [<- | []]]] _;
      vm_compute; discriminate.
  - vm_compute. discriminate.
  - intros a [<- | [<- | [<- | []]]] HA; vm_compute in HA; discriminate HA.
Defined.

Lemma worklist_drains_in_finitely_many_steps_witness :
  exists w',
    Steps 5 [1; 1; 1; 1; 1] GC_VIA_STACK_GUARD DO_NOT_FORCE_COMPLETION kV8
      cycle_world = Some w'
    /\ MarkingWorklist.IsEmpty (marking_worklist (gc w')) = true.
Proof.
  apply (worklist_drains_in_finitely_many_steps cycle_dom).
  - exact cycle_world_closed.
  - intros o [<- | []]. cbn. auto.
  - reflexivity.
  - intros b Hb. cbn in Hb.
    assert (b = 1) by (repeat (destruct Hb as [<- | Hb]; auto); contradiction).
    subst b. split; reflexivity.
  - apply Nat.leb_le. reflexivity.
  - apply Nat.leb_le. reflexivity.
Defined.

(** A step whose budget is 2^63 or more processes nothing: the budget
    becomes a negative [intptr_t]. *)
Lemma Step_budget_out_of_range (fuel : nat) (action : CompletionAction)
  (completion : ForceCompletionAction) (origin : StepOrigin) (w : World) :
  state_ (im w) = MARKING ->
  MarkingWorklist.IsEmpty (marking_worklist (gc w)) = false ->
  exists w',
    Step fuel (2 ^ 64 - 1) action completion origin w = Some (0, w')
    /\ state_ (im w') = MARKING
    /\ marking_worklist (gc w') = marking_worklist (gc w).
Proof.
  intros HS HE. unfold Step. rewrite HS.
  cbn [State_eqb State_rank Z.eqb Pos.eqb].
  change (to_intptr (2 ^ 64 - 1)) with (-1).
  unfold ProcessMarkingWorklist.
  assert (E : ProcessMarkingWorklist_loop fuel (-1) DO_NOT_FORCE_COMPLETION 0 w
              = Some (0, w)) by (destruct fuel; reflexivity).
  rewrite E. change (wrap_size_t 0) with 0.
  set (w3 := if is_kTask origin then _ else _).
  assert (F3 : state_ (im w3) = MARKING
               /\ marking_worklist (gc w3) = marking_worklist (gc w)
               /\ heap_ w3 = heap_ w).
  { subst w3. destruct (is_kTask origin); repeat split; exact HS. }
  destruct F3 as (F1 & F2 & F3).
  assert (A : after_processing action completion w3 = w3).
  { unfold after_processing. rewrite F2, HE. reflexivity. }
  rewrite A.
  assert (ES : State_eqb (state_ (im w)) MARKING = true)
    by (rewrite HS; reflexivity).
  rewrite ES.
  eexists. split; [reflexivity|].
  destruct (FLAG_concurrent_marking (flags (heap_ w3))); cbn; auto.
Qed.

(** The claim's three ways to fail. With the largest budget a [size_t]
    can hold, any number of steps leaves the worklist of [cycle_world] as it
    is. A step on [large_array_on_worklist] pops the large array, which is
    Black, and pushes it again. A step on [full_array_world], whose
    worklist has room for one entry, pops the large array and leaves it
    Grey and off the worklist. *)
Lemma Step_neither_drains_nor_blackens :
  (state_ (im cycle_world) = MARKING
   /\ MarkingWorklist.entries (marking_worklist (gc cycle_world)) = [1024]
   /\ forall (n fuel : nat),
        exists w',
          Steps fuel (repeat (2 ^ 64 - 1) n) GC_VIA_STACK_GUARD
            DO_NOT_FORCE_COMPLETION kV8 cycle_world = Some w'
          /\ MarkingWorklist.entries (marking_worklist (gc w')) = [1024])
  /\ (ObjectMarking.IsBlack large_array large_array_on_worklist = true
      /\ MarkingWorklist.entries
           (marking_worklist (gc large_array_on_worklist)) = [large_array]
      /\ exists w',
           Step 8 1 GC_VIA_STACK_GUARD DO_NOT_FORCE_COMPLETION kV8
             large_array_on_worklist = Some (32768, w')
           /\ MarkingWorklist.entries (marking_worklist (gc w'))
              = [large_array; 8])
  /\ (ObjectMarking.IsBlack large_array full_array_world = true
      /\ MarkingWorklist.entries (marking_worklist (gc full_array_world))
         = [large_array]
      /\ exists w',
           Step 8 1 GC_VIA_STACK_GUARD DO_NOT_FORCE_COMPLETION kV8
             full_array_world = Some (100000, w')
           /\ ObjectMarking.IsBlack large_array w' = false
           /\ ObjectMarking.IsGrey large_array w' = true
           /\ MarkingWorklist.entries (marking_worklist (gc w')) = [8]).
Proof.
  split; [|split].
  - split; [reflexivity|]. split; [reflexivity|].
    intros n fuel.
    assert (G : forall w,
               state_ (im w) = MARKING ->
               marking_worklist (gc w) = marking_worklist (gc cycle_world) ->
               exists w',
                 Steps fuel (repeat (2 ^ 64 - 1) n) GC_VIA_STACK_GUARD
                   DO_NOT_FORCE_COMPLETION kV8 w = Some w'
                 /\ marking_worklist (gc w')
                    = marking_worklist (gc cycle_world)).
    { induction n as [|n IH]; intros w HS HWl; cbn [repeat Steps].
      - exists w. auto.
      - destruct (Step_budget_out_of_range fuel GC_VIA_STACK_GUARD
                    DO_NOT_FORCE_COMPLETION kV8 w HS)
          as (w1 & E & S1 & W1); [rewrite HWl; reflexivity|].
        rewrite E. apply IH; [exact S1 | congruence]. }
    destruct (G cycle_world eq_refl eq_refl) as (w' & E & W).
    exists w'. split; [exact E|]. rewrite W. reflexivity.
  - split; [reflexivity|]. split; [reflexivity|].
    eexists. split; [vm_compute; reflexivity|]. reflexivity.
  - split; [reflexivity|]. split; [reflexivity|].
    eexists. split; [vm_compute; reflexivity|].
    vm_compute. repeat split.
Qed.

(** A heap after a one-word left trim is closed in the sense of
    [heap_closed], although the mark bits of the filler and of the trimmed
    array are adjacent; its worklist, which holds the filler and the
    array, drains. *)
Lemma left_trimmed_world_closed :
  heap_closed left_trimmed_dom left_trimmed_world.
Proof.
  split; [|split; [|split; [|split; [|split]]]].
  - intros p a H. vm_compute in H. discriminate H.
  - intros o [<- | [<- | [<- | [<- | []]]]]; vm_compute; auto.
  - intros a H. vm_compute in H. destruct H.
  - intros a b [<- | [<- | [<- | [<- | []]]]] [<- | [<- | [<- | [<- | []]]]]
      HF; try (vm_compute in HF; discriminate HF); vm_compute; discriminate.
  - vm_compute. discriminate.
  - intros a [<- | [<- | [<- | [<- | []]]]] HF;
      try (vm_compute in HF; discriminate HF); vm_compute; discriminate.
Qed.

Example left_trimmed_world_drains :
  MarkBitFrom left_trimmed_world 4104 = MarkBitFrom left_trimmed_world 4096 + 1
  /\ MarkingWorklist.entries (marking_worklist (gc left_trimmed_world))
     = [4104; 4096]
  /\ exists w',
       Steps 6 [1; 1; 1; 1; 1; 1] GC_VIA_STACK_GUARD DO_NOT_FORCE_COMPLETION
         kV8 left_trimmed_world = Some w'
       /\ MarkingWorklist.IsEmpty (marking_worklist (gc w')) = true.
Proof.
  split; [reflexivity|]. split; [reflexivity|].
  apply (Steps_drain left_trimmed_dom).
  - exact left_trimmed_world_closed.
  - intros o H. vm_compute in H. destruct H as [<- | [<- | []]];
      vm_compute; auto.
  - reflexivity.
  - intros b Hb. cbn in Hb.
    assert (b = 1) by (repeat (destruct Hb as [<- | Hb]; auto); contradiction).
    subst b. split; reflexivity.
  - apply Nat.leb_le. reflexivity.
  - apply Nat.leb_le. reflexivity.
Qed.

(** The cycle, step by step: three steps of one byte each empty the
    worklist and leave A, B and their map Black. *)
Example cycle_world_drains :
  match
    Steps 5 [1; 1; 1] GC_VIA_STACK_GUARD DO_NOT_FORCE_COMPLETION kV8
      cycle_world
  with
  | Some w' =>
    marking_worklist (gc w') = MarkingWorklist.mk [] [] None
    /\ ObjectMarking.IsBlack 1024 w' = true
    /\ ObjectMarking.IsBlack 2048 w' = true
    /\ ObjectMarking.IsBlack 8 w' = true
  | None => False
  end.
Proof. vm_compute. repeat split. Qed.

(** The large array is pushed again while its progress bar advances: the
    fifth step finds it scanned to the end, and the sixth pops its map. *)
Example large_array_drains :
  match
    Steps 8 [1; 1; 1] GC_VIA_STACK_GUARD DO_NOT_FORCE_COMPLETION kV8
      large_array_on_worklist,
    Steps 8 [1; 1; 1; 1; 1; 1] GC_VIA_STACK_GUARD DO_NOT_FORCE_COMPLETION kV8
      large_array_on_worklist
  with
  | Some w3, Some w6 =>
    MarkingWorklist.shared (marking_worklist (gc w3)) = [large_array; 8]
    /\ progress_bar (chunk_at (gc w3) 4) = 98320
    /\ marking_worklist (gc w6) = MarkingWorklist.mk [] [] None
    /\ progress_bar (chunk_at (gc w6) 4) = 100000
  | _, _ => False
  end.
Proof. vm_compute. repeat split. Qed.

(** ** The credit of marking done ahead of schedule *)

Ltac split_ifs :=
  repeat match goal with
  | |- context [if ?c then _ else _] => destruct c
  end.











Lemma for_pages_interesting_im (space : AllocationSpace) (a b : bool)
  (w : World) :
  im (for_pages space (fun p => set_interesting p a b) w) = im w.
Proof. apply (set_interesting_pages a b (pages (heap_ w) space) w). Qed.

Lemma for_pages_interesting_heap (space : AllocationSpace) (a b : bool)
  (w : World) :
  heap_ (for_pages space (fun p => set_interesting p a b) w) = heap_ w.
Proof. apply (set_interesting_pages a b (pages (heap_ w) space) w). Qed.

Lemma ActivateIncrementalWriteBarrier_im (w : World) :
  im (ActivateIncrementalWriteBarrier w) = im w.
Proof.
  unfold ActivateIncrementalWriteBarrier. cbv zeta.
  change (fun p => SetOldSpacePageFlags p true (is_compacting_ (im w)))
    with (fun p => set_interesting p true true).
  change (fun p => SetNewSpacePageFlags p true)
    with (fun p => set_interesting p true true).
  rewrite !for_pages_interesting_im. reflexivity.
Qed.




























(** ** The barrier is active only while marking is *)

Lemma barrier_kept_refl (w : World) : barrier_kept w w.
Proof. repeat split; auto. Qed.

Lemma barrier_kept_trans (w1 w2 w3 : World) :
  barrier_kept w1 w2 -> barrier_kept w2 w3 -> barrier_kept w1 w3.
Proof.
  intros (A1 & A2 & A3 & A4) (B1 & B2 & B3 & B4).
  split; [congruence|]. split; [congruence|]. split.
  - intros c. rewrite B3. apply A3.
  - auto.
Qed.

(** An operation that touches neither the state, the stubs nor the
    chunks. *)
Lemma barrier_kept_frame (w w' : World) :
  heap_ w' = heap_ w -> state_ (im w') = state_ (im w) ->
  code_stubs (gc w') = code_stubs (gc w) ->
  chunk_at (gc w') = chunk_at (gc w) -> barrier_kept w w'.
Proof.
  intros H1 H2 H3 H4. split; [exact H1|]. split; [exact H3|]. split.
  - intros c. rewrite H4. reflexivity.
  - unfold IsMarking. rewrite H2. auto.
Qed.

Lemma barrier_kept_if (c : bool) (w X Y : World) :
  barrier_kept w X -> barrier_kept w Y -> barrier_kept w (if c then X else Y).
Proof. destruct c; auto. Qed.

Lemma barrier_kept_consistent (w w' : World) :
  barrier_kept w w' -> barrier_consistent w -> barrier_consistent w'.
Proof.
  intros (H1 & H2 & H3 & H4) HB HM.
  assert (HM0 : IsMarking w = false).
  { destruct (IsMarking w); [rewrite H4 in HM by reflexivity|]; auto. }
  destruct (HB HM0) as (B1 & B2 & B3).
  unfold barrier_inactive. rewrite H1, H2.
  split; [exact B1|]. split; intros c; rewrite H3; auto.
Qed.

Lemma set_progress_bar_kept (chunk v : Z) (w : World) :
  barrier_kept w (set_progress_bar chunk v w).
Proof.
  split; [reflexivity|]. split; [reflexivity|]. split; [|auto].
  intros c. cbn. destruct (c =? chunk); reflexivity.
Qed.

Lemma RestartIfNotMarking_kept (w : World) :
  barrier_kept w (RestartIfNotMarking w).
Proof.
  unfold RestartIfNotMarking.
  destruct (State_eqb (state_ (im w)) COMPLETE); [|apply barrier_kept_refl].
  repeat split.
Qed.

Lemma SetState_COMPLETE_kept (w : World) : barrier_kept w (SetState COMPLETE w).
Proof. repeat split. Qed.

Lemma WhiteToGreyAndPush_kept (obj : Address) (w : World) :
  barrier_kept w (snd (WhiteToGreyAndPush obj w)).
Proof.
  unfold WhiteToGreyAndPush, ObjectMarking.WhiteToGrey, ObjectMarking.lift.
  destruct (fst _); apply barrier_kept_frame; reflexivity.
Qed.

Lemma VisitPointer_kept (host p : Address) (w : World) :
  barrier_kept w (VisitPointer host p w).
Proof.
  unfold VisitPointer, MarkObject.
  destruct (IsHeapObject _); [|apply barrier_kept_refl].
  eapply barrier_kept_trans; [|apply WhiteToGreyAndPush_kept].
  apply barrier_kept_frame; reflexivity.
Qed.

Lemma VisitPointers_loop_kept (n : nat) (host : Address) :
  forall p w, barrier_kept w (VisitPointers_loop n host p w).
Proof.
  induction n as [|n IH]; intros p w; cbn [VisitPointers_loop].
  - apply barrier_kept_refl.
  - eapply barrier_kept_trans; [apply VisitPointer_kept | apply IH].
Qed.

Lemma VisitPointers_kept (host s e : Address) (w : World) :
  barrier_kept w (VisitPointers host s e w).
Proof. apply VisitPointers_loop_kept. Qed.

Lemma scan_chunks_kept (n : nat) (object : Address) (size : Z) :
  forall s e w, barrier_kept w (snd (scan_chunks n object size s e w)).
Proof.
  induction n as [|n IH]; intros s e w; cbn [scan_chunks];
    pose proof (VisitPointers_kept object (RawField object s)
                  (RawField object e) w) as HV.
  - destruct (_ && _); exact HV.
  - destruct (_ && _); [|exact HV].
    eapply barrier_kept_trans; [exact HV | apply IH].
Qed.

Lemma PushBlack_kept (obj : Address) (w : World) :
  barrier_kept w (PushBlack obj w).
Proof.
  unfold PushBlack, Push.
  destruct (MarkingWorklist.Push obj (marking_worklist (gc w))) as [ok wl].
  cbn [fst snd]. destruct ok; apply barrier_kept_frame; reflexivity.
Qed.

Lemma VisitFixedArray_kept (obj : Address) (w : World) :
  barrier_kept w (snd (VisitFixedArray obj w)).
Proof.
  unfold VisitFixedArray. cbv zeta.
  destruct (HAS_PROGRESS_BAR _); [|apply VisitPointers_kept].
  destruct (_ <? _); [|apply barrier_kept_refl].
  match goal with
  | |- context [scan_chunks ?n ?o ?sz ?s ?e ?w1] =>
    pose proof (scan_chunks_kept n o sz s e w1) as HS;
    assert (HR : barrier_kept w w1);
    [|destruct (scan_chunks n o sz s e w1) as [s' w2]]
  end.
  { apply barrier_kept_if; [apply barrier_kept_frame; reflexivity|].
    apply barrier_kept_if; [apply barrier_kept_frame; reflexivity|].
    apply PushBlack_kept. }
  cbn [snd] in HS.
  assert (H3 : barrier_kept w (set_progress_bar (FromAddress w obj) s' w2)).
  { eapply barrier_kept_trans; [exact HR|].
    eapply barrier_kept_trans; [exact HS | apply set_progress_bar_kept]. }
  destruct (s' <? _); cbn [snd]; [|exact H3].
  eapply barrier_kept_trans; [exact H3|].
  apply barrier_kept_frame; reflexivity.
Qed.

Lemma VisitBody_kept (obj : Address) (w : World) :
  barrier_kept w (snd (VisitBody obj w)).
Proof. apply VisitPointers_kept. Qed.

Lemma VisitNativeContext_kept (obj : Address) (w : World) :
  barrier_kept w (snd (VisitNativeContext obj w)).
Proof.
  unfold VisitNativeContext. cbv zeta.
  eapply barrier_kept_trans; [|apply VisitBody_kept].
  repeat apply barrier_kept_if; apply barrier_kept_frame; reflexivity.
Qed.

Lemma Visit_kept (map obj : Address) (w : World) :
  barrier_kept w (snd (Visit map obj w)).
Proof.
  unfold Visit. destruct (instance_kind _);
    auto using VisitBody_kept, VisitFixedArray_kept, VisitNativeContext_kept.
Qed.

Lemma VisitObject_kept (map obj : Address) (size : Z) (w : World) :
  barrier_kept w (VisitObject map obj size w).
Proof.
  unfold VisitObject. cbv zeta.
  eapply barrier_kept_trans; [|apply Visit_kept].
  eapply barrier_kept_trans; [|apply WhiteToGreyAndPush_kept].
  apply barrier_kept_frame; reflexivity.
Qed.

Lemma ProcessMarkingWorklist_loop_kept (fuel : nat) :
  forall (btp : Z) (completion : ForceCompletionAction) (bp : Z)
         (w : World) (n : Z) (w' : World),
  ProcessMarkingWorklist_loop fuel btp completion bp w = Some (n, w') ->
  barrier_kept w w'.
Proof.
  induction fuel as [|fuel IH]; intros btp completion bp w n w';
    cbn [ProcessMarkingWorklist_loop].
  - destruct (_ || _); [|intros [= _ <-]; apply barrier_kept_refl].
    unfold Pop. destruct (fst _); [discriminate|].
    intros [= _ <-]. apply barrier_kept_refl.
  - destruct (_ || _); [|intros [= _ <-]; apply barrier_kept_refl].
    unfold Pop. destruct (fst (MarkingWorklist.Pop _)) as [obj|];
      [|intros [= _ <-]; apply barrier_kept_refl].
    set (w1 := set_marking_worklist _ w).
    assert (H1 : barrier_kept w w1)
      by (apply barrier_kept_frame; reflexivity).
    destruct (IsFiller w1 obj); intros H.
    + eapply barrier_kept_trans; [exact H1 | exact (IH _ _ _ _ _ _ H)].
    + eapply barrier_kept_trans; [exact H1|].
      eapply barrier_kept_trans; [|exact (IH _ _ _ _ _ _ H)].
      eapply barrier_kept_trans; [|apply VisitObject_kept].
      apply barrier_kept_frame; reflexivity.
Qed.

Lemma ProcessMarkingWorklist_kept (fuel : nat) (btp : Z)
  (completion : ForceCompletionAction) (w : World) (n : Z) (w' : World) :
  ProcessMarkingWorklist fuel btp completion w = Some (n, w') ->
  barrier_kept w w'.
Proof.
  unfold ProcessMarkingWorklist.
  destruct (ProcessMarkingWorklist_loop fuel btp completion 0 w)
    as [[n1 w1]|] eqn:E; [|discriminate].
  intros [= _ <-].
  eapply barrier_kept_trans;
    [exact (ProcessMarkingWorklist_loop_kept _ _ _ _ _ _ _ E)|].
  apply barrier_kept_frame; reflexivity.
Qed.

Lemma MarkObjectByPointer_kept (p : Object) (w : World) :
  barrier_kept w (MarkObjectByPointer p w).
Proof.
  unfold MarkObjectByPointer.
  apply barrier_kept_if; [apply barrier_kept_refl|].
  apply WhiteToGreyAndPush_kept.
Qed.

Lemma MarkRoots_kept (w : World) : barrier_kept w (MarkRoots w).
Proof.
  unfold MarkRoots. generalize (strong_roots (heap_ w)). intros l.
  revert w. induction l as [|p l IH]; intros w; cbn [fold_left].
  - apply barrier_kept_refl.
  - eapply barrier_kept_trans; [apply MarkObjectByPointer_kept | apply IH].
Qed.

Lemma retain_entry_kept (i : Z) (map : Address) (age : Z) (w : World) :
  barrier_kept w (snd (retain_entry i map age w)).
Proof.
  unfold retain_entry. cbv zeta.
  destruct (_ && _); [|apply barrier_kept_refl].
  assert (H : barrier_kept w
                (if ShouldRetainMap map age w
                 then snd (WhiteToGreyAndPush map w) else w)).
  { apply barrier_kept_if;
      [apply WhiteToGreyAndPush_kept | apply barrier_kept_refl]. }
  destruct (_ && _); exact H.
Qed.

Lemma RetainMaps_loop_kept (pairs : list (WeakCell * Z)) :
  forall i w, barrier_kept w (snd (RetainMaps_loop i pairs w)).
Proof.
  induction pairs as [|[[map|] age] rest IH]; intros i w;
    cbn [RetainMaps_loop].
  - apply barrier_kept_refl.
  - pose proof (retain_entry_kept i map age w) as H1.
    destruct (retain_entry i map age w) as [new_age w1]. cbn [snd] in H1.
    specialize (IH (i + 2) w1).
    destruct (RetainMaps_loop (i + 2) rest w1) as [rest' w']. cbn [snd] in *.
    eapply barrier_kept_trans; [exact H1 | exact IH].
  - specialize (IH (i + 2) w).
    destruct (RetainMaps_loop (i + 2) rest w) as [rest' w']. exact IH.
Qed.

Lemma RetainMaps_kept (w : World) : barrier_kept w (RetainMaps w).
Proof.
  unfold RetainMaps.
  pose proof (RetainMaps_loop_kept (retained_maps (gc w)) 0 w) as H.
  destruct (RetainMaps_loop 0 (retained_maps (gc w)) w) as [pairs w'].
  cbn [snd] in H.
  eapply barrier_kept_trans; [exact H|].
  apply barrier_kept_frame; reflexivity.
Qed.

Lemma FinalizeIncrementally_kept (w : World) :
  barrier_kept w (FinalizeIncrementally w).
Proof.
  unfold FinalizeIncrementally. cbv zeta.
  set (w2 := if incremental_marking_finalization_rounds_ (im (MarkRoots w))
                =? 0
             then RetainMaps (MarkRoots w) else MarkRoots w).
  assert (H2 : barrier_kept w w2).
  { subst w2. apply barrier_kept_if; [|apply MarkRoots_kept].
    eapply barrier_kept_trans; [apply MarkRoots_kept | apply RetainMaps_kept]. }
  clearbody w2.
  set (w4 := if _ || _ then _ else _).
  assert (H4 : barrier_kept w w4).
  { subst w4. eapply barrier_kept_trans; [exact H2|].
    apply barrier_kept_if; apply barrier_kept_frame; reflexivity. }
  clearbody w4.
  apply barrier_kept_if; [|exact H4].
  eapply barrier_kept_trans; [exact H4|].
  apply barrier_kept_frame; reflexivity.
Qed.

Lemma blacken_caches_kept (w : World) : barrier_kept w (blacken_caches w).
Proof.
  unfold blacken_caches. generalize (native_contexts_list (heap_ w)).
  intros l. revert w. induction l as [|c l IH]; intros w; cbn [fold_left].
  - apply barrier_kept_refl.
  - eapply barrier_kept_trans; [|apply IH]. cbv zeta.
    apply barrier_kept_if; [|apply barrier_kept_refl].
    apply barrier_kept_frame; reflexivity.
Qed.

Lemma Hurry_kept (fuel : nat) (w w' : World) :
  Hurry fuel w = Some w' -> barrier_kept w w'.
Proof.
  unfold Hurry. destruct (negb _).
  - destruct (ProcessMarkingWorklist fuel 0 FORCE_COMPLETION w)
      as [[n w1]|] eqn:E; [|discriminate].
    intros [= <-].
    eapply barrier_kept_trans; [|apply blacken_caches_kept].
    eapply barrier_kept_trans;
      [exact (ProcessMarkingWorklist_kept _ _ _ _ _ _ E)|].
    apply SetState_COMPLETE_kept.
  - intros [= <-]. apply blacken_caches_kept.
Qed.

Lemma barrier_marked_kept (obj v : Address) (w : World) :
  barrier_kept w (barrier_marked obj v w).
Proof.
  unfold barrier_marked.
  apply barrier_kept_if; [|apply barrier_kept_refl].
  apply barrier_kept_if; [|apply barrier_kept_refl].
  eapply barrier_kept_trans; [|apply RestartIfNotMarking_kept].
  apply barrier_kept_frame; reflexivity.
Qed.

Lemma RecordWriteSlow_kept (obj slot v : Address) (w : World) :
  barrier_kept w (RecordWriteSlow obj slot (HeapPointer v) w).
Proof.
  rewrite RecordWriteSlow_eq.
  apply barrier_kept_if; [|apply barrier_marked_kept].
  eapply barrier_kept_trans; [apply barrier_marked_kept|].
  apply barrier_kept_frame; reflexivity.
Qed.

Lemma RecordWriteIntoCodeSlow_kept (host rinfo v : Address) (w : World) :
  barrier_kept w (RecordWriteIntoCodeSlow host rinfo (HeapPointer v) w).
Proof.
  unfold RecordWriteIntoCodeSlow. rewrite BaseRecordWrite_eq.
  apply barrier_kept_if; [|apply barrier_marked_kept].
  eapply barrier_kept_trans; [apply barrier_marked_kept|].
  apply barrier_kept_frame; reflexivity.
Qed.

Lemma MarkBlackAndPush_kept (obj : Address) (w : World) :
  barrier_kept w (MarkBlackAndPush obj w).
Proof.
  unfold MarkBlackAndPush, ObjectMarking.GreyToBlack, ObjectMarking.WhiteToGrey,
    ObjectMarking.BlackToGrey, ObjectMarking.lift, Push, PushBailout.
  cbv zeta. cbn [fst snd].
  repeat apply barrier_kept_if; apply barrier_kept_frame; reflexivity.
Qed.

Lemma NotifyLeftTrimming_kept (from to : Address) (w : World) :
  barrier_kept w (NotifyLeftTrimming from to w).
Proof.
  unfold NotifyLeftTrimming. cbv zeta.
  apply barrier_kept_if; [apply barrier_kept_refl|].
  destruct (if FLAG_concurrent_marking (fl w)
            then Marking.GreyToBlack (MarkBitFrom w from)
                   (snd (Marking.WhiteToGrey (MarkBitFrom w from)
                           (internal_marking (gc w))))
            else (false, internal_marking (gc w))) as [marked bits1].
  apply barrier_kept_if;
    [apply barrier_kept_if; apply barrier_kept_frame; reflexivity|].
  apply barrier_kept_if; [|apply barrier_kept_frame; reflexivity].
  eapply barrier_kept_trans; [|apply RestartIfNotMarking_kept].
  apply barrier_kept_frame; reflexivity.
Qed.

Lemma RevisitObject_kept (obj : Address) (w : World) :
  barrier_kept w (RevisitObject obj w).
Proof.
  unfold RevisitObject. cbv zeta.
  eapply barrier_kept_trans; [|apply Visit_kept].
  eapply barrier_kept_trans; [|apply WhiteToGreyAndPush_kept].
  apply barrier_kept_if; [apply set_progress_bar_kept | apply barrier_kept_refl].
Qed.

Lemma after_processing_kept (action : CompletionAction)
  (completion : ForceCompletionAction) (w : World) :
  barrier_kept w (after_processing action completion w).
Proof.
  unfold after_processing, FinalizeMarking, MarkingComplete.
  repeat apply barrier_kept_if; try apply barrier_kept_refl;
    try (apply barrier_kept_frame; reflexivity); repeat split.
Qed.

Lemma state_if (c : bool) (X Y : World) (k : State) :
  state_ (im X) = k -> state_ (im Y) = k ->
  state_ (im (if c then X else Y)) = k.
Proof. destruct c; auto. Qed.

Lemma MarkRoots_im (w : World) : im (MarkRoots w) = im w.
Proof. apply MarkRoots_only_marks. Qed.

(** Unless the serializer delays it, [StartMarking] enters MARKING. *)
Lemma StartMarking_state (w : World) :
  serializer_enabled (heap_ w) = false ->
  state_ (im (StartMarking w)) = MARKING.
Proof.
  intros HS. unfold StartMarking. rewrite HS. cbv zeta.
  apply state_if; [cbn [notify with_gc im]|]; rewrite MarkRoots_im;
    (apply state_if;
     [change (state_ (im (StartBlackAllocation ?X))) with (state_ (im X))|]);
    cbn [notify with_gc im]; rewrite ActivateIncrementalWriteBarrier_im;
    reflexivity.
Qed.

Lemma StartMarking_consistent (w : World) :
  barrier_consistent w -> barrier_consistent (StartMarking w).
Proof.
  intros HB. destruct (serializer_enabled (heap_ w)) eqn:HS.
  - unfold StartMarking. rewrite HS. exact HB.
  - intros HM. unfold IsMarking in HM.
    rewrite (StartMarking_state w HS) in HM. discriminate HM.
Qed.

Lemma FinalizeSweeping_consistent (w : World) :
  barrier_consistent w -> barrier_consistent (FinalizeSweeping w).
Proof.
  intros HB. unfold FinalizeSweeping. cbv zeta.
  set (w1 := if _ && _ then _ else w).
  assert (H1 : barrier_consistent w1).
  { apply (barrier_kept_consistent w); [|exact HB]. subst w1.
    apply barrier_kept_if; apply barrier_kept_frame; reflexivity. }
  clearbody w1.
  destruct (negb _); [apply StartMarking_consistent|]; exact H1.
Qed.

Lemma Step_consistent (fuel : nat) (b : Z) (action : CompletionAction)
  (completion : ForceCompletionAction) (origin : StepOrigin) (w : World)
  (n : Z) (w' : World) :
  Step fuel b action completion origin w = Some (n, w') ->
  barrier_consistent w -> barrier_consistent w'.
Proof.
  unfold Step. cbv zeta. intros H HB.
  set (w1 := if State_eqb (state_ (im w)) SWEEPING
             then FinalizeSweeping w else w) in *.
  assert (H1 : barrier_consistent w1).
  { subst w1. destruct (State_eqb (state_ (im w)) SWEEPING);
      [apply FinalizeSweeping_consistent|]; exact HB. }
  clearbody w1.
  assert (TAIL : forall (k : Z) (w4 : World),
             barrier_kept w4
               (notify (AddIncrementalMarkingStep k)
                  (if FLAG_concurrent_marking (fl w4)
                   then notify RescheduleTasksIfNeeded w4 else w4))).
  { intros k w4. destruct (FLAG_concurrent_marking _);
      apply barrier_kept_frame; reflexivity. }
  destruct (State_eqb (state_ (im w1)) MARKING).
  - destruct (ProcessMarkingWorklist fuel (to_intptr b)
                DO_NOT_FORCE_COMPLETION w1) as [[m w2]|] eqn:E;
      [|discriminate].
    pose proof (ProcessMarkingWorklist_kept _ _ _ _ _ _ E) as K2.
    injection H as _ <-.
    apply (barrier_kept_consistent w1); [|exact H1].
    eapply barrier_kept_trans; [exact K2|].
    eapply barrier_kept_trans; [|apply TAIL].
    eapply barrier_kept_trans; [|apply after_processing_kept].
    apply barrier_kept_if; apply barrier_kept_frame; reflexivity.
  - injection H as _ <-.
    apply (barrier_kept_consistent w1); [apply TAIL | exact H1].
Qed.

Lemma AdvanceIncrementalMarkingOnAllocation_consistent (fuel : nat)
  (w w' : World) :
  AdvanceIncrementalMarkingOnAllocation fuel w = Some w' ->
  barrier_consistent w -> barrier_consistent w'.
Proof.
  unfold AdvanceIncrementalMarkingOnAllocation. intros H HB.
  destruct (_ || _); [injection H as <-; exact HB|].
  destruct (StepSizeToKeepUpWithAllocations w) as [keep_up w1] eqn:EK.
  assert (H1 : barrier_consistent w1).
  { apply (barrier_kept_consistent w); [|exact HB].
    replace w1 with (snd (StepSizeToKeepUpWithAllocations w))
      by (rewrite EK; reflexivity).
    apply barrier_kept_frame; reflexivity. }
  clear EK.
  destruct (_ <=? _); [|injection H as <-; exact H1].
  destruct (_ <=? _).
  - injection H as <-.
    apply (barrier_kept_consistent w1); [|exact H1].
    apply barrier_kept_frame; reflexivity.
  - match type of H with
    | context [Step ?f ?b ?a ?c ?o ?x] =>
      destruct (Step f b a c o x) as [[n w2]|] eqn:ES; [|discriminate]
    end.
    injection H as <-.
    apply (barrier_kept_consistent w2);
      [apply barrier_kept_frame; reflexivity|].
    exact (Step_consistent _ _ _ _ _ _ _ _ ES H1).
Qed.

Lemma advance_once_consistent (fuel : nat) (tracing : bool)
  (action : CompletionAction) (completion : ForceCompletionAction)
  (origin : StepOrigin) (w w' : World) :
  advance_once fuel tracing action completion origin w = Some w' ->
  barrier_consistent w -> barrier_consistent w'.
Proof.
  unfold advance_once. intros H HB.
  destruct (tracing && trace_wrappers_toggle_ (im w)).
  - destruct (negb _); injection H as <-;
      (apply (barrier_kept_consistent w); [|exact HB]);
      apply barrier_kept_frame; reflexivity.
  - destruct (Step fuel (step_size_in_bytes (heap_ w)) action completion
                origin w) as [[n w1]|] eqn:ES; [|discriminate].
    injection H as <-.
    apply (barrier_kept_consistent w1);
      [apply barrier_kept_frame; reflexivity|].
    exact (Step_consistent _ _ _ _ _ _ _ _ ES HB).
Qed.

Lemma advance_loop_consistent (fuel : nat) (clock : list bool)
  (tracing : bool) (action : CompletionAction)
  (completion : ForceCompletionAction) (origin : StepOrigin) :
  forall w w',
  advance_loop fuel clock tracing action completion origin w = Some w' ->
  barrier_consistent w -> barrier_consistent w'.
Proof.
  induction clock as [|t clock IH]; intros w w'; cbn [advance_loop];
    destruct (advance_once fuel tracing action completion origin w)
      as [w1|] eqn:E1; try discriminate;
    intros H HB;
    pose proof (advance_once_consistent _ _ _ _ _ _ _ E1 HB) as H1.
  - injection H as <-. exact H1.
  - destruct (_ && _); [|injection H as <-; exact H1].
    exact (IH _ _ H H1).
Qed.

Lemma add_observers (spaces : list AllocationSpace) (w : World) :
  let w' :=
    fold_left
      (fun w' space => AddAllocationObserver space (observer_of space) w')
      spaces w in
  barrier_kept w w'.
Proof.
  revert w. induction spaces as [|sp spaces IH]; intros w; cbv zeta;
    cbn [fold_left].
  - apply barrier_kept_refl.
  - eapply barrier_kept_trans; [|apply IH].
    apply barrier_kept_frame; reflexivity.
Qed.

(** [Start] from a state before MARKING, as its assertion asks. *)
Lemma Start_consistent (w : World) :
  IsMarking w = false ->
  barrier_consistent w -> barrier_consistent (Start w).
Proof.
  intros HM HB. unfold Start. cbv zeta.
  set (w7 := set_was_activated_ true _).
  assert (K7 : barrier_kept w w7 /\ IsMarking w7 = false).
  { subst w7. split; [apply barrier_kept_frame; reflexivity | exact HM]. }
  destruct K7 as [K7 M7].
  assert (H7 : barrier_consistent w7)
    by exact (barrier_kept_consistent _ _ K7 HB).
  clearbody w7.
  set (w8 := if negb (sweeping_in_progress (gc w7))
             then StartMarking w7 else SetState SWEEPING w7).
  assert (H8 : barrier_consistent w8).
  { subst w8. destruct (negb _); [apply StartMarking_consistent; exact H7|].
    intros _. exact (H7 M7). }
  clearbody w8.
  apply (barrier_kept_consistent w8); [|exact H8].
  eapply barrier_kept_trans; [apply (add_observers all_spaces w8)|].
  apply barrier_kept_frame; reflexivity.
Qed.

Lemma Stop_consistent (w : World) :
  barrier_consistent w -> barrier_consistent (Stop w).
Proof.
  intros HB. destruct (IsStopped w) eqn:HS.
  - unfold Stop. rewrite HS. exact HB.
  - intros _. apply (Stop_barrier_inactive w HS HB).
Qed.

(** Every operation of the controller keeps the barrier inactive outside
    the marking states; [Start] is called from the STOPPED state, as its
    assertion asks. *)
Lemma run_keeps_barrier_consistent (fuel : nat) (op : Operation)
  (w w' : World) :
  run fuel op w = Some w' ->
  (op = OpStart -> IsStopped w = true) ->
  barrier_consistent w -> barrier_consistent w'.
Proof.
  intros H HP HB.
  assert (KEPT : barrier_kept w w' -> barrier_consistent w')
    by (intros K; exact (barrier_kept_consistent _ _ K HB)).
  destruct op; cbn [run] in H; try (injection H as <-).
  - apply Start_consistent; [|exact HB].
    specialize (HP eq_refl). unfold IsStopped in HP. unfold IsMarking.
    destruct (state_ (im w)); try discriminate HP; reflexivity.
  - apply Stop_consistent. exact HB.
  - destruct (Step fuel bytes_to_process action completion step_origin w)
      as [[n w1]|] eqn:ES; [|discriminate].
    injection H as <-. exact (Step_consistent _ _ _ _ _ _ _ _ ES HB).
  - exact (AdvanceIncrementalMarkingOnAllocation_consistent _ _ _ H HB).
  - exact (advance_loop_consistent _ _ _ _ _ _ _ _ H HB).
  - apply KEPT, FinalizeIncrementally_kept.
  - apply KEPT, (Hurry_kept _ _ _ H).
  - unfold Finalize in H.
    destruct (Hurry fuel w) as [w1|] eqn:EH; [|discriminate].
    injection H as <-. apply Stop_consistent.
    exact (barrier_kept_consistent _ _ (Hurry_kept _ _ _ EH) HB).
  - apply KEPT, barrier_kept_frame; reflexivity.
  - apply KEPT. unfold FinalizeMarking.
    apply barrier_kept_if; apply barrier_kept_frame; reflexivity.
  - apply KEPT. unfold MarkingComplete.
    apply barrier_kept_if; repeat split.
  - apply KEPT, RecordWriteSlow_kept.
  - apply KEPT, RecordWriteIntoCodeSlow_kept.
  - apply KEPT, MarkBlackAndPush_kept.
  - apply KEPT, NotifyLeftTrimming_kept.
  - apply KEPT. unfold UpdateMarkingWorklistAfterScavenge.
    apply barrier_kept_if; apply barrier_kept_frame; reflexivity.
  - apply KEPT. unfold ProcessBlackAllocatedObject.
    apply barrier_kept_if; [apply RevisitObject_kept | apply barrier_kept_refl].
  - apply KEPT, barrier_kept_frame; reflexivity.
  - apply KEPT, barrier_kept_frame; reflexivity.
  - apply KEPT. unfold FinishBlackAllocation.
    apply barrier_kept_if; apply barrier_kept_frame; reflexivity.
  - apply KEPT, barrier_kept_refl.
  - apply KEPT, barrier_kept_frame; reflexivity.
  - apply KEPT, barrier_kept_frame; reflexivity.
Qed.

(* ------------------------------------------------------------------ *)
(** * Further properties of the marker *)

(** ** The visitor's pointer loop *)

(** X1. [VisitPointers(host, start, end)] leaves no White target behind:
    for every slot [p] of the loop that holds a heap object, the object is
    not White afterwards and [(host, p, object)] is among the recorded
    slots. The loop clears no mark bit, sets none but the first bit of such
    a target, keeps the slots recorded before and leaves the controller's
    fields alone. *)
Theorem VisitPointers_marks_every_target (host start end_ : Address)
  (w : World) :
  let w' := VisitPointers host start end_ w in
  (forall (i : nat) (a : Address),
     (i < slot_count w start end_)%nat ->
     load (heap_ w) (slot_at w start i) = HeapPointer a ->
     ObjectMarking.IsWhite a w' = false
     /\ In (host, slot_at w start i, a) (recorded_slots (gc w')))
  /\ bits_grow w w'
  /\ (forall m, internal_marking (gc w') m = true ->
        internal_marking (gc w) m = true
        \/ exists (i : nat) (a : Address),
             (i < slot_count w start end_)%nat
             /\ load (heap_ w) (slot_at w start i) = HeapPointer a
             /\ m = MarkBitFrom w a)
  /\ (forall s, In s (recorded_slots (gc w)) -> In s (recorded_slots (gc w')))
  /\ im w' = im w.
Proof.
  cbv zeta. unfold VisitPointers.
  destruct (VisitPointers_loop_targets (slot_count w start end_) host start w)
    as (H1 & (l & H2) & H3 & H4).
  cbv zeta in H1, H2, H3, H4.
  split; [exact H3|]. split; [exact H1|]. split; [exact H4|]. split.
  - intros s HS. rewrite H2. apply in_or_app. right. exact HS.
  - apply VisitPointers_loop_frame.
Qed.

(** ** The root visitor *)

Lemma mark_roots_targets (roots : list Object) :
  forall w,
  let w' := fold_left (fun w' p => MarkObjectByPointer p w') roots w in
  bits_grow w w'
  /\ (forall a, In (HeapPointer a) roots ->
                ObjectMarking.IsWhite a w' = false)
  /\ (forall m, internal_marking (gc w') m = true ->
        internal_marking (gc w) m = true
        \/ exists a, In (HeapPointer a) roots /\ m = MarkBitFrom w a)
  /\ recorded_slots (gc w') = recorded_slots (gc w).
Proof.
  induction roots as [|r roots IH]; intros w; cbv zeta; cbn [fold_left].
  - split; [apply bits_grow_refl|]. split; [intros a []|]. split; auto.
  - set (w1 := MarkObjectByPointer r w).
    assert (F : bits_grow w w1
                /\ (forall a, r = HeapPointer a ->
                              ObjectMarking.IsWhite a w1 = false)
                /\ (forall m, internal_marking (gc w1) m = true ->
                      internal_marking (gc w) m = true
                      \/ exists a, r = HeapPointer a /\ m = MarkBitFrom w a)
                /\ recorded_slots (gc w1) = recorded_slots (gc w)).
    { subst w1. unfold MarkObjectByPointer.
      destruct r as [n | a]; cbn [IsHeapObject negb HeapObject_cast].
      - split; [apply bits_grow_refl|]. split; [discriminate|]. split; auto.
      - destruct (WhiteToGreyAndPush_bits_grow a w) as (G1 & G2 & G3 & _).
        split; [exact G1|]. split; [intros a' [= <-]; exact G2|].
        split; [|exact G3].
        intros m HM. destruct (WhiteToGreyAndPush_bit a w m HM) as [K | K];
          [left; exact K | right; exists a; auto]. }
    destruct F as (F1 & F2 & F3 & F4). clearbody w1.
    destruct (IH w1) as (I1 & I2 & I3 & I4). cbv zeta in I1, I2, I3, I4.
    assert (HH : heap_ w1 = heap_ w) by apply F1.
    split; [exact (bits_grow_trans _ _ _ F1 I1)|]. split; [|split].
    + intros a [-> | HA]; [|exact (I2 a HA)].
      exact (bits_grow_not_white _ _ _ I1 (F2 a eq_refl)).
    + intros m HM. destruct (I3 m HM) as [K | (a & A1 & A2)].
      * destruct (F3 m K) as [K0 | (a & -> & A2)]; [left; exact K0|].
        right. exists a. split; [left; reflexivity | exact A2].
      * right. exists a. split; [right; exact A1|].
        unfold MarkBitFrom in *. rewrite HH in A2. exact A2.
    + congruence.
Qed.

(** X2. [MarkRoots] leaves no strong root White: every strong root that is
    a heap object is not White afterwards. It clears no mark bit, sets none
    but the first bit of such a root, records no slot and leaves the
    controller's fields alone. *)
Theorem MarkRoots_marks_every_root (w : World) :
  let w' := MarkRoots w in
  (forall a, In (HeapPointer a) (strong_roots (heap_ w)) ->
             ObjectMarking.IsWhite a w' = false)
  /\ bits_grow w w'
  /\ (forall m, internal_marking (gc w') m = true ->
        internal_marking (gc w) m = true
        \/ exists a, In (HeapPointer a) (strong_roots (heap_ w))
                     /\ m = MarkBitFrom w a)
  /\ recorded_slots (gc w') = recorded_slots (gc w)
  /\ im w' = im w.
Proof.
  cbv zeta. unfold MarkRoots.
  destruct (mark_roots_targets (strong_roots (heap_ w)) w)
    as (H1 & H2 & H3 & H4).
  cbv zeta in H1, H2, H3, H4.
  split; [exact H2|]. split; [exact H1|]. split; [exact H3|].
  split; [exact H4|]. apply (MarkRoots_only_marks w).
Qed.

(** ** Visiting one object *)

(** The pointer loop run in a world [w] that has the layout of [w0]. *)
Lemma VisitPointers_targets_at (host s e : Address) (w0 w : World) :
  heap_ w = heap_ w0 ->
  let w' := VisitPointers host s e w in
  bits_grow w w'
  /\ (forall (i : nat) (a : Address),
        (i < slot_count w0 s e)%nat ->
        load (heap_ w0) (slot_at w0 s i) = HeapPointer a ->
        ObjectMarking.IsWhite a w' = false).
Proof.
  intros HH. cbv zeta. unfold VisitPointers.
  destruct (VisitPointers_loop_targets (slot_count w s e) host s w)
    as (H1 & _ & H3 & _).
  cbv zeta in H1, H3. split; [exact H1|].
  intros i a Hi HL. apply (H3 i a).
  - unfold slot_count in *. rewrite HH. exact Hi.
  - unfold slot_at in *. rewrite HH. exact HL.
Qed.

(** X3. Visiting a Grey or Black object that is not a fixed array with a
    progress bar establishes the tri-colour invariant for it: afterwards the
    object is Black, its map is not White, and every pointer field from the
    first field its visitor scans to the end of the object holds no White
    object. No mark bit is cleared on the way. *)
Theorem VisitObject_blackens_and_greys_fields (obj : Address) (size : Z)
  (w : World) :
  ObjectMarking.IsGrey obj w = true \/ ObjectMarking.IsBlack obj w = true ->
  IsFixedArrayWithProgressBar w obj = false ->
  let d := object_at (heap_ w) obj in
  let w' := VisitObject (obj_map w obj) obj size w in
  ObjectMarking.IsBlack obj w' = true
  /\ ObjectMarking.IsWhite (obj_map w obj) w' = false
  /\ (forall (i : nat) (a : Address),
        (i < slot_count w (RawField obj (first_field w obj))
               (RawField obj (SizeFromMap d)))%nat ->
        load (heap_ w) (slot_at w (RawField obj (first_field w obj)) i)
        = HeapPointer a ->
        ObjectMarking.IsWhite a w' = false)
  /\ bits_grow w w'.
Proof.
  intros HC HP. cbv zeta. unfold VisitObject.
  pose proof (GreyToBlack_bits_grow obj w) as G1.
  pose proof (GreyToBlack_black obj w HC) as B1.
  set (w1 := snd (ObjectMarking.GreyToBlack obj w)) in *.
  destruct (WhiteToGreyAndPush_bits_grow (obj_map w obj) w1)
    as (G2 & M2 & _ & _).
  set (w2 := snd (WhiteToGreyAndPush (obj_map w obj) w1)) in *.
  assert (H2 : heap_ w2 = heap_ w).
  { destruct G1 as [A _], G2 as [B _]. congruence. }
  assert (C2 : chunk_at (gc w2) = chunk_at (gc w)).
  { subst w2. rewrite WhiteToGreyAndPush_chunk_at. reflexivity. }
  assert (V : bits_grow w2 (snd (Visit (obj_map w obj) obj w2))
              /\ (forall (i : nat) (a : Address),
                    (i < slot_count w (RawField obj (first_field w obj))
                           (RawField obj
                              (SizeFromMap (object_at (heap_ w) obj))))%nat ->
                    load (heap_ w)
                      (slot_at w (RawField obj (first_field w obj)) i)
                    = HeapPointer a ->
                    ObjectMarking.IsWhite a
                      (snd (Visit (obj_map w obj) obj w2)) = false)).
  { unfold Visit, first_field. rewrite H2.
    unfold IsFixedArrayWithProgressBar, IsFixedArray, chunk_of in HP.
    destruct (instance_kind (object_at (heap_ w) obj)) eqn:K;
      cbn [InstanceKind_eqb negb] in HP.
    all: try (unfold VisitBody; cbn [snd]; rewrite H2;
              apply VisitPointers_targets_at; exact H2).
    - (* a fixed array on a page without progress bar *)
      unfold VisitFixedArray. unfold FromAddress in *. rewrite C2, H2.
      change (InstanceKind_eqb FIXED_ARRAY_KIND FIXED_ARRAY_KIND) with true
        in HP.
      cbn [negb] in HP. rewrite HP. cbn [snd].
      apply VisitPointers_targets_at. exact H2.
    - (* a native context *)
      unfold VisitNativeContext. cbv zeta.
      set (w3 := if negb _ then _ else w2).
      assert (G3 : bits_grow w2 w3).
      { subst w3. destruct (negb _); [|apply bits_grow_refl].
        destruct (IsHeapObject _); [|apply bits_grow_refl].
        unfold ObjectMarking.WhiteToGrey, ObjectMarking.lift. cbn [snd].
        unfold Marking.WhiteToGrey. destruct (Marking.IsWhite _ _); cbn [snd].
        - apply bits_grow_set.
        - apply bits_grow_frame; reflexivity. }
      clearbody w3.
      assert (H3 : heap_ w3 = heap_ w) by (destruct G3 as [A _]; congruence).
      unfold VisitBody. cbn [snd]. rewrite H3.
      destruct (VisitPointers_targets_at obj
                  (RawField obj (body_start (object_at (heap_ w) obj)))
                  (RawField obj (SizeFromMap (object_at (heap_ w) obj)))
                  w w3 H3) as [T1 T2].
      cbv zeta in T1, T2.
      split; [exact (bits_grow_trans _ _ _ G3 T1) | exact T2]. }
  destruct V as [G3 F3].
  set (w3 := snd (Visit (obj_map w obj) obj w2)) in *.
  assert (G : bits_grow w1 w3) by exact (bits_grow_trans _ _ _ G2 G3).
  split; [exact (bits_grow_black _ _ _ G B1)|].
  split; [exact (bits_grow_not_white _ _ _ G3 M2)|].
  split; [exact F3|].
  exact (bits_grow_trans _ _ _ G1 G).
Qed.

Lemma VisitObject_blackens_and_greys_fields_witness :
  ObjectMarking.IsBlack 1024 (VisitObject 8 1024 16 cycle_world) = true
  /\ ObjectMarking.IsWhite 2048 (VisitObject 8 1024 16 cycle_world) = false.
Proof.
  pose proof (VisitObject_blackens_and_greys_fields 1024 16 cycle_world
                (or_introl eq_refl) eq_refl) as H.
  cbv zeta in H. destruct H as (H1 & _ & H3 & _).
  split; [exact H1|].
  assert (L : (0 < slot_count cycle_world
                     (RawField 1024%Z (first_field cycle_world 1024%Z))
                     (RawField 1024%Z
                        (SizeFromMap
                           (object_at (heap_ cycle_world) 1024%Z))))%nat)
    by (vm_compute; apply le_n).
  exact (H3 O 2048 L eq_refl).
Defined.

(** ** The write barrier keeps Black objects from pointing to White ones *)

Lemma barrier_marked_bits_grow (obj v : Address) (w : World) :
  bits_grow w (barrier_marked obj v w)
  /\ (FLAG_concurrent_marking (fl w) || ObjectMarking.IsBlack obj w = true ->
      ObjectMarking.IsWhite v (barrier_marked obj v w) = false)
  /\ (forall m, internal_marking (gc (barrier_marked obj v w)) m = true ->
        internal_marking (gc w) m = true \/ m = MarkBitFrom w v)
  /\ recorded_slots (gc (barrier_marked obj v w)) = recorded_slots (gc w)
  /\ recorded_reloc_slots (gc (barrier_marked obj v w))
     = recorded_reloc_slots (gc w).
Proof.
  unfold barrier_marked.
  destruct (FLAG_concurrent_marking (fl w) || ObjectMarking.IsBlack obj w).
  2: { split; [apply bits_grow_refl|]. split; [discriminate|]. auto. }
  destruct (ObjectMarking.IsWhite v w) eqn:HW.
  2: { split; [apply bits_grow_refl|]. split; [intros _; exact HW|]. auto. }
  split; [|split; [|split; [|split]]].
  - split; [rewrite RestartIfNotMarking_heap; reflexivity|].
    intros i HI. rewrite RestartIfNotMarking_gc. cbn.
    apply SetBit_true. exact HI.
  - intros _. unfold ObjectMarking.IsWhite, MarkBitFrom.
    rewrite RestartIfNotMarking_gc, RestartIfNotMarking_heap. cbn.
    unfold Marking.IsWhite, Marking.Get. rewrite SetBit_same. reflexivity.
  - intros m. rewrite RestartIfNotMarking_gc. cbn. unfold Marking.SetBit.
    destruct (Z.eqb_spec m (MarkBitFrom w v)); auto.
  - rewrite RestartIfNotMarking_gc. reflexivity.
  - rewrite RestartIfNotMarking_gc. reflexivity.
Qed.

(** X4. The write barrier keeps the tri-colour invariant for the store it
    guards: after [RecordWriteSlow(obj, slot, value)] a Black [obj] is still
    Black and [value] is not White (under concurrent marking [value] is not
    White whatever the colour of [obj]). The barrier clears no mark bit and
    sets none but the first bit of [value]. *)
Theorem RecordWriteSlow_no_black_to_white (obj slot v : Address) (w : World) :
  let w' := RecordWriteSlow obj slot (HeapPointer v) w in
  (ObjectMarking.IsBlack obj w = true ->
   ObjectMarking.IsBlack obj w' = true
   /\ ObjectMarking.IsWhite v w' = false)
  /\ (FLAG_concurrent_marking (fl w) = true ->
      ObjectMarking.IsWhite v w' = false)
  /\ bits_grow w w'
  /\ (forall m, internal_marking (gc w') m = true ->
        internal_marking (gc w) m = true \/ m = MarkBitFrom w v).
Proof.
  cbv zeta. rewrite RecordWriteSlow_eq.
  destruct (barrier_marked_bits_grow obj v w) as (G & W & B & _).
  set (w1 := barrier_marked obj v w) in *.
  assert (E : forall X,
             X = (if is_compacting_ (im w)
                     && (FLAG_concurrent_marking (fl w)
                         || ObjectMarking.IsBlack obj w)
                     && negb (slot =? 0)
                  then RecordSlot obj slot (HeapPointer v) w1 else w1) ->
             heap_ X = heap_ w1
             /\ internal_marking (gc X) = internal_marking (gc w1)).
  { intros X ->. destruct (_ && negb _); split; reflexivity. }
  destruct (E _ eq_refl) as [E1 E2].
  set (w' := if _ && negb _ then _ else w1) in *. clearbody w'.
  assert (G' : bits_grow w w').
  { eapply bits_grow_trans; [exact G|]. apply bits_grow_frame; assumption. }
  assert (W' : FLAG_concurrent_marking (fl w) || ObjectMarking.IsBlack obj w
               = true -> ObjectMarking.IsWhite v w' = false).
  { intros H. specialize (W H). unfold ObjectMarking.IsWhite, MarkBitFrom in *.
    rewrite E1, E2. exact W. }
  split; [|split; [|split]].
  - intros HB. split; [exact (bits_grow_black _ _ _ G' HB)|].
    apply W'. rewrite HB. apply orb_true_r.
  - intros HC. apply W'. rewrite HC. reflexivity.
  - exact G'.
  - intros m. rewrite E2. apply B.
Qed.

(** X5. The barrier for a code target marks as the barrier for a slot
    does, and registers the relocation entry with the compacting collector
    if and only if the collector is compacting and concurrent marking is
    enabled or [host] is Black; there is no null test, and the slots
    recorded for ordinary stores are left alone. *)
Theorem RecordWriteIntoCodeSlow_records_reloc (host rinfo v : Address)
  (w : World) :
  let w' := RecordWriteIntoCodeSlow host rinfo (HeapPointer v) w in
  let need_recording :=
    FLAG_concurrent_marking (fl w) || ObjectMarking.IsBlack host w in
  internal_marking (gc w')
  = internal_marking (gc (RecordWriteSlow host 0 (HeapPointer v) w))
  /\ marking_worklist (gc w')
     = marking_worklist (gc (RecordWriteSlow host 0 (HeapPointer v) w))
  /\ im w' = im (RecordWriteSlow host 0 (HeapPointer v) w)
  /\ recorded_reloc_slots (gc w')
     = (if is_compacting_ (im w) && need_recording
        then (host, rinfo, v) :: recorded_reloc_slots (gc w)
        else recorded_reloc_slots (gc w))
  /\ recorded_slots (gc w') = recorded_slots (gc w)
  /\ (need_recording = true -> ObjectMarking.IsWhite v w' = false).
Proof.
  cbv zeta. unfold RecordWriteIntoCodeSlow.
  rewrite BaseRecordWrite_eq, RecordWriteSlow_eq.
  change (negb (0 =? 0)) with false. rewrite andb_false_r.
  destruct (barrier_marked_bits_grow host v w) as (_ & W & _ & R1 & R2).
  set (w1 := barrier_marked host v w) in *.
  destruct (is_compacting_ (im w)
            && (FLAG_concurrent_marking (fl w)
                || ObjectMarking.IsBlack host w)).
  - split; [reflexivity|]. split; [reflexivity|]. split; [reflexivity|].
    split; [cbn; rewrite R2; reflexivity|]. split; [exact R1 | exact W].
  - split; [reflexivity|]. split; [reflexivity|]. split; [reflexivity|].
    split; [exact R2|]. split; [exact R1 | exact W].
Qed.

(** ** MarkBlackAndPush *)

(** X6. [MarkBlackAndPush] on an object that is already Black changes
    nothing. On a White or Grey object: in a concurrent-marking build the
    object ends Black on the bailout stack; otherwise it ends Black on top
    of the shared stack when the worklist has room, and Grey with the
    worklist as it was when the worklist is full. *)
Theorem MarkBlackAndPush_colors (obj : Address) (w : World) :
  let w' := MarkBlackAndPush obj w in
  let wl := marking_worklist (gc w) in
  (ObjectMarking.IsBlack obj w = true -> w' = w)
  /\ (ObjectMarking.IsWhite obj w = true \/ ObjectMarking.IsGrey obj w = true ->
      (V8_CONCURRENT_MARKING (fl w) = true ->
       ObjectMarking.IsBlack obj w' = true
       /\ marking_worklist (gc w') = MarkingWorklist.PushBailout obj wl)
      /\ (V8_CONCURRENT_MARKING (fl w) = false ->
          MarkingWorklist.IsFull wl = false ->
          ObjectMarking.IsBlack obj w' = true
          /\ marking_worklist (gc w')
             = MarkingWorklist.mk (obj :: MarkingWorklist.shared wl)
                 (MarkingWorklist.bailout wl) (MarkingWorklist.capacity wl))
      /\ (V8_CONCURRENT_MARKING (fl w) = false ->
          MarkingWorklist.IsFull wl = true ->
          ObjectMarking.IsGrey obj w' = true
          /\ marking_worklist (gc w') = wl)).
Proof.
  cbv zeta.
  unfold MarkBlackAndPush, ObjectMarking.GreyToBlack, ObjectMarking.WhiteToGrey,
    ObjectMarking.BlackToGrey, ObjectMarking.lift, Push, PushBailout,
    ObjectMarking.IsBlack, ObjectMarking.IsWhite, ObjectMarking.IsGrey,
    MarkBitFrom.
  cbv zeta. cbn [fst snd gc heap_ set_internal_marking set_marking_worklist
    with_gc internal_marking marking_worklist].
  set (b := internal_marking (gc w)).
  set (m := obj / kPointerSize (fl w)).
  set (wl := marking_worklist (gc w)).
  split.
  - intros HB. apply IsBlack_bits in HB. destruct HB as [B1 B2].
    unfold Marking.WhiteToGrey, Marking.GreyToBlack, Marking.IsWhite,
      Marking.IsGrey, Marking.Get.
    rewrite B1. cbn [negb andb snd fst]. rewrite B1, B2. reflexivity.
  - intros HC.
    assert (G : exists b1, snd (Marking.WhiteToGrey m b) = b1
                           /\ b1 m = true /\ b1 (Marking.Next m) = false).
    { destruct HC as [HW | HG].
      - destruct (WhiteToGrey_grey _ _ HW) as [E G]. rewrite E. cbn [snd].
        apply IsGrey_bits in G. eauto.
      - assert (NW : Marking.IsWhite b m = false).
        { apply IsGrey_bits in HG. destruct HG as [G1 _].
          unfold Marking.IsWhite, Marking.Get. rewrite G1. reflexivity. }
        rewrite (WhiteToGrey_fails _ _ NW). cbn [snd].
        apply IsGrey_bits in HG. eauto. }
    destruct G as (b1 & -> & G1 & G2).
    assert (IG : Marking.IsGrey b1 m = true)
      by (apply IsGrey_bits; auto).
    unfold Marking.GreyToBlack. rewrite IG. cbn [fst snd].
    assert (BK : Marking.IsBlack (Marking.SetBit (Marking.Next m) b1) m = true).
    { apply IsBlack_bits. split; [apply SetBit_true; exact G1|].
      apply SetBit_same. }
    split; [|split].
    + intros ->. split; [exact BK | reflexivity].
    + intros -> HF. rewrite (Push_not_full _ _ HF). cbn [fst snd].
      split; [exact BK | reflexivity].
    + intros -> HF. rewrite (Push_full _ _ HF). cbn [fst snd].
      unfold Marking.BlackToGrey. rewrite BK. cbn [snd]. split; [|reflexivity].
      change (Marking.IsGrey
                (Marking.ClearBit (Marking.Next m)
                   (Marking.SetBit (Marking.Next m) b1)) m = true).
      apply IsGrey_bits. unfold Marking.ClearBit. split.
      * destruct (Z.eqb_spec m (Marking.Next m)) as [E | _].
        -- exfalso. exact (Next_neq m (eq_sym E)).
        -- apply SetBit_true. exact G1.
      * rewrite Z.eqb_refl. reflexivity.
Qed.

(** ** Left trimming of a White array *)

(** X7. Left trimming an array that is still White: without concurrent
    marking [NotifyLeftTrimming] changes nothing, so the new start stays as
    it was and nothing is pushed. Under concurrent marking, outside a black
    area and in a call that meets the function's assertions, the old start
    is turned Black first, and the new start ends Grey with [Push(to)]
    called on the worklist. *)
Theorem NotifyLeftTrimming_white_array (from to : Address) (w : World) :
  ObjectMarking.IsWhite from w = true ->
  let w' := NotifyLeftTrimming from to w in
  let overlap := from + kPointerSize (fl w) =? to in
  (FLAG_concurrent_marking (fl w) = false -> w' = w)
  /\ (FLAG_concurrent_marking (fl w) = true ->
      0 < kPointerSize (fl w) ->
      from mod kPointerSize (fl w) = 0 ->
      to mod kPointerSize (fl w) = 0 ->
      from < to ->
      black_allocation_ (im w) && ObjectMarking.IsBlack to w = false ->
      (* DCHECK(success) *)
      (overlap = false -> ObjectMarking.IsWhite to w = true) ->
      (* DCHECK(!new_mark_bit.Next().Get()) *)
      (overlap = true ->
       Marking.Get (internal_marking (gc w))
         (Marking.Next (MarkBitFrom w to)) = false) ->
      ObjectMarking.IsBlack from w' = true
      /\ ObjectMarking.IsGrey to w' = true
      /\ marking_worklist (gc w')
         = snd (MarkingWorklist.Push to (marking_worklist (gc w)))).
Proof.
  intros HW. cbv zeta.
  unfold ObjectMarking.IsBlack, ObjectMarking.IsGrey, ObjectMarking.IsWhite,
    MarkBitFrom in *.
  unfold NotifyLeftTrimming, MarkBitFrom.
  set (b := internal_marking (gc w)) in *.
  set (o := from / kPointerSize (fl w)) in *.
  set (n := to / kPointerSize (fl w)) in *.
  pose proof HW as HW'. apply IsWhite_bits in HW'. destruct HW' as [W1 W2].
  split.
  - intros HC. rewrite HC.
    destruct (black_allocation_ (im w) && Marking.IsBlack b n);
      [reflexivity|].
    assert (K1 : Marking.IsBlack b o = false)
      by (unfold Marking.IsBlack, Marking.Get; rewrite W1; reflexivity).
    assert (K2 : Marking.IsGrey b o = false)
      by (unfold Marking.IsGrey, Marking.Get; rewrite W1; reflexivity).
    rewrite K1, K2. reflexivity.
  - intros HC Hk Hf Ht Hlt HBA D1 D2. rewrite HC, HBA.
    destruct (trimmed_mark_bits _ _ _ Hk Hf Ht Hlt) as [Hov Hno].
    destruct (WhiteToGrey_grey _ _ HW) as [E G]. rewrite E. cbn [snd].
    unfold Marking.GreyToBlack. rewrite G.
    set (bits1 := Marking.SetBit (Marking.Next o) (Marking.SetBit o b)).
    cbn [negb andb orb]. rewrite andb_false_r, orb_true_r.
    match goal with
    | |- context [RestartIfNotMarking
                    (snd (Push to (set_internal_marking ?B w)))] =>
      destruct (trim_pushed to B w) as (EB & EH & EW); set (bits2 := B) in *
    end.
    cbv zeta in EB, EH, EW. rewrite EB, EH, EW.
    assert (B1 : bits1 o = true /\ bits1 (Marking.Next o) = true).
    { subst bits1. split; [|apply SetBit_same].
      apply SetBit_true, SetBit_same. }
    assert (K : forall i, bits1 i = true -> bits2 i = true).
    { intros i HI. subst bits2.
      destruct (from + kPointerSize (fl w) =? to);
        [apply SetBit_true; exact HI|].
      unfold Marking.WhiteToGrey. destruct (Marking.IsWhite bits1 n);
        cbn [snd]; [apply SetBit_true|]; exact HI. }
    split; [|split; [|reflexivity]].
    + apply IsBlack_bits. split; apply K; apply B1.
    + subst bits2. destruct (from + kPointerSize (fl w) =? to) eqn:OV.
      * apply Z.eqb_eq in OV. specialize (Hov OV). specialize (D2 eq_refl).
        unfold Marking.Get in D2.
        apply IsGrey_bits. split; [apply SetBit_same|].
        rewrite SetBit_other by apply Next_neq.
        subst bits1. rewrite !SetBit_other by (unfold Marking.Next; lia).
        exact D2.
      * apply Z.eqb_neq in OV. specialize (Hno OV). specialize (D1 eq_refl).
        apply IsWhite_bits in D1. destruct D1 as [N1 N2].
        assert (WN : Marking.IsWhite bits1 n = true).
        { apply IsWhite_bits. subst bits1.
          rewrite !SetBit_other by (unfold Marking.Next in *; lia).
          split; assumption. }
        destruct (WhiteToGrey_grey _ _ WN) as [E2 G2]. rewrite E2. exact G2.
Qed.

Lemma NotifyLeftTrimming_white_array_witness :
  NotifyLeftTrimming 1024 1032 ex_world = ex_world.
Proof.
  exact (proj1 (NotifyLeftTrimming_white_array 1024 1032 ex_world eq_refl)
           eq_refl).
Defined.

(** ** Draining the worklist *)

Lemma entries_nil_IsEmpty (wl : MarkingWorklist.t) :
  MarkingWorklist.entries wl = [] -> MarkingWorklist.IsEmpty wl = true.
Proof. unfold MarkingWorklist.IsEmpty. intros ->. reflexivity. Qed.

Lemma ProcessMarkingWorklist_loop_exit (fuel : nat) :
  forall (btp : Z) (completion : ForceCompletionAction) (bp : Z)
         (w : World) (n : Z) (w' : World),
  ProcessMarkingWorklist_loop fuel btp completion bp w = Some (n, w') ->
  (MarkingWorklist.IsEmpty (marking_worklist (gc w')) = true
   \/ (completion = DO_NOT_FORCE_COMPLETION /\ btp <= n))
  /\ ((bp <? btp) || is_FORCE_COMPLETION completion = false ->
      n = bp /\ w' = w).
Proof.
  assert (STOP : forall btp completion bp,
             (bp <? btp) || is_FORCE_COMPLETION completion = false ->
             completion = DO_NOT_FORCE_COMPLETION /\ btp <= bp).
  { intros btp completion bp H. apply orb_false_iff in H.
    destruct H as [H1 H2]. apply Z.ltb_ge in H1.
    destruct completion; [discriminate | auto]. }
  induction fuel as [|fuel IH]; intros btp completion bp w n w';
    cbn [ProcessMarkingWorklist_loop];
    destruct ((bp <? btp) || is_FORCE_COMPLETION completion) eqn:C.
  - destruct (Pop w) as [[obj|] w1] eqn:EP; [discriminate|].
    intros [= <- <-]. split; [|discriminate].
    left. apply entries_nil_IsEmpty. exact (Pop_none _ _ EP).
  - intros [= <- <-]. split; [right; exact (STOP _ _ _ C) | auto].
  - destruct (Pop w) as [[obj|] w1] eqn:EP.
    + destruct (IsFiller w1 obj); intros H;
        (split; [exact (proj1 (IH _ _ _ _ _ _ H)) | discriminate]).
    + intros [= <- <-]. split; [|discriminate].
      left. apply entries_nil_IsEmpty. exact (Pop_none _ _ EP).
  - intros [= <- <-]. split; [right; exact (STOP _ _ _ C) | auto].
Qed.

(** X8. When [ProcessMarkingWorklist] returns, the worklist is empty or,
    without FORCE_COMPLETION, the bytes processed have reached the budget;
    with FORCE_COMPLETION the worklist is empty whatever the budget. With a
    budget of zero or less and no FORCE_COMPLETION it pops nothing: it
    returns 0 and only registers the wrappers with the embedder. *)
Theorem ProcessMarkingWorklist_stops_on_budget (fuel : nat) (btp : Z)
  (completion : ForceCompletionAction) (w : World) (n : Z) (w' : World) :
  ProcessMarkingWorklist fuel btp completion w = Some (n, w') ->
  (MarkingWorklist.IsEmpty (marking_worklist (gc w')) = true
   \/ (completion = DO_NOT_FORCE_COMPLETION /\ btp <= n))
  /\ (completion = FORCE_COMPLETION ->
      MarkingWorklist.IsEmpty (marking_worklist (gc w')) = true)
  /\ (completion = DO_NOT_FORCE_COMPLETION -> btp <= 0 ->
      n = 0 /\ w' = notify RegisterWrappersWithRemoteTracer w).
Proof.
  unfold ProcessMarkingWorklist.
  destruct (ProcessMarkingWorklist_loop fuel btp completion 0 w)
    as [[n1 w1]|] eqn:E; [|discriminate].
  intros [= <- <-].
  destruct (ProcessMarkingWorklist_loop_exit _ _ _ _ _ _ _ E) as [H1 H2].
  split; [exact H1|]. split.
  - intros ->. destruct H1 as [H1 | [H1 _]]; [exact H1 | discriminate].
  - intros -> HB.
    assert (C : (0 <? btp) || is_FORCE_COMPLETION DO_NOT_FORCE_COMPLETION
                = false).
    { cbn [is_FORCE_COMPLETION]. rewrite orb_false_r. apply Z.ltb_ge. exact HB. }
    destruct (H2 C) as [-> ->]. split; reflexivity.
Qed.

Lemma ProcessMarkingWorklist_stops_on_budget_witness :
  exists n w',
    ProcessMarkingWorklist 5 1 DO_NOT_FORCE_COMPLETION cycle_world
    = Some (n, w')
    /\ 1 <= n
    /\ MarkingWorklist.IsEmpty (marking_worklist (gc w')) = false.
Proof.
  destruct (ProcessMarkingWorklist 5 1 DO_NOT_FORCE_COMPLETION cycle_world)
    as [[n w']|] eqn:E; [|vm_compute in E; discriminate E].
  exists n, w'. split; [reflexivity|].
  pose proof (ProcessMarkingWorklist_stops_on_budget _ _ _ _ _ _ E) as H.
  assert (NE : MarkingWorklist.IsEmpty (marking_worklist (gc w')) = false).
  { vm_compute in E. injection E as _ <-. reflexivity. }
  split; [|exact NE].
  destruct H as [[H | [_ H]] _]; [congruence | exact H].
Defined.

Lemma blacken_caches_frame (w : World) :
  heap_ (blacken_caches w) = heap_ w
  /\ im (blacken_caches w) = im w
  /\ marking_worklist (gc (blacken_caches w)) = marking_worklist (gc w)
  /\ bits_grow w (blacken_caches w).
Proof.
  unfold blacken_caches. generalize (native_contexts_list (heap_ w)).
  intros l. revert w. induction l as [|c l IH]; intros w; cbn [fold_left].
  - repeat split; auto.
  - cbv zeta.
    set (w1 := if negb _ then _ else w).
    assert (F : heap_ w1 = heap_ w /\ im w1 = im w
                /\ marking_worklist (gc w1) = marking_worklist (gc w)
                /\ bits_grow w w1).
    { subst w1. destruct (negb _).
      - split; [reflexivity|]. split; [reflexivity|]. split; [reflexivity|].
        apply GreyToBlack_bits_grow.
      - repeat split; auto. }
    destruct F as (F1 & F2 & F3 & F4). clearbody w1.
    destruct (IH w1) as (I1 & I2 & I3 & I4).
    split; [congruence|]. split; [congruence|]. split; [congruence|].
    exact (bits_grow_trans _ _ _ F4 I4).
Qed.

Lemma Hurry_effect (dom : list Address) (fuel : nat) (w : World) :
  heap_closed dom w -> worklist_in dom w -> (potential dom w <= fuel)%nat ->
  exists w',
    Hurry fuel w = Some w'
    /\ MarkingWorklist.IsEmpty (marking_worklist (gc w')) = true
    /\ heap_ w' = heap_ w
    /\ (MarkingWorklist.IsEmpty (marking_worklist (gc w)) = false ->
        state_ (im w') = COMPLETE)
    /\ (MarkingWorklist.IsEmpty (marking_worklist (gc w)) = true ->
        im w' = im w
        /\ marking_worklist (gc w') = marking_worklist (gc w)).
Proof.
  intros HC HW HP. unfold Hurry.
  destruct (MarkingWorklist.IsEmpty (marking_worklist (gc w))) eqn:HE;
    cbn [negb].
  - exists (blacken_caches w).
    destruct (blacken_caches_frame w) as (F1 & F2 & F3 & _).
    split; [reflexivity|]. split; [rewrite F3; exact HE|].
    split; [exact F1|]. split; [discriminate | auto].
  - unfold ProcessMarkingWorklist.
    destruct (ProcessMarkingWorklist_loop_total dom fuel 0 FORCE_COMPLETION 0
                w HC HW HP) as (n & w1 & E & R1 & _ & _ & _ & _ & R6).
    rewrite E.
    set (w2 := SetState COMPLETE
                 (notify RegisterWrappersWithRemoteTracer w1)).
    exists (blacken_caches w2).
    destruct (blacken_caches_frame w2) as (F1 & F2 & F3 & _).
    split; [reflexivity|]. split; [|split; [|split; [|discriminate]]].
    + rewrite F3. apply entries_nil_IsEmpty.
      specialize (R6 eq_refl). unfold worklist_length in R6.
      change (marking_worklist (gc w2)) with (marking_worklist (gc w1)).
      destruct (MarkingWorklist.entries (marking_worklist (gc w1)));
        [reflexivity | discriminate].
    + rewrite F1. exact R1.
    + intros _. rewrite F2. reflexivity.
Qed.

(** X9. On a heap closed in a finite list [dom] of objects
    ([heap_closed]: every slot's heap pointer, every listed object's map
    and every strong root is on the list; no listed object starts one word
    after a listed fixed array; the first offset of a fixed array's scan is
    not negative and a listed fixed array is at most 2^31 - 1 - 32 KiB
    bytes long), with the worklist's entries on the list and fuel for the
    measure [potential dom w] (worklist entries plus twice the White
    objects plus the bytes left on the progress bars): [Hurry] returns with
    the marking worklist empty and the heap layout unchanged. If the
    worklist held an entry the state is COMPLETE afterwards, whatever it
    was; if the worklist was empty the state, the worklist and the
    controller's fields are left as they were. *)
Theorem Hurry_empties_worklist (dom : list Address) (fuel : nat) (w : World) :
  heap_closed dom w -> worklist_in dom w -> (potential dom w <= fuel)%nat ->
  exists w',
    Hurry fuel w = Some w'
    /\ MarkingWorklist.IsEmpty (marking_worklist (gc w')) = true
    /\ heap_ w' = heap_ w
    /\ (MarkingWorklist.IsEmpty (marking_worklist (gc w)) = false ->
        state_ (im w') = COMPLETE)
    /\ (MarkingWorklist.IsEmpty (marking_worklist (gc w)) = true ->
        im w' = im w
        /\ marking_worklist (gc w') = marking_worklist (gc w)).
Proof. apply Hurry_effect. Qed.

Lemma Hurry_empties_worklist_witness :
  exists w',
    Hurry 5 cycle_world = Some w'
    /\ MarkingWorklist.IsEmpty (marking_worklist (gc w')) = true
    /\ state_ (im w') = COMPLETE.
Proof.
  destruct (Hurry_empties_worklist cycle_dom 5 cycle_world cycle_world_closed)
    as (w' & H1 & H2 & _ & H4 & _).
  - intros o [<- | []]. cbn. auto.
  - vm_compute. lia.
  - exists w'. split; [exact H1|]. split; [exact H2|]. apply H4. reflexivity.
Defined.

(** ** The controller's fields during a drain *)

Lemma controller_im (w w' : World) : im w' = im w -> controller w' = controller w.
Proof. unfold controller. cbn. intros ->. reflexivity. Qed.

Lemma controller_unscanned (v : Z) (w : World) :
  controller (set_unscanned_bytes_of_large_object_ v w) = controller w.
Proof. reflexivity. Qed.

Lemma VisitFixedArray_controller (obj : Address) (w : World) :
  controller (snd (VisitFixedArray obj w)) = controller w.
Proof.
  destruct (HAS_PROGRESS_BAR (chunk_at (gc w) (FromAddress w obj))) eqn:HP.
  2: { unfold VisitFixedArray. rewrite HP. cbn [snd]. apply controller_im.
       apply VisitPointers_frame. }
  destruct (Z.ltb_spec (scan_start obj w)
              (SizeFromMap (object_at (heap_ w) obj))) as [HS | HS].
  2: { unfold VisitFixedArray. rewrite HP. fold (scan_start obj w).
       destruct (Z.ltb_spec (scan_start obj w)
                   (SizeFromMap (object_at (heap_ w) obj))); [lia|].
       reflexivity. }
  rewrite (VisitFixedArray_eq obj w HP HS). cbv zeta. cbn [snd].
  set (size := SizeFromMap (object_at (heap_ w) obj)).
  assert (HE : first_chunk_end obj w <= size).
  { unfold first_chunk_end. fold size. lia. }
  pose proof (scan_chunks_frame (chunks_left size (scan_start obj w)) obj size
                (scan_start obj w) (first_chunk_end obj w) (repushed obj w) HE)
    as HFr.
  cbv zeta in HFr. destruct HFr as (_ & F2 & _).
  destruct (repushed_frame obj w) as (_ & P2 & _).
  set (r := scan_chunks (chunks_left size (scan_start obj w)) obj size
              (scan_start obj w) (first_chunk_end obj w) (repushed obj w)) in *.
  assert (E : controller (set_progress_bar (FromAddress w obj) (fst r) (snd r))
              = controller w).
  { unfold controller. cbn. rewrite F2, P2. reflexivity. }
  destruct (fst r <? size); exact E.
Qed.

Lemma Visit_controller (map obj : Address) (w : World) :
  controller (snd (Visit map obj w)) = controller w.
Proof.
  unfold Visit. destruct (instance_kind _).
  - apply controller_im, VisitPointers_frame.
  - apply VisitFixedArray_controller.
  - unfold VisitNativeContext, VisitBody. cbv zeta. cbn [snd].
    rewrite (controller_im _ _
               (proj1 (proj2 (VisitPointers_frame _ _ _ _)))).
    destruct (negb _); [destruct (IsHeapObject _)|]; reflexivity.
  - apply controller_im, VisitPointers_frame.
Qed.

Lemma VisitObject_controller (map obj : Address) (size : Z) (w : World) :
  controller (VisitObject map obj size w) = controller w.
Proof.
  unfold VisitObject. cbv zeta. rewrite Visit_controller.
  apply controller_im. rewrite WhiteToGreyAndPush_im. reflexivity.
Qed.

Lemma ProcessMarkingWorklist_loop_controller (fuel : nat) :
  forall (btp : Z) (completion : ForceCompletionAction) (bp : Z)
         (w : World) (n : Z) (w' : World),
  ProcessMarkingWorklist_loop fuel btp completion bp w = Some (n, w') ->
  controller w' = controller w.
Proof.
  induction fuel as [|fuel IH]; intros btp completion bp w n w';
    cbn [ProcessMarkingWorklist_loop].
  - destruct (_ || _); [|intros [= _ <-]; reflexivity].
    unfold Pop. destruct (fst _); [discriminate|].
    intros [= _ <-]. reflexivity.
  - destruct (_ || _); [|intros [= _ <-]; reflexivity].
    unfold Pop. destruct (fst (MarkingWorklist.Pop _)) as [obj|];
      [|intros [= _ <-]; reflexivity].
    set (w1 := set_marking_worklist _ w).
    destruct (IsFiller w1 obj).
    + intros H. rewrite (IH _ _ _ _ _ _ H). reflexivity.
    + intros H. rewrite (IH _ _ _ _ _ _ H), VisitObject_controller.
      reflexivity.
Qed.

Lemma ProcessMarkingWorklist_controller (fuel : nat) (btp : Z)
  (completion : ForceCompletionAction) (w : World) (n : Z) (w' : World) :
  ProcessMarkingWorklist fuel btp completion w = Some (n, w') ->
  controller w' = controller w.
Proof.
  unfold ProcessMarkingWorklist.
  destruct (ProcessMarkingWorklist_loop fuel btp completion 0 w)
    as [[n1 w1]|] eqn:E; [|discriminate].
  intros [= _ <-].
  rewrite <- (ProcessMarkingWorklist_loop_controller _ _ _ _ _ _ _ E).
  reflexivity.
Qed.

(** ** When a step completes marking *)

(** X10. A [Step] that finds the marker in the MARKING state leaves it in
    MARKING or COMPLETE, and enters COMPLETE only through
    [MarkingComplete]: the worklist is empty, the embedder is ready to
    finalize, [finalize_marking_completed_] was already true, and the step
    was forced or the idle delay counter had passed its limit. Then
    [should_hurry_] is set, the request type is COMPLETE_MARKING, and a GC is
    requested from the stack guard if the action says so. *)
Theorem Step_completes_only_on_empty_worklist (fuel : nat) (b : Z)
  (action : CompletionAction) (completion : ForceCompletionAction)
  (origin : StepOrigin) (w : World) (n : Z) (w' : World) :
  Step fuel b action completion origin w = Some (n, w') ->
  state_ (im w) = MARKING ->
  (state_ (im w') = MARKING \/ state_ (im w') = COMPLETE)
  /\ (state_ (im w') = COMPLETE ->
      MarkingWorklist.IsEmpty (marking_worklist (gc w')) = true
      /\ ShouldFinalizeIncrementalMarking (heap_ w) = true
      /\ finalize_marking_completed_ (im w) = true
      /\ (completion = FORCE_COMPLETION
          \/ kMaxIdleMarkingDelayCounter (fl w)
             < idle_marking_delay_counter_ (im w))
      /\ should_hurry_ (im w') = true
      /\ request_type_ (im w') = COMPLETE_MARKING
      /\ (action = GC_VIA_STACK_GUARD -> gc_requested (gc w') = true)).
Proof.
  unfold Step. cbv zeta. intros H HS.
  assert (NS : State_eqb (state_ (im w)) SWEEPING = false)
    by (rewrite HS; reflexivity).
  rewrite NS in H. rewrite HS in H.
  cbn [State_eqb State_rank Z.eqb Pos.eqb] in H.
  destruct (ProcessMarkingWorklist fuel (to_intptr b) DO_NOT_FORCE_COMPLETION
              w) as [[m w2]|] eqn:E; [|discriminate].
  pose proof (ProcessMarkingWorklist_controller _ _ _ _ _ _ E) as C2.
  pose proof (ProcessMarkingWorklist_kept _ _ _ _ _ _ E) as (H2 & _).
  injection H as _ <-.
  set (w3 := if is_kTask origin then _ else w2).
  assert (F3 : heap_ w3 = heap_ w
               /\ marking_worklist (gc w3) = marking_worklist (gc w2)
               /\ state_ (im w3) = MARKING
               /\ finalize_marking_completed_ (im w3)
                  = finalize_marking_completed_ (im w)
               /\ idle_marking_delay_counter_ (im w3)
                  = idle_marking_delay_counter_ (im w)).
  { assert (K : state_ (im w2) = MARKING
                /\ finalize_marking_completed_ (im w2)
                   = finalize_marking_completed_ (im w)
                /\ idle_marking_delay_counter_ (im w2)
                   = idle_marking_delay_counter_ (im w)).
    { pose proof (f_equal state_ C2) as K1.
      pose proof (f_equal finalize_marking_completed_ C2) as K6.
      pose proof (f_equal idle_marking_delay_counter_ C2) as K13.
      rewrite <- HS. auto. }
    destruct K as (K1 & K2 & K3).
    subst w3. destruct (is_kTask origin); repeat split; assumption. }
  destruct F3 as (A1 & A2 & A3 & A4 & A5). clearbody w3.
  set (w4 := after_processing action completion w3).
  assert (F4 : (state_ (im w4) = MARKING \/ state_ (im w4) = COMPLETE)
               /\ (state_ (im w4) = COMPLETE ->
                   MarkingWorklist.IsEmpty (marking_worklist (gc w4)) = true
                   /\ ShouldFinalizeIncrementalMarking (heap_ w) = true
                   /\ finalize_marking_completed_ (im w) = true
                   /\ (completion = FORCE_COMPLETION
                       \/ kMaxIdleMarkingDelayCounter (fl w)
                          < idle_marking_delay_counter_ (im w))
                   /\ should_hurry_ (im w4) = true
                   /\ request_type_ (im w4) = COMPLETE_MARKING
                   /\ (action = GC_VIA_STACK_GUARD ->
                       gc_requested (gc w4) = true))
               /\ heap_ w4 = heap_ w).
  { subst w4. unfold after_processing, IsIdleMarkingDelayCounterLimitReached.
    rewrite A1, A4, A5.
    destruct (MarkingWorklist.IsEmpty (marking_worklist (gc w3))) eqn:HE.
    2: { split; [left; exact A3|]. split; [congruence | exact A1]. }
    destruct (ShouldFinalizeIncrementalMarking (heap_ w)) eqn:SF.
    2: { split; [left; exact A3|]. split; [|exact A1].
         cbn. intros K. congruence. }
    destruct (is_FORCE_COMPLETION completion
              || (kMaxIdleMarkingDelayCounter (fl w)
                  <? idle_marking_delay_counter_ (im w))) eqn:FC.
    2: { split; [left; exact A3|]. split; [|exact A1].
         cbn. intros K. congruence. }
    destruct (finalize_marking_completed_ (im w)) eqn:FM; cbn [negb].
    - unfold MarkingComplete. cbv zeta.
      split; [right; destruct (is_GC_VIA_STACK_GUARD action); reflexivity|].
      split; [|destruct (is_GC_VIA_STACK_GUARD action); exact A1].
      intros _.
      split; [destruct (is_GC_VIA_STACK_GUARD action); exact HE|].
      split; [reflexivity|]. split; [reflexivity|]. split.
      { apply orb_true_iff in FC. destruct FC as [FC | FC].
        - left. destruct completion; [reflexivity | discriminate].
        - right. apply Z.ltb_lt. exact FC. }
      split; [destruct (is_GC_VIA_STACK_GUARD action); reflexivity|].
      split; [destruct (is_GC_VIA_STACK_GUARD action); reflexivity|].
      intros ->. reflexivity.
    - unfold FinalizeMarking. cbv zeta.
      split; [left; destruct (is_GC_VIA_STACK_GUARD action); exact A3|].
      split; [|destruct (is_GC_VIA_STACK_GUARD action); exact A1].
      intros K. destruct (is_GC_VIA_STACK_GUARD action); cbn in K; congruence. }
  destruct F4 as (B1 & B2 & B3). clearbody w4.
  destruct (FLAG_concurrent_marking (fl w4)); split; assumption.
Qed.

Lemma Step_completes_only_on_empty_worklist_witness :
  exists n w',
    Step 0 1 GC_VIA_STACK_GUARD FORCE_COMPLETION kV8 finalizing_world
    = Some (n, w')
    /\ state_ (im w') = COMPLETE
    /\ should_hurry_ (im w') = true
    /\ gc_requested (gc w') = true.
Proof.
  destruct (Step 0 1 GC_VIA_STACK_GUARD FORCE_COMPLETION kV8 finalizing_world)
    as [[n w']|] eqn:E; [|vm_compute in E; discriminate E].
  exists n, w'. split; [reflexivity|].
  destruct (Step_completes_only_on_empty_worklist _ _ _ _ _ _ _ _ E eq_refl)
    as [_ H].
  assert (C : state_ (im w') = COMPLETE).
  { vm_compute in E. injection E as _ <-. reflexivity. }
  destruct (H C) as (_ & _ & _ & _ & H5 & _ & H7).
  split; [exact C|]. split; [exact H5 | exact (H7 eq_refl)].
Defined.

(** X11. Outside a marking cycle a [Step] does no marking work: when the
    marker is STOPPED or COMPLETE, or is SWEEPING while concurrent sweeper
    tasks are still running, [Step] returns 0 (with any fuel) and changes
    nothing but the notifications: it reports a step of 0 bytes to the
    tracer and, under concurrent marking, asks for the tasks to be
    rescheduled. *)
Theorem Step_outside_marking_is_idle (fuel : nat) (b : Z)
  (action : CompletionAction) (completion : ForceCompletionAction)
  (origin : StepOrigin) (w : World) :
  state_ (im w) = STOPPED \/ state_ (im w) = COMPLETE
  \/ (state_ (im w) = SWEEPING
      /\ sweeping_in_progress (gc w) = true
      /\ FLAG_concurrent_sweeping (fl w) = true
      /\ AreSweeperTasksRunning (heap_ w) = true) ->
  Step fuel b action completion origin w
  = Some (0,
          notify (AddIncrementalMarkingStep 0)
            (if FLAG_concurrent_marking (fl w)
             then notify RescheduleTasksIfNeeded w else w)).
Proof.
  intros [HS | [HS | (HS & H1 & H2 & H3)]]; unfold Step; cbv zeta;
    rewrite HS; cbn [State_eqb State_rank Z.eqb Pos.eqb].
  - rewrite HS. reflexivity.
  - rewrite HS. reflexivity.
  - unfold FinalizeSweeping. rewrite H1, H2, H3. cbn [negb orb andb].
    rewrite H1. cbn [negb]. rewrite HS. reflexivity.
Qed.

Lemma Step_outside_marking_is_idle_witness :
  Step 0 65536 GC_VIA_STACK_GUARD FORCE_COMPLETION kV8 idle_world
  = Some (0, notify (AddIncrementalMarkingStep 0) idle_world).
Proof.
  exact (Step_outside_marking_is_idle 0 65536 GC_VIA_STACK_GUARD
           FORCE_COMPLETION kV8 idle_world (or_introl eq_refl)).
Defined.

(** ** Finalize *)

(** X12. [Finalize] is [Hurry] followed by [Stop]. On a heap closed in a
    finite list [dom] of objects ([heap_closed]: every slot's heap pointer,
    every listed object's map and every strong root is on the list; no
    listed object starts one word after a listed fixed array; the first
    offset of a fixed array's scan is not negative and a listed fixed array
    is at most 2^31 - 1 - 32 KiB bytes long), with the worklist's entries
    on the list, fuel for the measure [potential dom w] (worklist entries
    plus twice the White objects plus the bytes left on the progress bars)
    and the write barrier active only while marking is: [Finalize] returns
    with the worklist empty, the state STOPPED, the write barrier inactive
    and the heap layout unchanged. *)
Theorem Finalize_drains_and_stops (dom : list Address) (fuel : nat)
  (w : World) :
  heap_closed dom w -> worklist_in dom w -> (potential dom w <= fuel)%nat ->
  barrier_consistent w ->
  exists w',
    Finalize fuel w = Some w'
    /\ MarkingWorklist.IsEmpty (marking_worklist (gc w')) = true
    /\ state_ (im w') = STOPPED
    /\ barrier_inactive w'
    /\ heap_ w' = heap_ w.
Proof.
  intros HC HW HP HB. unfold Finalize.
  destruct (Hurry_effect dom fuel w HC HW HP) as (w1 & E & H1 & H2 & _).
  rewrite E. exists (Stop w1). split; [reflexivity|].
  pose proof (barrier_kept_consistent _ _ (Hurry_kept _ _ _ E) HB) as HB1.
  destruct (IsStopped w1) eqn:HS.
  - assert (ES : Stop w1 = w1) by (unfold Stop; rewrite HS; reflexivity).
    rewrite ES. split; [exact H1|].
    assert (S1 : state_ (im w1) = STOPPED).
    { unfold IsStopped in HS. destruct (state_ (im w1)); try discriminate HS.
      reflexivity. }
    split; [exact S1|]. split; [|exact H2].
    apply HB1. unfold IsMarking. rewrite S1. reflexivity.
  - destruct (Stop_effect w1 HS) as (_ & _ & S3 & _ & _ & _ & S7 & _).
    cbv zeta in S3, S7.
    split; [rewrite S7; exact H1|]. split; [exact S3|].
    split; [apply (Stop_barrier_inactive w1 HS HB1)|].
    rewrite Stop_heap. exact H2.
Qed.

Lemma Finalize_drains_and_stops_witness :
  exists w',
    Finalize 5 cycle_world = Some w'
    /\ MarkingWorklist.IsEmpty (marking_worklist (gc w')) = true
    /\ state_ (im w') = STOPPED.
Proof.
  destruct (Finalize_drains_and_stops cycle_dom 5 cycle_world
              cycle_world_closed) as (w' & H1 & H2 & H3 & _).
  - intros o [<- | []]. cbn. auto.
  - vm_compute. lia.
  - intros H. discriminate H.
  - exists w'. split; [exact H1|]. split; [exact H2 | exact H3].
Defined.

(** ** Marking only moves forward *)

Lemma ProcessMarkingWorklist_loop_advances (dom : list Address) (fuel : nat) :
  forall (btp : Z) (completion : ForceCompletionAction) (bp : Z)
         (w : World) (n : Z) (w' : World),
  heap_closed dom w -> worklist_in dom w ->
  ProcessMarkingWorklist_loop fuel btp completion bp w = Some (n, w') ->
  exists e, advances dom e w w'.
Proof.
  induction fuel as [|fuel IH]; intros btp completion bp w n w' HC HW;
    cbn [ProcessMarkingWorklist_loop].
  - destruct (_ || _); [|intros [= _ <-]; exists O; apply advances_refl].
    destruct (Pop w) as [[obj|] w1]; [discriminate|].
    intros [= _ <-]. exists O. apply advances_refl.
  - destruct (_ || _); [|intros [= _ <-]; exists O; apply advances_refl].
    destruct (Pop w) as [[obj|] w1] eqn:EP;
      [|intros [= _ <-]; exists O; apply advances_refl].
    destruct (Pop_some dom w w1 obj EP) as (HI & A1 & _ & _).
    pose proof (advances_closed _ _ _ _ A1 HC) as HC1.
    assert (HW1 : worklist_in dom w1).
    { destruct A1 as (_ & _ & _ & _ & _ & _ & A7 & _). auto. }
    assert (HO : In obj dom) by (apply HW; exact HI).
    destruct (IsFiller w1 obj).
    + intros H. destruct (IH _ _ _ _ _ _ HC1 HW1 H) as (e & A).
      exists (0 + e)%nat. exact (advances_trans _ _ _ _ _ _ A1 A).
    + set (w2 := set_unscanned_bytes_of_large_object_ 0 w1).
      pose proof (advances_unscanned dom 0 w1) as A2. fold w2 in A2.
      pose proof (advances_closed _ _ _ _ A2 HC1) as HC2.
      change (obj_map w1 obj) with (obj_map w2 obj).
      change (object_at (heap_ w1) obj) with (object_at (heap_ w2) obj).
      set (size := SizeFromMap (object_at (heap_ w2) obj)).
      destruct (VisitObject_potential dom obj size w2 HC2 HO) as [A3 _].
      set (w3 := VisitObject (obj_map w2 obj) obj size w2) in *.
      pose proof (advances_closed _ _ _ _ A3 HC2) as HC3.
      assert (HW3 : worklist_in dom w3).
      { destruct A2 as (_ & _ & _ & _ & _ & _ & A7 & _).
        destruct A3 as (_ & _ & _ & _ & _ & _ & A7' & _). auto. }
      intros H. destruct (IH _ _ _ _ _ _ HC3 HW3 H) as (e & A).
      exists (0 + (0 + (1 + e)))%nat.
      exact (advances_trans _ _ _ _ _ _ A1
               (advances_trans _ _ _ _ _ _ A2
                  (advances_trans _ _ _ _ _ _ A3 A))).
Qed.

(** X13. Marking only moves forward in a [Step]. On a heap closed in a
    finite list [dom] of objects ([heap_closed]: every slot's heap pointer,
    every listed object's map and every strong root is on the list; no
    listed object starts one word after a listed fixed array; the first
    offset of a fixed array's scan is not negative and a listed fixed array
    is at most 2^31 - 1 - 32 KiB bytes long, so that the [int] offsets of
    its scan do not wrap around), with the worklist's entries on the list:
    a step of a marker that is not sweeping, if it returns, turns no listed
    object that was not White back to White and moves no progress bar
    backwards; the worklist's entries stay on the list and the heap layout
    is unchanged. *)
Theorem Step_never_unmarks (dom : list Address) (fuel : nat) (b : Z)
  (action : CompletionAction) (completion : ForceCompletionAction)
  (origin : StepOrigin) (w : World) (n : Z) (w' : World) :
  heap_closed dom w -> worklist_in dom w ->
  state_ (im w) <> SWEEPING ->
  Step fuel b action completion origin w = Some (n, w') ->
  (forall a, In a dom -> ObjectMarking.IsWhite a w = false ->
             ObjectMarking.IsWhite a w' = false)
  /\ (forall c, progress_bar (chunk_at (gc w) c)
                <= progress_bar (chunk_at (gc w') c))
  /\ worklist_in dom w'
  /\ heap_ w' = heap_ w.
Proof.
  intros HC HW HN. unfold Step. cbv zeta.
  assert (NS : State_eqb (state_ (im w)) SWEEPING = false).
  { destruct (state_ (im w)); try reflexivity. contradiction. }
  rewrite NS.
  assert (TAIL : forall (k : Z) (w4 : World),
             same_marking w4
               (notify (AddIncrementalMarkingStep k)
                  (if FLAG_concurrent_marking (fl w4)
                   then notify RescheduleTasksIfNeeded w4 else w4))).
  { intros k w4. destruct (FLAG_concurrent_marking _); repeat split. }
  assert (SAME : forall w1 w2,
             same_marking w1 w2 ->
             (forall a, In a dom -> ObjectMarking.IsWhite a w = false ->
                        ObjectMarking.IsWhite a w1 = false) ->
             (forall c, progress_bar (chunk_at (gc w) c)
                        <= progress_bar (chunk_at (gc w1) c)) ->
             worklist_in dom w1 -> heap_ w1 = heap_ w ->
             (forall a, In a dom -> ObjectMarking.IsWhite a w = false ->
                        ObjectMarking.IsWhite a w2 = false)
             /\ (forall c, progress_bar (chunk_at (gc w) c)
                           <= progress_bar (chunk_at (gc w2) c))
             /\ worklist_in dom w2
             /\ heap_ w2 = heap_ w).
  { intros w1 w2 (S1 & S2 & S3 & S4) K1 K2 K3 K4.
    split; [|split; [|split]].
    - intros a HA HW0. unfold ObjectMarking.IsWhite, MarkBitFrom.
      rewrite S1, S2. exact (K1 a HA HW0).
    - intros c. rewrite S4. apply K2.
    - unfold worklist_in. rewrite S3. exact K3.
    - congruence. }
  destruct (State_eqb (state_ (im w)) MARKING).
  - unfold ProcessMarkingWorklist.
    destruct (ProcessMarkingWorklist_loop fuel (to_intptr b)
                DO_NOT_FORCE_COMPLETION 0 w) as [[m w1]|] eqn:E;
      [|discriminate].
    destruct (ProcessMarkingWorklist_loop_advances dom _ _ _ _ _ _ _ HC HW E)
      as (e & A1 & _ & _ & _ & A5 & A6 & A7 & _).
    intros [= _ <-].
    set (w2 := notify RegisterWrappersWithRemoteTracer w1).
    set (w3 := if is_kTask origin then _ else w2).
    assert (S3 : same_marking w1 w3).
    { subst w3 w2. destruct (is_kTask origin); repeat split. }
    destruct (after_processing_frame action completion w3) as (S4 & _).
    pose proof (TAIL (wrap_size_t m) (after_processing action completion w3))
      as S5.
    apply (SAME w1 _
             (same_marking_trans _ _ _ S3 (same_marking_trans _ _ _ S4 S5))).
    + intros a HA HW0.
      destruct (ObjectMarking.IsWhite a w1) eqn:E1; [|reflexivity].
      rewrite (A6 a HA E1) in HW0. discriminate.
    + exact A5.
    + exact (A7 HW).
    + exact A1.
  - intros [= _ <-].
    apply (SAME w _ (TAIL 0 w)); auto. intros c. lia.
Qed.

Lemma Step_never_unmarks_witness :
  exists n w',
    Step 5 1 GC_VIA_STACK_GUARD DO_NOT_FORCE_COMPLETION kV8 cycle_world
    = Some (n, w')
    /\ ObjectMarking.IsWhite 1024 w' = false.
Proof.
  destruct (Step 5 1 GC_VIA_STACK_GUARD DO_NOT_FORCE_COMPLETION kV8
              cycle_world) as [[n w']|] eqn:E;
    [|vm_compute in E; discriminate E].
  exists n, w'. split; [reflexivity|].
  assert (HW : worklist_in cycle_dom cycle_world).
  { intros o [<- | []]. cbn. auto. }
  assert (HN : state_ (im cycle_world) <> SWEEPING) by discriminate.
  destruct (Step_never_unmarks cycle_dom _ _ _ _ _ _ _ _ cycle_world_closed
              HW HN E) as (H1 & _).
  apply H1; [cbn; auto | reflexivity].
Defined.

(** ** Starting a cycle *)

Lemma for_pages_on (space : AllocationSpace) (f : Z -> World -> World)
  (w : World) :
  (forall p w0, f p w0 = set_interesting p true true w0) ->
  let w' := for_pages space f w in
  heap_ w' = heap_ w /\ im w' = im w
  /\ internal_marking (gc w') = internal_marking (gc w)
  /\ marking_worklist (gc w') = marking_worklist (gc w)
  /\ code_stubs (gc w') = code_stubs (gc w)
  /\ (forall c, In c (pages (heap_ w) space) ->
                barrier_flags (chunk_at (gc w') c) = (true, true))
  /\ (forall c, barrier_flags (chunk_at (gc w) c) = (true, true) ->
                barrier_flags (chunk_at (gc w') c) = (true, true)).
Proof.
  intros HF. cbv zeta. unfold for_pages.
  assert (E : forall l w0,
             fold_left (fun w' p => f p w') l w0
             = fold_left (fun w' p => set_interesting p true true w') l w0).
  { induction l as [|p l IH]; intros w0; cbn [fold_left]; [reflexivity|].
    rewrite HF. apply IH. }
  rewrite E.
  destruct (set_interesting_pages true true (pages (heap_ w) space) w)
    as (H1 & H2 & H3 & H4 & H5 & _ & _ & H8 & H9).
  cbv zeta in H1, H2, H3, H4, H5, H8, H9.
  repeat (split; [assumption|]).
  intros c HC.
  destruct (in_dec Z.eq_dec c (pages (heap_ w) space)) as [HI | HI];
    [apply H8; exact HI | rewrite (H9 _ HI); exact HC].
Qed.

Lemma ActivateIncrementalWriteBarrier_flags (w : World) :
  let w' := ActivateIncrementalWriteBarrier w in
  heap_ w' = heap_ w /\ im w' = im w
  /\ internal_marking (gc w') = internal_marking (gc w)
  /\ marking_worklist (gc w') = marking_worklist (gc w)
  /\ code_stubs (gc w') = code_stubs (gc w)
  /\ (forall space c, In c (pages (heap_ w) space) ->
                      barrier_flags (chunk_at (gc w') c) = (true, true)).
Proof.
  cbv zeta. unfold ActivateIncrementalWriteBarrier. cbv zeta.
  assert (FO : forall p w0,
             SetOldSpacePageFlags p true (is_compacting_ (im w)) w0
             = set_interesting p true true w0) by reflexivity.
  assert (FN : forall p w0,
             SetNewSpacePageFlags p true w0 = set_interesting p true true w0)
    by reflexivity.
  destruct (for_pages_on OLD_SPACE _ w FO) as (A1 & A2 & A3 & A4 & A5 & A6 & _).
  cbv zeta in A1, A2, A3, A4, A5, A6.
  set (w1 := for_pages OLD_SPACE _ w) in *.
  destruct (for_pages_on MAP_SPACE _ w1 FO)
    as (B1 & B2 & B3 & B4 & B5 & B6 & B7).
  cbv zeta in B1, B2, B3, B4, B5, B6, B7.
  set (w2 := for_pages MAP_SPACE _ w1) in *.
  destruct (for_pages_on CODE_SPACE _ w2 FO)
    as (C1 & C2 & C3 & C4 & C5 & C6 & C7).
  cbv zeta in C1, C2, C3, C4, C5, C6, C7.
  set (w3 := for_pages CODE_SPACE _ w2) in *.
  destruct (for_pages_on NEW_SPACE _ w3 FN)
    as (D1 & D2 & D3 & D4 & D5 & D6 & D7).
  cbv zeta in D1, D2, D3, D4, D5, D6, D7.
  set (w4 := for_pages NEW_SPACE _ w3) in *.
  destruct (for_pages_on LO_SPACE _ w4 FO)
    as (E1 & E2 & E3 & E4 & E5 & E6 & E7).
  cbv zeta in E1, E2, E3, E4, E5, E6, E7.
  set (w5 := for_pages LO_SPACE _ w4) in *.
  assert (H1 : heap_ w1 = heap_ w) by exact A1.
  assert (H2 : heap_ w2 = heap_ w) by congruence.
  assert (H3 : heap_ w3 = heap_ w) by congruence.
  assert (H4 : heap_ w4 = heap_ w) by congruence.
  rewrite H1 in B6. rewrite H2 in C6. rewrite H3 in D6. rewrite H4 in E6.
  split; [congruence|]. split; [congruence|]. split; [congruence|].
  split; [congruence|]. split; [congruence|].
  intros space c HC. destruct space.
  - apply E7, D6, HC.
  - apply E7, D7, C7, B7, A6, HC.
  - apply E7, D7, C6, HC.
  - apply E7, D7, C7, B6, HC.
  - apply E6, HC.
Qed.

Lemma StartMarking_effect (w : World) :
  let w' := StartMarking w in
  let compacting :=
    negb (FLAG_never_compact (fl w)) && StartCompaction (heap_ w) in
  let mode := if compacting then INCREMENTAL_COMPACTION else INCREMENTAL in
  (serializer_enabled (heap_ w) = true -> w' = w)
  /\ (serializer_enabled (heap_ w) = false ->
      state_ (im w') = MARKING
      /\ is_compacting_ (im w') = compacting
      /\ code_stubs (gc w') = map (patch_entry mode) (code_stubs (gc w))
      /\ (forall e, In e (code_stubs (gc w')) -> stub_in_mode mode e)
      /\ (forall space c, In c (pages (heap_ w) space) ->
                          barrier_flags (chunk_at (gc w') c) = (true, true))
      /\ (forall a, In (HeapPointer a) (strong_roots (heap_ w)) ->
                    ObjectMarking.IsWhite a w' = false)
      /\ black_allocation_ (im w')
         = black_allocation_ (im w) || FLAG_concurrent_marking (fl w)
      /\ heap_ w' = heap_ w).
Proof.
  cbv zeta. unfold StartMarking.
  destruct (serializer_enabled (heap_ w)); [split; [reflexivity | discriminate]|].
  split; [discriminate|]. intros _. cbv zeta.
  set (compacting := negb (FLAG_never_compact (fl w))
                     && StartCompaction (heap_ w)).
  set (w3 := notify TracePrologue
               (SetState MARKING (set_is_compacting_ compacting w))).
  change (is_compacting_ (im w3)) with compacting.
  set (mode := if compacting then INCREMENTAL_COMPACTION else INCREMENTAL).
  set (w5 := set_marking_worklist _
               (PatchIncrementalMarkingRecordWriteStubs mode w3)).
  destruct (ActivateIncrementalWriteBarrier_flags w5)
    as (A1 & A2 & _ & _ & A5 & A6).
  cbv zeta in A1, A2, A5, A6.
  set (w6 := ActivateIncrementalWriteBarrier w5) in *.
  set (w7 := notify MarkCompactPrologue w6).
  set (w8 := if FLAG_concurrent_marking (fl w7)
                && negb (black_allocation_ (im w7))
             then StartBlackAllocation w7 else w7).
  assert (F8 : heap_ w8 = heap_ w
               /\ state_ (im w8) = MARKING
               /\ is_compacting_ (im w8) = compacting
               /\ code_stubs (gc w8)
                  = map (patch_entry mode) (code_stubs (gc w))
               /\ chunk_at (gc w8) = chunk_at (gc w6)
               /\ black_allocation_ (im w8)
                  = black_allocation_ (im w)
                    || FLAG_concurrent_marking (fl w)).
  { assert (HH : heap_ w7 = heap_ w) by exact A1.
    assert (I7 : im w7 = im w5) by exact A2.
    assert (S7 : code_stubs (gc w7)
                 = map (patch_entry mode) (code_stubs (gc w))) by exact A5.
    assert (BA : black_allocation_ (im w7) = black_allocation_ (im w))
      by (rewrite I7; reflexivity).
    assert (ST : state_ (im w7) = MARKING) by (rewrite I7; reflexivity).
    assert (IC : is_compacting_ (im w7) = compacting)
      by (rewrite I7; reflexivity).
    subst w8. rewrite HH, BA.
    destruct (FLAG_concurrent_marking (fl w)) eqn:FC;
      destruct (black_allocation_ (im w)) eqn:BB; cbn [negb andb orb];
      (split; [exact HH|]); (split; [exact ST|]); (split; [exact IC|]);
      (split; [exact S7|]); (split; [reflexivity|]);
      try reflexivity; exact BA. }
  destruct F8 as (G1 & G2 & G3 & G4 & G5 & G6). clearbody w8.
  destruct (mark_roots_targets (strong_roots (heap_ w8)) w8)
    as (_ & R2 & _).
  cbv zeta in R2. fold (MarkRoots w8) in R2.
  pose proof (MarkRoots_kept w8) as (K1 & K2 & K3 & _).
  pose proof (MarkRoots_im w8) as K4.
  set (w9 := MarkRoots w8) in *.
  assert (F : forall X, heap_ X = heap_ w9 -> im X = im w9 -> gc X = gc w9
                        \/ (internal_marking (gc X) = internal_marking (gc w9)
                            /\ code_stubs (gc X) = code_stubs (gc w9)
                            /\ chunk_at (gc X) = chunk_at (gc w9)) ->
             state_ (im X) = MARKING
             /\ is_compacting_ (im X) = compacting
             /\ code_stubs (gc X) = map (patch_entry mode) (code_stubs (gc w))
             /\ (forall e, In e (code_stubs (gc X)) -> stub_in_mode mode e)
             /\ (forall space c, In c (pages (heap_ w) space) ->
                   barrier_flags (chunk_at (gc X) c) = (true, true))
             /\ (forall a, In (HeapPointer a) (strong_roots (heap_ w)) ->
                           ObjectMarking.IsWhite a X = false)
             /\ black_allocation_ (im X)
                = black_allocation_ (im w) || FLAG_concurrent_marking (fl w)
             /\ heap_ X = heap_ w).
  { intros X X1 X2 X3.
    assert (X4 : internal_marking (gc X) = internal_marking (gc w9)
                 /\ code_stubs (gc X) = code_stubs (gc w9)
                 /\ chunk_at (gc X) = chunk_at (gc w9)).
    { destruct X3 as [-> | X3]; [auto | exact X3]. }
    destruct X4 as (Y1 & Y2 & Y3).
    assert (CS : code_stubs (gc X)
                 = map (patch_entry mode) (code_stubs (gc w)))
      by congruence.
    split; [congruence|]. split; [congruence|]. split; [exact CS|].
    split; [|split; [|split; [|split; [congruence | congruence]]]].
    - intros e HE. rewrite CS in HE. apply in_map_iff in HE.
      destruct HE as (e0 & <- & _). apply patch_entry_in_mode.
    - intros space c HC. rewrite Y3, K3, G5. apply (A6 space c).
      exact HC.
    - intros a HA. unfold ObjectMarking.IsWhite, MarkBitFrom.
      rewrite X1, Y1. apply R2. rewrite G1. exact HA. }
  destruct (FLAG_concurrent_marking (fl w9)).
  - apply F; [reflexivity | reflexivity|]. right. repeat split.
  - apply F; auto.
Qed.

(** X14. [StartMarking] does nothing while the serializer is enabled.
    Otherwise it enters MARKING, decides [is_compacting_] from the flag and
    [StartCompaction()], patches every RecordWrite stub to the matching
    incremental mode, sets both write-barrier flags on every page of every
    space, starts black allocation under concurrent marking, and leaves no
    strong root White. *)
Theorem StartMarking_activates_barrier_and_marks_roots (w : World) :
  let w' := StartMarking w in
  let compacting :=
    negb (FLAG_never_compact (fl w)) && StartCompaction (heap_ w) in
  let mode := if compacting then INCREMENTAL_COMPACTION else INCREMENTAL in
  (serializer_enabled (heap_ w) = true -> w' = w)
  /\ (serializer_enabled (heap_ w) = false ->
      state_ (im w') = MARKING
      /\ is_compacting_ (im w') = compacting
      /\ code_stubs (gc w') = map (patch_entry mode) (code_stubs (gc w))
      /\ (forall e, In e (code_stubs (gc w')) -> stub_in_mode mode e)
      /\ (forall space c, In c (pages (heap_ w) space) ->
                          barrier_flags (chunk_at (gc w') c) = (true, true))
      /\ (forall a, In (HeapPointer a) (strong_roots (heap_ w)) ->
                    ObjectMarking.IsWhite a w' = false)
      /\ black_allocation_ (im w')
         = black_allocation_ (im w) || FLAG_concurrent_marking (fl w)
      /\ heap_ w' = heap_ w).
Proof. exact (StartMarking_effect w). Qed.

Lemma StartMarking_im (w : World) :
  serializer_enabled (heap_ w) = false ->
  im (StartMarking w)
  = im (set_black_allocation_
          (black_allocation_ (im w) || FLAG_concurrent_marking (fl w))
          (SetState MARKING
             (set_is_compacting_
                (negb (FLAG_never_compact (fl w)) && StartCompaction (heap_ w))
                w))).
Proof.
  intros HS. unfold StartMarking. rewrite HS. cbv zeta.
  set (compacting := negb (FLAG_never_compact (fl w))
                     && StartCompaction (heap_ w)).
  set (w3 := notify TracePrologue
               (SetState MARKING (set_is_compacting_ compacting w))).
  set (mode := if is_compacting_ (im w3)
               then INCREMENTAL_COMPACTION else INCREMENTAL).
  set (w5 := set_marking_worklist _
               (PatchIncrementalMarkingRecordWriteStubs mode w3)).
  destruct (ActivateIncrementalWriteBarrier_flags w5) as (A1 & A2 & _).
  cbv zeta in A1, A2.
  set (w6 := ActivateIncrementalWriteBarrier w5) in *.
  set (w7 := notify MarkCompactPrologue w6).
  assert (I7 : im w7 = im w5) by exact A2.
  assert (H7 : heap_ w7 = heap_ w) by exact A1.
  assert (I5 : im w5
               = im (SetState MARKING (set_is_compacting_ compacting w)))
    by reflexivity.
  rewrite I5 in I7. clearbody w7.
  set (w8 := if FLAG_concurrent_marking (fl w7)
                && negb (black_allocation_ (im w7))
             then StartBlackAllocation w7 else w7).
  assert (I8 : im w8
               = im (set_black_allocation_
                       (black_allocation_ (im w)
                        || FLAG_concurrent_marking (fl w))
                       (SetState MARKING (set_is_compacting_ compacting w)))).
  { subst w8. rewrite H7.
    assert (BA : black_allocation_ (im w7) = black_allocation_ (im w))
      by (rewrite I7; reflexivity).
    rewrite BA.
    destruct (FLAG_concurrent_marking (fl w)) eqn:FC;
      destruct (black_allocation_ (im w)) eqn:BB; cbn [negb andb orb].
    - rewrite I7. cbn. rewrite BB. reflexivity.
    - change (im (StartBlackAllocation w7))
        with (im (set_black_allocation_ true w7)).
      cbn. rewrite I7. reflexivity.
    - rewrite I7. cbn. rewrite BB. reflexivity.
    - rewrite I7. cbn. rewrite BB. reflexivity. }
  clearbody w8.
  assert (I9 : im (MarkRoots w8) = im w8) by apply MarkRoots_im.
  destruct (FLAG_concurrent_marking (fl (MarkRoots w8))).
  - cbn [notify with_gc im]. rewrite I9. exact I8.
  - rewrite I9. exact I8.
Qed.

Lemma add_observers_registered (spaces : list AllocationSpace) (w : World) :
  let w' :=
    fold_left
      (fun w' space => AddAllocationObserver space (observer_of space) w')
      spaces w in
  heap_ w' = heap_ w /\ im w' = im w
  /\ internal_marking (gc w') = internal_marking (gc w)
  /\ marking_worklist (gc w') = marking_worklist (gc w)
  /\ code_stubs (gc w') = code_stubs (gc w)
  /\ chunk_at (gc w') = chunk_at (gc w)
  /\ (forall s, In s spaces ->
                In (observer_of s) (allocation_observers (gc w') s))
  /\ (forall s o, In o (allocation_observers (gc w) s) ->
                  In o (allocation_observers (gc w') s)).
Proof.
  revert w. induction spaces as [|sp spaces IH]; intros w; cbv zeta;
    cbn [fold_left].
  - repeat split; auto. intros s [].
  - specialize (IH (AddAllocationObserver sp (observer_of sp) w)).
    cbv zeta in IH. destruct IH as (H1 & H2 & H3 & H4 & H5 & H6 & H7 & H8).
    rewrite H1, H2, H3, H4, H5, H6.
    split; [reflexivity|]. split; [reflexivity|]. split; [reflexivity|].
    split; [reflexivity|]. split; [reflexivity|]. split; [reflexivity|].
    assert (K : forall s o, In o (allocation_observers (gc w) s) ->
                In o (allocation_observers
                        (gc (AddAllocationObserver sp (observer_of sp) w)) s)).
    { intros s o HO. cbn. destruct (AllocationSpace_eqb s sp);
        [right; exact HO | exact HO]. }
    split.
    + intros s [<- | HS]; [|apply H7; exact HS].
      apply H8. cbn.
      assert (E : AllocationSpace_eqb sp sp = true) by (destruct sp; reflexivity).
      rewrite E. left. reflexivity.
    + intros s o HO. apply H8, K, HO.
Qed.

(** X15. [Start] resets the cycle's counters ([bytes_allocated_] to zero,
    the initial old-generation size and the allocation counter to the heap's
    current values), clears [should_hurry_], sets [was_activated_], and
    registers the marker's observer on every space. While the sweeper of the
    previous collection is at work it only enters SWEEPING, leaving mark
    bits, worklist, stubs and page flags alone; otherwise, with the
    serializer off as its assertion asks, it enters MARKING and leaves no
    strong root White. *)
Theorem Start_resets_counters_and_registers_observers (w : World) :
  let w' := Start w in
  bytes_allocated_ (im w') = 0
  /\ should_hurry_ (im w') = false
  /\ was_activated_ (im w') = true
  /\ initial_old_generation_size_ (im w')
     = PromotedSpaceSizeOfObjects (heap_ w)
  /\ old_generation_allocation_counter_ (im w')
     = OldGenerationAllocationCounter (heap_ w)
  /\ (forall space,
        In (observer_of space) (allocation_observers (gc w') space))
  /\ (sweeping_in_progress (gc w) = true ->
      state_ (im w') = SWEEPING
      /\ internal_marking (gc w') = internal_marking (gc w)
      /\ marking_worklist (gc w') = marking_worklist (gc w)
      /\ code_stubs (gc w') = code_stubs (gc w)
      /\ chunk_at (gc w') = chunk_at (gc w))
  /\ (sweeping_in_progress (gc w) = false ->
      serializer_enabled (heap_ w) = false ->
      state_ (im w') = MARKING
      /\ forall a, In (HeapPointer a) (strong_roots (heap_ w)) ->
                   ObjectMarking.IsWhite a w' = false).
Proof.
  cbv zeta. unfold Start. cbv zeta.
  set (w7 := set_was_activated_ true _).
  assert (F7 : heap_ w7 = heap_ w
               /\ sweeping_in_progress (gc w7) = sweeping_in_progress (gc w)
               /\ internal_marking (gc w7) = internal_marking (gc w)
               /\ marking_worklist (gc w7) = marking_worklist (gc w)
               /\ code_stubs (gc w7) = code_stubs (gc w)
               /\ chunk_at (gc w7) = chunk_at (gc w)
               /\ bytes_allocated_ (im w7) = 0
               /\ should_hurry_ (im w7) = false
               /\ was_activated_ (im w7) = true
               /\ initial_old_generation_size_ (im w7)
                  = PromotedSpaceSizeOfObjects (heap_ w)
               /\ old_generation_allocation_counter_ (im w7)
                  = OldGenerationAllocationCounter (heap_ w))
    by (subst w7; repeat split).
  destruct F7 as (A1 & A2 & A3 & A4 & A5 & A6 & A7 & A8 & A9 & A10 & A11).
  clearbody w7. rewrite A2.
  set (w8 := if negb (sweeping_in_progress (gc w))
             then StartMarking w7 else SetState SWEEPING w7).
  assert (F8 : heap_ w8 = heap_ w
               /\ bytes_allocated_ (im w8) = 0
               /\ should_hurry_ (im w8) = false
               /\ was_activated_ (im w8) = true
               /\ initial_old_generation_size_ (im w8)
                  = PromotedSpaceSizeOfObjects (heap_ w)
               /\ old_generation_allocation_counter_ (im w8)
                  = OldGenerationAllocationCounter (heap_ w)).
  { subst w8. destruct (sweeping_in_progress (gc w)); cbn [negb].
    - repeat split; assumption.
    - destruct (serializer_enabled (heap_ w7)) eqn:HS.
      + assert (E : StartMarking w7 = w7)
          by (unfold StartMarking; rewrite HS; reflexivity).
        rewrite E. repeat split; assumption.
      + destruct (StartMarking_effect w7) as [_ SE].
        destruct (SE HS) as (_ & _ & _ & _ & _ & _ & _ & SH).
        rewrite (StartMarking_im w7 HS).
        split; [congruence|]. repeat split; assumption. }
  destruct F8 as (B1 & B2 & B3 & B4 & B5 & B6).
  assert (S8 : (sweeping_in_progress (gc w) = true ->
                state_ (im w8) = SWEEPING
                /\ internal_marking (gc w8) = internal_marking (gc w)
                /\ marking_worklist (gc w8) = marking_worklist (gc w)
                /\ code_stubs (gc w8) = code_stubs (gc w)
                /\ chunk_at (gc w8) = chunk_at (gc w))
               /\ (sweeping_in_progress (gc w) = false ->
                   serializer_enabled (heap_ w) = false ->
                   state_ (im w8) = MARKING
                   /\ forall a, In (HeapPointer a) (strong_roots (heap_ w)) ->
                                ObjectMarking.IsWhite a w8 = false)).
  { subst w8. split.
    - intros ->. cbn [negb]. repeat split; assumption.
    - intros -> HS. cbn [negb]. rewrite <- A1 in HS.
      destruct (StartMarking_effect w7) as [_ SE].
      destruct (SE HS) as (E1 & _ & _ & _ & _ & E6 & _).
      split; [exact E1|]. intros a HA. apply E6. rewrite A1. exact HA. }
  destruct S8 as [S8a S8b]. clearbody w8.
  destruct (add_observers_registered all_spaces w8)
    as (C1 & C2 & C3 & C4 & C5 & C6 & C7 & _).
  cbv zeta in C1, C2, C3, C4, C5, C6, C7.
  set (w9 := fold_left _ all_spaces w8) in *.
  change (im (notify IncrementalMarkingJobStart w9)) with (im w9).
  rewrite C2.
  split; [exact B2|]. split; [exact B3|]. split; [exact B4|].
  split; [exact B5|]. split; [exact B6|]. split; [|split].
  - intros space. apply (C7 space). destruct space; cbn; auto 6.
  - intros HS. destruct (S8a HS) as (D1 & D2 & D3 & D4 & D5).
    split; [exact D1|].
    change (internal_marking (gc w9) = internal_marking (gc w)
            /\ marking_worklist (gc w9) = marking_worklist (gc w)
            /\ code_stubs (gc w9) = code_stubs (gc w)
            /\ chunk_at (gc w9) = chunk_at (gc w)).
    rewrite C3, C4, C5, C6. auto.
  - intros HS HZ. destruct (S8b HS HZ) as (D1 & D2).
    split; [exact D1|]. intros a HA.
    change (ObjectMarking.IsWhite a w9 = false).
    unfold ObjectMarking.IsWhite, MarkBitFrom. rewrite C1, C3.
    apply D2. exact HA.
Qed.

Lemma patch_entry_twice (m1 m2 : Mode) (l : list DictionaryEntry) :
  map (patch_entry m2) (map (patch_entry m1) l) = map (patch_entry m2) l.
Proof.
  rewrite map_map. apply map_ext. intros [[|[|]] [m|]]; reflexivity.
Qed.

(** X16. [Stop] undoes [Start]: starting a cycle on a stopped marker whose
    write barrier is inactive (with the serializer off, as [Start] asserts)
    and stopping it again leaves the marker STOPPED with the stub dictionary
    as it was before, the write barrier inactive, the marker's observers
    detached from every space, no pending GC request, and compaction and
    black allocation off. *)
Theorem Stop_undoes_Start (w : World) :
  IsStopped w = true ->
  serializer_enabled (heap_ w) = false ->
  barrier_inactive w ->
  let w' := Stop (Start w) in
  state_ (im w') = STOPPED
  /\ code_stubs (gc w') = code_stubs (gc w)
  /\ barrier_inactive w'
  /\ (forall space,
        ~ In (observer_of space) (allocation_observers (gc w') space))
  /\ gc_requested (gc w') = false
  /\ is_compacting_ (im w') = false
  /\ black_allocation_ (im w') = false.
Proof.
  intros HS HZ HB. cbv zeta.
  assert (HM : IsMarking w = false).
  { unfold IsStopped in HS. unfold IsMarking.
    destruct (state_ (im w)); try discriminate HS; reflexivity. }
  assert (HC : barrier_consistent (Start w)).
  { apply Start_consistent; [exact HM | intros _; exact HB]. }
  assert (F : IsStopped (Start w) = false
              /\ exists mode,
                   map (patch_entry STORE_BUFFER_ONLY) (code_stubs (gc (Start w)))
                   = map (patch_entry STORE_BUFFER_ONLY)
                       (map (patch_entry mode) (code_stubs (gc w)))).
  { unfold Start. cbv zeta.
    set (w7 := set_was_activated_ true _).
    assert (F7 : heap_ w7 = heap_ w /\ code_stubs (gc w7) = code_stubs (gc w)
                 /\ sweeping_in_progress (gc w7) = sweeping_in_progress (gc w))
      by (subst w7; repeat split).
    destruct F7 as (A1 & A2 & A3). clearbody w7. rewrite A3.
    set (w8 := if negb (sweeping_in_progress (gc w))
               then StartMarking w7 else SetState SWEEPING w7).
    assert (F8 : IsStopped w8 = false
                 /\ exists mode,
                      map (patch_entry STORE_BUFFER_ONLY) (code_stubs (gc w8))
                      = map (patch_entry STORE_BUFFER_ONLY)
                          (map (patch_entry mode) (code_stubs (gc w)))).
    { subst w8. destruct (sweeping_in_progress (gc w)); cbn [negb].
      - split; [reflexivity|]. exists STORE_BUFFER_ONLY.
        rewrite patch_entry_twice. cbn. rewrite A2. reflexivity.
      - rewrite <- A1 in HZ. destruct (StartMarking_effect w7) as [_ SE].
        destruct (SE HZ) as (E1 & _ & E3 & _). cbv zeta in E3.
        split; [unfold IsStopped; rewrite E1; reflexivity|].
        eexists. rewrite E3, A2. reflexivity. }
    destruct F8 as [B1 B2]. clearbody w8.
    destruct (add_observers_registered all_spaces w8)
      as (_ & C2 & _ & _ & C5 & _).
    cbv zeta in C2, C5.
    set (w9 := fold_left _ all_spaces w8) in *.
    split.
    - unfold IsStopped in *.
      change (im (notify IncrementalMarkingJobStart w9)) with (im w9).
      rewrite C2. exact B1.
    - change (code_stubs (gc (notify IncrementalMarkingJobStart w9)))
        with (code_stubs (gc w9)).
      rewrite C5. exact B2. }
  destruct F as [F1 (mode & F2)].
  destruct (Stop_effect (Start w) F1)
    as (S1 & S2 & S3 & S4 & S5 & _).
  cbv zeta in S1, S2, S3, S4, S5.
  destruct (Stop_barrier_inactive (Start w) F1 HC) as [K1 K2].
  split; [exact S3|]. split.
  - rewrite K1, F2, patch_entry_twice. apply patch_entry_same. apply HB.
  - split; [exact K2|]. split; [exact S1|]. split; [exact S2|].
    split; [exact S4 | exact S5].
Qed.

Lemma Stop_undoes_Start_witness :
  state_ (im (Stop (Start idle_world))) = STOPPED
  /\ code_stubs (gc (Stop (Start idle_world))) = code_stubs (gc idle_world).
Proof.
  assert (HB : barrier_inactive idle_world).
  { split; [|split].
    - intros e [<- | [<- | [<- | []]]] m; intros [= <-]; reflexivity.
    - intros c [[<- | []] | [[[<- | []] | [[] | []]] _]]; reflexivity.
    - intros c [<- | []] _. reflexivity. }
  pose proof (Stop_undoes_Start idle_world eq_refl eq_refl HB) as H.
  cbv zeta in H. destruct H as (H1 & H2 & _).
  split; [exact H1 | exact H2].
Defined.

(** ** The barrier over a whole run *)

(** X17. The write barrier is active only while marking is, throughout
    every run of the controller: from a marker whose barrier is inactive
    outside the MARKING and COMPLETE states, any sequence of the
    controller's operations ([Start] being called on a stopped marker only)
    leads to a marker for which the same holds; so whenever the marker is
    STOPPED or SWEEPING every RecordWrite stub is in store-buffer-only mode
    and the page flags are deactivated. *)
Theorem barrier_active_only_while_marking (fuel : nat) (w w' : World) :
  reaches fuel w w' ->
  barrier_consistent w ->
  barrier_consistent w'
  /\ (state_ (im w') = STOPPED \/ state_ (im w') = SWEEPING ->
      barrier_inactive w').
Proof.
  intros HR HB.
  assert (HC : barrier_consistent w').
  { induction HR as [|op w1 w2 HR IH HP HRun]; [exact HB|].
    exact (run_keeps_barrier_consistent fuel op w1 w2 HRun HP IH). }
  split; [exact HC|].
  intros HS. apply HC. unfold IsMarking.
  destruct HS as [-> | ->]; reflexivity.
Qed.

Lemma barrier_active_only_while_marking_witness :
  exists w',
    reaches 5 idle_world w'
    /\ state_ (im w') = STOPPED
    /\ barrier_inactive w'.
Proof.
  assert (HB : barrier_consistent idle_world).
  { intros _. split; [|split].
    - intros e [<- | [<- | [<- | []]]] m; intros [= <-]; reflexivity.
    - intros c [[<- | []] | [[[<- | []] | [[] | []]] _]]; reflexivity.
    - intros c [<- | []] _. reflexivity. }
  assert (R : reaches 5 idle_world (Stop (Start idle_world))).
  { apply (reaches_run 5 idle_world OpStop (Start idle_world));
      [|discriminate | reflexivity].
    apply (reaches_run 5 idle_world OpStart idle_world);
      [apply reaches_here | reflexivity | reflexivity]. }
  exists (Stop (Start idle_world)). split; [exact R|].
  split; [reflexivity|].
  apply (barrier_active_only_while_marking 5 idle_world _ R HB).
  left. reflexivity.
Defined.

(** ** Which maps are retained *)

Lemma retain_entry_marks (i : Z) (map : Address) (age : Z) (w : World) :
  let w1 := snd (retain_entry i map age w) in
  bits_grow w w1
  /\ marking_worklist (gc w1)
     = (if negb (internal_marking (gc w1) (MarkBitFrom w map))
           || internal_marking (gc w) (MarkBitFrom w map)
        then marking_worklist (gc w)
        else snd (MarkingWorklist.Push map (marking_worklist (gc w))))
  /\ (forall m, internal_marking (gc w1) m = true ->
        internal_marking (gc w) m = true
        \/ (m = MarkBitFrom w map
            /\ number_of_disposed_maps_ (heap_ w) <= i
            /\ map_retaining_is_disabled w = false
            /\ age <> 0
            /\ exists c, GetConstructor (object_at (heap_ w) map)
                         = HeapPointer c
                         /\ ObjectMarking.IsWhite c w = false)).
Proof.
  cbv zeta. unfold retain_entry.
  assert (SAME : bits_grow w w
                 /\ marking_worklist (gc w)
                    = (if negb (internal_marking (gc w) (MarkBitFrom w map))
                          || internal_marking (gc w) (MarkBitFrom w map)
                       then marking_worklist (gc w)
                       else snd (MarkingWorklist.Push map
                                   (marking_worklist (gc w))))
                 /\ (forall m, internal_marking (gc w) m = true ->
                       internal_marking (gc w) m = true
                       \/ (m = MarkBitFrom w map
                           /\ number_of_disposed_maps_ (heap_ w) <= i
                           /\ map_retaining_is_disabled w = false
                           /\ age <> 0
                           /\ exists c, GetConstructor (object_at (heap_ w) map)
                                        = HeapPointer c
                                        /\ ObjectMarking.IsWhite c w = false))).
  { split; [apply bits_grow_refl|]. split; [|auto].
    destruct (internal_marking (gc w) (MarkBitFrom w map)); reflexivity. }
  destruct (number_of_disposed_maps_ (heap_ w) <=? i) eqn:HI; cbn [andb];
    [|exact SAME].
  apply Z.leb_le in HI.
  destruct (map_retaining_is_disabled w) eqn:HD; cbn [negb andb];
    [exact SAME|].
  destruct (ObjectMarking.IsWhite map w) eqn:HW; [|exact SAME].
  assert (G : forall X : World,
             X = (if ShouldRetainMap map age w
                  then snd (WhiteToGreyAndPush map w) else w) ->
             bits_grow w X
             /\ marking_worklist (gc X)
                = (if negb (internal_marking (gc X) (MarkBitFrom w map))
                      || internal_marking (gc w) (MarkBitFrom w map)
                   then marking_worklist (gc w)
                   else snd (MarkingWorklist.Push map
                               (marking_worklist (gc w))))
             /\ (forall m, internal_marking (gc X) m = true ->
                   internal_marking (gc w) m = true
                   \/ (m = MarkBitFrom w map
                       /\ number_of_disposed_maps_ (heap_ w) <= i
                       /\ false = false
                       /\ age <> 0
                       /\ exists c, GetConstructor (object_at (heap_ w) map)
                                    = HeapPointer c
                                    /\ ObjectMarking.IsWhite c w = false))).
  { intros X ->.
    destruct (ShouldRetainMap map age w) eqn:SR; [|exact SAME].
    assert (K : age <> 0
                /\ exists c, GetConstructor (object_at (heap_ w) map)
                             = HeapPointer c
                             /\ ObjectMarking.IsWhite c w = false).
    { unfold ShouldRetainMap in SR.
      destruct (Z.eqb_spec age 0); [discriminate|]. split; [assumption|].
      destruct (GetConstructor (object_at (heap_ w) map)) as [k | c];
        cbn [IsHeapObject negb orb HeapObject_cast] in SR; [discriminate|].
      exists c. split; [reflexivity|].
      destruct (ObjectMarking.IsWhite c w); [discriminate | reflexivity]. }
    destruct (WhiteToGreyAndPush_bits_grow map w) as (G1 & _ & _ & _).
    split; [exact G1|]. split.
    - rewrite (WhiteToGreyAndPush_white _ _ HW). cbn.
      rewrite SetBit_same. cbn [negb orb].
      unfold ObjectMarking.IsWhite in HW. apply IsWhite_bits in HW.
      destruct HW as [W1 _]. rewrite W1. reflexivity.
    - intros m HM. destruct (WhiteToGreyAndPush_bit map w m HM) as [B | B];
        [left; exact B | right].
      split; [exact B|]. split; [exact HI|]. split; [reflexivity | exact K]. }
  destruct (_ && _); cbn [snd]; apply G; reflexivity.
Qed.

Lemma RetainMaps_loop_marks (pairs : list (WeakCell * Z)) :
  forall (i : Z) (w : World),
  let w' := snd (RetainMaps_loop i pairs w) in
  bits_grow w w'
  /\ (map_retaining_is_disabled w = true ->
      internal_marking (gc w') = internal_marking (gc w)
      /\ marking_worklist (gc w') = marking_worklist (gc w)
      /\ fst (RetainMaps_loop i pairs w)
         = map (fun p => match fst p with
                         | Some _ => (fst p, FLAG_retain_maps_for_n_gc (fl w))
                         | None => p
                         end) pairs)
  /\ (forall m, internal_marking (gc w') m = true ->
        internal_marking (gc w) m = true
        \/ exists (k : nat) (map : Address) (age : Z) (c : Address),
             nth_error pairs k = Some (Some map, age)
             /\ m = MarkBitFrom w map
             /\ number_of_disposed_maps_ (heap_ w) <= i + 2 * Z.of_nat k
             /\ age <> 0
             /\ GetConstructor (object_at (heap_ w) map) = HeapPointer c
             /\ ObjectMarking.IsWhite c w' = false).
Proof.
  induction pairs as [|[[mp0|] age] rest IH]; intros i w; cbv zeta;
    cbn [RetainMaps_loop].
  - split; [apply bits_grow_refl|]. split; [auto|]. auto.
  - destruct (retain_entry_marks i mp0 age w) as (E1 & _ & E3).
    cbv zeta in E1, E3.
    assert (EA : map_retaining_is_disabled w = true ->
                 retain_entry i mp0 age w
                 = (FLAG_retain_maps_for_n_gc (fl w), w)).
    { intros HD. unfold retain_entry. rewrite HD.
      cbn [negb]. rewrite andb_false_r. reflexivity. }
    destruct (retain_entry i mp0 age w) as [new_age w1]. cbn [snd] in *.
    assert (HH : heap_ w1 = heap_ w) by apply E1.
    destruct (IH (i + 2) w1) as (I1 & I2 & I3). cbv zeta in I1, I2, I3.
    destruct (RetainMaps_loop (i + 2) rest w1) as [rest' w']. cbn [fst snd] in *.
    split; [exact (bits_grow_trans _ _ _ E1 I1)|]. split.
    + intros HD. injection (EA HD) as -> ->.
      destruct (I2 HD) as (J1 & J2 & J3).
      split; [exact J1|]. split; [exact J2|]. cbn [List.map fst]. rewrite J3.
      reflexivity.
    + intros m HM. destruct (I3 m HM) as [K | (k & mp & ag & c & K)].
      * destruct (E3 m K) as [K0 | (K1 & K2 & _ & K4 & c & K5 & K6)];
          [left; exact K0|].
        right. exists O, mp0, age, c. cbn [nth_error Z.of_nat].
        split; [reflexivity|]. split; [exact K1|]. split; [lia|].
        split; [exact K4|]. split; [exact K5|].
        exact (bits_grow_not_white _ _ _ (bits_grow_trans _ _ _ E1 I1) K6).
      * destruct K as (K1 & K2 & K3 & K4 & K5 & K6).
        right. exists (S k), mp, ag, c. cbn [nth_error].
        unfold MarkBitFrom in *. rewrite HH in K2, K3, K5.
        split; [exact K1|]. split; [exact K2|]. split; [lia|].
        split; [exact K4|]. split; [exact K5 | exact K6].
  - destruct (IH (i + 2) w) as (I1 & I2 & I3). cbv zeta in I1, I2, I3.
    destruct (RetainMaps_loop (i + 2) rest w) as [rest' w']. cbn [fst snd] in *.
    split; [exact I1|]. split.
    + intros HD. destruct (I2 HD) as (J1 & J2 & J3).
      split; [exact J1|]. split; [exact J2|]. cbn [List.map fst]. rewrite J3.
      reflexivity.
    + intros m HM. destruct (I3 m HM) as [K | (k & mp & ag & c & K)];
        [left; exact K|].
      destruct K as (K1 & K2 & K3 & K4 & K5 & K6).
      right. exists (S k), mp, ag, c. cbn [nth_error].
      split; [exact K1|]. split; [exact K2|]. split; [lia|].
      split; [exact K4|]. split; [exact K5 | exact K6].
Qed.

(** X18. [RetainMaps] keeps alive only maps whose constructor is alive:
    every mark bit it sets is the first bit of a map held by an entry at or
    past the disposed prefix, with an age that is not zero and a constructor
    that is a heap object and not White; it clears no mark bit and leaves
    the controller's fields alone. *)
Theorem RetainMaps_marks_only_maps_with_live_constructor (w : World) :
  let w' := RetainMaps w in
  (forall m, internal_marking (gc w') m = true ->
     internal_marking (gc w) m = true
     \/ exists (k : nat) (map : Address) (age : Z) (c : Address),
          nth_error (retained_maps (gc w)) k = Some (Some map, age)
          /\ m = MarkBitFrom w map
          /\ number_of_disposed_maps_ (heap_ w) <= 2 * Z.of_nat k
          /\ age <> 0
          /\ GetConstructor (object_at (heap_ w) map) = HeapPointer c
          /\ ObjectMarking.IsWhite c w' = false)
  /\ bits_grow w w'
  /\ im w' = im w.
Proof.
  cbv zeta.
  destruct (RetainMaps_loop_marks (retained_maps (gc w)) 0 w) as (H1 & _ & H3).
  cbv zeta in H1, H3.
  destruct (RetainMaps_frame w) as [_ HI].
  unfold RetainMaps in *.
  destruct (RetainMaps_loop 0 (retained_maps (gc w)) w) as [pairs w1].
  cbn [snd] in *.
  split; [|split; [|exact HI]].
  - intros m HM. destruct (H3 m HM) as [K | (k & mp & ag & c & K)];
      [left; exact K | right].
    exists k, mp, ag, c. exact K.
  - destruct H1 as [A B]. split; [exact A | exact B].
Qed.

(** X19. Under memory pressure, an aborted marking or a retention window
    of zero (map retaining disabled), [RetainMaps] marks and pushes nothing:
    the mark bits and the worklist are left as they were, every entry whose
    weak cell is not cleared gets the age MAX_AGE, and cleared entries keep
    theirs. *)
Theorem RetainMaps_disabled_marks_nothing (w : World) :
  map_retaining_is_disabled w = true ->
  let w' := RetainMaps w in
  internal_marking (gc w') = internal_marking (gc w)
  /\ marking_worklist (gc w') = marking_worklist (gc w)
  /\ retained_maps (gc w')
     = map (fun p => match fst p with
                     | Some _ => (fst p, FLAG_retain_maps_for_n_gc (fl w))
                     | None => p
                     end) (retained_maps (gc w)).
Proof.
  intros HD. cbv zeta.
  destruct (RetainMaps_loop_marks (retained_maps (gc w)) 0 w) as (_ & H2 & _).
  cbv zeta in H2. destruct (H2 HD) as (J1 & J2 & J3).
  unfold RetainMaps.
  destruct (RetainMaps_loop 0 (retained_maps (gc w)) w) as [pairs w1].
  cbn [fst snd] in *. rewrite <- J3.
  split; [exact J1|]. split; [exact J2 | reflexivity].
Qed.

Lemma RetainMaps_disabled_marks_nothing_witness :
  marking_worklist (gc (RetainMaps pressure_world))
  = marking_worklist (gc pressure_world)
  /\ retained_maps (gc (RetainMaps pressure_world))
     = [(Some 2048, 2); (Some 4096, 2); (None, 2)].
Proof.
  pose proof (RetainMaps_disabled_marks_nothing pressure_world eq_refl) as H.
  cbv zeta in H. destruct H as (_ & H2 & H3).
  split; [exact H2 | exact H3].
Defined.

(** ** Incremental finalization *)

Lemma RetainMaps_bits_grow (w : World) :
  bits_grow w (RetainMaps w)
  /\ heap_ (RetainMaps w) = heap_ w /\ im (RetainMaps w) = im w.
Proof.
  destruct (RetainMaps_loop_marks (retained_maps (gc w)) 0 w) as (H1 & _).
  cbv zeta in H1. destruct (RetainMaps_frame w) as [HH HI].
  split; [|split; assumption].
  unfold RetainMaps in *.
  destruct (RetainMaps_loop 0 (retained_maps (gc w)) w) as [pairs w1].
  cbn [snd] in *. destruct H1 as [A B]. split; [exact A | exact B].
Qed.

(** X20. [FinalizeIncrementally] leaves no strong root White and clears no
    mark bit. Afterwards black allocation is on if and only if it was on
    before or the flag allows it and the heap is not reducing memory; when
    it is newly started, the allocation areas of the old, map and code
    spaces are marked black. The state is left as it was. *)
Theorem FinalizeIncrementally_marks_roots_and_starts_black_allocation
  (w : World) :
  let w' := FinalizeIncrementally w in
  (forall a, In (HeapPointer a) (strong_roots (heap_ w)) ->
             ObjectMarking.IsWhite a w' = false)
  /\ bits_grow w w'
  /\ black_allocation_ (im w')
     = black_allocation_ (im w)
       || (FLAG_black_allocation (fl w) && negb (ShouldReduceMemory (heap_ w)))
  /\ notifications (gc w')
     = (if FLAG_black_allocation (fl w) && negb (ShouldReduceMemory (heap_ w))
           && negb (black_allocation_ (im w))
        then [MarkAllocationInfoBlack CODE_SPACE;
              MarkAllocationInfoBlack MAP_SPACE;
              MarkAllocationInfoBlack OLD_SPACE]
        else [])
       ++ notifications (gc w)
  /\ state_ (im w') = state_ (im w).
Proof.
  cbv zeta. unfold FinalizeIncrementally. cbv zeta.
  destruct (mark_roots_targets (strong_roots (heap_ w)) w) as (R1 & R2 & _).
  cbv zeta in R1, R2. fold (MarkRoots w) in R1, R2.
  pose proof (MarkRoots_im w) as I1.
  assert (N1 : notifications (gc (MarkRoots w)) = notifications (gc w)).
  { unfold MarkRoots. generalize (strong_roots (heap_ w)). intros l.
    generalize w. induction l as [|p l IH]; intros w0; cbn [fold_left];
      [reflexivity|].
    rewrite IH. unfold MarkObjectByPointer. destruct (negb _); [reflexivity|].
    unfold WhiteToGreyAndPush, ObjectMarking.WhiteToGrey, ObjectMarking.lift.
    destruct (fst _); reflexivity. }
  set (w1 := MarkRoots w) in *.
  set (w2 := if incremental_marking_finalization_rounds_ (im w1) =? 0
             then RetainMaps w1 else w1).
  assert (F2 : bits_grow w1 w2 /\ heap_ w2 = heap_ w1 /\ im w2 = im w1
               /\ notifications (gc w2) = notifications (gc w1)).
  { subst w2. destruct (_ =? 0).
    - destruct (RetainMaps_bits_grow w1) as (A & B & C).
      split; [exact A|]. split; [exact B|]. split; [exact C|].
      unfold RetainMaps.
      pose proof (RetainMaps_loop_kept (retained_maps (gc w1)) 0 w1) as K.
      assert (NK : forall pairs i w0,
                 notifications (gc (snd (RetainMaps_loop i pairs w0)))
                 = notifications (gc w0)).
      { induction pairs as [|[[mp0|] age] rest IH]; intros i w0;
          cbn [RetainMaps_loop]; [reflexivity| |].
        - assert (E : notifications (gc (snd (retain_entry i mp0 age w0)))
                      = notifications (gc w0)).
          { unfold retain_entry. destruct (_ && _); [|reflexivity].
            assert (E0 : notifications
                           (gc (if ShouldRetainMap mp0 age w0
                                then snd (WhiteToGreyAndPush mp0 w0) else w0))
                         = notifications (gc w0)).
            { destruct (ShouldRetainMap mp0 age w0); [|reflexivity].
              unfold WhiteToGreyAndPush, ObjectMarking.WhiteToGrey,
                ObjectMarking.lift.
              destruct (fst _); reflexivity. }
            destruct (_ && _); exact E0. }
          destruct (retain_entry i mp0 age w0) as [na w01]. cbn [snd] in E.
          specialize (IH (i + 2) w01).
          destruct (RetainMaps_loop (i + 2) rest w01) as [r' w'].
          cbn [snd] in *. congruence.
        - specialize (IH (i + 2) w0).
          destruct (RetainMaps_loop (i + 2) rest w0) as [r' w'].
          exact IH. }
      specialize (NK (retained_maps (gc w1)) 0 w1).
      destruct (RetainMaps_loop 0 (retained_maps (gc w1)) w1) as [pairs w'].
      exact NK.
    - split; [apply bits_grow_refl|]. auto. }
  destruct F2 as (G2 & H2 & I2 & N2). clearbody w2.
  set (w4 := if _ || _ then _ else _).
  assert (F4 : heap_ w4 = heap_ w
               /\ internal_marking (gc w4) = internal_marking (gc w2)
               /\ black_allocation_ (im w4) = black_allocation_ (im w)
               /\ state_ (im w4) = state_ (im w)
               /\ notifications (gc w4) = notifications (gc w)).
  { assert (HH : heap_ w2 = heap_ w) by (destruct R1; congruence).
    assert (BA : black_allocation_ (im w2) = black_allocation_ (im w))
      by (rewrite I2, I1; reflexivity).
    assert (ST : state_ (im w2) = state_ (im w))
      by (rewrite I2, I1; reflexivity).
    assert (NT : notifications (gc w2) = notifications (gc w))
      by congruence.
    subst w4. destruct (_ || _);
      (split; [exact HH|]); (split; [reflexivity|]); (split; [exact BA|]);
      (split; [exact ST | exact NT]). }
  destruct F4 as (A1 & A2 & A3 & A4 & A5). clearbody w4.
  rewrite A1, A3.
  assert (HH1 : heap_ w1 = heap_ w) by apply R1.
  assert (HH42 : heap_ w4 = heap_ w2) by congruence.
  assert (G4 : bits_grow w w4).
  { eapply bits_grow_trans; [exact R1|].
    eapply bits_grow_trans; [exact G2|].
    apply bits_grow_frame; [exact HH42 | exact A2]. }
  assert (W4 : forall a, In (HeapPointer a) (strong_roots (heap_ w)) ->
                         ObjectMarking.IsWhite a w4 = false).
  { intros a HA.
    assert (GX : bits_grow w1 w4).
    { eapply bits_grow_trans; [exact G2|].
      apply bits_grow_frame; [exact HH42 | exact A2]. }
    exact (bits_grow_not_white _ _ _ GX (R2 a HA)). }
  destruct (FLAG_black_allocation (fl w) && negb (ShouldReduceMemory (heap_ w)))
    eqn:FB; destruct (black_allocation_ (im w)) eqn:BA; cbn [negb andb orb app].
  - split; [exact W4|]. split; [exact G4|]. split; [exact A3|].
    split; [exact A5 | exact A4].
  - split; [exact W4|]. split.
    + eapply bits_grow_trans; [exact G4|]. apply bits_grow_frame; reflexivity.
    + split; [reflexivity|]. split; [cbn; rewrite A5; reflexivity | exact A4].
  - split; [exact W4|]. split; [exact G4|]. split; [exact A3|].
    split; [exact A5 | exact A4].
  - split; [exact W4|]. split; [exact G4|]. split; [exact A3|].
    split; [exact A5 | exact A4].
Qed.
(* ------------------------------------------------------------------ *)
(** ** The worklist after a scavenge: what is kept *)

Lemma filter_map_length (f : Address -> option Address) (l : list Address) :
  (length (MarkingWorklist.filter_map f l) <= length l)%nat.
Proof.
  induction l as [|o l IH]; cbn [MarkingWorklist.filter_map length].
  - apply le_n.
  - destruct (f o); cbn [length]; lia.
Qed.

(** X21. [UpdateMarkingWorklistAfterScavenge] touches nothing but the
    worklist, and nothing at all outside marking. It never makes the
    worklist longer and invents no entry: every entry afterwards was an
    entry before or is the forwarding address of a from-space entry. It
    loses no live entry: an old-space entry on a page that is not flagged
    SWEEP_TO_ITERATE stays unless its map is the one-pointer filler map, and
    an entry outside from-space that is externally Grey stays when it is in
    to-space or on a SWEEP_TO_ITERATE page. *)
Theorem UpdateMarkingWorklistAfterScavenge_loses_no_live_entry (w : World) :
  let w' := UpdateMarkingWorklistAfterScavenge w in
  let before := MarkingWorklist.entries (marking_worklist (gc w)) in
  let after := MarkingWorklist.entries (marking_worklist (gc w')) in
  heap_ w' = heap_ w /\ im w' = im w
  /\ internal_marking (gc w') = internal_marking (gc w)
  /\ chunk_at (gc w') = chunk_at (gc w)
  /\ (IsMarking w = false -> w' = w)
  /\ MarkingWorklist.Size (marking_worklist (gc w'))
     <= MarkingWorklist.Size (marking_worklist (gc w))
  /\ (forall obj',
        In obj' after ->
        In obj' before
        \/ exists obj,
             In obj before /\ InFromSpace w obj = true
             /\ map_word (object_at (heap_ w) obj) = ForwardingAddress obj')
  /\ (forall obj,
        In obj before -> InFromSpace w obj = false ->
        InToSpace w obj = false ->
        SWEEP_TO_ITERATE (chunk_of w obj) = false ->
        obj_map w obj <> one_pointer_filler_map (heap_ w) ->
        In obj after)
  /\ (forall obj,
        In obj before -> InFromSpace w obj = false ->
        InToSpace w obj = true \/ SWEEP_TO_ITERATE (chunk_of w obj) = true ->
        ObjectMarking.IsGreyExternal obj w = true ->
        In obj after).
Proof.
  cbv zeta. unfold UpdateMarkingWorklistAfterScavenge.
  destruct (IsMarking w) eqn:HM; cbn [negb].
  2: { repeat split; auto; try lia. }
  cbn [heap_ im gc set_marking_worklist with_gc internal_marking chunk_at
       marking_worklist].
  split; [reflexivity|]. split; [reflexivity|]. split; [reflexivity|].
  split; [reflexivity|]. split; [discriminate|].
  rewrite Update_entries.
  split; [|split; [|split]].
  - unfold MarkingWorklist.Size. rewrite Update_entries.
    apply Nat2Z.inj_le, filter_map_length.
  - intros obj' H. apply filter_map_In in H. destruct H as (obj & H1 & H2).
    unfold scavenge_callback in H2. cbv zeta in H2.
    destruct (InFromSpace w obj) eqn:F.
    + right. exists obj. split; [exact H1|]. split; [exact F|].
      destruct (map_word (object_at (heap_ w) obj)) as [m|d];
        cbn in H2; [discriminate|]. congruence.
    + left.
      assert (E : obj' = obj).
      { destruct (InToSpace w obj).
        - destruct (ObjectMarking.IsGreyExternal obj w); congruence.
        - destruct (SWEEP_TO_ITERATE (chunk_of w obj)).
          + destruct (ObjectMarking.IsGreyExternal obj w); congruence.
          + destruct (negb _); congruence. }
      rewrite E. exact H1.
  - intros obj H1 F T S M. apply filter_map_In. exists obj.
    split; [exact H1|]. unfold scavenge_callback. cbv zeta.
    rewrite F, T, S.
    destruct (Z.eqb_spec (MapWord_map (map_word (object_at (heap_ w) obj)))
                (one_pointer_filler_map (heap_ w))) as [E | E];
      [|reflexivity].
    exfalso. apply M. exact E.
  - intros obj H1 F TS G. apply filter_map_In. exists obj.
    split; [exact H1|]. unfold scavenge_callback. cbv zeta.
    rewrite F. destruct (InToSpace w obj); [rewrite G; reflexivity|].
    destruct TS as [TS | TS]; [discriminate|]. rewrite TS, G. reflexivity.
Qed.

(* ------------------------------------------------------------------ *)
(** ** The bytes allocated since the last step *)

Lemma FinalizeSweeping_allocation_counters (w : World) :
  bytes_allocated_ (im (FinalizeSweeping w)) = bytes_allocated_ (im w)
  /\ old_generation_allocation_counter_ (im (FinalizeSweeping w))
     = old_generation_allocation_counter_ (im w).
Proof.
  unfold FinalizeSweeping. cbv zeta.
  set (w1 := if _ && _ then _ else w).
  assert (I1 : im w1 = im w) by (subst w1; destruct (_ && _); reflexivity).
  clearbody w1.
  destruct (negb (sweeping_in_progress (gc w1))); [|rewrite I1; auto].
  destruct (serializer_enabled (heap_ w1)) eqn:HS.
  - unfold StartMarking. rewrite HS, I1. auto.
  - rewrite (StartMarking_im w1 HS). cbn. rewrite I1. auto.
Qed.

Lemma after_processing_allocation_counters (action : CompletionAction)
  (completion : ForceCompletionAction) (w : World) :
  bytes_allocated_ (im (after_processing action completion w))
  = bytes_allocated_ (im w)
  /\ old_generation_allocation_counter_
       (im (after_processing action completion w))
     = old_generation_allocation_counter_ (im w).
Proof.
  unfold after_processing, FinalizeMarking, MarkingComplete,
    IncrementIdleMarkingDelayCounter.
  destruct (MarkingWorklist.IsEmpty _); [|auto].
  destruct (ShouldFinalizeIncrementalMarking _); [|auto].
  destruct (_ || _); [|auto].
  destruct (negb _); destruct (is_GC_VIA_STACK_GUARD action); auto.
Qed.

(** A step leaves the allocation counters to its caller. *)
Lemma Step_allocation_counters (fuel : nat) (b : Z) (action : CompletionAction)
  (completion : ForceCompletionAction) (origin : StepOrigin) (w : World)
  (n : Z) (w' : World) :
  Step fuel b action completion origin w = Some (n, w') ->
  0 <= n
  /\ bytes_allocated_ (im w') = bytes_allocated_ (im w)
  /\ old_generation_allocation_counter_ (im w')
     = old_generation_allocation_counter_ (im w).
Proof.
  unfold Step. cbv zeta.
  set (w1 := if State_eqb (state_ (im w)) SWEEPING
             then FinalizeSweeping w else w).
  assert (C1 : bytes_allocated_ (im w1) = bytes_allocated_ (im w)
               /\ old_generation_allocation_counter_ (im w1)
                  = old_generation_allocation_counter_ (im w)).
  { subst w1. destruct (State_eqb _ _);
      [apply FinalizeSweeping_allocation_counters | auto]. }
  destruct C1 as [C1 C1'].
  assert (TAIL : forall (k : Z) (w4 : World),
             im (notify (AddIncrementalMarkingStep k)
                   (if FLAG_concurrent_marking (fl w4)
                    then notify RescheduleTasksIfNeeded w4 else w4))
             = im w4).
  { intros k w4. destruct (FLAG_concurrent_marking _); reflexivity. }
  destruct (State_eqb (state_ (im w1)) MARKING).
  - destruct (ProcessMarkingWorklist fuel (to_intptr b)
                DO_NOT_FORCE_COMPLETION w1) as [[m w2]|] eqn:E;
      [|discriminate].
    pose proof (ProcessMarkingWorklist_controller _ _ _ _ _ _ E) as C2.
    assert (B2 : bytes_allocated_ (im w2) = bytes_allocated_ (im w1)).
    { exact (f_equal bytes_allocated_ C2). }
    assert (O2 : old_generation_allocation_counter_ (im w2)
                 = old_generation_allocation_counter_ (im w1)).
    { exact (f_equal old_generation_allocation_counter_ C2). }
    intros [= <- <-]. rewrite TAIL.
    destruct (after_processing_allocation_counters action completion
                (if is_kTask origin
                 then set_bytes_marked_ahead_of_schedule_
                        (wrap_size_t
                           (bytes_marked_ahead_of_schedule_ (im w2)
                            + wrap_size_t m)) w2
                 else w2)) as [A1 A2].
    rewrite A1, A2.
    split; [unfold wrap_size_t; apply Z.mod_pos_bound; reflexivity|].
    destruct (is_kTask origin); cbn; split; congruence.
  - intros [= <- <-]. rewrite TAIL. split; [lia | auto].
Qed.

(** X22. [AdvanceIncrementalMarkingOnAllocation] does nothing while the
    heap is in a GC, incremental marking is switched off, the marker is
    neither SWEEPING nor MARKING, or an always-allocate scope is open.
    Otherwise it brings [old_generation_allocation_counter_] up to the
    heap's counter and adds the difference to [bytes_allocated_]; below the
    threshold that is all it does. When a step is due the bytes processed
    are taken off [bytes_allocated_], which never drops below zero; if the
    credit covers the budget, exactly the budget (or all of it) is taken
    off. *)
Theorem AdvanceIncrementalMarkingOnAllocation_settles_allocated_bytes
  (fuel : nat) (w w' : World) :
  AdvanceIncrementalMarkingOnAllocation fuel w = Some w' ->
  (no_step_on_allocation w = true -> w' = w)
  /\ (no_step_on_allocation w = false ->
      old_generation_allocation_counter_ (im w')
      = OldGenerationAllocationCounter (heap_ w)
      /\ 0 <= bytes_allocated_ (im w')
      /\ (0 <= max_step_size (heap_ w) ->
          bytes_allocated_ (im w') <= allocated_since_last_step w)
      /\ (allocation_step_due w = false ->
          bytes_allocated_ (im w') = allocated_since_last_step w
          /\ gc w' = gc w /\ heap_ w' = heap_ w
          /\ state_ (im w') = state_ (im w) /\ credit w' = credit w)
      /\ (allocation_step_due w = true ->
          allocation_budget w <= credit w ->
          bytes_allocated_ (im w')
          = allocated_since_last_step w
            - Z.min (allocated_since_last_step w) (allocation_budget w))).
Proof.
  unfold AdvanceIncrementalMarkingOnAllocation, allocation_step_due,
    allocation_budget, no_step_on_allocation.
  destruct (negb (gc_state_is_NOT_IN_GC (heap_ w))
            || negb (FLAG_incremental_marking (fl w))
            || (negb (State_eqb (state_ (im w)) SWEEPING)
                && negb (State_eqb (state_ (im w)) MARKING))
            || always_allocate (heap_ w)).
  { intros [= <-]. split; [reflexivity | discriminate]. }
  intros H. split; [discriminate|]. intros _. revert H.
  cbn [negb andb].
  assert (A0 : 0 <= allocated_since_last_step w).
  { unfold allocated_since_last_step, wrap_size_t.
    apply Z.mod_pos_bound. reflexivity. }
  unfold StepSizeToKeepUpWithAllocations. cbv zeta. cbn [fst snd].
  set (w1 := set_old_generation_allocation_counter_
               (OldGenerationAllocationCounter (heap_ w))
               (set_bytes_allocated_
                  (wrap_size_t
                     (bytes_allocated_ (im w)
                      + (OldGenerationAllocationCounter (heap_ w)
                         - old_generation_allocation_counter_ (im w)))) w)).
  change (bytes_allocated_ (im w1)) with (allocated_since_last_step w).
  change (fl w1) with (fl w). change (heap_ w1) with (heap_ w).
  change (bytes_marked_ahead_of_schedule_ (im w1)) with (credit w).
  set (total := wrap_size_t
                  (allocated_since_last_step w + StepSizeToMakeProgress w1)).
  destruct (kAllocatedThreshold (fl w) <=? total).
  2: { intros [= <-]. cbn.
       split; [reflexivity|]. split; [exact A0|].
       split; [intros _; apply Z.le_refl|].
       split; [intros _; repeat split | discriminate]. }
  set (btp := Z.min total (max_step_size (heap_ w))).
  assert (T0 : 0 <= total).
  { subst total. unfold wrap_size_t. apply Z.mod_pos_bound. reflexivity. }
  assert (EA : wrap_size_t
                 (bytes_allocated_ (im w)
                  + (OldGenerationAllocationCounter (heap_ w)
                     - old_generation_allocation_counter_ (im w)))
               = allocated_since_last_step w) by reflexivity.
  destruct (Z.leb_spec btp (credit w)) as [HL | HL].
  - intros [= <-]. cbn. rewrite !EA.
    split; [reflexivity|]. split; [lia|].
    split; [intros HM; subst btp; lia|].
    split; [discriminate | intros _ _; reflexivity].
  - destruct (Step fuel btp GC_VIA_STACK_GUARD FORCE_COMPLETION kV8 w1)
      as [[n w2]|] eqn:ES; [|discriminate].
    intros [= <-].
    destruct (Step_allocation_counters _ _ _ _ _ _ _ _ ES) as (N0 & B2 & O2).
    change (bytes_allocated_ (im w1)) with (allocated_since_last_step w) in B2.
    change (old_generation_allocation_counter_ (im w1))
      with (OldGenerationAllocationCounter (heap_ w)) in O2.
    cbn. rewrite B2, O2.
    split; [reflexivity|]. split; [lia|].
    split; [intros HM; lia|].
    split; [discriminate | intros _ HC; lia].
Qed.

Lemma AdvanceIncrementalMarkingOnAllocation_settles_allocated_bytes_witness :
  exists w',
    AdvanceIncrementalMarkingOnAllocation 5 ahead_world = Some w'
    /\ old_generation_allocation_counter_ (im w') = 0
    /\ bytes_allocated_ (im w') = 70000 - Z.min 70000 135536.
Proof.
  eexists. split; [vm_compute; reflexivity|].
  destruct (AdvanceIncrementalMarkingOnAllocation_settles_allocated_bytes
              5 ahead_world _ eq_refl) as [_ H].
  destruct (H eq_refl) as (H1 & _ & _ & _ & H5).
  assert (L : allocation_budget ahead_world <= credit ahead_world)
    by (vm_compute; discriminate).
  split; [exact H1 | exact (H5 eq_refl L)].
Defined.

(* ------------------------------------------------------------------ *)
(** ** Revisiting a black-allocated object *)

(** The visitor run on [obj] in a world [w] that has the layout of [w0]:
    unless [obj] is a fixed array with a progress bar, it clears no mark
    bit, leaves the chunks alone and leaves no scanned field White. *)
Lemma Visit_greys_fields (obj : Address) (w0 w : World) :
  heap_ w = heap_ w0 ->
  IsFixedArrayWithProgressBar w obj = false ->
  let w' := snd (Visit (obj_map w0 obj) obj w) in
  bits_grow w w'
  /\ chunk_at (gc w') = chunk_at (gc w)
  /\ (forall (i : nat) (a : Address),
        (i < slot_count w0 (RawField obj (first_field w0 obj))
               (RawField obj (SizeFromMap (object_at (heap_ w0) obj))))%nat ->
        load (heap_ w0) (slot_at w0 (RawField obj (first_field w0 obj)) i)
        = HeapPointer a ->
        ObjectMarking.IsWhite a w' = false).
Proof.
  intros H2 HP. cbv zeta.
  assert (P : forall s e,
            bits_grow w (VisitPointers obj s e w)
            /\ chunk_at (gc (VisitPointers obj s e w)) = chunk_at (gc w)
            /\ (forall (i : nat) (a : Address),
                  (i < slot_count w0 s e)%nat ->
                  load (heap_ w0) (slot_at w0 s i) = HeapPointer a ->
                  ObjectMarking.IsWhite a (VisitPointers obj s e w) = false)).
  { intros s e.
    destruct (VisitPointers_targets_at obj s e w0 w H2) as [T1 T2].
    destruct (VisitPointers_frame obj s e w) as (_ & _ & T3 & _).
    split; [exact T1|]. split; [exact T3 | exact T2]. }
  unfold Visit, first_field. rewrite H2.
  unfold IsFixedArrayWithProgressBar, IsFixedArray, chunk_of in HP.
  rewrite H2 in HP.
  destruct (instance_kind (object_at (heap_ w0) obj)) eqn:K;
    cbn [InstanceKind_eqb negb] in HP.
  all: try (unfold VisitBody; cbn [snd]; rewrite H2; apply P).
  - (* a fixed array on a page without progress bar *)
    unfold VisitFixedArray. unfold FromAddress in *.
    change (InstanceKind_eqb FIXED_ARRAY_KIND FIXED_ARRAY_KIND) with true
      in HP.
    cbn [negb] in HP. rewrite HP. cbn [snd]. rewrite H2. apply P.
  - (* a native context *)
    unfold VisitNativeContext. cbv zeta.
    set (w3 := if negb _ then _ else w).
    assert (G3 : bits_grow w w3 /\ chunk_at (gc w3) = chunk_at (gc w)).
    { subst w3. destruct (negb _); [|split; [apply bits_grow_refl | auto]].
      destruct (IsHeapObject _); [|split; [apply bits_grow_refl | auto]].
      unfold ObjectMarking.WhiteToGrey, ObjectMarking.lift. cbn [snd].
      unfold Marking.WhiteToGrey. destruct (Marking.IsWhite _ _); cbn [snd].
      - split; [apply bits_grow_set | reflexivity].
      - split; [apply bits_grow_frame|]; reflexivity. }
    destruct G3 as [G3 C3]. clearbody w3.
    assert (H3 : heap_ w3 = heap_ w0) by (destruct G3 as [A _]; congruence).
    unfold VisitBody. cbn [snd]. rewrite H3.
    destruct (VisitPointers_targets_at obj
                (RawField obj (body_start (object_at (heap_ w0) obj)))
                (RawField obj (SizeFromMap (object_at (heap_ w0) obj)))
                w0 w3 H3) as [T1 T2].
    destruct (VisitPointers_frame obj
                (RawField obj (body_start (object_at (heap_ w0) obj)))
                (RawField obj (SizeFromMap (object_at (heap_ w0) obj)))
                w3) as (_ & _ & T3 & _).
    cbv zeta in T1, T2.
    split; [exact (bits_grow_trans _ _ _ G3 T1)|].
    split; [congruence | exact T2].
Qed.

(** X23. [ProcessBlackAllocatedObject] changes nothing outside marking or
    for an object that is not Black. For a Black object during marking that
    is not a fixed array with a progress bar it scans the object again: the
    object stays Black, its map is not White, no pointer field from the
    first one its visitor scans to the end of the object holds a White
    object, no mark bit is cleared, and on a large-object page the progress
    bar is reset to zero. *)
Theorem ProcessBlackAllocatedObject_rescans_black_object (obj : Address)
  (w : World) :
  let w' := ProcessBlackAllocatedObject obj w in
  (IsMarking w = false \/ ObjectMarking.IsBlack obj w = false -> w' = w)
  /\ (IsMarking w = true -> ObjectMarking.IsBlack obj w = true ->
      IsFixedArrayWithProgressBar w obj = false ->
      ObjectMarking.IsBlack obj w' = true
      /\ ObjectMarking.IsWhite (obj_map w obj) w' = false
      /\ (forall (i : nat) (a : Address),
            (i < slot_count w (RawField obj (first_field w obj))
                   (RawField obj
                      (SizeFromMap (object_at (heap_ w) obj))))%nat ->
            load (heap_ w) (slot_at w (RawField obj (first_field w obj)) i)
            = HeapPointer a ->
            ObjectMarking.IsWhite a w' = false)
      /\ bits_grow w w'
      /\ (owner_is_LO_SPACE (chunk_of w obj) = true ->
          progress_bar (chunk_of w' obj) = 0)).
Proof.
  cbv zeta. unfold ProcessBlackAllocatedObject. split.
  - intros [H | H]; rewrite H; [reflexivity|].
    rewrite andb_false_r. reflexivity.
  - intros HM HB HP. rewrite HM, HB. cbn [andb].
    unfold RevisitObject. cbv zeta.
    set (page := FromAddress w obj).
    set (w1 := if owner_is_LO_SPACE (chunk_at (gc w) page)
               then set_progress_bar page 0 w else w).
    assert (H1 : heap_ w1 = heap_ w)
      by (subst w1; destruct (owner_is_LO_SPACE _); reflexivity).
    assert (G1 : bits_grow w w1).
    { subst w1. destruct (owner_is_LO_SPACE _); [|apply bits_grow_refl].
      apply bits_grow_frame; reflexivity. }
    assert (F1 : forall c, HAS_PROGRESS_BAR (chunk_at (gc w1) c)
                           = HAS_PROGRESS_BAR (chunk_at (gc w) c)).
    { intros c. subst w1. destruct (owner_is_LO_SPACE _); [|reflexivity].
      cbn. destruct (c =? page); reflexivity. }
    assert (B1 : owner_is_LO_SPACE (chunk_at (gc w) page) = true ->
                 progress_bar (chunk_at (gc w1) page) = 0).
    { intros HL. subst w1. rewrite HL. apply progress_bar_set. }
    clearbody w1.
    assert (EM : obj_map w1 obj = obj_map w obj)
      by (unfold obj_map; rewrite H1; reflexivity).
    rewrite EM.
    destruct (WhiteToGreyAndPush_bits_grow (obj_map w obj) w1)
      as (G2 & M2 & _ & _).
    pose proof (WhiteToGreyAndPush_chunk_at (obj_map w obj) w1) as C2.
    set (w2 := snd (WhiteToGreyAndPush (obj_map w obj) w1)) in *.
    assert (H2 : heap_ w2 = heap_ w) by (destruct G2 as [A _]; congruence).
    assert (HP2 : IsFixedArrayWithProgressBar w2 obj = false).
    { unfold IsFixedArrayWithProgressBar, IsFixedArray, chunk_of,
        FromAddress in *.
      rewrite H2, C2, F1. exact HP. }
    destruct (Visit_greys_fields obj w w2 H2 HP2) as (G3 & C3 & F3).
    cbv zeta in G3, C3, F3.
    set (w3 := snd (Visit (obj_map w obj) obj w2)) in *.
    assert (G : bits_grow w w3).
    { exact (bits_grow_trans _ _ _ G1 (bits_grow_trans _ _ _ G2 G3)). }
    split; [exact (bits_grow_black _ _ _ G HB)|].
    split; [exact (bits_grow_not_white _ _ _ G3 M2)|].
    split; [exact F3|]. split; [exact G|].
    intros HL. unfold chunk_of, FromAddress in *.
    destruct G as [HG _]. rewrite HG, C3, C2. apply B1. exact HL.
Qed.

Lemma ProcessBlackAllocatedObject_rescans_black_object_witness :
  ObjectMarking.IsBlack 1024
    (ProcessBlackAllocatedObject 1024
       (set_internal_marking (bits_of [128; 129]) cycle_world)) = true
  /\ ObjectMarking.IsWhite 2048
       (ProcessBlackAllocatedObject 1024
          (set_internal_marking (bits_of [128; 129]) cycle_world)) = false.
Proof.
  destruct (ProcessBlackAllocatedObject_rescans_black_object 1024
              (set_internal_marking (bits_of [128; 129]) cycle_world))
    as [_ H].
  destruct (H eq_refl eq_refl eq_refl) as (H1 & _ & H3 & _).
  split; [exact H1|].
  apply (H3 O 2048); [vm_compute; apply le_n | reflexivity].
Defined.

(* ------------------------------------------------------------------ *)
(** ** The normalized map caches after [Hurry] *)

Lemma GreyToBlack_other_not_grey (m a : Marking.MarkBit) (b : Marking.Bitmap) :
  a <> m + 1 ->
  Marking.IsGrey b a = false ->
  Marking.IsGrey (snd (Marking.GreyToBlack m b)) a = false.
Proof.
  intros HN HG. unfold Marking.GreyToBlack.
  destruct (Marking.IsGrey b m); cbn [snd]; [|exact HG].
  unfold Marking.IsGrey, Marking.Get, Marking.SetBit, Marking.Next in *.
  destruct (Z.eqb_spec a (m + 1)) as [E | _]; [contradiction|].
  destruct (Z.eqb_spec (a + 1) (m + 1)) as [_ | _]; [apply andb_false_r|].
  exact HG.
Qed.

Lemma GreyToBlack_self_not_grey (m : Marking.MarkBit) (b : Marking.Bitmap) :
  Marking.IsGrey (snd (Marking.GreyToBlack m b)) m = false.
Proof.
  unfold Marking.GreyToBlack.
  destruct (Marking.IsGrey b m) eqn:E; cbn [snd]; [|exact E].
  unfold Marking.IsGrey, Marking.Get, Marking.SetBit, Marking.Next.
  rewrite Z.eqb_refl. apply andb_false_r.
Qed.

(** The walk over the contexts [l], started in a world with the layout of
    [w0]: an object whose first mark bit is not the second bit of a cache
    is not turned Grey, and no cache of a context of [l] is left Grey. *)
Lemma cache_walk_not_grey (w0 : World) (l : list Address) :
  forall w : World,
  heap_ w = heap_ w0 ->
  let walk :=
    fold_left
      (fun w' context =>
         let cache :=
           load (heap_ w')
             (RawField context (NORMALIZED_MAP_CACHE_offset (fl w'))) in
         if negb (IsUndefined cache w') then
           snd (ObjectMarking.GreyToBlack (HeapObject_cast cache) w')
         else w') l w in
  (forall a,
     (forall c, In c l ->
        MarkBitFrom w0 a
        <> MarkBitFrom w0 (HeapObject_cast (normalized_map_cache w0 c)) + 1) ->
     ObjectMarking.IsGrey a w = false ->
     ObjectMarking.IsGrey a walk = false)
  /\ ((forall c1 c2, In c1 l -> In c2 l ->
         MarkBitFrom w0 (HeapObject_cast (normalized_map_cache w0 c2))
         <> MarkBitFrom w0 (HeapObject_cast (normalized_map_cache w0 c1)) + 1) ->
      forall c, In c l ->
        IsUndefined (normalized_map_cache w0 c) w0 = false ->
        ObjectMarking.IsGrey (HeapObject_cast (normalized_map_cache w0 c)) walk
        = false).
Proof.
  induction l as [|c0 l IH]; intros w HH; cbv zeta; cbn [fold_left].
  - split; [intros a _ H; exact H | intros _ c []].
  - set (w1 := if negb _ then _ else w).
    assert (H1 : heap_ w1 = heap_ w0).
    { subst w1. destruct (negb _); exact HH. }
    assert (K1 : forall a,
               MarkBitFrom w0 a
               <> MarkBitFrom w0 (HeapObject_cast (normalized_map_cache w0 c0))
                  + 1 ->
               ObjectMarking.IsGrey a w = false ->
               ObjectMarking.IsGrey a w1 = false).
    { intros a HN HG. subst w1. rewrite HH.
      fold (normalized_map_cache w0 c0).
      destruct (negb (IsUndefined (normalized_map_cache w0 c0) w));
        [|exact HG].
      unfold ObjectMarking.IsGrey, ObjectMarking.GreyToBlack,
        ObjectMarking.lift, MarkBitFrom in *.
      cbn [snd gc heap_ set_internal_marking with_gc internal_marking].
      rewrite HH in *. apply GreyToBlack_other_not_grey; assumption. }
    assert (S1 : IsUndefined (normalized_map_cache w0 c0) w0 = false ->
                 ObjectMarking.IsGrey
                   (HeapObject_cast (normalized_map_cache w0 c0)) w1 = false).
    { intros HU. subst w1. rewrite HH.
      fold (normalized_map_cache w0 c0).
      assert (HU' : IsUndefined (normalized_map_cache w0 c0) w = false).
      { unfold IsUndefined in *. rewrite HH. exact HU. }
      rewrite HU'. cbn [negb].
      unfold ObjectMarking.IsGrey, ObjectMarking.GreyToBlack,
        ObjectMarking.lift, MarkBitFrom.
      cbn [snd gc heap_ set_internal_marking with_gc internal_marking].
      apply GreyToBlack_self_not_grey. }
    clearbody w1.
    destruct (IH w1 H1) as [I1 I2]. cbv zeta in I1, I2.
    split.
    + intros a HN HG. apply I1.
      * intros c HI. apply HN. right. exact HI.
      * apply K1; [apply HN; left; reflexivity | exact HG].
    + intros HN c [<- | HI] HU.
      * apply I1.
        -- intros c HI. apply HN; [right; exact HI | left; reflexivity].
        -- apply S1. exact HU.
      * apply I2; [|exact HI | exact HU].
        intros c1 c2 J1 J2. apply HN; right; assumption.
Qed.

(** X24. [Hurry] leaves no normalized map cache Grey: provided no two
    caches have adjacent mark bits (an object is at least two words long),
    the cache of every native context that is not undefined is not Grey
    when [Hurry] returns. When the worklist was empty at entry, a cache
    that was Grey or Black is Black afterwards. *)
Theorem Hurry_leaves_no_grey_map_cache (fuel : nat) (w w' : World) :
  Hurry fuel w = Some w' ->
  (forall c1 c2,
     In c1 (native_contexts_list (heap_ w)) ->
     In c2 (native_contexts_list (heap_ w)) ->
     MarkBitFrom w (HeapObject_cast (normalized_map_cache w c2))
     <> MarkBitFrom w (HeapObject_cast (normalized_map_cache w c1)) + 1) ->
  forall context,
    In context (native_contexts_list (heap_ w)) ->
    IsUndefined (normalized_map_cache w context) w = false ->
    let cache := HeapObject_cast (normalized_map_cache w context) in
    ObjectMarking.IsGrey cache w' = false
    /\ (MarkingWorklist.IsEmpty (marking_worklist (gc w)) = true ->
        ObjectMarking.IsGrey cache w = true
        \/ ObjectMarking.IsBlack cache w = true ->
        ObjectMarking.IsBlack cache w' = true).
Proof.
  intros HH HN context HI HU. cbv zeta.
  assert (W : forall w2, heap_ w2 = heap_ w ->
            ObjectMarking.IsGrey
              (HeapObject_cast (normalized_map_cache w context))
              (blacken_caches w2) = false).
  { intros w2 H2. unfold blacken_caches. rewrite H2.
    destruct (cache_walk_not_grey w (native_contexts_list (heap_ w)) w2 H2)
      as [_ I2].
    cbv zeta in I2. exact (I2 HN context HI HU). }
  unfold Hurry in HH.
  destruct (MarkingWorklist.IsEmpty (marking_worklist (gc w))) eqn:HE;
    cbn [negb] in HH.
  - injection HH as <-. split; [apply W; reflexivity|].
    intros _ HC.
    pose proof (W w eq_refl) as NG.
    destruct (blacken_caches_frame w) as (F1 & _ & _ & F4).
    assert (B : internal_marking (gc (blacken_caches w))
                  (MarkBitFrom w
                     (HeapObject_cast (normalized_map_cache w context)))
                = true).
    { apply F4. destruct HC as [HC | HC].
      - apply IsGrey_bits in HC. apply HC.
      - apply IsBlack_bits in HC. apply HC. }
    clear W HC.
    unfold ObjectMarking.IsGrey, ObjectMarking.IsBlack, MarkBitFrom in *.
    rewrite F1 in *.
    set (b := internal_marking (gc (blacken_caches w))) in *.
    set (m := HeapObject_cast (normalized_map_cache w context)
              / kPointerSize (fl w)) in *.
    unfold Marking.IsGrey, Marking.IsBlack, Marking.Get in *.
    rewrite B in *. cbn [andb] in *.
    destruct (b (Marking.Next m)); [reflexivity | discriminate].
  - destruct (ProcessMarkingWorklist fuel 0 FORCE_COMPLETION w)
      as [[n w1]|] eqn:E; [|discriminate].
    injection HH as <-. split; [|discriminate].
    apply W. destruct (ProcessMarkingWorklist_kept _ _ _ _ _ _ E) as [K _].
    exact K.
Qed.

Lemma Hurry_leaves_no_grey_map_cache_witness :
  ObjectMarking.IsGrey 2048 context_world = true
  /\ ObjectMarking.IsGrey 2048 (blacken_caches context_world) = false
  /\ ObjectMarking.IsBlack 2048 (blacken_caches context_world) = true.
Proof.
  split; [reflexivity|].
  assert (N : forall c1 c2,
            In c1 (native_contexts_list (heap_ context_world)) ->
            In c2 (native_contexts_list (heap_ context_world)) ->
            MarkBitFrom context_world
              (HeapObject_cast (normalized_map_cache context_world c2))
            <> MarkBitFrom context_world
                 (HeapObject_cast (normalized_map_cache context_world c1)) + 1).
  { intros c1 c2 [<- | []] [<- | []]. vm_compute. discriminate. }
  destruct (Hurry_leaves_no_grey_map_cache 0 context_world
              (blacken_caches context_world) eq_refl N 4096
              (or_introl eq_refl) eq_refl) as [H1 H2].
  split; [exact H1 | exact (H2 eq_refl (or_introl eq_refl))].
Defined.

(* ------------------------------------------------------------------ *)
(** ** The marker's state machine *)

Lemma stays_or_forward_trans (s0 s1 s2 : State) :
  s1 = s0 \/ moves_forward s0 s1 ->
  s2 = s1 \/ moves_forward s1 s2 ->
  s2 = s0 \/ moves_forward s0 s2.
Proof.
  unfold moves_forward.
  intros [-> | [[-> [-> | ->]] | [-> ->]]] [-> | [[E H] | [E ->]]];
    try discriminate E; auto.
Qed.

Lemma FinalizeSweeping_state (w : World) :
  state_ (im (FinalizeSweeping w)) = state_ (im w)
  \/ state_ (im (FinalizeSweeping w)) = MARKING.
Proof.
  unfold FinalizeSweeping. cbv zeta.
  set (w1 := if _ && _ then _ else w).
  assert (I1 : im w1 = im w) by (subst w1; destruct (_ && _); reflexivity).
  clearbody w1.
  destruct (negb (sweeping_in_progress (gc w1))); [|rewrite I1; auto].
  destruct (serializer_enabled (heap_ w1)) eqn:HS.
  - unfold StartMarking. rewrite HS, I1. auto.
  - right. apply StartMarking_state. exact HS.
Qed.

Lemma after_processing_state (action : CompletionAction)
  (completion : ForceCompletionAction) (w : World) :
  state_ (im (after_processing action completion w)) = state_ (im w)
  \/ state_ (im (after_processing action completion w)) = COMPLETE.
Proof.
  unfold after_processing, FinalizeMarking, MarkingComplete,
    IncrementIdleMarkingDelayCounter.
  destruct (MarkingWorklist.IsEmpty _); [|auto].
  destruct (ShouldFinalizeIncrementalMarking _); [|auto].
  destruct (_ || _); [|auto].
  destruct (negb _); destruct (is_GC_VIA_STACK_GUARD action); auto.
Qed.

Lemma State_eqb_eq (a b : State) : State_eqb a b = true <-> a = b.
Proof. destruct a, b; cbn; split; intros H; try reflexivity; discriminate. Qed.

(** A step moves the marker forward or leaves its state alone. *)
Lemma Step_state (fuel : nat) (b : Z) (action : CompletionAction)
  (completion : ForceCompletionAction) (origin : StepOrigin) (w : World)
  (n : Z) (w' : World) :
  Step fuel b action completion origin w = Some (n, w') ->
  state_ (im w') = state_ (im w)
  \/ moves_forward (state_ (im w)) (state_ (im w')).
Proof.
  unfold Step. cbv zeta.
  set (w1 := if State_eqb (state_ (im w)) SWEEPING
             then FinalizeSweeping w else w).
  assert (S1 : state_ (im w1) = state_ (im w)
               \/ moves_forward (state_ (im w)) (state_ (im w1))).
  { subst w1. destruct (State_eqb (state_ (im w)) SWEEPING) eqn:E; [|auto].
    apply State_eqb_eq in E.
    destruct (FinalizeSweeping_state w) as [H | H]; [auto|].
    right. left. auto. }
  assert (TAIL : forall (k : Z) (w4 : World),
             im (notify (AddIncrementalMarkingStep k)
                   (if FLAG_concurrent_marking (fl w4)
                    then notify RescheduleTasksIfNeeded w4 else w4))
             = im w4).
  { intros k w4. destruct (FLAG_concurrent_marking _); reflexivity. }
  clearbody w1.
  destruct (State_eqb (state_ (im w1)) MARKING) eqn:EM.
  - apply State_eqb_eq in EM.
    destruct (ProcessMarkingWorklist fuel (to_intptr b)
                DO_NOT_FORCE_COMPLETION w1) as [[m w2]|] eqn:E;
      [|discriminate].
    pose proof (f_equal state_ (ProcessMarkingWorklist_controller _ _ _ _ _ _ E))
      as C2.
    change (state_ (im w2) = state_ (im w1)) in C2.
    intros [= <- <-]. rewrite TAIL.
    apply (stays_or_forward_trans _ _ _ S1).
    set (w3 := if is_kTask origin then _ else w2).
    assert (S3 : state_ (im w3) = MARKING).
    { subst w3. destruct (is_kTask origin); cbn; congruence. }
    destruct (after_processing_state action completion w3) as [H | H];
      rewrite H.
    + left. congruence.
    + right. right. auto.
  - intros [= <- <-]. rewrite TAIL. exact S1.
Qed.

Lemma advance_once_state (fuel : nat) (tracing : bool)
  (action : CompletionAction) (completion : ForceCompletionAction)
  (origin : StepOrigin) (w w' : World) :
  advance_once fuel tracing action completion origin w = Some w' ->
  state_ (im w') = state_ (im w)
  \/ moves_forward (state_ (im w)) (state_ (im w')).
Proof.
  unfold advance_once.
  destruct (tracing && trace_wrappers_toggle_ (im w)).
  - destruct (negb _); intros [= <-]; left; reflexivity.
  - destruct (Step fuel (step_size_in_bytes (heap_ w)) action completion
                origin w) as [[n w1]|] eqn:ES; [|discriminate].
    intros [= <-]. exact (Step_state _ _ _ _ _ _ _ _ ES).
Qed.

Lemma advance_loop_state (fuel : nat) (clock : list bool) :
  forall (tracing : bool) (action : CompletionAction)
         (completion : ForceCompletionAction) (origin : StepOrigin)
         (w w' : World),
  advance_loop fuel clock tracing action completion origin w = Some w' ->
  state_ (im w') = state_ (im w)
  \/ moves_forward (state_ (im w)) (state_ (im w')).
Proof.
  induction clock as [|t clock IH]; intros tracing action completion origin
    w w'; cbn [advance_loop];
    destruct (advance_once fuel tracing action completion origin w)
      as [w1|] eqn:E1; try discriminate;
    pose proof (advance_once_state _ _ _ _ _ _ _ E1) as S1.
  - intros [= <-]. exact S1.
  - destruct (_ && _); [|intros [= <-]; exact S1].
    intros H. exact (stays_or_forward_trans _ _ _ S1 (IH _ _ _ _ _ _ H)).
Qed.

Lemma blacken_caches_im (w : World) : im (blacken_caches w) = im w.
Proof. apply blacken_caches_frame. Qed.

Lemma RestartIfNotMarking_state (w : World) :
  state_ (im (RestartIfNotMarking w)) = state_ (im w)
  \/ (state_ (im w) = COMPLETE
      /\ state_ (im (RestartIfNotMarking w)) = MARKING).
Proof.
  unfold RestartIfNotMarking.
  destruct (State_eqb (state_ (im w)) COMPLETE) eqn:E; [|auto].
  apply State_eqb_eq in E. right. auto.
Qed.

Lemma barrier_marked_state (obj v : Address) (w : World) :
  state_ (im (barrier_marked obj v w)) = state_ (im w)
  \/ (state_ (im w) = COMPLETE
      /\ state_ (im (barrier_marked obj v w)) = MARKING).
Proof.
  unfold barrier_marked.
  destruct (_ || _); [|auto].
  destruct (ObjectMarking.IsWhite v w); [|auto].
  match goal with
  | |- context [RestartIfNotMarking ?X] => exact (RestartIfNotMarking_state X)
  end.
Qed.

(** X25. The marker's state machine. An operation that changes the state
    does so in one of these ways only: [Start] enters SWEEPING or MARKING;
    [Stop] and [Finalize] enter STOPPED; a step, made directly, on
    allocation or by [AdvanceIncrementalMarking], moves SWEEPING to MARKING
    or COMPLETE and MARKING to COMPLETE; [Hurry] and [MarkingComplete] enter
    COMPLETE; the write barrier and left trimming restart marking from
    COMPLETE. No other operation changes the state, and [Finalize] always
    ends STOPPED. *)
Theorem state_changes_only_along_the_cycle (fuel : nat) (op : Operation)
  (w w' : World) :
  run fuel op w = Some w' ->
  let s := state_ (im w) in
  let s' := state_ (im w') in
  (s' = s
   \/ match op with
      | OpStart =>
        (sweeping_in_progress (gc w) = true /\ s' = SWEEPING)
        \/ (sweeping_in_progress (gc w) = false /\ s' = MARKING)
      | OpStop | OpFinalize => s' = STOPPED
      | OpStep _ _ _ _
      | OpAdvanceIncrementalMarkingOnAllocation
      | OpAdvanceIncrementalMarking _ _ _ _ => moves_forward s s'
      | OpHurry | OpMarkingComplete _ => s' = COMPLETE
      | OpRecordWriteSlow _ _ _
      | OpRecordWriteIntoCodeSlow _ _ _
      | OpNotifyLeftTrimming _ _ => s = COMPLETE /\ s' = MARKING
      | _ => False
      end)
  /\ (op = OpFinalize -> s' = STOPPED).
Proof.
  intros H. cbv zeta.
  assert (STOP : forall w0, state_ (im (Stop w0)) = STOPPED).
  { intros w0. destruct (IsStopped w0) eqn:E.
    - unfold Stop. rewrite E. apply State_eqb_eq. exact E.
    - apply (Stop_effect w0 E). }
  split; [|intros ->; cbn [run] in H; unfold Finalize in H;
           destruct (Hurry fuel w) as [w1|]; [|discriminate];
           injection H as <-; apply STOP].
  destruct op; cbn [run] in H.
  - (* Start *)
    injection H as <-. unfold Start. cbv zeta.
    set (w7 := set_was_activated_ true _).
    assert (I7 : state_ (im w7) = state_ (im w)) by reflexivity.
    assert (G7 : sweeping_in_progress (gc w7) = sweeping_in_progress (gc w))
      by reflexivity.
    clearbody w7.
    change (state_ (im (notify IncrementalMarkingJobStart ?X)))
      with (state_ (im X)).
    rewrite (proj1 (proj2 (add_observers_registered all_spaces _))).
    rewrite G7. destruct (sweeping_in_progress (gc w)); cbn [negb].
    + right. left. auto.
    + destruct (serializer_enabled (heap_ w7)) eqn:HS.
      * left. unfold StartMarking. rewrite HS. exact I7.
      * right. right. split; [reflexivity | apply StartMarking_state, HS].
  - (* Stop *)
    injection H as <-. right. apply STOP.
  - (* Step *)
    destruct (Step fuel bytes_to_process action completion step_origin w)
      as [[n w1]|] eqn:ES; [|discriminate].
    injection H as <-. exact (Step_state _ _ _ _ _ _ _ _ ES).
  - (* AdvanceIncrementalMarkingOnAllocation *)
    unfold AdvanceIncrementalMarkingOnAllocation in H.
    destruct (_ || _); [injection H as <-; auto|].
    unfold StepSizeToKeepUpWithAllocations in H. cbv zeta in H.
    set (w1 := set_old_generation_allocation_counter_ _ _) in H.
    change (state_ (im w)) with (state_ (im w1)).
    clearbody w1.
    destruct (_ <=? _); [|injection H as <-; auto].
    destruct (_ <=? _).
    + injection H as <-. left. reflexivity.
    + destruct (Step fuel _ GC_VIA_STACK_GUARD FORCE_COMPLETION kV8 w1)
        as [[n w2]|] eqn:ES; [|discriminate].
      injection H as <-.
      exact (Step_state _ _ _ _ _ _ _ _ ES).
  - (* AdvanceIncrementalMarking *)
    exact (advance_loop_state _ _ _ _ _ _ _ _ H).
  - (* FinalizeIncrementally *)
    injection H as <-. left. unfold FinalizeIncrementally. cbv zeta.
    set (w2 := if _ =? 0 then RetainMaps (MarkRoots w) else MarkRoots w).
    assert (I2 : im w2 = im w).
    { subst w2. destruct (_ =? 0).
      - rewrite (proj2 (RetainMaps_frame _)). apply MarkRoots_im.
      - apply MarkRoots_im. }
    clearbody w2.
    destruct (_ && _); destruct (_ || _); cbn; rewrite I2; reflexivity.
  - (* Hurry *)
    unfold Hurry in H. destruct (negb _).
    + destruct (ProcessMarkingWorklist fuel 0 FORCE_COMPLETION w)
        as [[n w1]|]; [|discriminate].
      injection H as <-. right. rewrite blacken_caches_im. reflexivity.
    + injection H as <-. left. rewrite blacken_caches_im. reflexivity.
  - (* Finalize *)
    unfold Finalize in H.
    destruct (Hurry fuel w) as [w1|]; [|discriminate].
    injection H as <-. right. apply STOP.
  - injection H as <-. left. reflexivity.
  - injection H as <-. left. unfold FinalizeMarking.
    destruct (is_GC_VIA_STACK_GUARD action); reflexivity.
  - injection H as <-. right. unfold MarkingComplete.
    destruct (is_GC_VIA_STACK_GUARD action); reflexivity.
  - (* RecordWriteSlow *)
    injection H as <-. rewrite RecordWriteSlow_eq.
    destruct (_ && _); apply barrier_marked_state.
  - (* RecordWriteIntoCodeSlow *)
    injection H as <-. unfold RecordWriteIntoCodeSlow.
    rewrite BaseRecordWrite_eq.
    destruct (_ && _); apply barrier_marked_state.
  - (* MarkBlackAndPush *)
    injection H as <-. left.
    unfold MarkBlackAndPush, ObjectMarking.GreyToBlack,
      ObjectMarking.WhiteToGrey, ObjectMarking.BlackToGrey,
      ObjectMarking.lift, Push, PushBailout.
    cbv zeta. cbn [fst snd]. split_ifs; reflexivity.
  - (* NotifyLeftTrimming *)
    injection H as <-. unfold NotifyLeftTrimming. cbv zeta.
    destruct (_ && _); [auto|].
    destruct (if FLAG_concurrent_marking (fl w)
              then Marking.GreyToBlack (MarkBitFrom w from)
                     (snd (Marking.WhiteToGrey (MarkBitFrom w from)
                             (internal_marking (gc w))))
              else (false, internal_marking (gc w))) as [marked bits1].
    destruct (_ && _); [destruct (_ =? _); auto|].
    destruct (_ || _); [|auto].
    match goal with
    | |- context [RestartIfNotMarking ?X] =>
      exact (RestartIfNotMarking_state X)
    end.
  - (* UpdateMarkingWorklistAfterScavenge *)
    injection H as <-. left. unfold UpdateMarkingWorklistAfterScavenge.
    destruct (negb _); reflexivity.
  - (* ProcessBlackAllocatedObject *)
    injection H as <-. left. unfold ProcessBlackAllocatedObject.
    destruct (_ && _); [|reflexivity].
    unfold RevisitObject. cbv zeta.
    set (w1 := if owner_is_LO_SPACE _ then _ else w).
    assert (I1 : state_ (im w1) = state_ (im w))
      by (subst w1; destruct (owner_is_LO_SPACE _); reflexivity).
    clearbody w1.
    set (w2 := snd (WhiteToGreyAndPush (obj_map w1 obj) w1)).
    assert (I2 : im w2 = im w1) by apply WhiteToGreyAndPush_im.
    clearbody w2.
    pose proof (f_equal state_ (Visit_controller (obj_map w1 obj) obj w2))
      as C.
    change (state_ (im (snd (Visit (obj_map w1 obj) obj w2)))
            = state_ (im w2)) in C.
    congruence.
  - injection H as <-. left. reflexivity.
  - injection H as <-. left. reflexivity.
  - injection H as <-. left. unfold FinishBlackAllocation.
    destruct (black_allocation_ _); reflexivity.
  - injection H as <-. left. reflexivity.
  - injection H as <-. left. reflexivity.
  - injection H as <-. left. reflexivity.
Qed.

Lemma state_changes_only_along_the_cycle_witness :
  state_ (im idle_world) = STOPPED
  /\ state_ (im (Start idle_world)) = SWEEPING
  /\ state_ (im (Stop (Start idle_world))) = STOPPED.
Proof.
  split; [reflexivity|].
  destruct (state_changes_only_along_the_cycle 0 OpStart idle_world
              (Start idle_world) eq_refl) as [[H | [[_ H] | [H _]]] _];
    [discriminate H | | discriminate H].
  split; [exact H|].
  destruct (state_changes_only_along_the_cycle 0 OpStop (Start idle_world)
              (Stop (Start idle_world)) eq_refl) as [[H1 | H1] _].
  - rewrite H in H1. discriminate H1.
  - exact H1.
Defined.
